(* ===== verification/_CoqProject ===== *)
-Q . S2P
Prelude.v
GoStd.v
GoText.v
GoTime.v
GoSlice.v
BytesCache.v
HashSet.v
WatchMessage.v
SyncMap.v
SyncMapConc.v
SyncMapInv.v
SyncMapLin.v
SyncMapSolo.v
WatchServer.v
WatchDeliver.v
RpcCoder.v
RpcServer.v
RpcClient.v
Timer.v
IdGen.v
Rand.v
WatchClient.v
WatchConfig.v
RpcNode.v
Misc.v
NodeInit.v
Crypto.v
GnetMessage.v
Handshake.v
Gater.v
Cluster.v
Http.v
WsConn.v
Entrances.v
SqlServer.v
Clickhouse.v
MysqlDB.v
XLog.v
XLogConc.v
CallId.v
Wrappers.v
Examples.v
