(* ===== verification/Prelude.v ===== *)
(** * goms: a verification development (root file and prelude)

    goms is a Go framework for services: an RPC layer between nodes, a key/value
    server that nodes use to register and to find each other (watch), a gateway
    that takes the players' connections (gnet), and the utilities these are built
    on.  This development translates the code under
    src/ into definitions that run, and proves what makes it correct; where the
    code does something else than it means to, a theorem says so.

    ** The parts and the files

    A file names the Go file it translates; definitions keep the Go names.

    The language and its library:
    - Prelude.v (this file): the result of a Go call ([go]: a value, an error or
      a panic), machine integers, bytes, big-endian numbers, readers, the order
      of a range over a map, tactics.
    - GoStd.v, GoText.v: what the code uses of strconv, strings, bufio, fmt.
    - GoTime.v: the calendar, locations, dates and their formats.
    - GoSlice.v: slices on a heap of shared arrays (append, in-place writes).

    The registry (watch):
    - HashSet.v: util/hash_set.go and hash_set_db.go, the store of keys with
      fields and its mirror in a bolt database (class [Bolt]; [BoltMap] is an
      implementation that shows the laws can hold).
    - WatchMessage.v: watch/message.go, the line protocol.
    - WatchServer.v: watch/server.go.  Handlers on the state of the server, and a
      step relation that interleaves the goroutines of the connections at every
      action that can block (a channel of capacity 32, the mutex).
      WatchDeliver.v: one request that changes the store, followed through every
      schedule.
    - WatchClient.v: watch/client.go.  The calls; SendAndRecvMessage, reader,
      callback loops, failed writes and reconnections as a step relation; and the class [WatchApi], the promise a
      client makes to its users, with the instance [RemoteApi]: client, wire
      format and server composed.
    - WatchConfig.v: watch_config/, proved against [WatchApi] and the class [Json].

    RPC:
    - RpcCoder.v: rpc/coder.go, frames and headers; protobuf and JSON are the
      class [Proto] with its laws.
    - RpcServer.v: rpc/go_server.go, registration, the requests of a stream, the
      methods' results, errors and panics, local calls, the free lists.
    - RpcClient.v: rpc/go_client.go, shared call objects, the pending table and the
      reader, as operations and as a step relation; composed with the server.
    - RpcNode.v: rpc/rpc_node.go, connections, routing, registry notifications.
    - NodeInit.v: InitNode and handleExit of rpc/rpc_node.go.  The goroutines that
      register the node and connect it to the others, the reader and the callback
      loop of the watch client with WatchNodeRegister, timeouts, and the other
      nodes' writes to the registry, as a step relation over [WatchApi].

    The gateway:
    - GnetMessage.v: gnet/message.go and the messages of util/websocket.go;
      Crypto.v: util/crypto.go over the class [BlockCipher], with blocks of 16
      bytes for AES and 8 for DES; Handshake.v:
      gnet/handshake.go, the key exchange.
    - Gater.v: gnet/connect.go, the table of connections and the loop of a
      connection, with synchronous calls as a function of the byte stream and
      without them as a step relation.
    - Cluster.v: a call from the gateway through routing, client, wire and server
      and back, the components above put together.
    - Http.v: gnet/http.go, gnet/fast_http.go, rpc/http.go, the HTTP entrances.
    - WsConn.v: gnet/wss.go, gnet/fast_ws.go and WsConn of util/websocket.go,
      messages as a byte stream.
    - Entrances.v: gnet/tcp.go, gnet/kcp.go and the functions that start the RPC,
      websocket and HTTP servers: from accepted connections to their handlers.

    Utilities:
    - BytesCache.v: util/bytes_cache, pools of byte buffers by size class.
    - SyncMap.v: util/sync_map.go, the map with a read-only and a dirty part, on a
      heap of entries, one call after the other.
    - SyncMapConc.v: the same code as atomic actions (loads, compare-and-swaps,
      lock, unlock), the calls of any number of goroutines interleaved.
      SyncMapInv.v: the invariant of these executions, with the order in which the
      calls take effect, and what one action leaves to the other calls.
      SyncMapLin.v: every action keeps it, so the map is linearizable.
      SyncMapSolo.v: a call that runs alone is the call of SyncMap.v.
    - Timer.v: util/timer, three containers, the ticker and its goroutines as a
      step relation; stamps and time zones.
    - IdGen.v: util/id_gen.go, the read of the clock and the part under the mutex
      as separate steps; Rand.v, Misc.v: util/rand.go, util/misc.go.
    - SqlServer.v: util/sqlserver.go, SQL statements and how the database splits
      them into tokens; Clickhouse.v:
      util/clickhouse.go, tables and rows from log lines; MysqlDB.v: db/, the
      database layer over gorm with prepared results for tests; XLog.v:
      util/xlog.go, the log writer; XLogConc.v: its goroutines and channels, with
      any number of callers.
    - CallId.v: util/unix.go and util/sys, call numbers by thread, with goroutines
      on threads as a step relation.
    - Wrappers.v: util/redis.go, mongo.go, dingding.go, zinc.go, mysql.go, ants.go,
      recover.go: what they compute around the calls of a library.
    - Examples.v: the services of examples/ and benchmark/, what the server's
      registration makes of them, and the programs of examples/microservice and
      examples/mock as calls of the framework.

    How they interact: a node (NodeInit, RpcNode) registers through WatchConfig,
    which calls WatchClient, which talks WatchMessage to WatchServer, which keeps
    a HashSet and tells the watchers; the nodes then call each other through
    RpcClient, RpcCoder and RpcServer.  Players reach the nodes through Gater
    (GnetMessage, Crypto, Handshake, WsConn) or Http, which look the command or
    path up in the node's tables and route the call as a node does.

    ** What the theorems show

    - The store is a map from (key, field) to value and survives a restart; the
      same holds for a client at the other end of a connection.
    - The wire formats read back what was written, give an error on truncated
      input and never panic; what they lose is stated.
    - The watch server keeps its queues within bounds and its mutex exclusive;
      under every schedule a handler that is done has told every connected watcher
      of its change exactly once, and it waits for nothing but the mutex or a full
      queue; two schedules block it for good.  The watch client gives every call the
      reply to its own request in any interleaving; timeouts make it panic or kill
      its reader, and a request on a dead connection can count as sent.
    - A node that starts and whose goroutines finish is registered and has found
      the nodes of its set, in any interleaving with lost connections and nodes that
      register meanwhile; three announcements in a row can starve its callback until
      a timeout ends the process; global nodes that come later, and nodes that leave
      meanwhile, are not handled as meant.
    - RPC calls, served and answered in any order, get their own results; no call
      is lost and none is completed twice; bad requests are answered as
      errors.  Each kind of call goes where the routing rules say, and a raw or JSON
      call from the gateway gives the same wherever it is served.
    - The gateway answers every request of a connection once, with its command
      and sequence number and the result of the call the request asks for, and
      rejects what it should; ids of open connections are
      distinct; both sides of the key exchange derive the same key; a websocket is
      the stream of its messages; the HTTP entrances give every request an answer,
      panics included.  Every accepted connection gets its handler while the pool
      is open.
    - The two-level map answers as a plain map, and under concurrent calls it is
      linearizable: one order explains all results and respects which call ended
      before another began; no call panics, and one that waits for the mutex waits
      for a call that can go on; Range shows every key as it was at some point; a
      call that runs alone returns what the sequential model computes.
    - No timer is late by more than a tick, lost or run too often.
    - The database reads back from a statement the tokens that were meant, whatever
      the texts hold; prepared results are served once, in order; the logger writes
      every record of its level to the file of its day, those of a goroutine in its
      order, while the file can be opened, and no caller blocks another for good.
    - Buffers have the requested length and sufficient capacity; ids are distinct
      while calls take the lock in the order of their clocks and a millisecond has
      fewer than 4096 of them, and repeat otherwise; random numbers are unbiased and within range; the slice
      helpers keep slices within their arrays; dates and days correspond.
    - A line of a log becomes a row of the columns' types or a named error; a
      goroutine that set its call number gets no other; the indexes asked for
      exist after a start and are not made again.  The services of the examples
      are not offered by the server: their methods return another type.  Its nodes
      are told of no other; the calls of the mock example get the prepared replies.

    ** Bounds and fuel

    Loops whose end is not structural take fuel and return [None] without it; the
    theorems give enough: the length of the input plus one for a stream
    (ServeCodec, read_values, handle_loop: every request or value takes a byte), a
    round per byte and one more to fill a buffer (read_full), one round more than
    there are connections for a free id (newID), 64 rounds for the bits of a size,
    one more than the draws until an acceptable one for rejection loops, the
    number of steps to the current time for a stamp.
    Integers are [Z] wrapped to their width where they can leave it; int is 64
    bits.  Times in nanoseconds (until 2262) and lengths of listings (below 2^63)
    are not wrapped, and the latter is a hypothesis.

    ** What is not modelled, and the plan

    Sockets, files, signals and clocks are steps or arguments.  connectNode is atomic.
    A node's connection to the registry lasts in NodeInit (in WatchClient it can be
    lost), and a ticker of Timer.v ticks exactly.  Memory suffices for every buffer.
    Third-party
    code (bolt, protobuf, encoding/json, ciphers, gorm, reflection, the database
    drivers, the goroutine pool) appears as classes or arguments with the laws the
    code relies on.  The memory of SyncMapConc is sequentially consistent, as Go's
    atomic operations are.  A possible extension: the close callbacks
    of nodes that left among the steps of NodeInit.  Left out: generated protobuf
    accessors (their code only reads fields or calls the protobuf runtime), the main
    functions of the benchmarks, of examples/rpc and of the manual tests (they
    measure and print), functions that only hand on a call of a library. *)

From Stdlib Require Import ZArith Lia Ascii String Permutation.
From stdpp Require Import base numbers list strings gmap.

#[global] Open Scope Z_scope.

(** ** Go computations

    A Go function returns a value, returns a non-nil [error], or panics.
    [go A] keeps the three apart, so that an error path and a run-time panic
    (index out of range, nil dereference, ...) are different values. *)

Inductive go_error :=
  | EOF                       (* io.EOF *)
  | ErrUnexpectedEOF          (* io.ErrUnexpectedEOF *)
  | ErrMsg (s : string).      (* errors.New / fmt.Errorf *)

#[global] Instance go_error_eq_dec : EqDecision go_error.
Proof. solve_decision. Defined.

Inductive go (A : Type) :=
  | Ret (a : A)
  | Err (e : go_error)
  | Panic (why : string).
Arguments Ret {A} a.
Arguments Err {A} e.
Arguments Panic {A} why.

#[global] Instance go_ret : MRet go := fun A a => Ret a.
#[global] Instance go_bind : MBind go := fun A B f m =>
  match m with
  | Ret a => f a
  | Err e => Err e
  | Panic s => Panic s
  end.
#[global] Instance go_fmap : FMap go := fun A B f m =>
  match m with
  | Ret a => Ret (f a)
  | Err e => Err e
  | Panic s => Panic s
  end.

(** [xs[i]] of Go: out of range is a run-time panic. *)
Definition go_index {A} (xs : list A) (i : nat) : go A :=
  match xs !! i with
  | Some x => Ret x
  | None => Panic "index out of range"
  end.

(** ** Machine integers

    A w-bit integer is a [Z]; every operation that can leave the range is
    followed by the wrap-around of its type. *)

Definition wrapu (w x : Z) : Z := x mod 2 ^ w.
Definition wraps (w x : Z) : Z :=
  let y := x mod 2 ^ w in
  if y <? 2 ^ (w - 1) then y else y - 2 ^ w.

Abbreviation u8 := (wrapu 8).
Abbreviation u16 := (wrapu 16).
Abbreviation u32 := (wrapu 32).
Abbreviation u64 := (wrapu 64).
Abbreviation i32 := (wraps 32).
Abbreviation i64 := (wraps 64).

Definition in_u (w x : Z) : Prop := 0 <= x < 2 ^ w.
Definition in_s (w x : Z) : Prop := - 2 ^ (w - 1) <= x < 2 ^ (w - 1).

#[global] Instance in_u_dec w x : Decision (in_u w x).
Proof. unfold in_u. apply _. Defined.
#[global] Instance in_s_dec w x : Decision (in_s w x).
Proof. unfold in_s. apply _. Defined.

Lemma wrapu_range w x : 0 <= w -> in_u w (wrapu w x).
Proof. intros Hw. apply Z.mod_pos_bound. apply Z.pow_pos_nonneg; lia. Qed.

Lemma wrapu_small w x : in_u w x -> wrapu w x = x.
Proof. intros H. by apply Z.mod_small. Qed.

Lemma pow2_split w : 0 < w -> 2 ^ w = 2 * 2 ^ (w - 1).
Proof. intros Hw. replace w with (Z.succ (w - 1)) at 1 by lia. apply Z.pow_succ_r. lia. Qed.

Lemma wraps_range w x : 0 < w -> in_s w (wraps w x).
Proof.
  intros Hw. unfold wraps, in_s. pose proof (pow2_split w Hw).
  assert (0 < 2 ^ (w - 1)) by (apply Z.pow_pos_nonneg; lia).
  pose proof (Z.mod_pos_bound x (2 ^ w) ltac:(lia)).
  destruct (Z.ltb_spec (x mod 2 ^ w) (2 ^ (w - 1))); lia.
Qed.

Lemma wraps_small w x : 0 < w -> in_s w x -> wraps w x = x.
Proof.
  intros Hw [Hl Hh]. unfold wraps. pose proof (pow2_split w Hw).
  assert (0 < 2 ^ (w - 1)) by (apply Z.pow_pos_nonneg; lia).
  destruct (Z.leb_spec 0 x).
  - rewrite Z.mod_small by lia. destruct (Z.ltb_spec x (2 ^ (w - 1))); lia.
  - replace (x mod 2 ^ w) with (x + 2 ^ w).
    + destruct (Z.ltb_spec (x + 2 ^ w) (2 ^ (w - 1))); lia.
    + rewrite <- (Z.mod_small (x + 2 ^ w) (2 ^ w)) by lia.
      rewrite <- Zplus_mod_idemp_r, Z.mod_same, Z.add_0_r by lia. done.
Qed.

Create HintDb goms.
#[export] Hint Resolve wrapu_range wraps_range : goms.

(** ** Bytes

    [[]byte] is [list ascii] (an [ascii] is exactly one byte) and a Go
    string is a [string]; the conversions are Stdlib's. *)

Abbreviation bytes := (list ascii).

Definition byte_val (a : ascii) : Z := Z.of_N (N_of_ascii a).
Definition to_byte (z : Z) : ascii := ascii_of_N (Z.to_N (z mod 256)).

Abbreviation to_bytes := String.list_ascii_of_string.
Abbreviation of_bytes := String.string_of_list_ascii.

Lemma byte_val_range a : 0 <= byte_val a < 256.
Proof. unfold byte_val. pose proof (N_ascii_bounded a). lia. Qed.

Lemma byte_val_to_byte z : byte_val (to_byte z) = z mod 256.
Proof.
  unfold byte_val, to_byte. pose proof (Z.mod_pos_bound z 256 ltac:(lia)).
  rewrite N_ascii_embedding by lia. lia.
Qed.

Lemma to_byte_val a : to_byte (byte_val a) = a.
Proof.
  unfold to_byte. pose proof (byte_val_range a).
  rewrite Z.mod_small by lia. unfold byte_val. rewrite N2Z.id.
  apply ascii_N_embedding.
Qed.

Lemma byte_val_inj a b : byte_val a = byte_val b -> a = b.
Proof. intros H. by rewrite <- (to_byte_val a), <- (to_byte_val b), H. Qed.

(** Big-endian integers: [binary.BigEndian.PutUint16/32] and
    [binary.BigEndian.Uint16/32]. *)
Fixpoint be_put (n : nat) (z : Z) : bytes :=
  match n with
  | O => []
  | S n' => to_byte (Z.shiftr z (8 * Z.of_nat n')) :: be_put n' z
  end.

Fixpoint be_acc (acc : Z) (l : bytes) : Z :=
  match l with
  | [] => acc
  | b :: l' => be_acc (Z.lor (Z.shiftl acc 8) (byte_val b)) l'
  end.
Definition be_get (l : bytes) : Z := be_acc 0 l.

Lemma length_be_put n z : length (be_put n z) = n.
Proof. induction n; simpl; auto. Qed.

Lemma land_shiftl_low a b k : 0 <= k -> 0 <= b < 2 ^ k -> Z.land (Z.shiftl a k) b = 0.
Proof.
  intros Hk Hb. apply Z.bits_inj'; intros i Hi. rewrite Z.land_spec, Z.bits_0.
  destruct (Z.ltb_spec i k).
  - by rewrite Z.shiftl_spec_low by lia.
  - replace b with (b mod 2 ^ k) by (by apply Z.mod_small).
    rewrite Z.mod_pow2_bits_high by lia. apply andb_false_r.
Qed.

Lemma lor_shiftl_add a b k : 0 <= k -> 0 <= b < 2 ^ k -> Z.lor (Z.shiftl a k) b = a * 2 ^ k + b.
Proof.
  intros Hk Hb. rewrite <- Z.shiftl_mul_pow2 by lia.
  pose proof (land_shiftl_low a b k Hk Hb) as H0.
  by rewrite Z.add_nocarry_lxor, Z.lxor_lor.
Qed.

Lemma be_acc_put n z acc :
  be_acc acc (be_put n z) = acc * 2 ^ (8 * Z.of_nat n) + z mod 2 ^ (8 * Z.of_nat n).
Proof.
  revert acc; induction n as [|n IH]; intros acc.
  - simpl. rewrite Z.mul_0_r, Z.mod_1_r. lia.
  - cbn [be_put be_acc]. rewrite IH, byte_val_to_byte.
    rewrite lor_shiftl_add by (try apply Z.mod_pos_bound; lia).
    rewrite Z.shiftr_div_pow2 by lia.
    replace (8 * Z.of_nat (S n)) with (8 * Z.of_nat n + 8) by lia.
    set (k := 8 * Z.of_nat n). rewrite !Z.pow_add_r by lia.
    change (2 ^ 8) with 256.
    rewrite (Z.rem_mul_r z (2 ^ k) 256) by lia. ring.
Qed.

Lemma be_get_put n z : be_get (be_put n z) = z mod 2 ^ (8 * Z.of_nat n).
Proof. unfold be_get. rewrite be_acc_put. lia. Qed.

Lemma be_acc_range l acc :
  0 <= acc -> 0 <= be_acc acc l < (acc + 1) * 2 ^ (8 * Z.of_nat (length l)).
Proof.
  revert acc; induction l as [|b l IH]; intros acc Ha; [simpl; lia|].
  cbn [be_acc length]. pose proof (byte_val_range b).
  rewrite lor_shiftl_add by lia. change (2 ^ 8) with 256.
  destruct (IH (acc * 256 + byte_val b) ltac:(lia)).
  replace (8 * Z.of_nat (S (length l))) with (8 * Z.of_nat (length l) + 8) by lia.
  rewrite Z.pow_add_r by lia. change (2 ^ 8) with 256. nia.
Qed.

Lemma be_get_range l : 0 <= be_get l < 2 ^ (8 * Z.of_nat (length l)).
Proof. unfold be_get. pose proof (be_acc_range l 0). lia. Qed.

(** ** Readers

    A reader is the list of the bytes still to come; its end is the end of
    the stream.  [io.ReadFull] distinguishes a clean end from a partial read. *)

Definition ReadFull (r : bytes) (n : nat) : go (bytes * bytes) :=
  if decide (n <= length r)%nat then Ret (take n r, drop n r)
  else match r with [] => Err EOF | _ => Err ErrUnexpectedEOF end.

Lemma ReadFull_app l r : ReadFull (l ++ r) (length l) = Ret (l, r).
Proof.
  unfold ReadFull. rewrite decide_True by (rewrite length_app; lia).
  by rewrite take_app_length, drop_app_length.
Qed.

Lemma ReadFull_app_n l r n : n = length l -> ReadFull (l ++ r) n = Ret (l, r).
Proof. intros ->. apply ReadFull_app. Qed.

Lemma ReadFull_ret r n l r' :
  ReadFull r n = Ret (l, r') -> r = l ++ r' /\ length l = n.
Proof.
  unfold ReadFull. case_decide; [|by destruct r]. intros [= <- <-].
  rewrite take_drop, length_take. split; [done|lia].
Qed.

Lemma ReadFull_short r n :
  (length r < n)%nat -> ReadFull r n = Err (if decide (r = []) then EOF else ErrUnexpectedEOF).
Proof.
  intros H. unfold ReadFull. rewrite decide_False by lia. by destruct r.
Qed.

(** ** The order of a [range] over a map

    Go leaves it open, so an operation that ranges over a map takes the
    order as an argument: any function that permutes the entries. *)
Record RangeOrder := {
  range_order :> forall A : Type, list A -> list A;
  range_order_perm : forall A (l : list A), range_order A l ≡ₚ l
}.
Definition range_id : RangeOrder := {| range_order A l := l; range_order_perm A l := reflexivity l |}.

Lemma elem_of_range_order (ρ : RangeOrder) {A} (l : list A) x : x ∈ ρ A l <-> x ∈ l.
Proof. by rewrite (range_order_perm ρ A l). Qed.

(** ** Tactics *)

(** Destruct the scrutinee of a [match] or [if] of the goal. *)
Ltac case_goal :=
  match goal with
  | |- context [match ?x with _ => _ end] => destruct x eqn:?
  end.

(** Split every conjunction of the goal and close the easy parts. *)
Ltac splits := repeat match goal with |- _ /\ _ => split end.
