(* ===== verification/GoStd.v ===== *)
(** * The Go standard library functions the program uses

    [strconv] (Itoa, Atoi, ParseUint, ParseInt), [strings] (Split, HasPrefix,
    LastIndex, TrimSpace, Trim) and [bufio.Reader.ReadString], with the facts
    the components share.  Numbers are decimal, strings are byte strings. *)

From Stdlib Require Import ZArith Lia Ascii String Decimal DecimalString DecimalPos DecimalZ.
From stdpp Require Import base numbers list strings.
From S2P Require Import Prelude.

(** ** strconv *)

(** strconv.Itoa / strconv.FormatInt(_, 10) / strconv.FormatUint(_, 10) and
    the [%v] verb on an integer. *)
Definition Itoa (z : Z) : string := NilZero.string_of_int (Z.to_int z).

Definition digit_val (c : ascii) : option Z :=
  let v := byte_val c - 48 in
  if (0 <=? v) && (v <=? 9) then Some v else None.

(** The value of a digit string, [None] on a byte that is not a digit. *)
Fixpoint digits (acc : Z) (s : string) : option Z :=
  match s with
  | EmptyString => Some acc
  | String c s' => v ← digit_val c; digits (acc * 10 + v) s'
  end.

Definition parse_nat (s : string) : option Z :=
  match s with
  | EmptyString => None
  | _ => digits 0 s
  end.

Definition ErrSyntax : go_error := ErrMsg "invalid syntax".
Definition ErrRange : go_error := ErrMsg "value out of range".

(** The loop of strconv.ParseUint: it ends at the first byte that is no digit (0) or
    that makes the number too large (the largest one). *)
Fixpoint scan (max acc : Z) (s : string) : Z * option go_error :=
  match s with
  | EmptyString => (acc, None)
  | String c s' =>
      match digit_val c with
      | None => (0, Some ErrSyntax)
      | Some v => if max <? acc * 10 + v then (max, Some ErrRange) else scan max (acc * 10 + v) s'
      end
  end.

(** strconv.ParseUint(s, 10, w) *)
Definition ParseUint (w : Z) (s : string) : Z * option go_error :=
  match s with EmptyString => (0, Some ErrSyntax) | _ => scan (2 ^ w - 1) 0 s end.

Definition split_sign (s : string) : bool * string :=
  match s with
  | String "-" s' => (true, s')
  | String "+" s' => (false, s')
  | _ => (false, s)
  end.

(** strconv.ParseInt(s, 10, w). *)
Definition ParseInt (w : Z) (s : string) : Z * option go_error :=
  let '(neg, ds) := split_sign s in
  let '(un, err) := ParseUint w ds in
  match err with
  | Some e => if decide (e = ErrRange) then
                (if neg then (- 2 ^ (w - 1), err) else (2 ^ (w - 1) - 1, err))
              else (0, err)
  | None =>
      if negb neg && (2 ^ (w - 1) <=? un) then (2 ^ (w - 1) - 1, Some ErrRange)
      else if neg && (2 ^ (w - 1) <? un) then (- 2 ^ (w - 1), Some ErrRange)
      else if neg then (- un, None) else (un, None)
  end.

(** strconv.Atoi: [int] is 64 bits wide. *)
Definition Atoi (s : string) : Z * option go_error := ParseInt 64 s.

Lemma digits_of_uint_acc d p :
  digits (Z.pos p) (NilEmpty.string_of_uint d) = Some (Z.pos (Pos.of_uint_acc d p)).
Proof.
  revert p; induction d as [|d IH|d IH|d IH|d IH|d IH|d IH|d IH|d IH|d IH|d IH]; intros p;
    [done|..]; cbn [NilEmpty.string_of_uint digits];
    match goal with |- context [digit_val ?c] => let v := eval vm_compute in (digit_val c) in
      change (digit_val c) with v end; cbn [mbind option_bind];
    cbn [Pos.of_uint_acc]; rewrite <- IH; f_equal; lia.
Qed.

Lemma digits_of_uint d :
  digits 0 (NilEmpty.string_of_uint d) = Some (Z.of_uint d).
Proof.
  induction d as [|d IH|d _|d _|d _|d _|d _|d _|d _|d _|d _]; [done|exact IH|..];
    apply (digits_of_uint_acc d).
Qed.

Lemma parse_nat_of_uint d :
  d <> Nil -> parse_nat (NilEmpty.string_of_uint d) = Some (Z.of_uint d).
Proof. intros Hd. rewrite <- digits_of_uint. destruct d; done. Qed.

Lemma Itoa_pos p : Itoa (Z.pos p) = NilEmpty.string_of_uint (Pos.to_uint p).
Proof.
  unfold Itoa, NilZero.string_of_int, NilZero.string_of_uint; simpl.
  pose proof (DecimalPos.Unsigned.to_uint_nonnil p). by destruct (Pos.to_uint p).
Qed.

Lemma Itoa_neg p : Itoa (Z.neg p) = String "-" (NilEmpty.string_of_uint (Pos.to_uint p)).
Proof.
  unfold Itoa, NilZero.string_of_int, NilZero.string_of_uint; simpl.
  pose proof (DecimalPos.Unsigned.to_uint_nonnil p). by destruct (Pos.to_uint p).
Qed.

Lemma parse_nat_to_uint p :
  parse_nat (NilEmpty.string_of_uint (Pos.to_uint p)) = Some (Z.pos p).
Proof.
  rewrite parse_nat_of_uint by apply DecimalPos.Unsigned.to_uint_nonnil.
  f_equal. exact (DecimalZ.of_to (Z.pos p)).
Qed.

Lemma split_sign_digits d : d <> Nil ->
  split_sign (NilEmpty.string_of_uint d) = (false, NilEmpty.string_of_uint d).
Proof. by destruct d. Qed.

Lemma digits_nonneg s acc n : 0 <= acc -> digits acc s = Some n -> acc <= n.
Proof.
  revert acc; induction s as [|c s IH]; simpl; intros acc Ha H; [injection H; lia|].
  unfold digit_val in H. destruct (_ && _) eqn:E; [|done]. apply andb_prop in E as [E _].
  simpl in H. apply IH in H; lia.
Qed.

Lemma scan_digits max s : forall acc n, 0 <= acc -> digits acc s = Some n -> n <= max -> scan max acc s = (n, None).
Proof.
  induction s as [|c s IH]; intros acc n Ha H Hn; simpl in *; [congruence|].
  destruct (digit_val c) as [v|] eqn:E; [|done]. simpl in H.
  assert (0 <= v) by (unfold digit_val in E; destruct (_ && _) eqn:E'; [|done]; apply andb_prop in E' as [E' _]; injection E; lia).
  assert (acc * 10 + v <= n) by (apply (digits_nonneg s); [lia|done]).
  destruct (Z.ltb_spec max (acc * 10 + v)); [lia|]. apply IH; [lia|done|done].
Qed.

Lemma ParseUint_digits w s n : parse_nat s = Some n -> n < 2 ^ w -> ParseUint w s = (n, None).
Proof. destruct s as [|c s]; [done|]. intros H Hn. apply scan_digits; [lia|exact H|lia]. Qed.

(** Reading back what Itoa wrote gives the number, without an error. *)
Lemma ParseInt_Itoa w z : 0 < w -> in_s w z -> ParseInt w (Itoa z) = (z, None).
Proof.
  intros Hw [Hl Hh]. unfold ParseInt. assert (Hp : 2 ^ w = 2 * 2 ^ (w - 1)) by (rewrite <- Z.pow_succ_r by lia; f_equal; lia).
  destruct z as [|p|p].
  - change (Itoa 0) with "0". cbn [split_sign]. rewrite (ParseUint_digits w "0" 0) by (done || lia). cbn [negb andb].
    destruct (Z.leb_spec (2 ^ (w - 1)) 0); [lia|done].
  - rewrite Itoa_pos, split_sign_digits by apply DecimalPos.Unsigned.to_uint_nonnil.
    rewrite (ParseUint_digits w _ (Z.pos p)) by (apply parse_nat_to_uint || lia). cbn [negb andb].
    destruct (Z.leb_spec (2 ^ (w - 1)) (Z.pos p)); [lia|done].
  - rewrite Itoa_neg. cbn [split_sign]. rewrite (ParseUint_digits w _ (Z.pos p)) by (apply parse_nat_to_uint || lia). cbn [negb andb].
    destruct (Z.ltb_spec (2 ^ (w - 1)) (Z.pos p)); [lia|done].
Qed.

Lemma Atoi_Itoa z : in_s 64 z -> Atoi (Itoa z) = (z, None).
Proof. apply ParseInt_Itoa. lia. Qed.

Lemma ParseUint_Itoa w z : in_u w z -> ParseUint w (Itoa z) = (z, None).
Proof.
  intros [Hl Hh]. destruct z as [|p|p]; [..|lia].
  - by apply ParseUint_digits.
  - rewrite Itoa_pos. apply ParseUint_digits; [apply parse_nat_to_uint|done].
Qed.

Lemma Itoa_inj a b : Itoa a = Itoa b -> a = b.
Proof.
  intros H. set (w := Z.max (Z.abs a) (Z.abs b) + 2).
  assert (Hw : forall x, Z.abs x < w -> in_s w x).
  { intros x Hx. unfold in_s. pose proof (Z.pow_gt_lin_r 2 (w - 1) ltac:(lia) ltac:(lia)). lia. }
  pose proof (ParseInt_Itoa w a ltac:(lia) (Hw a ltac:(lia))) as Ea.
  pose proof (ParseInt_Itoa w b ltac:(lia) (Hw b ltac:(lia))) as Eb.
  rewrite H in Ea. congruence.
Qed.

Lemma scan_range max s : forall acc, 0 <= acc <= max -> 0 <= (scan max acc s).1 <= max.
Proof.
  induction s as [|c s IH]; intros acc Ha; simpl; [done|].
  destruct (digit_val c) as [v|] eqn:E; [|simpl; lia].
  assert (0 <= v) by (unfold digit_val in E; destruct (_ && _) eqn:E'; [|done]; apply andb_prop in E' as [E' _]; injection E; lia).
  destruct (Z.ltb_spec max (acc * 10 + v)); [simpl; lia|]. apply IH. lia.
Qed.

Lemma ParseUint_range w s : 0 <= w -> in_u w (ParseUint w s).1.
Proof.
  intros Hw. assert (0 < 2 ^ w) by (apply Z.pow_pos_nonneg; lia). unfold in_u.
  destruct s as [|c s]; [simpl; lia|]. pose proof (scan_range (2 ^ w - 1) (String c s) 0). cbn [ParseUint]. lia.
Qed.

Lemma ParseInt_range w s : 0 < w -> in_s w (ParseInt w s).1.
Proof.
  intros Hw. unfold ParseInt, in_s. destruct (split_sign s) as [neg ds].
  assert (0 < 2 ^ (w - 1)) by (apply Z.pow_pos_nonneg; lia).
  pose proof (ParseUint_range w ds ltac:(lia)) as Hu. destruct (ParseUint w ds) as [un [e|]]; unfold in_u in Hu; simpl in Hu.
  - case_decide; [destruct neg; simpl; lia|simpl; lia].
  - destruct neg; cbn [negb andb]; [destruct (Z.ltb_spec (2 ^ (w - 1)) un)|destruct (Z.leb_spec (2 ^ (w - 1)) un)]; simpl; lia.
Qed.

Lemma Atoi_range s : in_s 64 (Atoi s).1.
Proof. apply ParseInt_range. lia. Qed.

(** ** Bytes a string may contain *)

Definition all_bytes (P : ascii -> Prop) (s : string) : Prop := Forall P (to_bytes s).

#[global] Instance all_bytes_dec P `{!forall c, Decision (P c)} s : Decision (all_bytes P s).
Proof. unfold all_bytes. apply _. Defined.

Definition nl : ascii := "010"%char.
Definition no_nl : string -> Prop := all_bytes (fun c => c <> nl).

Lemma to_bytes_app s t : to_bytes (s +:+ t) = to_bytes s ++ to_bytes t.
Proof. induction s as [|c s IH]; [done|]. exact (f_equal (cons c) IH). Qed.

Lemma all_bytes_app P s t : all_bytes P (s +:+ t) <-> all_bytes P s /\ all_bytes P t.
Proof. unfold all_bytes. rewrite to_bytes_app. apply Forall_app. Qed.

Definition is_digit (c : ascii) : Prop := digit_val c <> None.

Lemma digit_of_uint d : all_bytes is_digit (NilEmpty.string_of_uint d).
Proof. induction d; repeat constructor; try done. Qed.

(** The bytes of a printed number: digits and a possible minus sign. *)
Lemma Itoa_bytes z : all_bytes (fun c => is_digit c \/ c = "-"%char) (Itoa z).
Proof.
  assert (Hd : forall d, all_bytes (fun c => is_digit c \/ c = "-"%char) (NilEmpty.string_of_uint d)).
  { intros d. eapply Forall_impl; [apply digit_of_uint|]. auto. }
  destruct z as [|p|p].
  - constructor; [by left|constructor].
  - rewrite Itoa_pos. apply Hd.
  - rewrite Itoa_neg. constructor; [by right|apply Hd].
Qed.

Lemma Itoa_free (c : ascii) z : digit_val c = None -> c <> "-"%char ->
  all_bytes (fun x => x <> c) (Itoa z).
Proof.
  intros Hc Hm. eapply Forall_impl; [apply Itoa_bytes|]. simpl.
  unfold is_digit. intros x [Hx|Hx] Heq; congruence.
Qed.

Lemma Itoa_no_nl z : no_nl (Itoa z).
Proof. by apply Itoa_free. Qed.

(** A number has at most as many digits as bits. *)
Lemma double_digits d :
  (Decimal.nb_digits (Decimal.Little.double d) <= S (Decimal.nb_digits d) /\
   Decimal.nb_digits (Decimal.Little.succ_double d) <= S (Decimal.nb_digits d))%nat.
Proof. induction d; simpl; lia. Qed.

Lemma to_uint_digits p : (Decimal.nb_digits (Pos.to_uint p) <= Pos.size_nat p)%nat.
Proof.
  unfold Pos.to_uint. rewrite DecimalFacts.nb_digits_rev. induction p as [p IH|p IH|]; simpl; [..|done];
    pose proof (double_digits (Pos.to_little_uint p)); lia.
Qed.

Lemma size_nat_bound n : forall p, Z.pos p < 2 ^ Z.of_nat n -> (Pos.size_nat p <= n)%nat.
Proof.
  induction n as [|n IH]; intros p Hp; [simpl in Hp; lia|]. rewrite Nat2Z.inj_succ, Z.pow_succ_r in Hp by lia.
  destruct p as [p|p|]; simpl; [..|lia]; specialize (IH p ltac:(lia)); lia.
Qed.

Lemma uint_string_length d : String.length (NilEmpty.string_of_uint d) = Decimal.nb_digits d.
Proof. induction d; simpl; congruence. Qed.

Lemma Itoa_length z : in_s 64 z -> (String.length (Itoa z) <= 65)%nat.
Proof.
  intros Hz. unfold in_s in Hz. assert (Hs : forall p, Z.pos p <= 2 ^ 63 -> (Pos.size_nat p <= 64)%nat).
  { intros p Hp. apply size_nat_bound. change (Z.of_nat 64) with 64. lia. }
  destruct z as [|p|p]; [simpl; lia|rewrite Itoa_pos, uint_string_length|rewrite Itoa_neg; simpl; rewrite uint_string_length];
    pose proof (to_uint_digits p); specialize (Hs p ltac:(lia)); lia.
Qed.

Lemma Itoa_nonempty z : Itoa z <> "".
Proof.
  destruct z as [|p|p]; [done| |by rewrite Itoa_neg].
  rewrite Itoa_pos. pose proof (DecimalPos.Unsigned.to_uint_nonnil p). by destruct (Pos.to_uint p).
Qed.

(** ** strings *)

(** strings.Split(s, sep) for a one-byte separator: never empty. *)
Fixpoint Split (sep : ascii) (s : string) : list string :=
  match s with
  | EmptyString => [EmptyString]
  | String c s' =>
      if decide (c = sep) then EmptyString :: Split sep s'
      else match Split sep s' with
           | [] => [String c EmptyString]
           | h :: t => String c h :: t
           end
  end.

(** strings.Join(a, sep). *)
Fixpoint Join (a : list string) (sep : string) : string :=
  match a with
  | [] => ""
  | [x] => x
  | x :: a' => x +:+ sep +:+ Join a' sep
  end.

Lemma Split_nonempty sep s : Split sep s <> [].
Proof. destruct s; simpl; [done|]. case_decide; [done|]. by destruct (Split sep s). Qed.

Lemma Split_none sep s : all_bytes (fun c => c <> sep) s -> Split sep s = [s].
Proof.
  induction s as [|c s IH]; [done|]. intros H. inversion H; subst. simpl.
  rewrite decide_False by done. by rewrite IH.
Qed.

Lemma append_cons c s t : String c s +:+ t = String c (s +:+ t).
Proof. done. Qed.
Lemma append_nil_l t : "" +:+ t = t.
Proof. done. Qed.
Lemma append_assoc s t u : (s +:+ t) +:+ u = s +:+ (t +:+ u).
Proof. induction s as [|c s IH]; [done|]. exact (f_equal (String c) IH). Qed.
Lemma append_nil_r s : s +:+ "" = s.
Proof. induction s as [|c s IH]; [done|]. exact (f_equal (String c) IH). Qed.
Lemma append_inj_l s t u : s +:+ t = s +:+ u -> t = u.
Proof. induction s as [|c s IH]; [done|]. intros H. apply IH. by injection H. Qed.

(** Splitting at the first separator. *)
Lemma Split_app sep s t :
  all_bytes (fun c => c <> sep) s -> Split sep (s +:+ String sep t) = s :: Split sep t.
Proof.
  induction s as [|c s IH]; intros H.
  - rewrite append_nil_l. simpl. by rewrite decide_True.
  - inversion H; subst. rewrite append_cons. simpl. rewrite decide_False by done.
    by rewrite IH.
Qed.

(** Joining the parts with the separator gives the string back. *)
Lemma Join_Split sep s : Join (Split sep s) (String sep "") = s.
Proof.
  induction s as [|c s IH]; [done|]. simpl. case_decide as Hc.
  - subst c. pose proof (Split_nonempty sep s). destruct (Split sep s) as [|h t] eqn:E; [done|].
    change (Join ("" :: h :: t) (String sep "")) with ("" +:+ String sep "" +:+ Join (h :: t) (String sep "")).
    by rewrite IH.
  - pose proof (Split_nonempty sep s). destruct (Split sep s) as [|h t] eqn:E; [done|].
    destruct t as [|h' t]; simpl in *; [by rewrite IH|]. by rewrite append_cons, IH.
Qed.

Lemma Split_free sep s : Forall (all_bytes (fun c => c <> sep)) (Split sep s).
Proof.
  induction s as [|c s IH]; simpl; [repeat constructor|]. case_decide; [constructor; [constructor|done]|].
  destruct (Split sep s) as [|h t]; [repeat constructor; done|]. apply Forall_cons in IH as [Hh Ht]. constructor; [by constructor|done].
Qed.

Lemma Split_Join sep l : l <> [] -> Forall (all_bytes (fun c => c <> sep)) l -> Split sep (Join l (String sep "")) = l.
Proof.
  intros Hne Hl. destruct l as [|x l]; [done|]. clear Hne. revert x Hl. induction l as [|y l IH]; intros x Hl; apply Forall_cons in Hl as [Hx Hl].
  - by apply Split_none.
  - change (Join (x :: y :: l) (String sep "")) with (x +:+ String sep "" +:+ Join (y :: l) (String sep "")).
    change (String sep "" +:+ Join (y :: l) (String sep "")) with (String sep (Join (y :: l) (String sep ""))).
    rewrite Split_app by done. by rewrite IH.
Qed.

(** strings.HasPrefix. *)
Definition HasPrefix (s prefix : string) : bool := String.prefix prefix s.

(** strings.LastIndex(s, sep) for a one-byte separator: the parts before and
    after the last occurrence, [None] when there is none (index -1). *)
Fixpoint LastIndex (sep : ascii) (s : string) : option (string * string) :=
  match s with
  | EmptyString => None
  | String c s' =>
      match LastIndex sep s' with
      | Some (a, b) => Some (String c a, b)
      | None => if decide (c = sep) then Some (EmptyString, s') else None
      end
  end.

Lemma LastIndex_none sep s : LastIndex sep s = None <-> all_bytes (fun c => c <> sep) s.
Proof.
  unfold all_bytes. induction s as [|c s IH]; [split; [constructor|done]|]. simpl.
  rewrite Forall_cons, <- IH. destruct (LastIndex sep s) as [[a b]|].
  - split; [done|]. by intros [_ ?].
  - case_decide as Hc; split; [done| |done|done]. by intros [? _].
Qed.

Lemma LastIndex_app sep s t :
  all_bytes (fun c => c <> sep) t -> LastIndex sep (s +:+ String sep t) = Some (s, t).
Proof.
  intros Ht. apply LastIndex_none in Ht. induction s as [|c s IH].
  - rewrite append_nil_l. simpl. rewrite Ht. by rewrite decide_True.
  - rewrite append_cons. simpl. by rewrite IH.
Qed.

Lemma LastIndex_some sep s a b :
  LastIndex sep s = Some (a, b) -> s = a +:+ String sep b /\ all_bytes (fun c => c <> sep) b.
Proof.
  revert a; induction s as [|c s IH]; [done|]; simpl; intros a.
  destruct (LastIndex sep s) as [[a' b']|] eqn:E.
  - intros [= <- <-]. destruct (IH a' eq_refl) as [-> ?]. done.
  - case_decide; [|done]. intros [= <- <-]. subst. split; [done|]. by apply LastIndex_none.
Qed.

(** *** strings.TrimSpace

    White space is a Unicode property: besides the six ASCII bytes, the
    encodings of U+0085, U+00A0, U+1680, U+2000-U+200A, U+2028, U+2029,
    U+202F, U+205F and U+3000 count.  [lead_space l] is the number of bytes of
    a white-space rune at the start of [l], [0] when there is none;
    [tail_space] does the same on the reversed string. *)
Definition ascii_space (c : Z) : bool := ((9 <=? c) && (c <=? 13)) || (c =? 32).
Definition space2 (a b : Z) : bool := (a =? 194) && ((b =? 133) || (b =? 160)).
Definition space3 (a b c : Z) : bool :=
  ((a =? 225) && (b =? 154) && (c =? 128))
  || ((a =? 226) && (b =? 128)
      && (((128 <=? c) && (c <=? 138)) || (c =? 168) || (c =? 169) || (c =? 175)))
  || ((a =? 226) && (b =? 129) && (c =? 159))
  || ((a =? 227) && (b =? 128) && (c =? 128)).

Definition lead_space (l : bytes) : nat :=
  match byte_val <$> l with
  | a :: t =>
      if ascii_space a then 1
      else match t with
           | b :: t' =>
               if space2 a b then 2
               else match t' with
                    | c :: _ => if space3 a b c then 3 else 0
                    | [] => 0
                    end
           | [] => 0
           end
  | [] => 0
  end.

Definition tail_space (l : bytes) : nat :=
  match byte_val <$> l with
  | a :: t =>
      if ascii_space a then 1
      else match t with
           | b :: t' =>
               if space2 b a then 2
               else match t' with
                    | c :: _ => if space3 c b a then 3 else 0
                    | [] => 0
                    end
           | [] => 0
           end
  | [] => 0
  end.

Fixpoint strip (space : bytes -> nat) (fuel : nat) (l : bytes) : bytes :=
  match fuel with
  | O => l
  | S fuel' => match space l with
               | O => l
               | n => strip space fuel' (drop n l)
               end
  end.

Definition TrimSpace (s : string) : string :=
  let l := to_bytes s in
  let l := strip lead_space (length l) l in
  let r := reverse l in
  of_bytes (reverse (strip tail_space (length r) r)).

(** A string TrimSpace leaves alone. *)
Definition trimmed (s : string) : Prop :=
  lead_space (to_bytes s) = 0%nat /\ tail_space (reverse (to_bytes s)) = 0%nat.
#[global] Instance trimmed_dec s : Decision (trimmed s).
Proof. unfold trimmed. apply _. Defined.

Lemma strip_id space fuel l : space l = 0%nat -> strip space fuel l = l.
Proof. intros H. destruct fuel; simpl; [done|]. by rewrite H. Qed.

Lemma lead_space_snoc_nl l : l <> [] -> lead_space l = 0%nat -> lead_space (l ++ [nl]) = 0%nat.
Proof.
  assert (Hn : byte_val nl = 10) by reflexivity.
  unfold lead_space. rewrite fmap_app. simpl. rewrite Hn.
  destruct (byte_val <$> l) as [|a [|b [|c t]]] eqn:E; simpl.
  - by destruct l.
  - intros _. destruct (ascii_space a); [done|]. unfold space2. by rewrite andb_false_r.
  - intros _. destruct (ascii_space a); [done|]. destruct (space2 a b); [done|].
    unfold space3. by rewrite !andb_false_r.
  - done.
Qed.

Lemma TrimSpace_line s : trimmed s -> TrimSpace (s +:+ String nl "") = s.
Proof.
  intros [Hl Ht]. unfold TrimSpace. rewrite to_bytes_app.
  destruct (decide (to_bytes s = [])) as [E|E].
  - rewrite E. destruct s; [done|discriminate].
  - change (to_bytes (String nl "")) with [nl].
    rewrite (strip_id lead_space) by (by apply lead_space_snoc_nl).
    rewrite reverse_snoc. cbn [length strip].
    change (tail_space (nl :: reverse (to_bytes s))) with 1%nat. cbn [drop].
    rewrite drop_0, strip_id by done. rewrite reverse_involutive.
    apply string_of_list_ascii_of_string.
Qed.

(** strings.Trim(s, <newline>): newlines at both ends are removed. *)
Fixpoint drop_nl (l : bytes) : bytes :=
  match l with
  | [] => []
  | c :: l' => if decide (c = nl) then drop_nl l' else l
  end.
Definition TrimNl (s : string) : string :=
  of_bytes (reverse (drop_nl (reverse (drop_nl (to_bytes s))))).

Lemma drop_nl_id l : Forall (fun c => c <> nl) l -> drop_nl l = l.
Proof. destruct 1; [done|]. simpl. by rewrite decide_False. Qed.

Lemma TrimNl_line s : no_nl s -> TrimNl (s +:+ String nl "") = s.
Proof.
  intros H. unfold TrimNl. rewrite to_bytes_app. change (to_bytes (String nl "")) with [nl].
  destruct (decide (to_bytes s = [])) as [E|E].
  - rewrite E. destruct s; [done|discriminate].
  - replace (drop_nl (to_bytes s ++ [nl])) with (to_bytes s ++ [nl]).
    + rewrite reverse_snoc. simpl. rewrite drop_nl_id by (by apply Forall_reverse).
      rewrite reverse_involutive. apply string_of_list_ascii_of_string.
    + unfold no_nl, all_bytes in H. destruct H; [done|]. simpl. by rewrite decide_False.
Qed.

(** ** bufio.Reader.ReadString: the bytes up to and including the delimiter;
    [io.EOF] when the stream ends first. *)
Fixpoint ReadString (delim : ascii) (r : bytes) : go (string * bytes) :=
  match r with
  | [] => Err EOF
  | c :: r' =>
      if decide (c = delim) then Ret (String c "", r')
      else '(s, rest) ← ReadString delim r'; Ret (String c s, rest)
  end.

Lemma ReadString_line s r :
  no_nl s -> ReadString nl (to_bytes s ++ nl :: r) = Ret (s +:+ String nl "", r).
Proof.
  unfold no_nl, all_bytes. induction s as [|c s IH]; intros H.
  - reflexivity.
  - inversion H; subst. simpl. rewrite decide_False by done. by rewrite IH.
Qed.

Lemma ReadString_eof r : Forall (fun c => c <> nl) r -> ReadString nl r = Err EOF.
Proof.
  induction 1 as [|c r Hc _ IH]; [done|]. simpl. rewrite decide_False by done. by rewrite IH.
Qed.

Lemma ReadString_shorter r s r' : ReadString nl r = Ret (s, r') -> (length r' < length r)%nat.
Proof.
  revert s; induction r as [|c r IH]; [done|]; simpl; intros s.
  case_decide; [intros [= <- <-]; lia|].
  destruct (ReadString nl r) as [[s1 r1]| |]; try done. intros [= <- <-].
  specialize (IH s1 eq_refl). lia.
Qed.

Lemma ReadString_no_panic r s : ReadString nl r <> Panic s.
Proof.
  induction r as [|c r IH]; [done|]; simpl. case_decide; [done|].
  by destruct (ReadString nl r) as [[]| |].
Qed.
