(* ===== verification/GoText.v ===== *)
(** * More of package strings, fmt and strconv

    What the helpers, the log and the SQL builders use: searching and replacing,
    padded and hexadecimal numbers, [ParseInt] in base 16. *)

From Stdlib Require Import ZArith Lia Ascii String.
From stdpp Require Import base numbers list strings.
From S2P Require Import Prelude GoStd.

(** ** strings.Contains, strings.ReplaceAll, strings.Split *)

Lemma string_length_app a b : String.length (a +:+ b) = (String.length a + String.length b)%nat.
Proof. induction a as [|c a IH]; [done|]. rewrite append_cons. cbn [String.length]. by rewrite IH. Qed.

Fixpoint Contains (s sub : string) : bool :=
  String.prefix sub s || match s with "" => false | String _ s => Contains s sub end.

(** [skip] counts the bytes of the occurrence that was just replaced.  The code
    replaces non-empty texts only. *)
Fixpoint replace_from (skip : nat) (s old new : string) : string :=
  match s with
  | "" => ""
  | String c s' =>
      match skip with
      | S k => replace_from k s' old new
      | O => if String.prefix old s then new +:+ replace_from (String.length old - 1) s' old new
             else String c (replace_from 0 s' old new)
      end
  end.
Definition ReplaceAll (s old new : string) : string := replace_from 0 s old new.

Lemma prefix_refl_app a b : String.prefix a (a +:+ b) = true.
Proof. induction a as [|c a IH]; [by destruct b|]. rewrite append_cons. cbn [String.prefix]. destruct (ascii_dec c c); done. Qed.

Lemma prefix_true a s : String.prefix a s = true -> exists b, s = a +:+ b.
Proof.
  revert s. induction a as [|c a IH]; intros s H; [by exists s|]. destruct s as [|d s]; [done|]. cbn [String.prefix] in H.
  destruct (ascii_dec c d) as [->|]; [|done]. destruct (IH s H) as [b ->]. exists b. by rewrite append_cons.
Qed.

Lemma Contains_spec s sub : Contains s sub = true <-> exists a b, s = a +:+ sub +:+ b.
Proof.
  split.
  - induction s as [|c s IH]; cbn [Contains]; intros [H|H]%orb_prop.
    + destruct (prefix_true _ _ H) as [b E]. exists "", b. by rewrite append_nil_l.
    + done.
    + destruct (prefix_true _ _ H) as [b E]. exists "", b. by rewrite append_nil_l.
    + destruct (IH H) as (a & b & ->). exists (String c a), b. by rewrite append_cons.
  - intros (a & b & ->). induction a as [|c a IH].
    + rewrite append_nil_l. destruct (sub +:+ b) as [|x t] eqn:E; cbn [Contains]; rewrite <- E at 1; by rewrite prefix_refl_app.
    + rewrite append_cons. cbn [Contains]. rewrite IH. apply orb_true_r.
Qed.

Lemma ReplaceAll_skip a s old new : replace_from (String.length a) (a +:+ s) old new = replace_from 0 s old new.
Proof. induction a as [|c a IH]; [by rewrite append_nil_l|]. rewrite append_cons. exact IH. Qed.

(** An occurrence of [old] at the front is replaced. *)
Lemma ReplaceAll_hit old new s : old <> "" -> ReplaceAll (old +:+ s) old new = new +:+ ReplaceAll s old new.
Proof.
  intros Hne. destruct old as [|c old]; [done|]. unfold ReplaceAll. rewrite append_cons. cbn [replace_from].
  rewrite <- append_cons, prefix_refl_app. f_equal. replace (String.length (String c old) - 1)%nat with (String.length old) by (simpl; lia).
  apply ReplaceAll_skip.
Qed.

(** Text in which [old] does not begin is copied. *)
Lemma ReplaceAll_none old new s : Contains s old = false -> ReplaceAll s old new = s.
Proof.
  unfold ReplaceAll. induction s as [|c s IH]; [done|]. cbn [Contains replace_from]. intros [-> H]%orb_false_elim. by rewrite IH.
Qed.

(** strings.Split with a separator of several bytes; [skip] as above. *)
Fixpoint split_from (skip : nat) (s sep : string) : list string :=
  match s with
  | "" => [""]
  | String c s' =>
      match skip with
      | S k => split_from k s' sep
      | O => if String.prefix sep s then "" :: split_from (String.length sep - 1) s' sep
             else match split_from 0 s' sep with [] => [] | h :: t => String c h :: t end
      end
  end.
Definition SplitStr (s sep : string) : list string := split_from 0 s sep.

Lemma split_from_skip a s sep : s <> "" \/ a = "" -> split_from (String.length a) (a +:+ s) sep = split_from 0 s sep.
Proof.
  intros Hs. induction a as [|c a IH]; [by rewrite append_nil_l|]. rewrite append_cons. apply IH. destruct Hs as [?|?]; [by left|done].
Qed.

Lemma split_from_all a sep : split_from (String.length a) a sep = [""].
Proof. induction a as [|c a IH]; [done|]. exact IH. Qed.

(** Joining the parts gives the text back. *)
Lemma Join_SplitStr s sep : sep <> "" -> SplitStr s sep <> [] /\ Join (SplitStr s sep) sep = s.
Proof.
  intros Hsep. unfold SplitStr. remember (String.length s) as n eqn:En. revert s En.
  induction n as [n IH] using lt_wf_ind. intros s ->. destruct s as [|c s]; [done|]. cbn [split_from].
  destruct (String.prefix sep (String c s)) eqn:Ep.
  - split; [done|]. destruct (prefix_true _ _ Ep) as [b Eb]. destruct sep as [|d sep]; [done|]. rewrite append_cons in Eb. injection Eb as -> ->.
    replace (String.length (String d sep) - 1)%nat with (String.length sep) by (simpl; lia).
    destruct (decide (b = "")) as [->|Hb]; [rewrite append_nil_r, split_from_all; cbn [Join]; by rewrite append_nil_l, append_nil_r|]. rewrite split_from_skip by (by left).
    destruct (IH (String.length b)) with (s := b) as [Hne E]; [cbn; rewrite string_length_app; lia|done|].
    destruct (split_from 0 b (String d sep)) as [|h t]; [done|].
    change (Join ("" :: h :: t) (String d sep)) with ("" +:+ String d sep +:+ Join (h :: t) (String d sep)). by rewrite E.
  - destruct (IH (String.length s)) with (s := s) as [Hne E]; [cbn; lia|done|]. destruct (split_from 0 s sep) as [|h t]; [done|]. split; [done|].
    destruct t as [|h' t]; cbn [Join] in *; [by rewrite E|]. by rewrite append_cons, E.
Qed.

(** ** Numbers *)

Definition hex_digit (d : Z) : ascii := to_byte (if d <? 10 then 48 + d else 87 + d).
(** %x of a byte string. *)
Definition Hex (b : bytes) : string :=
  of_bytes (b ≫= fun c => [hex_digit (byte_val c / 16); hex_digit (byte_val c mod 16)]).

(** %0nd of a number that is not negative: [n] digits, or more if it needs them. *)
Definition dec_digit (d : Z) : ascii := to_byte (48 + d).
Fixpoint fixed_digits (n : nat) (z : Z) : bytes :=
  match n with O => [] | S n => fixed_digits n (z / 10) ++ [dec_digit (z mod 10)] end.
Definition pad0 (n : nat) (z : Z) : string :=
  if z <? 10 ^ Z.of_nat n then of_bytes (fixed_digits n z) else Itoa z.

Example pad0_examples : pad0 2 7 = "07" /\ pad0 4 123 = "0123" /\ pad0 2 123 = "123" /\ pad0 6 0 = "000000".
Proof. by vm_compute. Qed.

Lemma dec_digit_val d : 0 <= d < 10 -> digit_val (dec_digit d) = Some d.
Proof.
  intros H. assert (E : d = 0 \/ d = 1 \/ d = 2 \/ d = 3 \/ d = 4 \/ d = 5 \/ d = 6 \/ d = 7 \/ d = 8 \/ d = 9) by lia.
  repeat (destruct E as [->|E]); [by vm_compute..|]. by subst.
Qed.

Definition hex_val (c : ascii) : option Z :=
  let b := byte_val c in
  if (48 <=? b) && (b <=? 57) then Some (b - 48)
  else if (97 <=? b) && (b <=? 102) then Some (b - 87)
  else if (65 <=? b) && (b <=? 70) then Some (b - 55) else None.

Fixpoint hex_digits (acc : Z) (s : string) : option Z :=
  match s with
  | "" => Some acc
  | String c s => d ← hex_val c; hex_digits (acc * 16 + d) s
  end.

(** strconv.ParseInt(s, 16, w); with an explicit base underscores are not digits. *)
Definition ParseHex (w : Z) (s : string) : Z * option go_error :=
  let '(neg, s) := split_sign s in
  match (if String.eqb s "" then None else hex_digits 0 s) with
  | None => (0, Some (ErrMsg "invalid syntax"))
  | Some n =>
      let n := if neg then - n else n in
      if n <? - 2 ^ (w - 1) then (- 2 ^ (w - 1), Some (ErrMsg "value out of range"))
      else if 2 ^ (w - 1) <=? n then (2 ^ (w - 1) - 1, Some (ErrMsg "value out of range"))
      else (n, None)
  end.

(** The four digits of a 16-bit number. *)
Definition hex4 (z : Z) : string :=
  of_bytes [hex_digit (z / 4096); hex_digit (z / 256 mod 16); hex_digit (z / 16 mod 16); hex_digit (z mod 16)].

Lemma hex_val_digit d : 0 <= d < 16 -> hex_val (hex_digit d) = Some d.
Proof.
  intros H. assert (E : d = 0 \/ d = 1 \/ d = 2 \/ d = 3 \/ d = 4 \/ d = 5 \/ d = 6 \/ d = 7 \/ d = 8 \/ d = 9 \/ d = 10 \/ d = 11 \/
    d = 12 \/ d = 13 \/ d = 14 \/ d = 15) by lia. by repeat destruct E as [->|E]; [..|subst].
Qed.

Lemma hex_digit_sign d : 0 <= d < 16 -> hex_digit d <> "+"%char /\ hex_digit d <> "-"%char.
Proof. intros H. split; intros E; apply (f_equal hex_val) in E; rewrite hex_val_digit in E by done; done. Qed.

Lemma split_sign_other c s : c <> "+"%char -> c <> "-"%char -> split_sign (String c s) = (false, String c s).
Proof. intros Hp Hm. unfold split_sign. destruct c as [[] [] [] [] [] [] [] []]; done. Qed.

Lemma ParseHex_hex4 z : in_u 16 z -> ParseHex 32 (hex4 z) = (z, None).
Proof.
  unfold in_u. intros Hz. unfold ParseHex, hex4, of_bytes. cbn [string_of_list_ascii].
  assert (H1 : 0 <= z / 4096 < 16) by (split; [apply Z.div_pos|apply Z.div_lt_upper_bound]; lia).
  pose proof (Z.mod_pos_bound (z / 256) 16 ltac:(lia)) as H2. pose proof (Z.mod_pos_bound (z / 16) 16 ltac:(lia)) as H3.
  pose proof (Z.mod_pos_bound z 16 ltac:(lia)) as H4. destruct (hex_digit_sign _ H1) as [Hp Hm].
  rewrite split_sign_other by done. cbn [String.eqb hex_digits]. rewrite !hex_val_digit by done. cbn [mbind option_bind].
  set (n := _ + z mod 16). assert (n = z) as -> by (unfold n; Z.div_mod_to_equations; lia).
  destruct (Z.ltb_spec z (- 2 ^ (32 - 1))); [lia|]. destruct (Z.leb_spec (2 ^ (32 - 1)) z); [lia|done].
Qed.
