(* ===== verification/GoTime.v ===== *)
(** * The calendar and the clock: what the code uses of package time

    Instants are seconds since 1970 (UTC).  A location gives its offset from UTC at
    every instant; the rules of the zones are data of the system. *)

From Stdlib Require Import ZArith Lia Ascii String.
From stdpp Require Import base numbers list strings.
From S2P Require Import Prelude GoStd GoText.

(** ** The Gregorian calendar *)

Record date := { year : Z; month : Z; day : Z }.

Definition leap (y : Z) : bool := (y mod 4 =? 0) && (negb (y mod 100 =? 0) || (y mod 400 =? 0)).

Definition daysIn (m y : Z) : Z :=
  if m =? 2 then if leap y then 29 else 28
  else if (m =? 4) || (m =? 6) || (m =? 9) || (m =? 11) then 30 else 31.

Definition valid_date (d : date) : Prop := 1 <= month d <= 12 /\ 1 <= day d <= daysIn (month d) (year d).

(** Years are counted from March within cycles of 400 years, so that the leap day
    is the last of its year. *)
Definition days_of_date (d : date) : Z :=
  let y := if month d <=? 2 then year d - 1 else year d in
  let mp := if month d <=? 2 then month d + 9 else month d - 3 in
  let yoe := y mod 400 in
  y / 400 * 146097 + (365 * yoe + yoe / 4 - yoe / 100) + ((153 * mp + 2) / 5 + day d - 1) - 719468.

Definition date_of_days (n : Z) : date :=
  let z := n + 719468 in
  let doe := z mod 146097 in
  let yoe := (doe - doe / 1460 + doe / 36524 - doe / 146096) / 365 in
  let doy := doe - (365 * yoe + yoe / 4 - yoe / 100) in
  let mp := (5 * doy + 2) / 153 in
  let m := if mp <? 10 then mp + 3 else mp - 9 in
  {| year := yoe + z / 146097 * 400 + (if m <=? 2 then 1 else 0); month := m; day := doy - (153 * mp + 2) / 5 + 1 |}.

Lemma year_of_era doe yoe : 0 <= doe < 146097 -> yoe = (doe - doe / 1460 + doe / 36524 - doe / 146096) / 365 ->
  0 <= yoe < 400 /\ 0 <= doe - (365 * yoe + yoe / 4 - yoe / 100) <= 364 + (if (leap (yoe + 1)) then 1 else 0).
Proof.
  intros Hd ->. unfold leap.
  set (y := (doe - doe / 1460 + doe / 36524 - doe / 146096) / 365).
  assert (Hy : 0 <= y < 400) by (unfold y; Z.div_mod_to_equations; lia).
  split; [done|].
  assert (Hlo : 0 <= doe - (365 * y + y / 4 - y / 100)) by (unfold y; Z.div_mod_to_equations; lia).
  split; [done|].
  destruct (Z.eqb_spec ((y + 1) mod 4) 0), (Z.eqb_spec ((y + 1) mod 100) 0), (Z.eqb_spec ((y + 1) mod 400) 0); cbn [negb orb andb]; unfold y in *; Z.div_mod_to_equations; lia.
Qed.

Lemma month_of_year doy mp : 0 <= doy <= 365 -> mp = (5 * doy + 2) / 153 ->
  0 <= mp <= 11 /\ 0 <= doy - (153 * mp + 2) / 5 /\
  doy - (153 * mp + 2) / 5 < (if mp =? 11 then 29 else if (mp =? 1) || (mp =? 3) || (mp =? 6) || (mp =? 8) then 30 else 31).
Proof.
  intros Hd ->. set (m := (5 * doy + 2) / 153). assert (Hm : 0 <= m <= 11) by (unfold m; Z.div_mod_to_equations; lia).
  assert (E : 153 * m <= 5 * doy + 2 < 153 * m + 153) by (unfold m; Z.div_mod_to_equations; lia).
  clearbody m. split; [done|]. split; [Z.div_mod_to_equations; lia|].
  assert (H : m = 0 \/ m = 1 \/ m = 2 \/ m = 3 \/ m = 4 \/ m = 5 \/ m = 6 \/ m = 7 \/ m = 8 \/ m = 9 \/ m = 10 \/ m = 11) by lia.
  clear Hm. repeat (destruct H as [H|H]); subst m; cbn; Z.div_mod_to_equations; lia.
Qed.

Lemma leap_cycle y k : leap (y + 400 * k) = leap y.
Proof.
  unfold leap. replace (y + 400 * k) with (y + (100 * k) * 4) at 1 by lia. rewrite Z.mod_add by lia.
  replace (y + 400 * k) with (y + (4 * k) * 100) at 1 by lia. rewrite Z.mod_add by lia.
  replace (y + 400 * k) with (y + k * 400) by lia. by rewrite Z.mod_add by lia.
Qed.

(** Every day has a date of the calendar, and the date gives the day back. *)
Lemma date_of_days_ok n : valid_date (date_of_days n) /\ days_of_date (date_of_days n) = n.
Proof.
  unfold date_of_days. set (z := n + 719468). set (doe := z mod 146097). set (yoe := (doe - doe / 1460 + doe / 36524 - doe / 146096) / 365).
  assert (Hdoe : 0 <= doe < 146097) by (apply Z.mod_pos_bound; lia). assert (Ez : z = 146097 * (z / 146097) + doe) by (apply Z.div_mod; lia).
  destruct (year_of_era doe yoe Hdoe eq_refl) as (Hy & Hlo & Hhi). clearbody yoe. set (doy := doe - (365 * yoe + yoe / 4 - yoe / 100)) in *.
  assert (Hdoy : 0 <= doy <= 365) by (destruct (leap (yoe + 1)); lia).
  destruct (month_of_year doy _ Hdoy eq_refl) as (Hm & Hd0 & Hd1). set (mp := (5 * doy + 2) / 153) in *.
  assert (Hfeb : mp = 11 -> doy - (153 * mp + 2) / 5 + 1 <= if leap (yoe + 1) then 29 else 28).
  { intros ->. change ((153 * 11 + 2) / 5) with 337. destruct (leap (yoe + 1)); lia. }
  assert (Edoy : doy = doe - (365 * yoe + yoe / 4 - yoe / 100)) by done. clearbody mp doy. set (e := z / 146097) in *. clearbody e.
  unfold valid_date, days_of_date, daysIn. cbn [year month day].
  destruct (Z.ltb_spec mp 10).
  - destruct (Z.leb_spec (mp + 3) 2); [lia|]. split.
    + split; [lia|]. split; [lia|].
      clear -Hd1 Hm H. repeat match goal with |- context [?a =? ?b] => destruct (Z.eqb_spec a b) end;
        repeat match type of Hd1 with context [?a =? ?b] => destruct (Z.eqb_spec a b) end; cbn [orb] in *; lia.
    + replace (yoe + e * 400 + 0) with (yoe + e * 400) by lia. rewrite Z.div_add, Z.mod_add by lia.
      rewrite Z.div_small, Z.mod_small by lia. replace (mp + 3 - 3) with mp by lia. lia.
  - destruct (Z.leb_spec (mp - 9) 2); [|lia]. split.
    + split; [lia|]. split; [lia|]. replace (yoe + e * 400 + 1) with (yoe + 1 + 400 * e) by lia. rewrite leap_cycle.
      clear -Hd1 Hm H Hfeb. repeat match goal with |- context [?a =? ?b] => destruct (Z.eqb_spec a b) end;
        repeat match type of Hd1 with context [?a =? ?b] => destruct (Z.eqb_spec a b) end; cbn [orb] in *; try lia; apply Hfeb; lia.
    + replace (yoe + e * 400 + 1 - 1) with (yoe + e * 400) by lia. rewrite Z.div_add, Z.mod_add by lia.
      rewrite Z.div_small, Z.mod_small by lia. replace (mp - 9 + 9) with mp by lia. lia.
Qed.

Lemma date_of_days_inj n m : date_of_days n = date_of_days m -> n = m.
Proof. intros E. rewrite <- (proj2 (date_of_days_ok n)), <- (proj2 (date_of_days_ok m)). by rewrite E. Qed.

Example epoch : date_of_days 0 = {| year := 1970; month := 1; day := 1 |}.
Proof. reflexivity. Qed.
Example leap_day : date_of_days 19782 = {| year := 2024; month := 2; day := 29 |}.
Proof. reflexivity. Qed.

(** ** Locations, time.Date and formats *)

(** The offset from UTC, in seconds, at an instant. *)
Definition location := Z -> Z.
Definition UTC : location := fun _ => 0.

(** Date and second of the day that a clock of the location shows. *)
Definition wall (loc : location) (t : Z) : date * Z :=
  let l := t + loc t in (date_of_days (l / 86400), l mod 86400).

(** time.Date: the offset is looked up at the time taken for UTC, and once more at
    the instant this gives. *)
Definition Date (loc : location) (d : date) (sec : Z) : Z :=
  let unix := days_of_date d * 86400 + sec in
  let offset := loc unix in
  if offset =? 0 then unix else unix - loc (unix - offset).

Definition fmt_year (y : Z) : string := if y <? 0 then "-" +:+ pad0 4 (- y) else pad0 4 y.
Definition fmt_date (d : date) : string := fmt_year (year d) +:+ "-" +:+ pad0 2 (month d) +:+ "-" +:+ pad0 2 (day d).
Definition fmt_clock (s : Z) : string := pad0 2 (s / 3600) +:+ ":" +:+ pad0 2 (s / 60 mod 60) +:+ ":" +:+ pad0 2 (s mod 60).

(** Format with the layouts 2006-01-02 and 2006-01-02 15:04:05. *)
Definition FormatDate (loc : location) (t : Z) : string := fmt_date (wall loc t).1.
Definition FormatTime (loc : location) (t : Z) : string := fmt_date (wall loc t).1 +:+ " " +:+ fmt_clock (wall loc t).2.

(** *** ParseInLocation with the layout 2006-01-02 15:04:05; [None] is an error *)

Definition digit1 (v : bytes) : option (Z * bytes) :=
  match v with c :: v => match digit_val c with Some d => Some (d, v) | None => None end | [] => None end.

(** getnum: two digits, or one where the layout allows it. *)
Definition getnum (fixed : bool) (v : bytes) : option (Z * bytes) :=
  match digit1 v with
  | None => None
  | Some (a, v) =>
      match digit1 v with
      | Some (b, v) => Some (a * 10 + b, v)
      | None => if fixed then None else Some (a, v)
      end
  end.

Definition getyear (v : bytes) : option (Z * bytes) :=
  match getnum true v with
  | None => None
  | Some (a, v) => match getnum true v with Some (b, v) => Some (a * 100 + b, v) | None => None end
  end.

Definition skip (c : ascii) (v : bytes) : option bytes :=
  match v with x :: v => if decide (x = c) then Some v else None | [] => None end.

(** A space of the layout stands for any spaces. *)
Fixpoint cutspace (v : bytes) : bytes :=
  match v with " "%char :: v => cutspace v | _ => v end.
Definition skip_space (v : bytes) : option bytes :=
  match v with [] => Some [] | c :: _ => if decide (c = " "%char) then Some (cutspace v) else None end.

Fixpoint cut_digits (v : bytes) : bytes :=
  match v with c :: v' => match digit_val c with Some _ => cut_digits v' | None => v end | [] => [] end.
(** A fraction of a second is accepted though the layout has none. *)
Definition skip_fraction (v : bytes) : bytes :=
  match v with
  | c :: d :: v' => if decide ((c = "."%char \/ c = ","%char) /\ digit_val d <> None) then cut_digits v' else v
  | _ => v
  end.

Definition in_range (lo hi : Z) (o : option (Z * bytes)) : option (Z * bytes) :=
  match o with Some (x, v) => if (lo <=? x) && (x <? hi) then Some (x, v) else None | None => None end.

Definition parse_time (s : string) : option (date * Z) :=
  '(y, v) ← getyear (to_bytes s); v ← skip "-" v;
  '(m, v) ← in_range 1 13 (getnum true v); v ← skip "-" v;
  '(d, v) ← getnum true v; v ← skip_space v;
  '(h, v) ← in_range 0 24 (getnum false v); v ← skip ":" v;
  '(mi, v) ← in_range 0 60 (getnum true v); v ← skip ":" v;
  '(se, v) ← in_range 0 60 (getnum true v);
  match skip_fraction v with
  | [] => if (1 <=? d) && (d <=? daysIn m y) then Some ({| year := y; month := m; day := d |}, h * 3600 + mi * 60 + se) else None
  | _ => None
  end.

Definition ParseInLocation (s : string) (loc : location) : option Z :=
  '(d, sec) ← parse_time s; Some (Date loc d sec).

(** *** Reading back what was written *)

Lemma digit1_dec d v : 0 <= d < 10 -> digit1 (dec_digit d :: v) = Some (d, v).
Proof. intros H. cbn [digit1]. by rewrite dec_digit_val. Qed.

Lemma pad0_two z : 0 <= z < 100 -> to_bytes (pad0 2 z) = [dec_digit (z / 10); dec_digit (z mod 10)].
Proof.
  intros H. unfold pad0. destruct (Z.ltb_spec z (10 ^ Z.of_nat 2)) as [_|Hl]; [|change (10 ^ Z.of_nat 2) with 100 in Hl; lia].
  unfold of_bytes, to_bytes. rewrite list_ascii_of_string_of_list_ascii. cbn [fixed_digits app].
  rewrite (Z.mod_small (z / 10)); [done|]. split; [apply Z.div_pos; lia|apply Z.div_lt_upper_bound; lia].
Qed.

Lemma getnum_pad b z v : 0 <= z < 100 -> getnum b (to_bytes (pad0 2 z) ++ v) = Some (z, v).
Proof.
  intros H. rewrite pad0_two by done. cbn [app]. unfold getnum.
  assert (0 <= z / 10 < 10) by (split; [apply Z.div_pos; lia|apply Z.div_lt_upper_bound; lia]).
  pose proof (Z.mod_pos_bound z 10 ltac:(lia)). rewrite !digit1_dec by done. do 2 f_equal. pose proof (Z.div_mod z 10). lia.
Qed.

Lemma pad0_four y : 0 <= y < 10000 -> to_bytes (pad0 4 y) = to_bytes (pad0 2 (y / 100)) ++ to_bytes (pad0 2 (y mod 100)).
Proof.
  intros H. pose proof (Z.mod_pos_bound y 100 ltac:(lia)).
  assert (0 <= y / 100 < 100) by (split; [apply Z.div_pos; lia|apply Z.div_lt_upper_bound; lia]). rewrite !pad0_two by done.
  unfold pad0. destruct (Z.ltb_spec y (10 ^ Z.of_nat 4)) as [_|Hl]; [|change (10 ^ Z.of_nat 4) with 10000 in Hl; lia].
  unfold of_bytes, to_bytes. rewrite list_ascii_of_string_of_list_ascii. cbn [fixed_digits app].
  replace (y / 10 / 10 / 10 mod 10) with (y / 100 / 10) by (Z.div_mod_to_equations; lia).
  replace (y / 10 / 10 mod 10) with (y / 100 mod 10) by (Z.div_mod_to_equations; lia).
  replace (y / 10 mod 10) with (y mod 100 / 10) by (Z.div_mod_to_equations; lia).
  by replace (y mod 10) with (y mod 100 mod 10) by (Z.div_mod_to_equations; lia).
Qed.

Lemma getyear_pad y v : 0 <= y < 10000 -> getyear (to_bytes (fmt_year y) ++ v) = Some (y, v).
Proof.
  intros H. unfold fmt_year. destruct (Z.ltb_spec y 0); [lia|]. rewrite pad0_four by done. unfold getyear. rewrite <- app_assoc.
  pose proof (Z.mod_pos_bound y 100 ltac:(lia)). assert (0 <= y / 100 < 100) by (split; [apply Z.div_pos; lia|apply Z.div_lt_upper_bound; lia]).
  rewrite getnum_pad by done. rewrite getnum_pad by done. do 2 f_equal. pose proof (Z.div_mod y 100). lia.
Qed.

Lemma in_range_ok lo hi x v : lo <= x < hi -> in_range lo hi (Some (x, v)) = Some (x, v).
Proof. intros H. unfold in_range. destruct (Z.leb_spec lo x), (Z.ltb_spec x hi); lia || done. Qed.

Lemma skip_space_clock s v : 0 <= s < 86400 -> skip_space (" "%char :: to_bytes (fmt_clock s) ++ v) = Some (to_bytes (fmt_clock s) ++ v).
Proof.
  intros Hs. unfold skip_space. rewrite decide_True by done. cbn [cutspace]. unfold fmt_clock. rewrite to_bytes_app, pad0_two.
  2:{ split; [apply Z.div_pos; lia|apply Z.div_lt_upper_bound; lia]. }
  cbn [app]. set (d := s / 3600 / 10).
  assert (Hd : 0 <= d < 10) by (unfold d; split; [repeat apply Z.div_pos; lia|repeat (apply Z.div_lt_upper_bound; [lia|])]; lia).
  pose proof (dec_digit_val d Hd) as E. destruct (dec_digit d) as [[] [] [] [] [] [] [] []]; done.
Qed.

Lemma parse_fmt d s : valid_date d -> 0 <= year d < 10000 -> 0 <= s < 86400 ->
  parse_time (fmt_date d +:+ " " +:+ fmt_clock s) = Some (d, s).
Proof.
  intros [Hm Hd] Hy Hs. unfold parse_time. rewrite !to_bytes_app. unfold fmt_date. rewrite !to_bytes_app, <- !app_assoc.
  assert (Hday : 0 <= day d < 100) by (unfold daysIn in Hd; repeat case_match; lia).
  change (to_bytes "-") with ["-"%char]. change (to_bytes " ") with [" "%char]. cbn [app].
  rewrite getyear_pad by done. cbn [mbind option_bind skip]. rewrite decide_True by done. cbn [mbind option_bind].
  rewrite getnum_pad by lia. rewrite in_range_ok by lia. cbn [mbind option_bind skip]. rewrite decide_True by done. cbn [mbind option_bind].
  rewrite getnum_pad by done. cbn [mbind option_bind]. rewrite <- (app_nil_r (to_bytes (fmt_clock s))). rewrite skip_space_clock by done. cbn [mbind option_bind].
  assert (Hh : 0 <= s / 3600 < 24) by (split; [apply Z.div_pos; lia|apply Z.div_lt_upper_bound; lia]).
  pose proof (Z.mod_pos_bound (s / 60) 60 ltac:(lia)). pose proof (Z.mod_pos_bound s 60 ltac:(lia)).
  unfold fmt_clock. rewrite !to_bytes_app, <- !app_assoc. change (to_bytes ":") with [":"%char]. cbn [app].
  rewrite getnum_pad by lia. rewrite in_range_ok by lia. cbn [mbind option_bind skip]. rewrite decide_True by done. cbn [mbind option_bind].
  rewrite getnum_pad by lia. rewrite in_range_ok by lia. cbn [mbind option_bind skip]. rewrite decide_True by done. cbn [mbind option_bind].
  rewrite getnum_pad by lia. rewrite in_range_ok by lia. cbn [mbind option_bind skip_fraction].
  destruct (Z.leb_spec 1 (day d)), (Z.leb_spec (day d) (daysIn (month d) (year d))); [|lia..]. cbn [andb]. destruct d; cbn [year month day]. do 2 f_equal.
  Z.div_mod_to_equations; lia.
Qed.

(** No change of the offset within two days, and an offset of a day at most. *)
Definition steady (loc : location) (t : Z) : Prop :=
  - 86400 <= loc t <= 86400 /\ forall t', t - 172800 <= t' <= t + 172800 -> loc t' = loc t.

Lemma Date_wall loc t : steady loc t -> Date loc (wall loc t).1 (wall loc t).2 = t.
Proof.
  intros [Hb Hs]. unfold Date, wall. cbn [fst snd]. rewrite (proj2 (date_of_days_ok _)).
  set (l := t + loc t). replace (l / 86400 * 86400 + l mod 86400) with l by (pose proof (Z.div_mod l 86400); lia).
  assert (E : loc l = loc t) by (apply Hs; lia). rewrite E. unfold l. destruct (Z.eqb_spec (loc t) 0); [lia|].
  rewrite (Hs (t + loc t - loc t)) by lia. lia.
Qed.

Lemma wall_ok loc t : valid_date (wall loc t).1 /\ 0 <= (wall loc t).2 < 86400.
Proof. split; [apply date_of_days_ok|apply Z.mod_pos_bound; lia]. Qed.

Lemma ParseInLocation_Format loc t : steady loc t -> 0 <= year (wall loc t).1 < 10000 ->
  ParseInLocation (FormatTime loc t) loc = Some t.
Proof.
  intros Hs Hy. destruct (wall_ok loc t) as [Hv Hr]. unfold ParseInLocation, FormatTime. rewrite parse_fmt by done.
  cbn [mbind option_bind]. by rewrite Date_wall.
Qed.

Lemma fmt_date_inj d e : valid_date d -> valid_date e -> 0 <= year d < 10000 -> 0 <= year e < 10000 -> fmt_date d = fmt_date e -> d = e.
Proof.
  intros Hd He Hyd Hye E. pose proof (parse_fmt d 0 Hd Hyd ltac:(lia)) as Pd. rewrite E, (parse_fmt e 0 He Hye) in Pd by lia. by injection Pd.
Qed.

Definition fixed (offset : Z) : location := fun _ => offset.
Lemma fixed_steady o t : - 86400 <= o <= 86400 -> steady (fixed o) t.
Proof. by split. Qed.
