(* ===== verification/GoSlice.v ===== *)
(** * Slices: shared arrays

    A slice is a window on an array of the heap, so that assigning a slice shares
    its elements and [append] may write into an array that others see.  The
    capacity [append] gives to a new array is an argument: the language leaves it
    open. *)

From Stdlib Require Import ZArith Lia.
From stdpp Require Import base numbers list.
From S2P Require Import Prelude.

Record slice := { ptr : nat; off : nat; len : nat; cap : nat }.
Abbreviation heap A := (list (list A)).

Section slices.
Context {A : Type} (zero : A) (grow : nat -> nat).

Definition array (h : heap A) (s : slice) : list A := default [] (h !! ptr s).
Definition elems (h : heap A) (s : slice) : list A := take (len s) (drop (off s) (array h s)).

(** The window lies within its array. *)
Definition slice_ok (h : heap A) (s : slice) : Prop :=
  (ptr s < length h /\ len s <= cap s /\ off s + cap s <= length (array h s))%nat.

(** make and copy: a new array. *)
Definition make_of (h : heap A) (l : list A) : heap A * slice :=
  (h ++ [l], {| ptr := length h; off := 0; len := length l; cap := length l |}).

(** append(s, v) *)
Definition append (h : heap A) (s : slice) (v : A) : heap A * slice :=
  if decide (len s < cap s)%nat
  then (alter (fun a => <[off s + len s := v]> a)%nat (ptr s) h, {| ptr := ptr s; off := off s; len := S (len s); cap := cap s |})
  else let n := (grow (S (len s)) + S (len s))%nat in
       (h ++ [elems h s ++ [v] ++ replicate (n - S (len s)) zero], {| ptr := length h; off := 0; len := S (len s); cap := n |}).

(** append(s[:i], s[i+1:]...): the elements after [i] move down in place. *)
Definition remove_at (h : heap A) (s : slice) (i : nat) : heap A * slice :=
  let tl := drop (S i) (elems h s) in
  (alter (fun a => take (off s + i) a ++ tl ++ drop (off s + i + length tl) a)%nat (ptr s) h,
   {| ptr := ptr s; off := off s; len := i + length tl; cap := cap s |}).

(** ** Lemmas *)

Lemma length_elems h s : slice_ok h s -> length (elems h s) = len s.
Proof using Type. unfold slice_ok, elems. intros (H1 & H2 & H3). rewrite length_take, length_drop. lia. Qed.

Lemma array_lookup h s : slice_ok h s -> h !! ptr s = Some (array h s).
Proof using Type. unfold slice_ok, array. intros (H & _). apply lookup_lt_is_Some in H as [a ->]. done. Qed.

(** An array of [h] keeps its elements. *)
Definition keeps (h h' : heap A) (s : slice) : Prop := forall p a, p <> ptr s -> h !! p = Some a -> h' !! p = Some a.

Lemma keeps_elems h h' s s' : keeps h h' s -> ptr s' <> ptr s -> slice_ok h s' -> slice_ok h' s' /\ elems h' s' = elems h s'.
Proof using Type.
  intros Hk Hne Hok. pose proof (Hk _ _ Hne (array_lookup _ _ Hok)) as E. destruct Hok as (H1 & H2 & H3).
  unfold slice_ok, elems, array in *. rewrite E. cbn [from_option id]. splits; try done. by eapply lookup_lt_Some.
Qed.

Lemma make_of_ok h l : let '(h', s) := make_of h l in slice_ok h' s /\ elems h' s = l /\ (forall p a, h !! p = Some a -> h' !! p = Some a).
Proof using Type.
  unfold make_of, slice_ok, elems, array. cbn [ptr off len cap]. rewrite lookup_app_r, Nat.sub_diag by done. cbn [lookup list_lookup from_option id].
  rewrite length_app. cbn [length]. splits; try lia.
  - apply firstn_all.
  - intros p a H. by apply lookup_app_l_Some.
Qed.

Lemma append_ok h s v : slice_ok h s ->
  let '(h', s') := append h s v in slice_ok h' s' /\ elems h' s' = elems h s ++ [v] /\ keeps h h' s /\
    (ptr s' = ptr s \/ h !! ptr s' = None).
Proof using Type.
  intros Hok. pose proof (array_lookup _ _ Hok) as Ea. pose proof (length_elems _ _ Hok) as Hl. destruct Hok as (H1 & H2 & H3). unfold append.
  case_decide as Hc.
  - set (f := fun a : list A => <[(off s + len s)%nat := v]> a). cbn zeta.
    assert (E : alter f (ptr s) h !! ptr s = Some (f (array h s))) by (rewrite list_lookup_alter_eq, Ea; done).
    unfold slice_ok, elems, array in *. cbn [ptr off len cap]. rewrite E. cbn [from_option id]. rewrite length_alter. splits; try lia.
    + unfold f. rewrite length_insert. unfold array in H3. lia.
    + set (a := default [] (h !! ptr s)) in *. unfold f. rewrite drop_insert_ge by lia.
      replace (off s + len s - off s)%nat with (len s) by lia. rewrite (take_S_r _ _ v).
      * by rewrite take_insert_ge.
      * apply list_lookup_insert_eq. rewrite length_drop. lia.
    + intros p a Hp Hpa. by rewrite list_lookup_alter_ne.
  - cbn zeta. set (n := (grow _ + _)%nat). unfold slice_ok, elems, array in *. cbn [ptr off len cap].
    rewrite lookup_app_r, Nat.sub_diag by done. cbn [lookup list_lookup from_option id]. splits.
    + rewrite length_app. simpl. lia.
    + unfold n. lia.
    + rewrite !length_app, length_replicate. cbn [length]. rewrite Hl. unfold n. lia.
    + rewrite drop_0. rewrite app_assoc. apply take_app_length'. rewrite length_app. cbn [length]. lia.
    + intros p a Hp Hpa. by apply lookup_app_l_Some.
    + right. by apply lookup_ge_None.
Qed.

Lemma remove_at_ok h s i : slice_ok h s -> (i < len s)%nat ->
  let '(h', s') := remove_at h s i in slice_ok h' s' /\ elems h' s' = delete i (elems h s) /\ keeps h h' s /\ ptr s' = ptr s.
Proof using Type.
  clear zero grow. intros Hok Hi. pose proof (array_lookup _ _ Hok) as Ea. pose proof (length_elems _ _ Hok) as Hl. destruct Hok as (H1 & H2 & H3).
  unfold remove_at. assert (Htl : length (drop (S i) (elems h s)) = (len s - S i)%nat) by (rewrite length_drop; lia).
  set (f := fun a : list A => _). assert (E : alter f (ptr s) h !! ptr s = Some (f (array h s))) by (rewrite list_lookup_alter_eq, Ea; done).
  assert (Hf : length (f (array h s)) = length (array h s)) by (unfold f; rewrite !length_app, length_take, Htl, length_drop; lia).
  assert (Hel : elems h s = take (len s) (drop (off s) (array h s))) by done.
  set (el := elems h s) in *. clearbody el.
  unfold slice_ok, elems, array in *. cbn [ptr off len cap]. rewrite E. cbn [from_option id]. rewrite length_alter. set (a := default [] (h !! ptr s)) in *.
  splits; try lia; [|intros p x Hp Hpx; by rewrite list_lookup_alter_ne].
  unfold f. rewrite delete_take_drop, app_assoc, take_drop_commute. rewrite Htl. replace (i + (len s - S i) + off s)%nat with (off s + (len s - 1))%nat by lia.
  rewrite take_app_length' by (rewrite length_app, length_take; lia). rewrite drop_app_le by (rewrite length_take; lia).
  f_equal. rewrite Hel, take_take, take_drop_commute. f_equal. f_equal. lia.
Qed.
End slices.
