(* ===== verification/BytesCache.v ===== *)
(** * The buffer pool: util/bytes_cache/cache.go

    64 pools of byte slices, pool i for capacity 2^i.  A buffer is its
    backing array, so its length is the slice's capacity; a slice is a length
    and a buffer.  sync.Pool may return any buffer that was put into it, or
    none: the choice is an argument.  Buffers keep the bytes of their last
    user, as in the code. *)

From Stdlib Require Import ZArith Lia Ascii String.
From stdpp Require Import base numbers list strings.
From S2P Require Import Prelude.

Module BytesCache.

Definition n : nat := 64.

(** [cache]: the buffers each pool holds. *)
Abbreviation pools := (list (list bytes)).
Definition init : pools := replicate n [].

Record slice := { len : nat; backing : bytes }.
Definition cap (s : slice) : nat := length (backing s).
Definition contents (s : slice) : bytes := take (len s) (backing s).

(** The loop that counts the bits of [size]; [None]: it does not stop within
    the fuel, which 64-bit non-negative sizes never need. *)
Fixpoint count_bits (fuel : nat) (size index : Z) : option Z :=
  if size =? 0 then Some index
  else match fuel with
       | O => None
       | S fuel' => count_bits fuel' (Z.shiftr size 1) (index + 1)
       end.

Definition getIndex (size : Z) : option Z :=
  if size =? 0 then Some 0
  else
    let tp := Z.land size (- size) =? size in
    index ← count_bits 64 size 0;
    Some (if tp then index - 1 else index).

(** make([]byte, 0, 1<<i) of the pool's New function, on a machine with memory
    enough: above the runtime's allocation limit (2^48 bytes on amd64) make panics
    or the process ends, which is not modelled. *)
Definition pool_New (i : Z) : go bytes :=
  let size := i64 (Z.shiftl 1 i) in
  if size <? 0 then Panic "makeslice: cap out of range"
  else Ret (replicate (Z.to_nat size) "000"%char).

(** cache[i].Get(): a buffer of the pool, or a new one. *)
Definition pool_Get (ps : pools) (i : Z) (choice : option nat) : go (bytes * pools) :=
  bs ← go_index ps (Z.to_nat i);
  match choice ≫= fun j => bs !! j with
  | Some b => Ret (b, <[Z.to_nat i := delete (default 0%nat choice) bs]> ps)
  | None => b ← pool_New i; Ret (b, ps)
  end.

Definition Get (ps : pools) (l : Z) (capa : option Z) (choice : option nat) : go (slice * pools) :=
  let size := default l capa in
  if bool_decide (is_Some capa) && (size <? l) then Panic "capacity less to length "
  else match getIndex size with
       | None => Panic "getIndex does not return"
       | Some i =>
           '(b, ps') ← pool_Get ps i choice;
           if decide (0 <= l <= Z.of_nat (length b))
           then Ret ({| len := Z.to_nat l; backing := b |}, ps')
           else Panic "slice bounds out of range"
       end.

Definition Put (ps : pools) (b : bytes) : go pools :=
  let capa := Z.of_nat (length b) in
  if negb (Z.land capa (- capa) =? capa) then Ret ps
  else match getIndex capa with
       | None => Panic "getIndex does not return"
       | Some i => bs ← go_index ps (Z.to_nat i); Ret (<[Z.to_nat i := b :: bs]> ps)
       end.

(** Pool i holds buffers of capacity 2^i only. *)
Definition pools_ok (ps : pools) : Prop :=
  length ps = n /\
  forall i bs b, ps !! i = Some bs -> b ∈ bs -> Z.of_nat (length b) = 2 ^ Z.of_nat i.

(** ** Lemmas *)

Lemma count_bits_spec fuel size index :
  0 < size < 2 ^ Z.of_nat fuel ->
  count_bits fuel size index = Some (index + Z.log2 size + 1).
Proof.
  revert size index; induction fuel as [|fuel IH]; intros size index [H0 H1]; [simpl in *; lia|].
  cbn [count_bits]. destruct (Z.eqb_spec size 0); [lia|].
  destruct (decide (size = 1)) as [->|Hne].
  - change (Z.shiftr 1 1) with 0. replace (index + Z.log2 1 + 1) with (index + 1) by (simpl; lia).
    by destruct fuel.
  - rewrite Nat2Z.inj_succ, Z.pow_succ_r in H1 by lia.
    assert (Hd : Z.shiftr size 1 = size / 2) by (rewrite Z.shiftr_div_pow2 by lia; done).
    assert (0 < size / 2) by (apply Z.div_str_pos; lia).
    assert (size / 2 < 2 ^ Z.of_nat fuel) by (apply Z.div_lt_upper_bound; lia).
    rewrite Hd, IH by lia. f_equal.
    rewrite <- Hd, Z.log2_shiftr by lia.
    pose proof (Z.log2_pos size ltac:(lia)). lia.
Qed.

(** [size & -size == size] tests for a power of two. *)
Lemma power_of_two_test size :
  0 < size -> (Z.land size (- size) =? size) = bool_decide (size = 2 ^ Z.log2 size).
Proof.
  intros Hs. set (k := Z.log2 size). destruct (Z.log2_spec size Hs) as [Hl Hh]. fold k in Hl, Hh.
  assert (Hk : 0 <= k) by apply Z.log2_nonneg.
  replace (- size) with (Z.lnot (size - 1)) by (pose proof (Z.add_lnot_diag (size - 1)); lia).
  case_bool_decide as Hp.
  - apply Z.eqb_eq, Z.bits_inj'; intros i Hi. rewrite Z.land_spec, Z.lnot_spec by lia.
    replace (size - 1) with (Z.ones k) by (rewrite Z.ones_equiv; lia).
    rewrite Hp, Z.pow2_bits_eqb by lia.
    destruct (Z.eqb_spec k i); [subst i|done]. by rewrite Z.ones_spec_high by lia.
  - apply Z.eqb_neq. intros E. assert (Hb : Z.testbit size k = true) by (apply Z.bit_log2; lia).
    rewrite <- E, Z.land_spec, Z.lnot_spec in Hb by lia.
    assert (Hlog : Z.log2 (size - 1) = k) by (apply Z.log2_unique; lia).
    rewrite <- Hlog, Z.bit_log2 in Hb by lia. by rewrite andb_false_r in Hb.
Qed.

(** getIndex is the base-2 logarithm rounded up: the smallest i with size <= 2^i. *)
Lemma getIndex_log2_up size : 0 <= size < 2 ^ 63 -> getIndex size = Some (Z.log2_up size).
Proof.
  intros [H0 H1]. unfold getIndex. destruct (Z.eqb_spec size 0) as [->|Hne]; [done|].
  rewrite count_bits_spec by (change (2 ^ Z.of_nat 64) with (2 * 2 ^ 63); lia).
  cbn [mbind option_bind]. f_equal. rewrite power_of_two_test by lia.
  pose proof (Z.log2_nonneg size). case_bool_decide as Hp.
  - rewrite Hp at 2. rewrite Z.log2_up_pow2 by lia. lia.
  - destruct (decide (size = 1)) as [->|]; [done|].
    rewrite Z.log2_up_eqn by lia. destruct (Z.log2_spec size ltac:(lia)) as [Hl Hh].
    rewrite (Z.log2_unique (Z.pred size) (Z.log2 size)); [lia|done|split; [|clear -Hh; lia]].
    clear -Hp Hl. lia.
Qed.

Lemma log2_up_small size : 0 <= size <= 2 ^ 62 -> 0 <= Z.log2_up size <= 62.
Proof.
  intros H. split; [apply Z.log2_up_nonneg|].
  rewrite <- (Z.log2_up_pow2 62) by lia. apply Z.log2_up_le_mono. lia.
Qed.

Lemma le_pow2_log2_up size : 0 <= size -> size <= 2 ^ Z.log2_up size.
Proof.
  intros H. destruct (decide (size <= 1)) as [|].
  - pose proof (Z.pow_pos_nonneg 2 (Z.log2_up size) ltac:(lia) (Z.log2_up_nonneg size)). lia.
  - apply Z.log2_up_spec. lia.
Qed.

Lemma pool_New_ok i : 0 <= i <= 62 -> exists b, pool_New i = Ret b /\ Z.of_nat (length b) = 2 ^ i.
Proof.
  intros Hi. unfold pool_New. rewrite Z.shiftl_1_l.
  assert (0 < 2 ^ i) by (apply Z.pow_pos_nonneg; lia).
  assert (2 ^ i <= 2 ^ 62) by (apply Z.pow_le_mono_r; lia).
  rewrite wraps_small by (unfold in_s; lia). destruct (Z.ltb_spec (2 ^ i) 0); [lia|].
  eexists; split; [done|]. rewrite length_replicate. lia.
Qed.

Lemma pools_ok_lookup ps i : pools_ok ps -> 0 <= i <= 62 -> exists bs, ps !! Z.to_nat i = Some bs.
Proof. intros [Hn _] Hi. apply lookup_lt_is_Some. rewrite Hn. unfold n. lia. Qed.

Lemma pools_ok_insert ps i bs :
  pools_ok ps -> (forall b, b ∈ bs -> Z.of_nat (length b) = 2 ^ Z.of_nat i) ->
  pools_ok (<[i := bs]> ps).
Proof.
  intros [Hn Hp] Hb. split; [by rewrite length_insert|]. intros j bs' b Hj Hin.
  destruct (decide (i = j)) as [->|Hne].
  - destruct (decide (j < length ps)%nat).
    + rewrite list_lookup_insert_eq in Hj by done. simplify_eq. auto.
    + rewrite list_insert_ge in Hj by lia. eauto.
  - rewrite list_lookup_insert_ne in Hj by done. eauto.
Qed.

Lemma pool_Get_ok ps i choice : pools_ok ps -> 0 <= i <= 62 -> exists b ps',
  pool_Get ps i choice = Ret (b, ps') /\ Z.of_nat (length b) = 2 ^ i /\ pools_ok ps'.
Proof.
  intros Hok Hi. destruct (pools_ok_lookup ps i Hok Hi) as [bs Hbs].
  unfold pool_Get, go_index. rewrite Hbs. cbn [mbind go_bind].
  destruct (choice ≫= fun j => bs !! j) as [b|] eqn:E.
  - apply bind_Some in E as (j & -> & Hj). eexists _, _; split; [done|]. split.
    + destruct Hok as [_ Hp]. rewrite (Hp _ bs b Hbs) by (by eapply list_elem_of_lookup_2).
      f_equal. lia.
    + apply pools_ok_insert; [done|]. intros b' Hb'. destruct Hok as [_ Hp].
      apply (Hp _ bs); [done|]. simpl in Hb'. eapply elem_of_submseteq; [exact Hb'|].
      apply sublist_submseteq, sublist_delete.
  - destruct (pool_New_ok i Hi) as (b & -> & Hb). eexists _, _; split; [done|]. done.
Qed.

(** C32. Get(l), or Get(l, c) with l <= c, never panics while the pools are
    well formed: whatever buffer the pool hands out, the result has length l
    and as capacity the smallest power of two that holds the request, and the
    pools stay well formed. *)
Theorem bytes_cache_get_safe (ps : pools) (l : Z) (capa : option Z) (choice : option nat)
    (Hok : pools_ok ps) (Hl : 0 <= l <= default l capa) (Hc : default l capa <= 2 ^ 62) :
  exists s ps', Get ps l capa choice = Ret (s, ps') /\ Z.of_nat (len s) = l /\
    Z.of_nat (cap s) = 2 ^ Z.log2_up (default l capa) /\ (len s <= cap s)%nat /\ pools_ok ps'.
Proof.
  unfold Get. set (size := default l capa) in *.
  destruct (Z.ltb_spec size l); [lia|]. rewrite andb_false_r.
  rewrite getIndex_log2_up by lia.
  destruct (pool_Get_ok ps (Z.log2_up size) choice Hok) as (b & ps' & -> & Hb & Hok').
  { apply log2_up_small. lia. }
  pose proof (le_pow2_log2_up size ltac:(lia)). cbn [mbind go_bind].
  rewrite decide_True by lia. eexists _, _; split; [done|]. unfold cap; simpl.
  split_and!; try done; lia.
Qed.

(** Put keeps the pools well formed for every buffer of non-zero capacity,
    including those whose capacity is not a power of two (they are dropped); a
    buffer of capacity 0 goes into pool 0 and makes the next Get(1) that
    receives it panic. *)
Lemma bytes_cache_put (ps : pools) (b : bytes) (Hok : pools_ok ps)
    (Hb : Z.of_nat (length b) <= 2 ^ 62) :
  (b <> [] -> exists ps', Put ps b = Ret ps' /\ pools_ok ps') /\
  exists ps', Put ps [] = Ret ps' /\
    Get ps' 1 None (Some 0%nat) = Panic "slice bounds out of range".
Proof.
  split.
  - intros Hne. unfold Put. set (c := Z.of_nat (length b)) in *.
    assert (0 < c) by (destruct b; [done|]; unfold c; simpl; lia).
    rewrite power_of_two_test by lia. case_bool_decide as Hp; [|by eexists].
    cbn [negb]. rewrite getIndex_log2_up by lia.
    pose proof (log2_up_small c ltac:(lia)) as Hr.
    destruct (pools_ok_lookup ps (Z.log2_up c) Hok Hr) as [bs Hbs].
    unfold go_index. rewrite Hbs. cbn [mbind go_bind]. eexists; split; [done|].
    apply pools_ok_insert; [done|]. intros b' [->|Hin]%elem_of_cons.
    + fold c. rewrite Z2Nat.id by lia. rewrite Hp at 2. rewrite Z.log2_up_pow2 by apply Z.log2_nonneg.
      done.
    + destruct Hok as [_ Hp']. by eapply Hp'.
  - destruct (pools_ok_lookup ps 0 Hok ltac:(lia)) as [bs Hbs].
    exists (<[Z.to_nat 0 := [] :: bs]> ps). split.
    + change (Put ps []) with (bs ← go_index ps (Z.to_nat 0); Ret (<[Z.to_nat 0 := [] :: bs]> ps)).
      unfold go_index. by rewrite Hbs.
    + assert (E : pool_Get (<[Z.to_nat 0 := [] :: bs]> ps) 0 (Some 0%nat)
                  = Ret ([], <[Z.to_nat 0 := bs]> (<[Z.to_nat 0 := [] :: bs]> ps))).
      { unfold pool_Get, go_index. by rewrite list_lookup_insert_eq by (by eapply lookup_lt_Some). }
      unfold Get. change (getIndex (default 1 None)) with (Some 0). cbv iota beta.
      rewrite E. done.
Qed.

Lemma init_ok : pools_ok init.
Proof.
  split; [done|]. intros i bs b [-> _]%lookup_replicate_1. by intros ?%elem_of_nil.
Qed.

Lemma bytes_cache_get_safe_witness : exists s ps', Get init 14 None None = Ret (s, ps') /\ cap s = 16%nat.
Proof.
  destruct (bytes_cache_get_safe init 14 None None init_ok) as (s & ps' & E & _ & Hc & _);
    [simpl; lia|simpl; lia|].
  exists s, ps'. split; [exact E|]. change (2 ^ Z.log2_up (default 14 None)) with 16 in Hc. lia.
Defined.

Lemma bytes_cache_put_witness : exists ps', Put init (replicate 8 "a"%char) = Ret ps' /\ pools_ok ps'.
Proof.
  apply (bytes_cache_put init (replicate 8 "a"%char) init_ok); [simpl; lia|done].
Defined.

End BytesCache.
