(* ===== verification/HashSet.v ===== *)
(** * The two-level key/field/value store: util/hash_set.go, util/hash_set_db.go

    [HashSet] is the in-memory store of the watch server; every change is
    mirrored into a bolt database.  Bolt is third-party code, so it is the
    class [Bolt]: its operations with the documented facts the mirror relies
    on.  [BoltMap] is an implementation by a finite map, which shows that the
    laws can hold. *)

From Stdlib Require Import ZArith Lia Ascii String.
From stdpp Require Import base numbers list strings gmap.
From S2P Require Import Prelude GoStd.

(** key -> field -> value *)
Abbreviation table := (gmap string (gmap string string)).

Definition field_of (t : table) (k f : string) : option string :=
  t !! k ≫= fun m => m !! f.

(** Two tables are equivalent when they hold the same fields: a key without
    fields cannot be told from an absent key by reading fields. *)
#[global] Instance table_equiv : Equiv table := fun t u =>
  forall k f, field_of t k f = field_of u k f.
#[global] Instance table_equivalence : Equivalence (≡@{table}).
Proof.
  split; [by intros ???|by intros ?? H k f; rewrite (H k f)|].
  intros ??? H1 H2 k f. by rewrite (H1 k f).
Qed.

Lemma field_of_insert t k f v k' f' :
  field_of (<[k := <[f := v]> (default ∅ (t !! k))]> t) k' f' =
  if decide (k' = k /\ f' = f) then Some v else field_of t k' f'.
Proof.
  unfold field_of. destruct (decide (k = k')) as [->|Hk].
  - rewrite lookup_insert_eq. simpl. destruct (decide (f = f')) as [->|Hf].
    + rewrite lookup_insert_eq. by rewrite decide_True.
    + rewrite lookup_insert_ne by done. rewrite decide_False by (by intros [_ ?]).
      by destruct (t !! k').
  - rewrite lookup_insert_ne by done. rewrite decide_False; [done|]. by intros [? _].
Qed.

Lemma field_of_remove t k f k' f' :
  field_of (<[k := delete f (default ∅ (t !! k))]> t) k' f' =
  if decide (k' = k /\ f' = f) then None else field_of t k' f'.
Proof.
  unfold field_of. destruct (decide (k = k')) as [->|Hk].
  - rewrite lookup_insert_eq. simpl. destruct (decide (f = f')) as [->|Hf].
    + rewrite lookup_delete_eq. by rewrite decide_True.
    + rewrite lookup_delete_ne by done. rewrite decide_False by (by intros [_ ?]).
      by destruct (t !! k').
  - rewrite lookup_insert_ne by done. rewrite decide_False; [done|]. by intros [? _].
Qed.

Lemma field_of_delete t k k' f' :
  field_of (delete k t) k' f' = if decide (k' = k) then None else field_of t k' f'.
Proof.
  unfold field_of. case_decide as Hk.
  - subst. by rewrite lookup_delete_eq.
  - by rewrite lookup_delete_ne by done.
Qed.

#[global] Instance field_of_proper : Proper ((≡@{table}) ==> (=) ==> (=) ==> (=)) field_of.
Proof. intros t u H k ? <- f ? <-. apply H. Qed.
#[global] Instance insert_field_proper k f v :
  Proper ((≡@{table}) ==> (≡@{table})) (fun t => <[k := <[f := v]> (default ∅ (t !! k))]> t).
Proof. intros t u H k' f'. rewrite !field_of_insert. case_decide; [done|apply H]. Qed.
#[global] Instance remove_field_proper k f :
  Proper ((≡@{table}) ==> (≡@{table})) (fun t => <[k := delete f (default ∅ (t !! k))]> t).
Proof. intros t u H k' f'. rewrite !field_of_remove. case_decide; [done|apply H]. Qed.
#[global] Instance delete_key_proper k : Proper ((≡@{table}) ==> (≡@{table})) (delete k).
Proof. intros t u H k' f'. rewrite !field_of_delete. case_decide; [done|apply H]. Qed.

(** ** Bolt *)

Record KfvInfo := { Key : string; Field : string; Value : string }.

(** bolt refuses longer keys and values inside a bucket (bolt.MaxKeySize and
    MaxValueSize). *)
Definition MaxKeySize : Z := 32768.
Definition MaxValueSize : Z := 2 ^ 31 - 2.

Class Bolt := {
  bolt : Type;
  bolt_new : bolt;
  (* what a read transaction sees: bucket name -> key -> value *)
  buckets : bolt -> table;
  CreateBucketIfNotExists : string -> bolt -> go bolt;
  bucket_Put : string -> string -> string -> bolt -> go bolt;
  bucket_Delete : string -> string -> bolt -> go bolt;
  DeleteBucket : string -> bolt -> go bolt;
  (* tx.ForEach over the buckets and b.ForEach over each of them *)
  bolt_ForEach : bolt -> list KfvInfo;
  buckets_new : buckets bolt_new = ∅;
  create_ok k db : k <> "" -> exists db',
    CreateBucketIfNotExists k db = Ret db' /\
    buckets db' = <[k := default ∅ (buckets db !! k)]> (buckets db);
  put_ok k f v b db : f <> "" -> Z.of_nat (String.length f) <= MaxKeySize -> Z.of_nat (String.length v) <= MaxValueSize ->
    buckets db !! k = Some b -> exists db',
    bucket_Put k f v db = Ret db' /\ buckets db' = <[k := <[f := v]> b]> (buckets db);
  delete_ok k f b db : buckets db !! k = Some b -> exists db',
    bucket_Delete k f db = Ret db' /\ buckets db' = <[k := delete f b]> (buckets db);
  delete_bucket_ok k db : is_Some (buckets db !! k) -> exists db',
    DeleteBucket k db = Ret db' /\ buckets db' = delete k (buckets db);
  delete_bucket_err k db : buckets db !! k = None -> exists e, DeleteBucket k db = Err e;
  foreach_ok db k f v :
    {| Key := k; Field := f; Value := v |} ∈ bolt_ForEach db <->
    field_of (buckets db) k f = Some v
}.

Section hash_set.
Context {B : Bolt}.

(** boltDB.Update(fn): the transaction is rolled back when fn returns an error. *)
Definition bolt_Update (db : bolt) (fn : bolt -> go bolt) : bolt :=
  match fn db with
  | Ret db' => db'
  | _ => db
  end.

(** The package variable [boltDB]: nil ([None]) until InitDb has opened a file. *)
Definition GetAllKfv (boltDB : option bolt) : list KfvInfo :=
  match boltDB with
  | None => []
  | Some db => bolt_ForEach db
  end.

Definition AddKvs (key field value : string) (boltDB : option bolt) : option bolt :=
  match boltDB with
  | None => None
  | Some db => Some (bolt_Update db (fun tx =>
      tx ← CreateBucketIfNotExists key tx;
      match bucket_Put key field value tx with   (* the error of Put is dropped *)
      | Ret tx' => Ret tx'
      | _ => Ret tx
      end))
  end.

Definition UpdateKvs (key field value : string) (boltDB : option bolt) : option bolt :=
  match boltDB with
  | None => None
  | Some _ => AddKvs key field value boltDB
  end.

Definition DelKvs (key field : string) (boltDB : option bolt) : option bolt :=
  match boltDB with
  | None => None
  | Some db => Some (bolt_Update db (fun tx =>
      tx ← CreateBucketIfNotExists key tx;
      match bucket_Delete key field tx with
      | Ret tx' => Ret tx'
      | _ => Ret tx
      end))
  end.

Definition DelKey (key : string) (boltDB : option bolt) : option bolt :=
  match boltDB with
  | None => None
  | Some db => Some (bolt_Update db (fun tx =>
      match DeleteBucket key tx with
      | Ret tx' => Ret tx'
      | _ => Ret tx
      end))
  end.

(** ** HashSet *)

Record HashSet := { Data : table }.

Definition NewHashSet : HashSet := {| Data := ∅ |}.

(** The store of a process: the set and the package variable boltDB. *)
Record Store := { Set_ : HashSet; boltDB : option bolt }.

Definition KeyPrefix (ρ : RangeOrder) (s : HashSet) (prefix : string) : list string :=
  filter (fun k => HasPrefix k prefix) (ρ _ (map_to_list (Data s)).*1).

Definition Hget (s : HashSet) (key field : string) : string :=
  if decide (key = "" \/ field = "") then ""
  else match Data s !! key with
       | None => ""
       | Some keyInfo => match keyInfo !! field with
                         | None => ""
                         | Some value => value
                         end
       end.

Definition Hgetall (ρ : RangeOrder) (s : HashSet) (key : string) : list string :=
  if decide (key = "") then []
  else match Data s !! key with
       | None => []
       | Some keyInfo => ρ _ (map_to_list keyInfo) ≫= fun '(field, value) => [field; value]
       end.

(** 0 - update, 1 - add, 2 - del; [false]: key or field empty. *)
Definition hset (s : HashSet) (key field value : string) : Z * bool * HashSet :=
  if decide (key = "" \/ field = "") then (0, false, s)
  else
    let keyInfo := default ∅ (Data s !! key) in
    let ok := bool_decide (is_Some (keyInfo !! field)) in
    if decide (value = "") then
      (2, true, {| Data := <[key := delete field keyInfo]> (Data s) |})
    else if ok then
      (0, true, {| Data := <[key := <[field := value]> keyInfo]> (Data s) |})
    else
      (1, true, {| Data := <[key := <[field := value]> keyInfo]> (Data s) |}).

(** The database write Hset makes after the change in memory. *)
Definition hset_db (status : Z) (key field value : string) (db : option bolt) : option bolt :=
  if decide (status = 0) then UpdateKvs key field value db
  else if decide (status = 1) then AddKvs key field value db
  else DelKvs key field db.

Definition Hset (st : Store) (key field value : string) : bool * Store :=
  let '(status, ok, s') := hset (Set_ st) key field value in
  if ok
  then (true, {| Set_ := s'; boltDB := hset_db status key field value (boltDB st) |})
  else (false, {| Set_ := s'; boltDB := boltDB st |}).

Definition hincrby (s : HashSet) (key field : string) (add : Z) : Z * string * bool * HashSet :=
  if decide (key = "" \/ field = "") then (0, "", false, s)
  else
    let keyInfo := default ∅ (Data s !! key) in
    let value := default "" (keyInfo !! field) in
    let ok := bool_decide (is_Some (keyInfo !! field)) in
    let oldValue := (Atoi value).1 in
    let new := Itoa (i64 (add + oldValue)) in
    ((if ok then 0 else 1), new, true,
     {| Data := <[key := <[field := new]> keyInfo]> (Data s) |}).

Definition Hincrby (st : Store) (key field : string) (add : Z) : string * Store :=
  let '(status, value, ok, s') := hincrby (Set_ st) key field add in
  if ok
  then (value, {| Set_ := s'; boltDB := if decide (status = 0)
                                       then UpdateKvs key field value (boltDB st)
                                       else AddKvs key field value (boltDB st) |})
  else ("", {| Set_ := s'; boltDB := boltDB st |}).

Definition Del (st : Store) (key : string) : Store :=
  {| Set_ := {| Data := delete key (Data (Set_ st)) |};
     boltDB := DelKey key (boltDB st) |}.

(** Load: every entry of the database is put into the set, in memory only. *)
Definition Load (st : Store) : Store :=
  {| Set_ := fold_left (fun s kfv => (hset s (Key kfv) (Field kfv) (Value kfv)).2)
               (GetAllKfv (boltDB st)) (Set_ st);
     boltDB := boltDB st |}.

(** ** Lemmas: the effect of each operation on the fields *)

(** The table after key.field was set to value ([""] removes the field). *)
Definition set_field (t : table) (k f v : string) : table :=
  if decide (v = "") then <[k := delete f (default ∅ (t !! k))]> t
  else <[k := <[f := v]> (default ∅ (t !! k))]> t.

Lemma field_of_set_field t k f v k' f' :
  field_of (set_field t k f v) k' f' =
  if decide (k' = k /\ f' = f) then (if decide (v = "") then None else Some v)
  else field_of t k' f'.
Proof.
  unfold set_field. destruct (decide (v = "")); [apply field_of_remove|apply field_of_insert].
Qed.

#[global] Instance set_field_proper :
  Proper ((≡@{table}) ==> (=) ==> (=) ==> (=) ==> (≡@{table})) set_field.
Proof.
  intros t u H k ? <- f ? <- v ? <- k' f'. rewrite !field_of_set_field.
  case_decide; [done|apply H].
Qed.

Lemma hset_valid s k f v : k <> "" -> f <> "" ->
  exists status, hset s k f v = (status, true, {| Data := set_field (Data s) k f v |}) /\
    (v = "" -> status = 2) /\ (v <> "" -> status = 0 \/ status = 1).
Proof.
  intros Hk Hf. unfold hset, set_field. rewrite decide_False by naive_solver.
  destruct (decide (v = "")); [eexists; split; [done|naive_solver]|].
  destruct (bool_decide _); (eexists; split; [done|naive_solver]).
Qed.

Lemma hset_invalid s k f v : k = "" \/ f = "" -> hset s k f v = (0, false, s).
Proof. intros H. unfold hset. by rewrite decide_True. Qed.

Lemma hset_data s k f v :
  Data (hset s k f v).2 = if decide (k = "" \/ f = "") then Data s else set_field (Data s) k f v.
Proof.
  case_decide as H; [by rewrite hset_invalid|].
  destruct (hset_valid s k f v) as (status & -> & _); naive_solver.
Qed.

Definition key_ok (f : string) : Prop := f <> "" /\ Z.of_nat (String.length f) <= MaxKeySize.
Definition value_ok (v : string) : Prop := Z.of_nat (String.length v) <= MaxValueSize.

Lemma AddKvs_buckets k f v db : k <> "" -> key_ok f -> value_ok v -> exists db',
  AddKvs k f v (Some db) = Some db' /\
  buckets db' = <[k := <[f := v]> (default ∅ (buckets db !! k))]> (buckets db).
Proof.
  intros Hk [Hf Hl] Hv. destruct (create_ok k db Hk) as (db1 & E1 & V1).
  destruct (put_ok k f v (default ∅ (buckets db !! k)) db1 Hf Hl Hv) as (db2 & E2 & V2).
  { rewrite V1. apply lookup_insert_eq. }
  exists db2. unfold AddKvs, bolt_Update. rewrite E1; simpl. rewrite E2. split; [done|].
  by rewrite V2, V1, insert_insert_eq.
Qed.

Lemma DelKvs_buckets k f db : k <> "" -> exists db',
  DelKvs k f (Some db) = Some db' /\
  buckets db' = <[k := delete f (default ∅ (buckets db !! k))]> (buckets db).
Proof.
  intros Hk. destruct (create_ok k db Hk) as (db1 & E1 & V1).
  destruct (delete_ok k f (default ∅ (buckets db !! k)) db1) as (db2 & E2 & V2).
  { rewrite V1. apply lookup_insert_eq. }
  exists db2. unfold DelKvs, bolt_Update. rewrite E1; simpl. rewrite E2. split; [done|].
  by rewrite V2, V1, insert_insert_eq.
Qed.

Lemma DelKey_buckets k db : exists db',
  DelKey k (Some db) = Some db' /\ buckets db' = delete k (buckets db).
Proof.
  unfold DelKey, bolt_Update. destruct (buckets db !! k) as [b|] eqn:E.
  - destruct (delete_bucket_ok k db) as (db' & -> & V); [by eexists|]. eauto.
  - destruct (delete_bucket_err k db E) as [e ->]. exists db. by rewrite delete_id.
Qed.

Lemma hset_db_buckets status k f v db : k <> "" -> key_ok f -> value_ok v ->
  (v = "" -> status = 2) -> (v <> "" -> status = 0 \/ status = 1) -> exists db',
  hset_db status k f v (Some db) = Some db' /\ buckets db' = set_field (buckets db) k f v.
Proof.
  intros Hk Hf Hl H2 H01. unfold hset_db, set_field. destruct (decide (v = "")) as [Hv|Hv].
  - rewrite H2 by done. simpl. by apply DelKvs_buckets.
  - destruct (H01 Hv) as [-> | ->]; simpl; by apply AddKvs_buckets.
Qed.

Lemma hset_db_none status k f v : hset_db status k f v None = None.
Proof. unfold hset_db. by repeat case_decide. Qed.

Lemma Hget_proper s s' k f : Data s ≡ Data s' -> Hget s k f = Hget s' k f.
Proof.
  intros H. specialize (H k f). unfold Hget, field_of in *. case_decide; [done|].
  destruct (Data s !! k) as [m|], (Data s' !! k) as [m'|]; simpl in *;
    rewrite ?H; try done; by rewrite <- H.
Qed.

(** ** The mirror: the database holds the fields of the set *)

Definition mirrored (st : Store) : Prop :=
  match boltDB st with
  | None => True
  | Some db => Data (Set_ st) ≡ buckets db
  end.

(** No key, field or stored value is empty, and every field fits a bucket. *)
Definition store_ok (s : HashSet) : Prop :=
  forall k f v, field_of (Data s) k f = Some v -> k <> "" /\ key_ok f /\ v <> "".

Inductive hs_op :=
  | OpHset (key field value : string)
  | OpHincrby (key field : string) (add : Z)
  | OpDel (key : string).

Definition hs_run (st : Store) (o : hs_op) : Store :=
  match o with
  | OpHset k f v => (Hset st k f v).2
  | OpHincrby k f n => (Hincrby st k f n).2
  | OpDel k => Del st k
  end.

(** The abstract store: what each field holds. *)
Definition kv := string -> string -> option string.
Definition kv_set (m : kv) (k f : string) (v : option string) : kv :=
  fun k' f' => if decide (k' = k /\ f' = f) then v else m k' f'.
Definition kv_run (m : kv) (o : hs_op) : kv :=
  match o with
  | OpHset k f v =>
      if decide (k = "" \/ f = "") then m
      else kv_set m k f (if decide (v = "") then None else Some v)
  | OpHincrby k f n =>
      if decide (k = "" \/ f = "") then m
      else kv_set m k f (Some (Itoa (i64 (n + (Atoi (default "" (m k f))).1))))
  | OpDel k => fun k' f' => if decide (k' = k) then None else m k' f'
  end.

Lemma kv_run_ext (m m' : kv) o k f :
  (forall k f, m k f = m' k f) -> kv_run m o k f = kv_run m' o k f.
Proof.
  intros H. destruct o; simpl; unfold kv_set; repeat case_decide; rewrite ?H; done.
Qed.

Definition op_ok (o : hs_op) : Prop :=
  match o with
  | OpHset _ f v => Z.of_nat (String.length f) <= MaxKeySize /\ value_ok v
  | OpHincrby _ f _ => Z.of_nat (String.length f) <= MaxKeySize
  | OpDel _ => True
  end.

Lemma hincrby_as_set s k f n : k <> "" -> f <> "" ->
  let new := Itoa (i64 (n + (Atoi (default "" (field_of (Data s) k f))).1)) in
  exists status, (status = 0 \/ status = 1) /\
    hincrby s k f n = (status, new, true, {| Data := set_field (Data s) k f new |}).
Proof.
  intros Hk Hf new. unfold hincrby. rewrite decide_False by naive_solver.
  assert (E : default ∅ (Data s !! k) !! f = field_of (Data s) k f).
  { unfold field_of. by destruct (Data s !! k). }
  unfold set_field. rewrite E. fold new.
  rewrite decide_False by apply Itoa_nonempty.
  destruct (bool_decide _); eauto.
Qed.

(** The set part of a step, whatever the database does. *)
Lemma hs_run_data st o k f :
  field_of (Data (Set_ (hs_run st o))) k f = kv_run (field_of (Data (Set_ st))) o k f.
Proof.
  destruct o as [k0 f0 v|k0 f0 n|k0]; simpl.
  - unfold Hset. case_decide as H; [by rewrite hset_invalid|].
    destruct (hset_valid (Set_ st) k0 f0 v) as (status & -> & _); [naive_solver..|].
    apply field_of_set_field.
  - unfold Hincrby. case_decide as H; [unfold hincrby; by rewrite decide_True by done|].
    destruct (hincrby_as_set (Set_ st) k0 f0 n) as (status & _ & ->); [naive_solver..|].
    simpl. rewrite field_of_set_field, (decide_False (P := _ = "")) by apply Itoa_nonempty. done.
  - apply field_of_delete.
Qed.

Lemma hs_run_ok st o : op_ok o -> store_ok (Set_ st) -> store_ok (Set_ (hs_run st o)).
Proof.
  intros Ho Hok k f v. rewrite hs_run_data. destruct o as [k0 f0 v0|k0 f0 n|k0]; simpl in *;
    unfold kv_set; repeat case_decide; try apply Hok; try done;
    intros [= <-]; destruct_and?; subst; unfold key_ok; try naive_solver.
  pose proof (Itoa_nonempty (i64 (n + (Atoi (default "" (field_of (Data (Set_ st)) k0 f0))).1))).
  naive_solver.
Qed.

Lemma Itoa_value_ok x : value_ok (Itoa (i64 x)).
Proof. pose proof (Itoa_length (i64 x) (wraps_range 64 x ltac:(lia))). unfold value_ok, MaxValueSize. lia. Qed.

Lemma hs_run_mirrored st o : op_ok o -> mirrored st -> mirrored (hs_run st o).
Proof.
  intros Ho Hm. unfold mirrored in *. destruct o as [k f v|k f n|k]; simpl in *.
  - unfold Hset. destruct (decide (k = "" \/ f = "")) as [H|H]; [by rewrite hset_invalid|].
    destruct (hset_valid (Set_ st) k f v) as (status & -> & H2 & H01); [naive_solver..|]. simpl.
    destruct (boltDB st) as [db|]; [|by rewrite hset_db_none].
    destruct (hset_db_buckets status k f v db) as (db' & -> & ->);
      [naive_solver|split; naive_solver|naive_solver|done..|]. by rewrite Hm.
  - unfold Hincrby. destruct (decide (k = "" \/ f = "")) as [H|H].
    { unfold hincrby. by rewrite decide_True. }
    destruct (hincrby_as_set (Set_ st) k f n) as (status & Hs & ->); [naive_solver..|]. simpl.
    destruct (boltDB st) as [db|]; [|by destruct (decide (status = 0))].
    set (new := Itoa _).
    destruct (hset_db_buckets status k f new db) as (db' & E & V);
      [naive_solver|split; naive_solver|by apply Itoa_value_ok|by intros ?%Itoa_nonempty|done|].
    replace (if decide (status = 0) then _ else _) with (Some db')
      by (rewrite <- E; by destruct Hs as [-> | ->]).
    by rewrite V, Hm.
  - destruct (boltDB st) as [db|]; [|done].
    destruct (DelKey_buckets k db) as (db' & -> & ->). by rewrite Hm.
Qed.

Lemma hs_run_some st o : is_Some (boltDB st) -> is_Some (boltDB (hs_run st o)).
Proof.
  intros [db Hdb]. destruct o as [k f v|k f n|k]; simpl; unfold Hset, Hincrby.
  - destruct (hset _ _ _ _) as [[status []] s']; simpl; rewrite Hdb; [|done].
    unfold hset_db. repeat case_decide; by eexists.
  - destruct (hincrby _ _ _ _) as [[[status new] []] s']; simpl; rewrite Hdb; [|done].
    case_decide; by eexists.
  - rewrite Hdb. by eexists.
Qed.

Lemma Load_fields (l : list KfvInfo) s k f :
  (forall e, e ∈ l -> Key e <> "" /\ Field e <> "" /\ Value e <> "") ->
  (forall e1 e2, e1 ∈ l -> e2 ∈ l -> Key e1 = Key e2 -> Field e1 = Field e2 -> Value e1 = Value e2) ->
  let s' := fold_left (fun s kfv => (hset s (Key kfv) (Field kfv) (Value kfv)).2) l s in
  (forall e, e ∈ l -> Key e = k -> Field e = f -> field_of (Data s') k f = Some (Value e)) /\
  ((forall e, e ∈ l -> ~ (Key e = k /\ Field e = f)) ->
    field_of (Data s') k f = field_of (Data s) k f).
Proof.
  revert s; induction l as [|e l IH] using rev_ind; intros s Hne Hfun s'.
  { split; [by intros ? ?%elem_of_nil|done]. }
  subst s'. rewrite fold_left_app. simpl.
  destruct (IH s) as [IH1 IH2]; clear IH; [set_solver..|].
  destruct (Hne e) as (Hk & Hf & Hv); [set_solver|].
  rewrite hset_data, decide_False by (by intros [?|?]). rewrite field_of_set_field.
  rewrite (decide_False (P := Value e = "")) by done. split.
  - intros e' He' <- <-. case_decide as H.
    + destruct H. f_equal. apply Hfun; set_solver.
    + apply elem_of_app in He' as [He'| ->%list_elem_of_singleton]; [by apply IH1|by destruct H].
  - intros H. rewrite decide_False.
    + apply IH2. set_solver.
    + intros [-> ->]. apply (H e); set_solver.
Qed.

(** Loading a database into an empty set gives the fields of the database. *)
Lemma Load_buckets db :
  (forall k f v, field_of (buckets db) k f = Some v -> k <> "" /\ f <> "" /\ v <> "") ->
  Data (Set_ (Load {| Set_ := NewHashSet; boltDB := Some db |})) ≡ buckets db.
Proof.
  intros Hne k f. simpl.
  destruct (Load_fields (bolt_ForEach db) NewHashSet k f) as [H1 H2].
  - intros [k' f' v'] He%foreach_ok. by apply Hne in He.
  - intros [k1 f1 v1] [k2 f2 v2] He1%foreach_ok He2%foreach_ok; simpl. intros -> ->. congruence.
  - destruct (field_of (buckets db) k f) as [v|] eqn:E.
    + by apply foreach_ok, H1 in E.
    + rewrite H2; [done|]. intros [k' f' v'] He%foreach_ok [? ?]; simpl in *. congruence.
Qed.

End hash_set.

(** ** An implementation of the class: a finite map *)
Definition kfv_list (t : table) : list KfvInfo :=
  map_to_list t ≫= fun '(k, m) =>
    (fun '(f, v) => {| Key := k; Field := f; Value := v |}) <$> map_to_list m.

Lemma elem_of_kfv_list t k f v :
  {| Key := k; Field := f; Value := v |} ∈ kfv_list t <-> field_of t k f = Some v.
Proof.
  unfold kfv_list, field_of. rewrite list_elem_of_bind. split.
  - intros ([k' m] & Hin & Ht%elem_of_map_to_list).
    apply list_elem_of_fmap in Hin as ([f' v'] & [= -> -> ->] & Hm%elem_of_map_to_list).
    by rewrite Ht.
  - intros (m & Ht & Hm)%bind_Some. exists (k, m). split; [|by apply elem_of_map_to_list].
    apply list_elem_of_fmap. exists (f, v). split; [done|by apply elem_of_map_to_list].
Qed.

Program Definition BoltMap : Bolt := {|
  bolt := table;
  bolt_new := ∅;
  buckets := fun t => t;
  CreateBucketIfNotExists k t :=
    if decide (k = "") then Err (ErrMsg "bucket name required")
    else Ret (<[k := default ∅ (t !! k)]> t);
  bucket_Put k f v t :=
    if decide (f = "") then Err (ErrMsg "key required")
    else if negb (Z.of_nat (String.length f) <=? MaxKeySize) then Err (ErrMsg "key too large")
    else if negb (Z.of_nat (String.length v) <=? MaxValueSize) then Err (ErrMsg "value too large")
    else Ret (<[k := <[f := v]> (default ∅ (t !! k))]> t);
  bucket_Delete k f t := Ret (<[k := delete f (default ∅ (t !! k))]> t);
  DeleteBucket k t :=
    if decide (is_Some (t !! k)) then Ret (delete k t) else Err (ErrMsg "bucket not found");
  bolt_ForEach := kfv_list
|}.
Next Obligation. done. Qed.
Next Obligation. intros k t Hk; simpl. rewrite decide_False by done. eauto. Qed.
Next Obligation.
  intros k f v b t Hf Hl Hv Hb; simpl. rewrite decide_False by done.
  apply Z.leb_le in Hl as ->. apply Z.leb_le in Hv as ->. rewrite Hb. eauto.
Qed.
Next Obligation. intros k f b t Hb; simpl. rewrite Hb. eauto. Qed.
Next Obligation. intros k t Hk; simpl. rewrite decide_True by done. eauto. Qed.
Next Obligation. intros k t Hk; simpl. rewrite decide_False; [eauto|]. by rewrite Hk; intros []. Qed.
Next Obligation. intros. apply elem_of_kfv_list. Qed.

(** ** Concurrent callers

    Every connection of the watch server runs Hset in a goroutine of its own.
    The change in memory happens under the mutex and the database write after
    it was released, so the two are separate atomic steps: [pending] holds the
    database writes that were not made yet, in any order. *)
Section concurrent.
Context {B : Bolt}.

Record DbWrite := { w_status : Z; w_key : string; w_field : string; w_value : string }.
Record ConcState := { mem : HashSet; db : option bolt; pending : list DbWrite }.

Inductive conc_step : ConcState -> ConcState -> Prop :=
  | step_mem st k f v status s' :
      hset (mem st) k f v = (status, true, s') ->
      conc_step st {| mem := s'; db := db st;
        pending := pending st ++ [{| w_status := status; w_key := k; w_field := f; w_value := v |}] |}
  | step_db st w ws1 ws2 :
      pending st = ws1 ++ w :: ws2 ->
      conc_step st {| mem := mem st;
        db := hset_db (w_status w) (w_key w) (w_field w) (w_value w) (db st);
        pending := ws1 ++ ws2 |}.

Definition conc_init : ConcState := {| mem := NewHashSet; db := Some bolt_new; pending := [] |}.

(** The field a restart would find, and the one a reader finds now. *)
Definition conc_mirrored (st : ConcState) : Prop :=
  mirrored {| Set_ := mem st; boltDB := db st |}.

End concurrent.

(** C1. The store implements a map from (key, field) to value: after any
    sequence of Hset, Hincrby and Del calls, with or without a database, Hget
    returns what the abstract map holds, where Hset with an empty value removes
    the field, Hincrby stores the decimal form of the wrapped 64-bit sum, and a
    call with an empty key or field changes nothing. *)
Theorem hashset_refines_kv (B : Bolt) (st : Store) (ops : list hs_op) (k f : string) :
  Hget (Set_ (fold_left hs_run ops st)) k f =
  if decide (k = "" \/ f = "") then ""
  else default "" (fold_left kv_run ops (field_of (Data (Set_ st))) k f).
Proof.
  unfold Hget. case_decide as H0; [done|]. clear H0.
  assert (Hr : forall m, (forall k f, field_of (Data (Set_ st)) k f = m k f) ->
    field_of (Data (Set_ (fold_left hs_run ops st))) k f = fold_left kv_run ops m k f).
  { revert st. induction ops as [|o ops IH]; intros st m Hm; [apply Hm|]. simpl.
    apply IH. intros k' f'. rewrite hs_run_data. by apply kv_run_ext. }
  rewrite <- (Hr _ ltac:(done)). unfold field_of.
  destruct (Data _ !! k) as [m|]; simpl; [|done]. by destruct (m !! f).
Qed.

(** C16. A restart loses nothing: start with an empty set and an empty
    database, run any sequence of Hset, Hincrby and Del calls (with fields and
    values that fit a bucket), restart with an empty set on the same database and call
    Load: every Hget answers as before the restart. *)
Theorem hashset_survives_restart (B : Bolt) (ops : list hs_op) (k f : string)
    (Hops : Forall op_ok ops) :
  let st := fold_left hs_run ops {| Set_ := NewHashSet; boltDB := Some bolt_new |} in
  Hget (Set_ (Load {| Set_ := NewHashSet; boltDB := boltDB st |})) k f = Hget (Set_ st) k f.
Proof.
  intros st.
  assert (Hinv : mirrored st /\ store_ok (Set_ st) /\ is_Some (boltDB st)).
  { subst st. induction ops as [|o ops IH] using rev_ind; simpl.
    - split_and!; [|done|by eexists]. intros k' f'. by rewrite buckets_new.
    - apply Forall_app in Hops as [Hops Ho]. rewrite Forall_singleton in Ho. destruct (IH Hops) as (Hm & Hk & Hs).
      rewrite fold_left_app. simpl. split_and!; [by apply hs_run_mirrored|by apply hs_run_ok|].
      by apply hs_run_some. }
  destruct Hinv as (Hm & Hok & [db Hdb]). unfold mirrored in Hm. rewrite Hdb in *.
  assert (E : Data (Set_ (Load {| Set_ := NewHashSet; boltDB := Some db |})) ≡ Data (Set_ st)).
  { rewrite Hm. apply Load_buckets. intros k' f' v'. rewrite <- (Hm k' f'). intros H%Hok.
    unfold key_ok in H. naive_solver. }
  apply Hget_proper; done.
Qed.

(** The persistence race: with two callers setting the same field there is
    an interleaving after which no write is pending, a reader sees the second
    value and the database holds the first one, so a restart brings back a value
    that had been overwritten. *)
Lemma hashset_persistence_race (B : Bolt) :
  exists st, rtc conc_step conc_init st /\ pending st = [] /\
    Hget (mem st) "k" "f" = "2" /\
    (exists d, db st = Some d /\ field_of (buckets d) "k" "f" = Some "1") /\
    ~ conc_mirrored st.
Proof.
  destruct (AddKvs_buckets "k" "f" "2" bolt_new) as (d1 & E1 & V1); [done|by split|done|].
  destruct (AddKvs_buckets "k" "f" "1" d1) as (d2 & E2 & V2); [done|by split|done|].
  assert (F2 : field_of (buckets d2) "k" "f" = Some "1").
  { rewrite V2. by rewrite field_of_insert. }
  eexists {| mem := {| Data := set_field (set_field ∅ "k" "f" "1") "k" "f" "2" |};
             db := Some d2; pending := [] |}.
  splits; [|done|reflexivity|by exists d2|].
  - eapply rtc_l; [by eapply (step_mem _ "k" "f" "1")|].
    eapply rtc_l; [by eapply (step_mem _ "k" "f" "2")|]. simpl.
    eapply rtc_l; [by eapply (step_db _ _ [_] [])|]. simpl.
    change (hset_db 0 "k" "f" "2" (Some bolt_new)) with (AddKvs "k" "f" "2" (Some bolt_new)).
    rewrite E1. eapply rtc_l; [by eapply (step_db _ _ [] [])|]. simpl.
    change (hset_db 1 "k" "f" "1" (Some d1)) with (AddKvs "k" "f" "1" (Some d1)).
    rewrite E2. apply rtc_refl.
  - unfold conc_mirrored, mirrored; simpl. intros H. specialize (H "k" "f"). by rewrite F2 in H.
Qed.

Lemma listings_spec (ρ : RangeOrder) (s : HashSet) (prefix k : string) :
  NoDup (KeyPrefix ρ s prefix) /\
  (k ∈ KeyPrefix ρ s prefix <-> HasPrefix k prefix = true /\ is_Some (Data s !! k)) /\
  (k <> "" -> exists l, Hgetall ρ s k = (l ≫= fun '(f, v) => [f; v]) /\ NoDup l.*1 /\
     forall f v, (f, v) ∈ l <-> field_of (Data s) k f = Some v).
Proof.
  unfold KeyPrefix. splits.
  - apply NoDup_filter. rewrite (range_order_perm ρ). apply NoDup_fst_map_to_list.
  - rewrite list_elem_of_filter, elem_of_range_order, list_elem_of_fmap. split.
    + intros [Hp ([k' m] & -> & Hin%elem_of_map_to_list)]. split; [by destruct (HasPrefix _ _)|by eexists].
    + intros [Hp [m Hm]]. split; [by rewrite Hp|]. exists (k, m). split; [done|].
      by apply elem_of_map_to_list.
  - intros Hk. unfold Hgetall, field_of. rewrite decide_False by done.
    destruct (Data s !! k) as [m|].
    + exists (ρ _ (map_to_list m)). split_and!; [done| |].
      * rewrite (range_order_perm ρ). apply NoDup_fst_map_to_list.
      * intros f v. rewrite elem_of_range_order. apply elem_of_map_to_list.
    + exists []. split_and!; [done|constructor|]. intros f v. split; [by intros ?%elem_of_nil|done].
Qed.

(** KeyPrefix lists, once each, exactly the keys of the store that start
    with the prefix, and Hgetall lists field and value of exactly the fields of
    the key, whatever the order of the map iteration. *)
Lemma hashset_listings (ρ : RangeOrder) (s : HashSet) (prefix k : string) :
  NoDup (KeyPrefix ρ s prefix) /\
  (k ∈ KeyPrefix ρ s prefix <-> HasPrefix k prefix = true /\ is_Some (Data s !! k)) /\
  (k <> "" -> exists l, Hgetall ρ s k = (l ≫= fun '(f, v) => [f; v]) /\ NoDup l.*1 /\
     forall f v, (f, v) ∈ l <-> field_of (Data s) k f = Some v).
Proof. apply listings_spec. Qed.

Lemma hashset_survives_restart_witness :
  let st := fold_left hs_run [OpHset "node" "a" "1"; OpHincrby "node" "b" 5; OpDel "x"]
              {| Set_ := NewHashSet; boltDB := Some (@bolt_new BoltMap) |} in
  @Hget (Set_ (Load {| Set_ := NewHashSet; boltDB := boltDB st |})) "node" "b" = "5".
Proof.
  intros st. unfold st.
  rewrite (hashset_survives_restart BoltMap).
  - vm_compute. reflexivity.
  - repeat constructor; vm_compute; discriminate.
Defined.
