(* ===== verification/WatchMessage.v ===== *)
(** * The watch protocol: watch/message.go

    A message is a line with the command, a line with the sequence number, a
    line with the number of values, and one line per value. *)

From Stdlib Require Import ZArith Lia Ascii String.
From stdpp Require Import base numbers list strings.
From S2P Require Import Prelude GoStd.

Record WatchMessage := { Cmd : string; Seq : Z; Values : list string }.

#[global] Instance WatchMessage_eq_dec : EqDecision WatchMessage.
Proof. solve_decision. Defined.

(** The loop that reads [n] values.  Every value takes at least one byte, so
    the length of the input bounds the number of rounds. *)
Fixpoint read_values (fuel : nat) (n : Z) (r : bytes) : go (list string * bytes) :=
  if n <=? 0 then Ret ([], r)
  else match fuel with
       | O => Panic "out of fuel"
       | S fuel' =>
           '(value, r) ← ReadString nl r;
           '(values, r) ← read_values fuel' (n - 1) r;
           Ret (TrimNl value :: values, r)
       end.

Definition ReadWatchMessage (r : bytes) : go (WatchMessage * bytes) :=
  '(cmd, r) ← ReadString nl r;
  '(nStr, r) ← ReadString nl r;
  let seq := (Atoi (TrimNl nStr)).1 in
  '(nStr, r) ← ReadString nl r;
  let n := (Atoi (TrimNl nStr)).1 in
  '(values, r) ← read_values (S (length r)) n r;
  Ret ({| Cmd := TrimSpace cmd; Seq := seq; Values := values |}, r).

(** A bufio.Writer: the bytes written so far, and the error of the connection
    below, which every later write returns. *)
Record Writer := { out : bytes; broken : option go_error }.

Definition WriteString (w : Writer) (s : string) : go Writer :=
  match broken w with
  | Some e => Err e
  | None => Ret {| out := out w ++ to_bytes s; broken := None |}
  end.

(** fmt.Sprintf("%v\n", s) *)
Definition line (s : string) : string := s +:+ String nl "".

Fixpoint write_values (w : Writer) (vs : list string) : go Writer :=
  match vs with
  | [] => Ret w
  | v :: vs' => w ← WriteString w (line v); write_values w vs'
  end.

Definition WriteWatchMessage (w : Writer) (message : WatchMessage) : go Writer :=
  w ← WriteString w (line (Cmd message));
  w ← WriteString w (line (Itoa (Seq message)));
  w ← WriteString w (line (Itoa (Z.of_nat (length (Values message)))));
  write_values w (Values message).

(** ** Lemmas *)

(** The bytes of a message. *)
Definition line_bytes (s : string) : bytes := to_bytes s ++ [nl].
Definition encode (m : WatchMessage) : bytes :=
  line_bytes (Cmd m) ++ line_bytes (Itoa (Seq m)) ++
  line_bytes (Itoa (Z.of_nat (length (Values m)))) ++ (Values m ≫= line_bytes).

Lemma to_bytes_line s : to_bytes (line s) = line_bytes s.
Proof. apply to_bytes_app. Qed.

Lemma write_values_ok w vs : broken w = None ->
  write_values w vs = Ret {| out := out w ++ (vs ≫= line_bytes); broken := None |}.
Proof.
  revert w; induction vs as [|v vs IH]; intros [o b] Hb; simpl in Hb; subst b; simpl.
  - by rewrite app_nil_r.
  - unfold WriteString; cbn [broken out mbind go_bind]. rewrite IH by done. simpl.
    by rewrite to_bytes_line, <- app_assoc.
Qed.

Lemma WriteWatchMessage_encode w m : broken w = None ->
  WriteWatchMessage w m = Ret {| out := out w ++ encode m; broken := None |}.
Proof.
  destruct w as [o b]; simpl; intros ->. unfold WriteWatchMessage, WriteString, encode.
  cbn [broken out mbind go_bind]. rewrite write_values_ok by done. simpl.
  by rewrite !to_bytes_line, <- !app_assoc.
Qed.

(** A message that survives the wire: no newline anywhere, a command without
    white space at its ends, and numbers of Go's int. *)
Definition msg_ok (m : WatchMessage) : Prop :=
  no_nl (Cmd m) /\ trimmed (Cmd m) /\ in_s 64 (Seq m) /\
  Forall no_nl (Values m) /\ Z.of_nat (length (Values m)) < 2 ^ 63.
#[global] Instance msg_ok_dec m : Decision (msg_ok m).
Proof. unfold msg_ok, no_nl. apply _. Defined.

Lemma ReadString_line_bytes s r :
  no_nl s -> ReadString nl (line_bytes s ++ r) = Ret (line s, r).
Proof. intros H. unfold line_bytes. rewrite <- app_assoc. by apply ReadString_line. Qed.

Lemma read_values_line_bytes vs r fuel n :
  Forall no_nl vs -> n = Z.of_nat (length vs) -> (length (vs ≫= line_bytes) <= fuel)%nat ->
  read_values fuel n ((vs ≫= line_bytes) ++ r) = Ret (vs, r).
Proof.
  intros Hvs. revert fuel n. induction Hvs as [|v vs Hv _ IH]; intros fuel n -> Hf.
  - destruct fuel; done.
  - change ((v :: vs) ≫= line_bytes) with (line_bytes v ++ (vs ≫= line_bytes)) in *.
    rewrite length_app in Hf.
    assert (0 < length (line_bytes v))%nat by (unfold line_bytes; rewrite length_app; simpl; lia).
    destruct fuel as [|fuel]; [lia|]. cbn [read_values].
    destruct (Z.leb_spec (Z.of_nat (length (v :: vs))) 0); [simpl in *; lia|].
    rewrite <- app_assoc, ReadString_line_bytes by done. cbn [mbind go_bind].
    rewrite IH by (cbn [length]; lia). cbn [mbind go_bind].
    unfold line. by rewrite TrimNl_line.
Qed.

Lemma read_values_no_panic fuel n r s : (length r < fuel)%nat -> read_values fuel n r <> Panic s.
Proof.
  revert n r; induction fuel as [|fuel IH]; intros n r Hr; [lia|]. cbn [read_values].
  destruct (n <=? 0); [done|].
  destruct (ReadString nl r) as [[v r']|e|w] eqn:E; cbn [mbind go_bind]; [|done|].
  - apply ReadString_shorter in E. destruct (read_values fuel (n - 1) r') as [[]| |] eqn:E'; try done.
    intros [= ->]. eapply IH; [|exact E']. lia.
  - by apply ReadString_no_panic in E.
Qed.

(** One line of a truncated message: the reader reports the end of the stream,
    or the line is complete. *)
Lemma prefix_line p s t :
  no_nl s -> p `prefix_of` line_bytes s ++ t ->
  ReadString nl p = Err EOF \/ exists p', p = line_bytes s ++ p' /\ p' `prefix_of` t.
Proof.
  intros Hs [q Hq]. unfold line_bytes in *. rewrite <- app_assoc in Hq. simpl in Hq.
  destruct (decide (length p <= length (to_bytes s))%nat) as [Hle|Hgt].
  - left. apply ReadString_eof. pose proof (f_equal (take (length p)) Hq) as Hp.
    rewrite take_app_length, take_app_le in Hp by done. rewrite <- Hp. by apply Forall_take.
  - right. exists (drop (S (length (to_bytes s))) p).
    assert (Hp : p = take (S (length (to_bytes s))) p ++ drop (S (length (to_bytes s))) p)
      by (by rewrite take_drop).
    pose proof (f_equal (take (S (length (to_bytes s)))) Hq) as Hq1.
    rewrite (take_app_le p), (cons_middle nl (to_bytes s) t), (app_assoc (to_bytes s) [nl] t),
      (take_app_le (to_bytes s ++ [nl])), (take_ge (to_bytes s ++ [nl])) in Hq1
      by (rewrite ?length_app; simpl; lia).
    split; [by rewrite Hq1, take_drop|].
    exists q. apply (app_inv_head (to_bytes s ++ [nl])).
    rewrite <- app_assoc. simpl. rewrite Hq, Hq1, app_assoc, take_drop. done.
Qed.

Lemma ReadWatchMessage_encode m r : msg_ok m -> ReadWatchMessage (encode m ++ r) = Ret (m, r).
Proof.
  intros (Hc & Ht & Hs & Hv & Hl). unfold ReadWatchMessage, encode. rewrite <- !app_assoc.
  rewrite ReadString_line_bytes by done. cbn [mbind go_bind].
  rewrite ReadString_line_bytes by apply Itoa_no_nl. cbn [mbind go_bind].
  rewrite ReadString_line_bytes by apply Itoa_no_nl. cbn [mbind go_bind].
  unfold line. rewrite !TrimNl_line by apply Itoa_no_nl.
  rewrite !Atoi_Itoa by (done || (split; lia)). cbn [fst].
  rewrite read_values_line_bytes by (done || (rewrite length_app; lia)). cbn [mbind go_bind].
  rewrite TrimSpace_line by done. by destruct m.
Qed.

Lemma read_values_prefix vs p fuel n :
  Forall no_nl vs -> n = Z.of_nat (length vs) -> (length p < fuel)%nat ->
  p `prefix_of` (vs ≫= line_bytes) -> p <> (vs ≫= line_bytes) ->
  read_values fuel n p = Err EOF.
Proof.
  intros Hvs. revert p fuel n. induction Hvs as [|v vs Hv _ IH]; intros p fuel n -> Hf Hp Hne.
  - by apply prefix_nil_inv in Hp.
  - change ((v :: vs) ≫= line_bytes) with (line_bytes v ++ (vs ≫= line_bytes)) in *.
    destruct fuel as [|fuel]; [lia|]. cbn [read_values].
    destruct (Z.leb_spec (Z.of_nat (length (v :: vs))) 0); [simpl in *; lia|].
    destruct (prefix_line _ _ _ Hv Hp) as [E|(p' & -> & Hp')]; [by rewrite E|].
    rewrite ReadString_line_bytes by done. cbn [mbind go_bind].
    assert (0 < length (line_bytes v))%nat by (unfold line_bytes; rewrite length_app; simpl; lia).
    rewrite length_app in Hf. rewrite IH; [done|cbn [length]; lia|lia|done|by intros ->].
Qed.

(** Read [k] messages, one after the other. *)
Fixpoint read_messages (k : nat) (r : bytes) : go (list WatchMessage * bytes) :=
  match k with
  | O => Ret ([], r)
  | S k' => '(m, r) ← ReadWatchMessage r; '(ms, r) ← read_messages k' r; Ret (m :: ms, r)
  end.

(** C21. Round trip on a stream: the messages written one after the other by
    WriteWatchMessage are read back one after the other by ReadWatchMessage, and
    the bytes that follow stay in the reader. *)
Theorem watch_message_roundtrip (ms : list WatchMessage) (w : Writer) (rest : bytes)
    (Hok : Forall msg_ok ms) (Hw : broken w = None) :
  exists bs,
    fold_left (fun gw m => w ← gw; WriteWatchMessage w m) ms (Ret w)
      = Ret {| out := out w ++ bs; broken := None |} /\
    read_messages (length ms) (bs ++ rest) = Ret (ms, rest).
Proof.
  revert w Hw. induction Hok as [|m ms Hm _ IH]; intros w Hw.
  - exists []. rewrite app_nil_r. destruct w; simpl in *. by subst.
  - simpl. rewrite WriteWatchMessage_encode by done.
    destruct (IH {| out := out w ++ encode m; broken := None |} eq_refl) as (bs & -> & Hr).
    exists (encode m ++ bs). simpl. split; [by rewrite app_assoc|].
    rewrite <- app_assoc, ReadWatchMessage_encode by done. simpl. by rewrite Hr.
Qed.

(** A message cut off anywhere before its end is never taken for a
    message: ReadWatchMessage returns io.EOF.  And on any input at all the reader
    returns a message or an error: it never panics. *)
Lemma watch_message_truncated (m : WatchMessage) (p r : bytes) (s : string)
    (Hok : msg_ok m) (Hp : p `prefix_of` encode m) (Hne : p <> encode m) :
  ReadWatchMessage p = Err EOF /\ ReadWatchMessage r <> Panic s.
Proof.
  split.
  - destruct Hok as (Hc & Ht & Hs & Hv & Hl). unfold ReadWatchMessage, encode in *.
    destruct (prefix_line _ _ _ Hc Hp) as [E|(p1 & -> & Hp1)]; [by rewrite E|].
    rewrite ReadString_line_bytes by done. cbn [mbind go_bind].
    destruct (prefix_line _ _ _ (Itoa_no_nl _) Hp1) as [E|(p2 & -> & Hp2)]; [by rewrite E|].
    rewrite ReadString_line_bytes by apply Itoa_no_nl. cbn [mbind go_bind].
    destruct (prefix_line _ _ _ (Itoa_no_nl _) Hp2) as [E|(p3 & -> & Hp3)]; [by rewrite E|].
    rewrite ReadString_line_bytes by apply Itoa_no_nl. cbn [mbind go_bind].
    unfold line. rewrite !TrimNl_line, !Atoi_Itoa by (apply Itoa_no_nl || done || (split; lia)).
    rewrite (read_values_prefix (Values m)); [done|done|done|lia|done|].
    intros ->. by apply Hne.
  - unfold ReadWatchMessage.
    destruct (ReadString nl r) as [[c r1]|e1|w1] eqn:E1; [|done|by apply ReadString_no_panic in E1].
    cbn [mbind go_bind].
    destruct (ReadString nl r1) as [[n1 r2]|e2|w2] eqn:E2; [|done|by apply ReadString_no_panic in E2].
    cbn [mbind go_bind].
    destruct (ReadString nl r2) as [[n2 r3]|e3|w3] eqn:E3; [|done|by apply ReadString_no_panic in E3].
    cbn [mbind go_bind].
    destruct (read_values _ _ _) as [[vs r4]|e4|w4] eqn:E4; [done|done|].
    by apply read_values_no_panic in E4; [|lia].
Qed.

(** Values are not escaped: a newline inside a value ends it, and the rest
    of the value is left in the stream, where the next ReadWatchMessage takes it
    for the beginning of a message. *)
Lemma watch_message_newline_desync (cmd v1 v2 : string) (seq : Z) (rest : bytes)
    (Hcmd : no_nl cmd /\ trimmed cmd) (Hv : no_nl v1) (Hseq : in_s 64 seq) :
  ReadWatchMessage (encode {| Cmd := cmd; Seq := seq; Values := [v1 +:+ String nl v2] |} ++ rest)
  = Ret ({| Cmd := cmd; Seq := seq; Values := [v1] |}, line_bytes v2 ++ rest).
Proof.
  assert (E : encode {| Cmd := cmd; Seq := seq; Values := [v1 +:+ String nl v2] |} ++ rest
            = encode {| Cmd := cmd; Seq := seq; Values := [v1] |} ++ (line_bytes v2 ++ rest)).
  { unfold encode; simpl. unfold line_bytes. rewrite to_bytes_app. simpl.
    rewrite <- !app_assoc. simpl. rewrite <- ?app_assoc. simpl. by rewrite <- (app_assoc (to_bytes v2)). }
  rewrite E. apply ReadWatchMessage_encode. destruct Hcmd. unfold msg_ok; simpl.
  splits; try done. by constructor.
Qed.

Definition sample_msg : WatchMessage :=
  {| Cmd := "hset"; Seq := 7; Values := ["node:a"; "port"; ""] |}.

Lemma watch_message_roundtrip_witness : exists bs,
  fold_left (fun gw m => w ← gw; WriteWatchMessage w m) [sample_msg; sample_msg]
    (Ret {| out := []; broken := None |}) = Ret {| out := [] ++ bs; broken := None |} /\
  read_messages 2 (bs ++ []) = Ret ([sample_msg; sample_msg], []).
Proof.
  apply (watch_message_roundtrip [sample_msg; sample_msg] {| out := []; broken := None |} []).
  - apply (bool_decide_unpack _). vm_compute. exact I.
  - reflexivity.
Defined.

Lemma watch_message_truncated_witness :
  ReadWatchMessage (to_bytes "hset") = Err EOF /\ ReadWatchMessage [] <> Panic "".
Proof.
  apply (watch_message_truncated sample_msg).
  - apply (bool_decide_unpack _). vm_compute. exact I.
  - exists (drop 4 (encode sample_msg)). reflexivity.
  - discriminate.
Defined.

Lemma watch_message_newline_desync_witness :
  ReadWatchMessage (encode {| Cmd := "hset"; Seq := 1; Values := ["a" +:+ String nl "b"] |} ++ [])
  = Ret ({| Cmd := "hset"; Seq := 1; Values := ["a"] |}, line_bytes "b" ++ []).
Proof.
  apply (watch_message_newline_desync "hset" "a" "b" 1 []).
  - split; apply (bool_decide_unpack _); vm_compute; exact I.
  - apply (bool_decide_unpack _). vm_compute. exact I.
  - split; reflexivity || lia.
Defined.
