(* ===== verification/SyncMap.v ===== *)
(** * The concurrent map: util/sync_map.go

    A [Map] keeps a read-only map that is loaded without the lock, a dirty map
    that needs it, and shared entries: both maps hold pointers to the same
    entry, so the entries live in a heap and a deletion through one map is
    seen through the other.  The model is sequential: one operation runs at a
    time, so a compare-and-swap on the pointer just loaded succeeds and the
    retry loops take one round; the second look at the read map under the lock
    is kept.  A write to a nil dirty map is a Go panic and stays one here. *)

From Stdlib Require Import ZArith Lia String.
From stdpp Require Import base numbers list strings gmap.
From S2P Require Import Prelude.

Module SyncMap.
Section sync_map.
Context {K V : Type} `{Countable K}.

(** entry.p: nil, the [expunged] mark, or a pointer to a value. *)
Inductive ptr :=
  | PNil
  | PExpunged
  | PVal (v : V).

Record Map := {
  heap : gmap nat ptr;         (* the entries *)
  next : nat;                  (* the next entry to be allocated *)
  read_m : gmap K nat;         (* read.m *)
  amended : bool;              (* read.amended *)
  dirty : option (gmap K nat); (* nil: None *)
  misses : Z
}.

Definition new_map : Map :=
  {| heap := ∅; next := 0; read_m := ∅; amended := false; dirty := None; misses := 0 |}.

Definition set_heap (m : Map) h : Map :=
  {| heap := h; next := next m; read_m := read_m m; amended := amended m;
     dirty := dirty m; misses := misses m |}.
Definition set_dirty (m : Map) d : Map :=
  {| heap := heap m; next := next m; read_m := read_m m; amended := amended m;
     dirty := d; misses := misses m |}.
Definition set_read (m : Map) r a : Map :=
  {| heap := heap m; next := next m; read_m := r; amended := a;
     dirty := dirty m; misses := misses m |}.
Definition set_misses (m : Map) n : Map :=
  {| heap := heap m; next := next m; read_m := read_m m; amended := amended m;
     dirty := dirty m; misses := n |}.

Definition get_p (m : Map) (e : nat) : ptr := default PNil (heap m !! e).
Definition set_p (m : Map) (e : nat) (p : ptr) : Map := set_heap m (<[e := p]> (heap m)).

(** m.dirty[key]; reading a nil map finds nothing. *)
Definition dirty_get (m : Map) (key : K) : option nat := dirty m ≫= fun d => d !! key.
(** m.dirty[key] = e *)
Definition dirty_put (m : Map) (key : K) (e : nat) : go Map :=
  match dirty m with
  | None => Panic "assignment to entry in nil map"
  | Some d => Ret (set_dirty m (Some (<[key := e]> d)))
  end.

(** ** Entries *)

Definition newEntry (m : Map) (v : V) : nat * Map :=
  (next m, {| heap := <[next m := PVal v]> (heap m); next := S (next m); read_m := read_m m;
              amended := amended m; dirty := dirty m; misses := misses m |}).

Definition val (p : ptr) : option V :=
  match p with PVal v => Some v | _ => None end.

Definition entry_load (m : Map) (e : nat) : option V := val (get_p m e).

Definition tryCompareAndSwap (m : Map) (e : nat) (old new : V) : bool * Map :=
  match get_p m e with
  | PNil | PExpunged => (false, m)
  | PVal _ => (true, set_p m e (PVal new))
  end.

Definition unexpungeLocked (m : Map) (e : nat) : bool * Map :=
  match get_p m e with
  | PExpunged => (true, set_p m e PNil)
  | _ => (false, m)
  end.

Definition swapLocked (m : Map) (e : nat) (v : V) : ptr * Map :=
  (get_p m e, set_p m e (PVal v)).

(** [None]: the entry is expunged (ok == false). *)
Definition tryLoadOrStore (m : Map) (e : nat) (v : V) : option (V * bool) * Map :=
  match get_p m e with
  | PExpunged => (None, m)
  | PVal w => (Some (w, true), m)
  | PNil => (Some (v, false), set_p m e (PVal v))
  end.

Definition entry_delete (m : Map) (e : nat) : option V * Map :=
  match get_p m e with
  | PNil | PExpunged => (None, m)
  | PVal v => (Some v, set_p m e PNil)
  end.

Definition trySwap (m : Map) (e : nat) (v : V) : option ptr * Map :=
  match get_p m e with
  | PExpunged => (None, m)
  | p => (Some p, set_p m e (PVal v))
  end.

Definition tryExpungeLocked (m : Map) (e : nat) : bool * Map :=
  match get_p m e with
  | PNil => (true, set_p m e PExpunged)
  | PExpunged => (true, m)
  | PVal _ => (false, m)
  end.

(** ** The two maps *)

Definition dirty_len (m : Map) : Z := Z.of_nat (size (default ∅ (dirty m))).

Definition missLocked (m : Map) : Map :=
  let m := set_misses m (misses m + 1) in
  if misses m <? dirty_len m then m
  else set_misses (set_dirty (set_read m (default ∅ (dirty m)) false) None) 0.

Definition dirty_step (m : Map) (ke : K * nat) : Map :=
  let '(k, e) := ke in
  let '(isExpunged, m) := tryExpungeLocked m e in
  if isExpunged then m else set_dirty m (Some (<[k := e]> (default ∅ (dirty m)))).

Definition dirtyLocked (m : Map) : Map :=
  match dirty m with
  | Some _ => m
  | None => fold_left dirty_step (map_to_list (read_m m)) (set_dirty m (Some ∅))
  end.

(** The locked part of Load and CompareAndDelete: the read map is loaded again,
    a miss is recorded when the dirty map had to be consulted. *)
Definition lookup_locked (m : Map) (key : K) : option nat * Map :=
  match read_m m !! key with
  | Some e => (Some e, m)
  | None => if amended m then (dirty_get m key, missLocked m) else (None, m)
  end.

Definition find_entry (m : Map) (key : K) : option nat * Map :=
  match read_m m !! key with
  | Some e => (Some e, m)
  | None => if amended m then lookup_locked m key else (None, m)
  end.

(** ** Operations: [None] is (zero, false) *)

Definition Load (m : Map) (key : K) : option V * Map :=
  let '(e, m) := find_entry m key in
  match e with
  | None => (None, m)
  | Some e => (entry_load m e, m)
  end.

(** The value behind a swapped-out pointer; following the expunged mark would
    read a foreign object. *)
Definition deref (p : ptr) : go (option V) :=
  match p with
  | PNil => Ret None
  | PVal v => Ret (Some v)
  | PExpunged => Panic "dereference of expunged"
  end.

Definition Swap (m : Map) (key : K) (value : V) : go (option V * Map) :=
  let fast := match read_m m !! key with
              | Some e => trySwap m e value
              | None => (None, m)
              end in
  match fast with
  | (Some p, m) => v ← deref p; Ret (v, m)
  | (None, m) =>
      match read_m m !! key with
      | Some e =>
          let '(was, m) := unexpungeLocked m e in
          m ← (if was : bool then dirty_put m key e else Ret m);
          let '(p, m) := swapLocked m e value in
          v ← deref p; Ret (v, m)
      | None =>
          match dirty_get m key with
          | Some e =>
              let '(p, m) := swapLocked m e value in
              v ← deref p; Ret (v, m)
          | None =>
              let m := if amended m then m else set_read (dirtyLocked m) (read_m m) true in
              let '(e, m) := newEntry m value in
              m ← dirty_put m key e;
              Ret (None, m)
          end
      end
  end.

Definition Store (m : Map) (key : K) (value : V) : go Map :=
  '(_, m) ← Swap m key value; Ret m.

Definition LoadOrStore (m : Map) (key : K) (value : V) : go ((V * bool) * Map) :=
  let fast := match read_m m !! key with
              | Some e => tryLoadOrStore m e value
              | None => (None, m)
              end in
  match fast with
  | (Some r, m) => Ret (r, m)
  | (None, m) =>
      match read_m m !! key with
      | Some e =>
          let '(was, m) := unexpungeLocked m e in
          m ← (if was : bool then dirty_put m key e else Ret m);
          let '(r, m) := tryLoadOrStore m e value in
          match r with
          | Some r => Ret (r, m)
          | None => Panic "zero value of an expunged entry"
          end
      | None =>
          match dirty_get m key with
          | Some e =>
              let '(r, m) := tryLoadOrStore m e value in
              let m := missLocked m in
              match r with
              | Some r => Ret (r, m)
              | None => Panic "zero value of an expunged entry"
              end
          | None =>
              let m := if amended m then m else set_read (dirtyLocked m) (read_m m) true in
              let '(e, m) := newEntry m value in
              m ← dirty_put m key e;
              Ret ((value, false), m)
          end
      end
  end.

Definition LoadAndDelete (m : Map) (key : K) : option V * Map :=
  let '(e, m) :=
    match read_m m !! key with
    | Some e => (Some e, m)
    | None =>
        if amended m then
          match read_m m !! key with
          | Some e => (Some e, m)
          | None =>
              if amended m then
                (dirty_get m key, missLocked (set_dirty m (delete key <$> dirty m)))
              else (None, m)
          end
        else (None, m)
    end in
  match e with
  | Some e => entry_delete m e
  | None => (None, m)
  end.

Definition Delete (m : Map) (key : K) : Map := (LoadAndDelete m key).2.

Definition CompareAndSwap (m : Map) (key : K) (old new : V) : bool * Map :=
  match read_m m !! key with
  | Some e => tryCompareAndSwap m e old new
  | None =>
      if amended m then
        match read_m m !! key with
        | Some e => tryCompareAndSwap m e old new
        | None =>
            match dirty_get m key with
            | Some e =>
                let '(swapped, m) := tryCompareAndSwap m e old new in
                (swapped, missLocked m)
            | None => (false, m)
            end
        end
      else (false, m)
  end.

Definition CompareAndDelete (m : Map) (key : K) (old : V) : bool * Map :=
  let '(e, m) := find_entry m key in
  match e with
  | None => (false, m)
  | Some e =>
      match get_p m e with
      | PNil | PExpunged => (false, m)
      | PVal _ => (true, set_p m e PNil)
      end
  end.

(** Range promotes the dirty map, then visits the entries of the read map that
    hold a value until the callback returns false. *)
Definition promote (m : Map) : Map :=
  if amended m then
    if amended m then set_misses (set_dirty (set_read m (default ∅ (dirty m)) false) None) 0
    else m
  else m.

Definition visible (ρ : RangeOrder) (m : Map) : list (K * V) :=
  ρ _ (map_to_list (read_m m)) ≫= fun '(k, e) =>
    match entry_load m e with Some v => [(k, v)] | None => [] end.

Fixpoint visit {S} (f : S -> K -> V -> S * bool) (s : S) (l : list (K * V)) : S :=
  match l with
  | [] => s
  | (k, v) :: l' => let '(s, more) := f s k v in if more : bool then visit f s l' else s
  end.

Definition Range {S} (ρ : RangeOrder) (m : Map) (f : S -> K -> V -> S * bool) (s : S) : S * Map :=
  let m := promote m in (visit f s (visible ρ m), m).

Definition KeysFunc (ρ : RangeOrder) (m : Map) (f : K -> V -> bool) : list K * Map :=
  Range ρ m (fun keys k v => (if f k v then keys ++ [k] else keys, true)) [].
Definition Keys (ρ : RangeOrder) (m : Map) : list K * Map :=
  Range ρ m (fun keys k _ => (keys ++ [k], true)) [].
Definition Values (ρ : RangeOrder) (m : Map) : list V * Map :=
  Range ρ m (fun vs _ v => (vs ++ [v], true)) [].
Definition Count (ρ : RangeOrder) (m : Map) : Z * Map :=
  Range ρ m (fun n _ _ => (i64 (n + 1), true)) 0.

(** ** The invariant and the abstraction *)

(** [key] leads to entry [e] through one of the two maps. *)
Definition any (m : Map) (k : K) (e : nat) : Prop :=
  read_m m !! k = Some e \/ dirty_get m k = Some e.

Record wf (m : Map) : Prop := {
  wf_fresh : forall k e, any m k e -> (e < next m)%nat;
  wf_inj : forall k1 k2 e, any m k1 e -> any m k2 e -> k1 = k2;
  (* without a dirty map the read map is complete and nothing is expunged *)
  wf_clean : dirty m = None -> amended m = false /\
    forall k e, read_m m !! k = Some e -> get_p m e <> PExpunged;
  (* with one, it holds every entry that is not expunged *)
  wf_dirty : forall d, dirty m = Some d -> amended m = true /\
    (forall k e, read_m m !! k = Some e -> get_p m e = PExpunged -> d !! k = None) /\
    (forall k e, read_m m !! k = Some e -> get_p m e <> PExpunged -> d !! k = Some e) /\
    (forall k e, d !! k = Some e -> get_p m e <> PExpunged)
}.

(** What a lookup of [k] finds. *)
Definition abs (m : Map) (k : K) : option V :=
  match read_m m !! k with
  | Some e => entry_load m e
  | None => dirty_get m k ≫= entry_load m
  end.

Definition upd (a : K -> option V) (k : K) (o : option V) : K -> option V :=
  fun k' => if decide (k' = k) then o else a k'.

Lemma get_set_p m e p e' : get_p (set_p m e p) e' = if decide (e' = e) then p else get_p m e'.
Proof.
  unfold get_p; simpl. destruct (decide (e' = e)) as [->|Hne].
  - by rewrite lookup_insert_eq.
  - by rewrite lookup_insert_ne.
Qed.

Lemma amended_dirty m : wf m -> amended m = true -> exists d, dirty m = Some d.
Proof.
  intros W Ha. destruct (dirty m) as [d|] eqn:E; [eauto|].
  destruct (wf_clean m W E). congruence.
Qed.

Lemma unamended_clean m : wf m -> amended m = false -> dirty m = None.
Proof.
  intros W Ha. destruct (dirty m) as [d|] eqn:E; [|done].
  destruct (wf_dirty m W d E). congruence.
Qed.

Lemma read_dirty_same m k e e' :
  wf m -> read_m m !! k = Some e -> dirty_get m k = Some e' -> e = e'.
Proof.
  unfold dirty_get. intros W Hr (d & Hd & Hk)%bind_Some.
  destruct (wf_dirty m W d Hd) as (_ & H1 & H2 & _).
  destruct (get_p m e) eqn:E; [..|rewrite (H2 k e Hr) in Hk; congruence].
  - rewrite (H2 k e Hr) in Hk; congruence.
  - rewrite (H1 k e Hr E) in Hk. done.
Qed.

Lemma abs_any m k e : wf m -> any m k e -> abs m k = entry_load m e.
Proof.
  intros W [Hr|Hd]; unfold abs; [by rewrite Hr|].
  destruct (read_m m !! k) as [e'|] eqn:E; [by rewrite (read_dirty_same m k e' e)|].
  by rewrite Hd.
Qed.

(** Storing through an entry that is not expunged. *)
Lemma set_p_wf m e p :
  wf m -> get_p m e <> PExpunged -> p <> PExpunged -> wf (set_p m e p).
Proof.
  intros W He Hp. split.
  - apply (wf_fresh m W).
  - apply (wf_inj m W).
  - intros Hd. destruct (wf_clean m W Hd) as [Ha Hr]. split; [done|]. intros k e' Hk.
    rewrite get_set_p. case_decide; [done|eauto].
  - intros d Hd. destruct (wf_dirty m W d Hd) as (Ha & H1 & H2 & H3). split_and!; [done|..].
    + intros k e' Hk. rewrite get_set_p. case_decide; [done|eauto].
    + intros k e' Hk. rewrite get_set_p. case_decide as Hee; [subst; eauto|eauto].
    + intros k e' Hk. rewrite get_set_p. case_decide; [done|eauto].
Qed.

Lemma set_p_abs m k e p :
  wf m -> any m k e -> forall k', abs (set_p m e p) k' = upd (abs m) k (val p) k'.
Proof.
  intros W Hk k'. unfold upd. case_decide as E.
  - subst k'. unfold abs at 1. simpl.
    assert (Hg : forall e', any m k e' -> entry_load (set_p m e p) e' = val p).
    { intros e' He'. unfold entry_load. rewrite get_set_p. rewrite decide_True; [done|].
      destruct Hk as [Hk|Hk], He' as [He'|He'];
        [congruence|by rewrite (read_dirty_same m k e e')|by rewrite (read_dirty_same m k e' e)|congruence]. }
    destruct (read_m m !! k) as [e'|] eqn:E'; [apply Hg; by left|].
    change (dirty_get (set_p m e p) k) with (dirty_get m k).
    destruct Hk as [Hk|Hk]; [congruence|]. rewrite Hk. apply Hg. by right.
  - assert (Hg : forall e', any m k' e' -> entry_load (set_p m e p) e' = entry_load m e').
    { intros e' He'. unfold entry_load. rewrite get_set_p. rewrite decide_False; [done|].
      intros ->. apply E. by eapply (wf_inj m W). }
    unfold abs. simpl. destruct (read_m m !! k') as [e'|] eqn:E'; [apply Hg; by left|].
    change (dirty_get (set_p m e p) k') with (dirty_get m k').
    destruct (dirty_get m k') as [e'|] eqn:E2; [|done]. apply Hg. by right.
Qed.

(** An entry neither map leads to any more. *)
Lemma set_p_unreachable m e p :
  wf m -> (forall k, ~ any m k e) -> wf (set_p m e p) /\ forall k, abs (set_p m e p) k = abs m k.
Proof.
  intros W Hn.
  assert (Hg : forall k e', any m k e' -> get_p (set_p m e p) e' = get_p m e').
  { intros k e' He'. rewrite get_set_p. rewrite decide_False; [done|]. intros ->. by eapply Hn. }
  split; [split|].
  - apply (wf_fresh m W).
  - apply (wf_inj m W).
  - intros Hd. destruct (wf_clean m W Hd) as [Ha Hr]. split; [done|]. intros k e' Hk.
    rewrite (Hg k) by (by left). by eapply Hr.
  - intros d Hd. destruct (wf_dirty m W d Hd) as (Ha & H1 & H2 & H3). split_and!; [done|..].
    + intros k e' Hk. rewrite (Hg k) by (by left). by apply H1.
    + intros k e' Hk. rewrite (Hg k) by (by left). by apply H2.
    + intros k e' Hk. rewrite (Hg k) by (right; unfold dirty_get; simpl in *; by rewrite Hd). by eapply H3.
  - intros k. unfold abs, entry_load. simpl.
    destruct (read_m m !! k) as [e'|] eqn:E; [rewrite (Hg k); [done|by left]|].
    change (dirty_get (set_p m e p) k) with (dirty_get m k).
    destruct (dirty_get m k) as [e'|] eqn:E2; [|done]. simpl. rewrite (Hg k); [done|by right].
Qed.

(** Promotion of the dirty map, by missLocked and by Range. *)
Definition promoted (m : Map) : Map :=
  set_misses (set_dirty (set_read m (default ∅ (dirty m)) false) None) 0.

Lemma promoted_wf m d :
  wf m -> dirty m = Some d -> wf (promoted m) /\ forall k, abs (promoted m) k = abs m k.
Proof.
  intros W Hd. destruct (wf_dirty m W d Hd) as (Ha & H1 & H2 & H3).
  assert (Hany : forall k e, any (promoted m) k e -> any m k e).
  { unfold any, promoted, dirty_get; simpl. rewrite Hd. simpl. intros k e [?|?]; [by right|done]. }
  split; [split|].
  - intros k e Hk. apply (wf_fresh m W k e). auto.
  - intros k1 k2 e Hk1 Hk2. apply (wf_inj m W k1 k2 e); auto.
  - intros _. split; [done|]. unfold promoted; simpl. rewrite Hd. apply H3.
  - done.
  - intros k. assert (E0 : abs (promoted m) k = d !! k ≫= entry_load m).
    { unfold abs, promoted, dirty_get, entry_load, get_p; simpl. rewrite Hd; simpl.
      by destruct (d !! k). }
    rewrite E0. clear E0. destruct (d !! k) as [e|] eqn:E.
    + symmetry. apply abs_any; [done|]. right. unfold dirty_get. by rewrite Hd.
    + unfold abs, dirty_get. rewrite Hd. simpl. rewrite E. simpl.
      destruct (read_m m !! k) as [e|] eqn:Er; [|done]. unfold entry_load.
      destruct (get_p m e) eqn:Ep; [done|done|].
      rewrite (H2 k e Er) in E by congruence. done.
Qed.

Lemma set_misses_wf m n : wf m -> wf (set_misses m n).
Proof. by destruct 1; constructor. Qed.

Lemma missLocked_wf m :
  wf m -> amended m = true -> wf (missLocked m) /\ forall k, abs (missLocked m) k = abs m k.
Proof.
  intros W Ha. destruct (amended_dirty m W Ha) as [d Hd].
  unfold missLocked. case_goal; [split; [by apply set_misses_wf|done]|].
  destruct (promoted_wf m d W Hd) as [W' E]. by split.
Qed.

Lemma promote_wf m : wf m ->
  wf (promote m) /\ amended (promote m) = false /\ forall k, abs (promote m) k = abs m k.
Proof.
  intros W. unfold promote. destruct (amended m) eqn:Ha; [|done].
  destruct (amended_dirty m W Ha) as [d Hd]. destruct (promoted_wf m d W Hd) as [W' E]. by split.
Qed.

(** Bringing an expunged entry back: it goes into the dirty map again. *)
Lemma unexpunge_wf m k e :
  wf m -> read_m m !! k = Some e -> get_p m e = PExpunged -> exists m',
  dirty_put (set_p m e PNil) k e = Ret m' /\ wf m' /\ (forall k', abs m' k' = abs m k') /\
  get_p m' e = PNil /\ read_m m' !! k = Some e /\ amended m' = amended m.
Proof.
  intros W Hk He. destruct (dirty m) as [d|] eqn:Hd.
  2: { destruct (wf_clean m W Hd) as [_ Hc]. by destruct (Hc k e Hk). }
  destruct (wf_dirty m W d Hd) as (Ha & H1 & H2 & H3).
  unfold dirty_put; simpl. rewrite Hd. eexists; split; [done|].
  set (m' := set_dirty _ _).
  assert (Hg : forall e', get_p m' e' = if decide (e' = e) then PNil else get_p m e').
  { intros e'. apply (get_set_p m e PNil e'). }
  assert (Hany : forall k' e', any m' k' e' -> any m k' e').
  { unfold any, m', dirty_get; simpl. rewrite Hd; simpl. intros k' e' [?|E]; [by left|].
    destruct (decide (k = k')) as [<-|Hne].
    - rewrite lookup_insert_eq in E. simplify_eq. by left.
    - rewrite lookup_insert_ne in E by done. by right. }
  split_and!; [split| | |done|done].
  - intros k' e' H'. apply (wf_fresh m W k'). auto.
  - intros k1 k2 e' H1' H2'. apply (wf_inj m W k1 k2 e'); auto.
  - done.
  - intros d' [= <-]. split_and!; [done|..].
    + intros k' e' Hk'. simpl in Hk'. rewrite Hg. case_decide; [done|]. intros Hx.
      rewrite lookup_insert_ne; [by eapply H1|]. intros <-. congruence.
    + intros k' e' Hk'. simpl in Hk'. rewrite Hg. case_decide as Hee.
      * intros _. subst e'. assert (k = k') as <- by (apply (wf_inj m W k k' e); by left).
        apply lookup_insert_eq.
      * intros Hx. rewrite lookup_insert_ne; [by eapply H2|]. intros <-. simpl in Hk'. congruence.
    + intros k' e' E. rewrite Hg. case_decide; [done|].
      destruct (decide (k = k')) as [<-|Hne'];
        [rewrite lookup_insert_eq in E; congruence|rewrite lookup_insert_ne in E by done; by eapply H3].
  - intros k'. unfold abs, entry_load. simpl. destruct (read_m m !! k') as [e'|] eqn:Er.
    + rewrite Hg. case_decide as Hee; [|done]. subst. by rewrite He.
    + assert (E : dirty_get m' k' = dirty_get m k').
      { unfold m', dirty_get; simpl. rewrite Hd; simpl. by rewrite lookup_insert_ne by congruence. }
      rewrite E. unfold dirty_get. rewrite Hd; simpl.
      destruct (d !! k') as [e'|] eqn:Ed; [|done]. simpl.
      rewrite Hg. rewrite decide_False; [done|]. intros ->. apply H3 in Ed. congruence.
  - rewrite Hg. by rewrite decide_True.
Qed.

(** The loop of dirtyLocked over the entries of the read map. *)
Definition expunge_in (l : list nat) (m : Map) (e : nat) : ptr :=
  match get_p m e with
  | PNil => if decide (e ∈ l) then PExpunged else PNil
  | p => p
  end.

Lemma dirty_step_spec m k e :
  let m' := dirty_step m (k, e) in
  read_m m' = read_m m /\ next m' = next m /\ amended m' = amended m /\ misses m' = misses m /\
  (forall e', get_p m' e' = expunge_in [e] m e') /\
  (forall k', default ∅ (dirty m') !! k' =
     if decide (k' = k) then match get_p m e with PVal _ => Some e | _ => default ∅ (dirty m) !! k end
     else default ∅ (dirty m) !! k') /\ (is_Some (dirty m) -> is_Some (dirty m')).
Proof.
  intros m'. subst m'. unfold dirty_step, tryExpungeLocked, expunge_in.
  destruct (get_p m e) eqn:Ep; simpl; split_and!; try done;
    try (intros k'; by case_decide; subst).
  - intros e'. rewrite get_set_p. destruct (decide (e' = e)) as [->|Hne].
    + rewrite Ep. by rewrite decide_True by set_solver.
    + destruct (get_p m e'); [|done..]. by rewrite decide_False by set_solver.
  - intros e'. destruct (decide (e' = e)) as [->|Hne]; [by rewrite Ep|].
    destruct (get_p m e'); [|done..]. by rewrite decide_False by set_solver.
  - intros e'. change (get_p (set_dirty m _) e') with (get_p m e').
    destruct (decide (e' = e)) as [->|Hne]; [by rewrite Ep|].
    destruct (get_p m e'); [|done..]. by rewrite decide_False by set_solver.
  - intros k'. case_decide; subst; [by rewrite lookup_insert_eq|by rewrite lookup_insert_ne].
Qed.

Lemma dirty_loop l m : NoDup l.*2 -> NoDup l.*1 ->
  let m' := fold_left dirty_step l m in
  read_m m' = read_m m /\ next m' = next m /\ amended m' = amended m /\ misses m' = misses m /\
  (forall e, get_p m' e = expunge_in l.*2 m e) /\
  (forall k, default ∅ (dirty m') !! k =
     match list_to_map (M := gmap K nat) l !! k with
     | Some e => match get_p m e with PVal _ => Some e | _ => default ∅ (dirty m) !! k end
     | None => default ∅ (dirty m) !! k
     end) /\ (is_Some (dirty m) -> is_Some (dirty m')).
Proof.
  revert m; induction l as [|[k e] l IH]; intros m H2 H1 m'.
  { subst m'. simpl. split_and!; try done. intros e. unfold expunge_in. simpl.
    by destruct (get_p m e). }
  apply NoDup_cons in H2 as [Hn2 H2], H1 as [Hn1 H1]. simpl in Hn1, Hn2.
  destruct (dirty_step_spec m k e) as (R1 & N1 & A1 & M1 & G1 & D1 & S1).
  set (m1 := dirty_step m (k, e)) in *.
  destruct (IH m1 H2 H1) as (R & N & A & M & G & D & S).
  subst m'. change (fold_left dirty_step ((k, e) :: l) m) with (fold_left dirty_step l m1).
  split_and!; [congruence..| | |auto].
  - intros e'. rewrite G. unfold expunge_in at 1. rewrite G1. unfold expunge_in.
    destruct (get_p m e') eqn:Ep; [|done..].
    destruct (decide (e' = e)) as [->|Hne].
    + by rewrite !decide_True by set_solver.
    + rewrite (decide_False (P := e' ∈ [e])) by set_solver.
      destruct (decide (e' ∈ l.*2)); [by rewrite decide_True by set_solver|].
      by rewrite decide_False by set_solver.
  - intros k'. rewrite D. simpl. destruct (decide (k' = k)) as [->|Hne].
    + rewrite lookup_insert_eq, D1, decide_True by done.
      by rewrite (not_elem_of_list_to_map_1 l k).
    + rewrite lookup_insert_ne by done. rewrite !D1, !(decide_False (P := k' = k)) by done.
      destruct (list_to_map l !! k') as [e'|] eqn:El; [|done].
      rewrite G1. unfold expunge_in. destruct (get_p m e'); [|done..].
      by destruct (decide (e' ∈ [e])).
Qed.

Lemma NoDup_read_entries m : wf m -> NoDup (map_to_list (read_m m)).*2.
Proof.
  intros W. apply NoDup_fmap_2_strong; [|apply NoDup_map_to_list].
  intros [k1 e1] [k2 e2] H1%elem_of_map_to_list H2%elem_of_map_to_list. simpl. intros <-.
  f_equal. apply (wf_inj m W k1 k2 e1); by left.
Qed.

(** A fresh dirty map: nil entries of the read map become expunged. *)
Lemma dirtyLocked_wf m : wf m -> dirty m = None ->
  let m' := set_read (dirtyLocked m) (read_m m) true in
  wf m' /\ (forall k, abs m' k = abs m k) /\ is_Some (dirty m') /\ read_m m' = read_m m /\
  (forall k, read_m m !! k = None -> dirty_get m' k = None).
Proof.
  intros W Hd m'. destruct (wf_clean m W Hd) as [Ha Hc].
  destruct (dirty_loop (map_to_list (read_m m)) (set_dirty m (Some ∅)))
    as (R & N & A & M & G & D & S).
  { by apply NoDup_read_entries. }
  { apply NoDup_fst_map_to_list. }
  change (get_p (set_dirty m (Some ∅))) with (get_p m) in *. simpl in R, N, A, M, D.
  assert (Em : dirtyLocked m = fold_left dirty_step (map_to_list (read_m m)) (set_dirty m (Some ∅)))
    by (unfold dirtyLocked; by rewrite Hd).
  rewrite <- Em in *. clear Em. rewrite list_to_map_to_list in D.
  destruct S as [d Hd']; [by eexists|]. rewrite Hd' in D. simpl in D.
  assert (Hdk : forall k, d !! k = match read_m m !! k with
     | Some e => match get_p m e with PVal _ => Some e | _ => None end | None => None end).
  { intros k. rewrite D. destruct (read_m m !! k) as [e|]; rewrite lookup_empty; done. }
  assert (Hg : forall k e, read_m m !! k = Some e ->
     get_p m' e = match get_p m e with PVal v => PVal v | _ => PExpunged end).
  { intros k e Hk. change (get_p m' e) with (get_p (dirtyLocked m) e). rewrite G.
    unfold expunge_in. change (get_p (set_dirty m (Some ∅)) e) with (get_p m e).
    destruct (get_p m e) eqn:Ep; [|by destruct (Hc k e Hk)|done].
    rewrite decide_True; [done|]. apply elem_of_map_to_list in Hk.
    by apply (list_elem_of_fmap_2 snd) in Hk. }
  assert (Hdg : forall k, dirty_get m' k = d !! k) by (intros k; unfold dirty_get; simpl; by rewrite Hd').
  assert (Hany : forall k e, any m' k e -> any m k e).
  { intros k e [Hk|Hk]; [by left|]. rewrite Hdg, Hdk in Hk. left.
    destruct (read_m m !! k) as [e'|]; [|done]. destruct (get_p m e'); congruence. }
  split_and!; [split| |by eexists|done|].
  - intros k e Hk. simpl. rewrite N. apply (wf_fresh m W k). auto.
  - intros k1 k2 e Hk1 Hk2. apply (wf_inj m W k1 k2 e); auto.
  - simpl. by rewrite Hd'.
  - simpl. rewrite Hd'. intros d' [= <-]. split_and!; [done|..]; intros k e Hk.
    + rewrite (Hg k e Hk), Hdk, Hk. by destruct (get_p m e).
    + rewrite (Hg k e Hk), Hdk, Hk. by destruct (get_p m e).
    + rewrite Hdk in Hk. destruct (read_m m !! k) as [e'|] eqn:Er; [|done].
      destruct (get_p m e') eqn:Ep; [done..|]. simplify_eq. by rewrite (Hg k e Er), Ep.
  - intros k. unfold abs. simpl. destruct (read_m m !! k) as [e|] eqn:Er.
    + unfold entry_load. rewrite (Hg k e Er). by destruct (get_p m e).
    + rewrite Hdg, Hdk, Er. unfold dirty_get. by rewrite Hd.
  - intros k Hk. by rewrite Hdg, Hdk, Hk.
Qed.

(** A key that neither map knows gets a new entry in the dirty map. *)
Lemma insert_new_wf m k v : wf m -> is_Some (dirty m) -> read_m m !! k = None ->
  dirty_get m k = None -> exists m',
  dirty_put (newEntry m v).2 k (next m) = Ret m' /\ wf m' /\
  forall k', abs m' k' = upd (abs m) k (Some v) k'.
Proof.
  intros W [d Hd] Hr Hk. unfold dirty_get in Hk. rewrite Hd in Hk. simpl in Hk.
  destruct (wf_dirty m W d Hd) as (Ha & H1 & H2 & H3).
  unfold dirty_put; simpl. rewrite Hd. eexists; split; [done|]. set (m' := set_dirty _ _).
  assert (Hg : forall e, get_p m' e = if decide (e = next m) then PVal v else get_p m e).
  { intros e. unfold get_p, m'; simpl. case_decide; subst;
      [by rewrite lookup_insert_eq|by rewrite lookup_insert_ne]. }
  assert (Hold : forall k' e, any m k' e -> get_p m' e = get_p m e).
  { intros k' e Hk'. rewrite Hg. rewrite decide_False; [done|]. intros ->.
    apply (wf_fresh m W) in Hk'. lia. }
  assert (Hdg : forall k', dirty_get m' k' = if decide (k' = k) then Some (next m) else dirty_get m k').
  { intros k'. unfold dirty_get, m'; simpl. rewrite Hd; simpl. case_decide; subst;
      [by rewrite lookup_insert_eq|by rewrite lookup_insert_ne]. }
  assert (Hany : forall k' e, any m' k' e -> (k' = k /\ e = next m) \/ any m k' e).
  { intros k' e [Hx|Hx]; [by right; left|]. rewrite Hdg in Hx. case_decide; simplify_eq; [by left|by right; right]. }
  split; [split|].
  - intros k' e [[-> ->]|He]%Hany; simpl; [lia|]. apply (wf_fresh m W) in He. lia.
  - intros k1 k2 e [[-> ->]|He1]%Hany [[-> E2]|He2]%Hany; [done|..].
    + apply (wf_fresh m W) in He2. lia.
    + subst. apply (wf_fresh m W) in He1. lia.
    + by apply (wf_inj m W k1 k2 e).
  - done.
  - intros d' [= <-]. split_and!; [done|..].
    + intros k' e He. rewrite (Hold k' e) by (by left). intros Hx.
      rewrite lookup_insert_ne; [by eapply H1|]. intros <-. simpl in He. congruence.
    + intros k' e He. rewrite (Hold k' e) by (by left). intros Hx.
      rewrite lookup_insert_ne; [by eapply H2|]. intros <-. simpl in He. congruence.
    + intros k' e He. destruct (decide (k = k')) as [<-|Hne].
      * rewrite lookup_insert_eq in He. simplify_eq. rewrite Hg. by rewrite decide_True.
      * rewrite lookup_insert_ne in He by done. rewrite (Hold k' e); [by eapply H3|].
        right. unfold dirty_get. by rewrite Hd.
  - intros k'. unfold upd, abs. simpl. rewrite Hdg. case_decide as E.
    + subst. rewrite Hr. simpl. unfold entry_load. rewrite Hg. by rewrite decide_True.
    + unfold entry_load. destruct (read_m m !! k') as [e|] eqn:Er; [by rewrite (Hold k') by (by left)|].
      destruct (dirty_get m k') as [e|] eqn:Ed; [|done]. simpl. by rewrite (Hold k') by (by right).
Qed.

(** Removing a key from the dirty map that the read map does not know. *)
Lemma drop_dirty_wf m k d : wf m -> dirty m = Some d -> read_m m !! k = None ->
  let m' := set_dirty m (Some (delete k d)) in
  wf m' /\ (forall k', abs m' k' = upd (abs m) k None k') /\
  (forall e k', d !! k = Some e -> ~ any m' k' e).
Proof.
  intros W Hd Hr m'. destruct (wf_dirty m W d Hd) as (Ha & H1 & H2 & H3).
  assert (Hdg : forall k', dirty_get m' k' = if decide (k' = k) then None else dirty_get m k').
  { intros k'. unfold dirty_get, m'; simpl. rewrite Hd; simpl. case_decide; subst;
      [by rewrite lookup_delete_eq|by rewrite lookup_delete_ne]. }
  assert (Hany : forall k' e, any m' k' e -> any m k' e /\ k' <> k).
  { intros k' e [Hx|Hx]; [split; [by left|]; intros ->; simpl in Hx; congruence|].
    rewrite Hdg in Hx. case_decide; [done|]. split; [by right|done]. }
  split_and!; [split| |].
  - intros k' e [Hx _]%Hany. by apply (wf_fresh m W) in Hx.
  - intros k1 k2 e [Hx1 _]%Hany [Hx2 _]%Hany. by apply (wf_inj m W k1 k2 e).
  - done.
  - intros d' [= <-]. split_and!; [done|..]; intros k' e Hx.
    + intros He. destruct (decide (k = k')) as [<-|]; [apply lookup_delete_eq|].
      rewrite lookup_delete_ne by done. by eapply H1.
    + intros He. rewrite lookup_delete_ne; [by eapply H2|]. intros <-. simpl in Hx. congruence.
    + apply lookup_delete_Some in Hx as [_ Hx]. by eapply H3.
  - intros k'. unfold upd, abs. simpl. rewrite Hdg. case_decide; [subst; by rewrite Hr|done].
  - intros e k' He [Hx Hne]%Hany. apply Hne. apply (wf_inj m W k' k e); [done|].
    right. unfold dirty_get. by rewrite Hd.
Qed.

Lemma missLocked_any m k e : wf m -> amended m = true -> dirty_get m k = Some e ->
  any (missLocked m) k e.
Proof.
  intros W Ha Hk. unfold missLocked. case_goal; [by right|]. left. simpl.
  unfold dirty_get in Hk. by destruct (dirty m).
Qed.

Lemma find_entry_spec m k : wf m ->
  let '(oe, m') := find_entry m k in
  wf m' /\ (forall k', abs m' k' = abs m k') /\
  match oe with Some e => any m' k e | None => abs m k = None end.
Proof.
  intros W. unfold find_entry, lookup_locked. destruct (read_m m !! k) as [e|] eqn:Er.
  { split_and!; [done..|by left]. }
  destruct (amended m) eqn:Ha.
  - destruct (missLocked_wf m W Ha) as [W' E]. split_and!; [done..|].
    destruct (dirty_get m k) as [e|] eqn:Ed; [by apply missLocked_any|].
    unfold abs. by rewrite Er, Ed.
  - split_and!; [done..|]. unfold abs, dirty_get. by rewrite Er, (unamended_clean m W Ha).
Qed.

Lemma Load_spec m k : wf m -> exists m', Load m k = (abs m k, m') /\ wf m' /\ forall k', abs m' k' = abs m k'.
Proof.
  intros W. unfold Load. pose proof (find_entry_spec m k W) as H'.
  destruct (find_entry m k) as [[e|] m'], H' as (W' & E & He).
  - exists m'. split_and!; [|done..]. by rewrite <- E, (abs_any m' k e).
  - exists m'. by rewrite He.
Qed.

Lemma entry_store_spec m k e v : wf m -> any m k e -> get_p m e <> PExpunged ->
  wf (set_p m e (PVal v)) /\ forall k', abs (set_p m e (PVal v)) k' = upd (abs m) k (Some v) k'.
Proof. intros W Hk He. split; [by apply set_p_wf|]. by apply set_p_abs. Qed.

Lemma deref_val p : p <> PExpunged -> deref p = Ret (val p).
Proof. by destruct p. Qed.

Lemma dirty_entry_live m k e : wf m -> dirty_get m k = Some e -> get_p m e <> PExpunged.
Proof.
  unfold dirty_get. intros W (d & Hd & Hk)%bind_Some.
  destruct (wf_dirty m W d Hd) as (_ & _ & _ & H3). by eapply H3.
Qed.

(** The branch that adds a key to the dirty map, shared by Swap and LoadOrStore. *)
Lemma add_key_spec m k v : wf m -> read_m m !! k = None -> dirty_get m k = None ->
  let m1 := if amended m then m else set_read (dirtyLocked m) (read_m m) true in
  exists m', dirty_put (newEntry m1 v).2 k (newEntry m1 v).1 = Ret m' /\ wf m' /\
    forall k', abs m' k' = upd (abs m) k (Some v) k'.
Proof.
  intros W Hr Hk m1.
  assert (Hm1 : wf m1 /\ is_Some (dirty m1) /\ read_m m1 !! k = None /\ dirty_get m1 k = None /\
    forall k', abs m1 k' = abs m k').
  { subst m1. destruct (amended m) eqn:Ha; [by destruct (amended_dirty m W Ha)|].
    destruct (dirtyLocked_wf m W (unamended_clean m W Ha)) as (W' & E & S & R & Dn).
    split_and!; auto. }
  destruct Hm1 as (W1 & S1 & R1 & D1 & E1).
  destruct (insert_new_wf m1 k v W1 S1 R1 D1) as (m' & Ep & W' & E').
  exists m'. split_and!; [exact Ep|done|]. intros k'. rewrite E'. unfold upd. by rewrite E1.
Qed.

Lemma Swap_spec m k v : wf m -> exists m', Swap m k v = Ret (abs m k, m') /\ wf m' /\
  forall k', abs m' k' = upd (abs m) k (Some v) k'.
Proof.
  intros W. unfold Swap. destruct (read_m m !! k) as [e|] eqn:Er.
  - assert (Hk : any m k e) by (by left). rewrite (abs_any m k e W Hk). unfold trySwap, entry_load.
    destruct (get_p m e) eqn:Ep; [..|].
    1,3: destruct (entry_store_spec m k e v W Hk) as [W' E]; [congruence|]; eexists; split; [done|]; done.
    rewrite Er. unfold unexpungeLocked. rewrite Ep.
    destruct (unexpunge_wf m k e W Er Ep) as (m1 & -> & W1 & E1 & P1 & R1 & _). cbn [mbind go_bind].
    unfold swapLocked. rewrite P1. cbn [mbind go_bind deref].
    destruct (entry_store_spec m1 k e v W1) as [W' E]; [by left|congruence|].
    eexists; split; [done|]. split; [done|]. intros k'. rewrite E. unfold upd. by rewrite E1.
  - rewrite Er. destruct (dirty_get m k) as [e|] eqn:Ed.
    + assert (Hk : any m k e) by (by right). rewrite (abs_any m k e W Hk).
      pose proof (dirty_entry_live m k e W Ed) as Hl. unfold swapLocked. rewrite deref_val by done.
      destruct (entry_store_spec m k e v W Hk Hl) as [W' E]. eexists; split; [done|]. done.
    + destruct (add_key_spec m k v W Er Ed) as (m' & Ep & W' & E).
      simpl in Ep |- *. rewrite Ep. cbn [mbind go_bind]. exists m'. split; [|done].
      unfold abs. by rewrite Er, Ed.
Qed.

Lemma tryLoadOrStore_spec m k e v : wf m -> any m k e -> get_p m e <> PExpunged -> exists m',
  tryLoadOrStore m e v = (Some (match abs m k with Some w => (w, true) | None => (v, false) end), m') /\
  wf m' /\ read_m m' = read_m m /\ amended m' = amended m /\
  forall k', abs m' k' = (if abs m k then abs m k' else upd (abs m) k (Some v) k').
Proof.
  intros W Hk Hl. unfold tryLoadOrStore. rewrite (abs_any m k e W Hk). unfold entry_load.
  destruct (get_p m e) eqn:Ep; [|done|by eexists].
  destruct (entry_store_spec m k e v W Hk) as [W' E]; [congruence|]. by eexists.
Qed.

Lemma LoadOrStore_spec m k v : wf m -> exists m',
  LoadOrStore m k v = Ret ((match abs m k with Some w => (w, true) | None => (v, false) end), m') /\
  wf m' /\ forall k', abs m' k' = (if abs m k then abs m k' else upd (abs m) k (Some v) k').
Proof.
  intros W. unfold LoadOrStore. destruct (read_m m !! k) as [e|] eqn:Er.
  - assert (Hk : any m k e) by (by left). destruct (get_p m e) eqn:Ep.
    1,3: destruct (tryLoadOrStore_spec m k e v W Hk) as (m' & -> & W' & _ & _ & E);
         [congruence|]; by eexists.
    assert (E0 : tryLoadOrStore m e v = (None, m)) by (unfold tryLoadOrStore; by rewrite Ep).
    rewrite E0, Er. unfold unexpungeLocked. rewrite Ep.
    destruct (unexpunge_wf m k e W Er Ep) as (m1 & -> & W1 & E1 & P1 & R1 & _). cbn [mbind go_bind].
    destruct (tryLoadOrStore_spec m1 k e v W1) as (m' & -> & W' & _ & _ & E); [by left|congruence|].
    rewrite !E1 in *. eexists; split; [done|]. split; [done|]. intros k'. rewrite E. unfold upd.
    by rewrite E1.
  - rewrite Er. destruct (dirty_get m k) as [e|] eqn:Ed.
    + assert (Ha : amended m = true).
      { destruct (amended m) eqn:Ha; [done|]. unfold dirty_get in Ed.
        by rewrite (unamended_clean m W Ha) in Ed. }
      destruct (tryLoadOrStore_spec m k e v W) as (m' & -> & W' & R' & A' & E);
        [by right|by eapply dirty_entry_live|].
      destruct (missLocked_wf m' W') as [W'' E']; [congruence|].
      eexists; split; [done|]. split; [done|]. intros k'. by rewrite E', E.
    + destruct (add_key_spec m k v W Er Ed) as (m' & Ep & W' & E).
      simpl in Ep |- *. rewrite Ep. cbn [mbind go_bind].
      assert (E0 : abs m k = None) by (unfold abs; by rewrite Er, Ed).
      rewrite E0. by exists m'.
Qed.

Lemma entry_delete_spec m k e : wf m -> any m k e -> exists m',
  entry_delete m e = (abs m k, m') /\ wf m' /\ forall k', abs m' k' = upd (abs m) k None k'.
Proof.
  intros W Hk. unfold entry_delete. pose proof (abs_any m k e W Hk) as Ea.
  rewrite Ea. unfold entry_load in *. destruct (get_p m e) eqn:Ep; simpl in *.
  1,2: exists m; split_and!; [done..|]; intros k'; unfold upd; case_decide; [by subst|done].
  eexists; split; [done|]. split; [apply set_p_wf; congruence|]. by apply set_p_abs.
Qed.

Lemma upd_none_id m k : abs m k = None -> forall k', abs m k' = upd (abs m) k None k'.
Proof. intros E k'. unfold upd. case_decide; [by subst|done]. Qed.

Lemma LoadAndDelete_spec m k : wf m -> exists m',
  LoadAndDelete m k = (abs m k, m') /\ wf m' /\ forall k', abs m' k' = upd (abs m) k None k'.
Proof.
  intros W. unfold LoadAndDelete. destruct (read_m m !! k) as [e|] eqn:Er.
  { apply entry_delete_spec; [done|by left]. }
  destruct (amended m) eqn:Ha.
  2: { assert (E : abs m k = None)
         by (unfold abs, dirty_get; by rewrite Er, (unamended_clean m W Ha)).
       exists m. rewrite E. split_and!; [done..|]. by apply upd_none_id. }
  destruct (amended_dirty m W Ha) as [d Hd]. rewrite Hd. cbn [fmap option_fmap option_map].
  destruct (drop_dirty_wf m k d W Hd Er) as (W1 & E1 & Un).
  set (m1 := set_dirty m (Some (delete k d))) in *.
  destruct (missLocked_wf m1 W1 Ha) as [W2 E2].
  assert (Ek : dirty_get m k = d !! k) by (unfold dirty_get; by rewrite Hd).
  assert (Ea : abs m k = dirty_get m k ≫= entry_load m) by (unfold abs; by rewrite Er).
  rewrite Ea, Ek. destruct (d !! k) as [e|] eqn:Edk; simpl.
  - assert (Hg : get_p (missLocked m1) e = get_p m e) by (unfold missLocked; by case_goal).
    assert (Hun : forall k', ~ any (missLocked m1) k' e).
    { intros k'. unfold missLocked. case_goal; [apply (Un e k' eq_refl)|].
      intros [Hx|Hx]; [|done]. apply (Un e k' eq_refl). by right. }
    unfold entry_delete. rewrite Hg. unfold entry_load.
    destruct (get_p m e) eqn:Ep; simpl.
    1,2: exists (missLocked m1); split_and!; [done..|]; intros k'; rewrite E2; apply E1.
    destruct (set_p_unreachable (missLocked m1) e PNil W2 Hun) as [W3 E3].
    eexists; split; [done|]. split; [done|]. intros k'. rewrite E3, E2. apply E1.
  - exists (missLocked m1). split_and!; [done..|]. intros k'. rewrite E2. apply E1.
Qed.

Lemma tryCompareAndSwap_spec m k e old new : wf m -> any m k e -> exists m',
  tryCompareAndSwap m e old new = (bool_decide (is_Some (abs m k)), m') /\ wf m' /\
  read_m m' = read_m m /\ amended m' = amended m /\
  forall k', abs m' k' = (if abs m k then upd (abs m) k (Some new) k' else abs m k').
Proof.
  intros W Hk. unfold tryCompareAndSwap. rewrite (abs_any m k e W Hk). unfold entry_load.
  destruct (get_p m e) eqn:Ep; simpl; [by exists m..|].
  destruct (entry_store_spec m k e new W Hk) as [W' E]; [congruence|].
  by eexists.
Qed.

Lemma CompareAndSwap_spec m k old new : wf m -> exists m',
  CompareAndSwap m k old new = (bool_decide (is_Some (abs m k)), m') /\ wf m' /\
  forall k', abs m' k' = (if abs m k then upd (abs m) k (Some new) k' else abs m k').
Proof.
  intros W. unfold CompareAndSwap. destruct (read_m m !! k) as [e|] eqn:Er.
  - destruct (tryCompareAndSwap_spec m k e old new W) as (m' & -> & W' & _ & _ & E); [by left|].
    by eexists.
  - destruct (amended m) eqn:Ha.
    + destruct (dirty_get m k) as [e|] eqn:Ed.
      * destruct (tryCompareAndSwap_spec m k e old new W) as (m' & -> & W' & _ & A' & E); [by right|].
        destruct (missLocked_wf m' W') as [W'' E']; [congruence|].
        eexists; split; [done|]. split; [done|]. intros k'. by rewrite E', E.
      * exists m. assert (E : abs m k = None) by (unfold abs; by rewrite Er, Ed).
        by rewrite E.
    + exists m. assert (E : abs m k = None)
        by (unfold abs, dirty_get; by rewrite Er, (unamended_clean m W Ha)).
      by rewrite E.
Qed.

Lemma CompareAndDelete_spec m k old : wf m -> exists m',
  CompareAndDelete m k old = (bool_decide (is_Some (abs m k)), m') /\ wf m' /\
  forall k', abs m' k' = upd (abs m) k None k'.
Proof.
  intros W. unfold CompareAndDelete. pose proof (find_entry_spec m k W) as H'.
  destruct (find_entry m k) as [[e|] m1], H' as (W1 & E1 & He).
  - pose proof (abs_any m1 k e W1 He) as Ea. rewrite E1 in Ea. unfold entry_load in Ea.
    rewrite Ea. destruct (get_p m1 e) eqn:Ep; simpl in *.
    1,2: exists m1; split_and!; [done..|]; intros k'; rewrite E1; by apply upd_none_id.
    eexists. split; [done|].
    split; [apply set_p_wf; congruence|]. intros k'. rewrite (set_p_abs m1 k e) by done.
    unfold upd. by rewrite E1.
  - exists m1. rewrite He. split_and!; [done..|]. intros k'. rewrite E1. by apply upd_none_id.
Qed.

Lemma visible_spec ρ m : wf m ->
  let l := visible ρ (promote m) in
  NoDup l.*1 /\ forall k v, (k, v) ∈ l <-> abs m k = Some v.
Proof.
  intros W l. destruct (promote_wf m W) as (W' & A' & E'). subst l. set (m' := promote m) in *.
  assert (Ha : forall k, abs m' k = read_m m' !! k ≫= entry_load m').
  { intros k. unfold abs, dirty_get. rewrite (unamended_clean m' W' A').
    by destruct (read_m m' !! k). }
  split.
  - unfold visible.
    assert (Hn : NoDup (ρ _ (map_to_list (read_m m'))).*1)
      by (rewrite (range_order_perm ρ); apply NoDup_fst_map_to_list).
    revert Hn. generalize (ρ _ (map_to_list (read_m m'))) as l. intros l.
    induction l as [|[k e] l IH]; simpl; [constructor|]. intros [Hk Hn]%NoDup_cons.
    rewrite fmap_app. destruct (entry_load m' e); simpl; [|auto]. constructor; [|auto].
    intros Hin. apply Hk. apply list_elem_of_fmap in Hin as ([k1 v1] & -> & Hin). simpl.
    apply list_elem_of_bind in Hin as ([k2 e2] & Hin & Hl).
    destruct (entry_load m' e2); [|by apply elem_of_nil in Hin].
    apply list_elem_of_singleton in Hin. simplify_eq. by apply (list_elem_of_fmap_2 fst) in Hl.
  - intros k v. rewrite <- E', Ha. unfold visible. rewrite list_elem_of_bind. split.
    + intros ([k1 e1] & Hin & Hl). rewrite elem_of_range_order, elem_of_map_to_list in Hl.
      destruct (entry_load m' e1) eqn:El; [|by apply elem_of_nil in Hin].
      apply list_elem_of_singleton in Hin. simplify_eq. by rewrite Hl.
    + intros (e & Hr & Hl)%bind_Some. exists (k, e). rewrite Hl. split; [by apply list_elem_of_singleton|].
      by rewrite elem_of_range_order, elem_of_map_to_list.
Qed.

Lemma visit_all {S} (g : S -> K -> V -> S) l s :
  visit (fun s k v => (g s k v, true)) s l = fold_left (fun s '(k, v) => g s k v) l s.
Proof. revert s; induction l as [|[k v] l IH]; simpl; auto. Qed.

Lemma visit_collect l : visit (fun (s : list (K * V)) k v => (s ++ [(k, v)], true)) [] l = l.
Proof.
  rewrite visit_all. assert (Hl : forall acc, fold_left (fun (s : list (K * V)) '(k, v) => s ++ [(k, v)]) l acc = acc ++ l); [|apply Hl].
  induction l as [|[k v] l IH]; intros acc; simpl; [by rewrite app_nil_r|]. by rewrite IH, <- app_assoc.
Qed.

Lemma new_map_wf : wf new_map.
Proof.
  split; unfold any, dirty_get; simpl; try done; intros; rewrite ?lookup_empty in *; naive_solver.
Qed.

(** ** Sequences of calls against a finite map *)

Inductive op :=
  | OpLoad (k : K) | OpStore (k : K) (v : V) | OpSwap (k : K) (v : V) | OpLoadOrStore (k : K) (v : V)
  | OpLoadAndDelete (k : K) | OpDelete (k : K)
  | OpCompareAndSwap (k : K) (old new : V) | OpCompareAndDelete (k : K) (old : V)
  | OpRange (ρ : RangeOrder).

Inductive res :=
  | RNone | RVal (o : option V) | RLoaded (v : V) (loaded : bool) | RBool (b : bool)
  | RList (l : list (K * V)).

Definition run (m : Map) (o : op) : go (res * Map) :=
  match o with
  | OpLoad k => let '(v, m) := Load m k in Ret (RVal v, m)
  | OpStore k v => m ← Store m k v; Ret (RNone, m)
  | OpSwap k v => '(p, m) ← Swap m k v; Ret (RVal p, m)
  | OpLoadOrStore k v => '((a, l), m) ← LoadOrStore m k v; Ret (RLoaded a l, m)
  | OpLoadAndDelete k => let '(v, m) := LoadAndDelete m k in Ret (RVal v, m)
  | OpDelete k => Ret (RNone, Delete m k)
  | OpCompareAndSwap k old new => let '(b, m) := CompareAndSwap m k old new in Ret (RBool b, m)
  | OpCompareAndDelete k old => let '(b, m) := CompareAndDelete m k old in Ret (RBool b, m)
  | OpRange ρ => let '(l, m) := Range ρ m (fun l k v => (l ++ [(k, v)], true)) [] in Ret (RList l, m)
  end.

(** What the same call answers and does on a plain finite map. *)
Definition spec_run (a : gmap K V) (o : op) : res * gmap K V :=
  match o with
  | OpLoad k => (RVal (a !! k), a)
  | OpStore k v => (RNone, <[k := v]> a)
  | OpSwap k v => (RVal (a !! k), <[k := v]> a)
  | OpLoadOrStore k v =>
      match a !! k with
      | Some w => (RLoaded w true, a)
      | None => (RLoaded v false, <[k := v]> a)
      end
  | OpLoadAndDelete k => (RVal (a !! k), delete k a)
  | OpDelete k => (RNone, delete k a)
  | OpCompareAndSwap k _ new =>
      match a !! k with
      | Some _ => (RBool true, <[k := new]> a)
      | None => (RBool false, a)
      end
  | OpCompareAndDelete k _ => (RBool (bool_decide (is_Some (a !! k))), delete k a)
  | OpRange _ => (RList (map_to_list a), a)
  end.

(** Answers agree; the order in which Range visits is open. *)
Definition res_ok (r r' : res) : Prop :=
  match r, r' with
  | RList l, RList l' => l ≡ₚ l'
  | _, _ => r = r'
  end.

(** [m] implements the finite map [a]. *)
Definition sim (m : Map) (a : gmap K V) : Prop := wf m /\ forall k, abs m k = a !! k.

Lemma sim_insert m m' a k v : sim m a -> wf m' ->
  (forall k', abs m' k' = upd (abs m) k (Some v) k') -> sim m' (<[k := v]> a).
Proof.
  intros [_ Ha] W E. split; [done|]. intros k'. rewrite E. unfold upd. case_decide; subst;
    [by rewrite lookup_insert_eq|by rewrite lookup_insert_ne by congruence].
Qed.

Lemma sim_delete m m' a k : sim m a -> wf m' ->
  (forall k', abs m' k' = upd (abs m) k None k') -> sim m' (delete k a).
Proof.
  intros [_ Ha] W E. split; [done|]. intros k'. rewrite E. unfold upd. case_decide; subst;
    [by rewrite lookup_delete_eq|by rewrite lookup_delete_ne by congruence].
Qed.

Lemma run_sim m a o : sim m a -> exists r m',
  run m o = Ret (r, m') /\ res_ok r (spec_run a o).1 /\ sim m' (spec_run a o).2.
Proof.
  intros S. pose proof S as [W Ha]. destruct o as [k|k v|k v|k v|k|k|k old new|k old|ρ]; simpl.
  - destruct (Load_spec m k W) as (m' & -> & W' & E). eexists _, _; split; [done|]. simpl.
    rewrite Ha. split; [done|]. split; [done|]. intros k'. by rewrite E.
  - unfold Store. destruct (Swap_spec m k v W) as (m' & -> & W' & E). cbn [mbind go_bind].
    eexists _, _; split; [done|]. split; [done|]. by eapply sim_insert.
  - destruct (Swap_spec m k v W) as (m' & -> & W' & E). cbn [mbind go_bind].
    eexists _, _; split; [done|]. rewrite Ha. split; [done|]. by eapply sim_insert.
  - destruct (LoadOrStore_spec m k v W) as (m' & -> & W' & E). cbn [mbind go_bind].
    rewrite Ha in *. destruct (a !! k) as [w|] eqn:Ea; (eexists _, _; split; [done|]; split; [done|]).
    + split; [done|]. intros k'. by rewrite E.
    + by eapply sim_insert.
  - destruct (LoadAndDelete_spec m k W) as (m' & -> & W' & E). eexists _, _; split; [done|].
    rewrite Ha. split; [done|]. by eapply sim_delete.
  - unfold Delete. destruct (LoadAndDelete_spec m k W) as (m' & -> & W' & E).
    eexists _, _; split; [done|]. split; [done|]. by eapply sim_delete.
  - destruct (CompareAndSwap_spec m k old new W) as (m' & -> & W' & E). rewrite Ha in *.
    eexists _, _; split; [done|]. destruct (a !! k) as [w|] eqn:Ea; simpl.
    + split; [done|]. by eapply sim_insert.
    + split; [done|]. split; [done|]. intros k'. by rewrite E.
  - destruct (CompareAndDelete_spec m k old W) as (m' & -> & W' & E). rewrite Ha.
    eexists _, _; split; [done|]. split; [done|]. by eapply sim_delete.
  - destruct (promote_wf m W) as (W' & _ & E'). destruct (visible_spec ρ m W) as [Hn Hv].
    unfold Range. rewrite visit_collect. eexists _, _; split; [done|]. simpl. split.
    + apply NoDup_Permutation; [by eapply NoDup_fmap_1|apply NoDup_map_to_list|].
      intros [k v]. by rewrite Hv, elem_of_map_to_list, Ha.
    + split; [done|]. intros k'. by rewrite E'.
Qed.

Fixpoint run_all (m : Map) (ops : list op) : go (list res * Map) :=
  match ops with
  | [] => Ret ([], m)
  | o :: ops' => '(r, m) ← run m o; '(rs, m) ← run_all m ops'; Ret (r :: rs, m)
  end.

Fixpoint spec_all (a : gmap K V) (ops : list op) : list res * gmap K V :=
  match ops with
  | [] => ([], a)
  | o :: ops' => let '(r, a) := spec_run a o in let '(rs, a) := spec_all a ops' in (r :: rs, a)
  end.

(** The documented map, whose comparing calls compare. *)
Definition doc_run `{!EqDecision V} (a : gmap K V) (o : op) : res * gmap K V :=
  match o with
  | OpCompareAndSwap k old new => if decide (a !! k = Some old) then (RBool true, <[k := new]> a) else (RBool false, a)
  | OpCompareAndDelete k old => if decide (a !! k = Some old) then (RBool true, delete k a) else (RBool false, a)
  | _ => spec_run a o
  end.

Fixpoint doc_all `{!EqDecision V} (a : gmap K V) (ops : list op) : list res * gmap K V :=
  match ops with
  | [] => ([], a)
  | o :: ops' => let '(r, a) := doc_run a o in let '(rs, a) := doc_all a ops' in (r :: rs, a)
  end.

(** Every comparing call of the sequence is given the value that is there, if one is. *)
Definition matches (a : gmap K V) (o : op) : Prop :=
  match o with
  | OpCompareAndSwap k old _ | OpCompareAndDelete k old => forall v, a !! k = Some v -> v = old
  | _ => True
  end.
Fixpoint matching (a : gmap K V) (ops : list op) : Prop :=
  match ops with [] => True | o :: ops' => matches a o /\ matching (spec_run a o).2 ops' end.

Lemma doc_run_matches `{!EqDecision V} a o : matches a o -> doc_run a o = spec_run a o.
Proof.
  destruct o; cbn; try done; intros Hm; destruct (a !! k) as [v|] eqn:E.
  - rewrite (Hm v eq_refl). by rewrite decide_True.
  - by rewrite decide_False.
  - rewrite (Hm v eq_refl), decide_True by done. by rewrite bool_decide_true.
  - rewrite decide_False, bool_decide_false by (done || by intros [? ?]). by rewrite delete_id.
Qed.

Lemma doc_all_matching `{!EqDecision V} ops : forall a, matching a ops -> doc_all a ops = spec_all a ops.
Proof.
  induction ops as [|o ops IH]; intros a; [done|]. intros [Hm Hx]. cbn. rewrite (doc_run_matches a o Hm).
  destruct (spec_run a o) as [r a']. by rewrite (IH a').
Qed.

(** C7. The map refines a plain finite map: from the zero Map, any sequence of
    Load, Store, Swap, LoadOrStore, LoadAndDelete, Delete, CompareAndSwap,
    CompareAndDelete and Range calls returns without a panic (no write to a nil
    dirty map, no use of the expunged mark), gives the answers of the finite map,
    leaves a map that holds what the finite map holds, and keeps the invariant of the
    two levels (without a dirty map the read map is complete; with one, it has every
    entry that is not expunged).  The finite map is the one of the code, whose comparing
    calls do not compare: it is the documented one for sequences in which each of them is
    given the value that is there, and differs from it whenever one is given another. *)
Theorem syncmap_refines_map `{!EqDecision V} (ops : list op) :
  (exists rs m, run_all new_map ops = Ret (rs, m) /\
    Forall2 res_ok rs (spec_all ∅ ops).1 /\
    (forall k, (Load m k).1 = (spec_all ∅ ops).2 !! k) /\ wf m) /\
  (matching ∅ ops -> spec_all ∅ ops = doc_all ∅ ops) /\
  (forall a k v old new, a !! k = Some v -> v <> old ->
     (spec_run a (OpCompareAndSwap k old new)).1 <> (doc_run a (OpCompareAndSwap k old new)).1 /\
     (spec_run a (OpCompareAndDelete k old)).1 <> (doc_run a (OpCompareAndDelete k old)).1).
Proof.
  assert (G : forall m a, sim m a -> exists rs m', run_all m ops = Ret (rs, m') /\
    Forall2 res_ok rs (spec_all a ops).1 /\ sim m' (spec_all a ops).2).
  { induction ops as [|o ops IH]; intros m a S; simpl; [by eexists _, _|].
    destruct (run_sim m a o S) as (r & m1 & -> & Hr & S1). cbn [mbind go_bind].
    destruct (spec_run a o) as [r' a1]. simpl in *.
    destruct (IH m1 a1 S1) as (rs & m2 & -> & Hrs & S2). cbn [mbind go_bind].
    destruct (spec_all a1 ops) as [rs' a2]. simpl in *. eexists _, _; split; [done|].
    split; [by constructor|done]. }
  split_and!.
  - destruct (G new_map ∅) as (rs & m & Er & Hr & W & Ha).
    { split; [apply new_map_wf|]. intros k. unfold abs; simpl. by rewrite !lookup_empty. }
    exists rs, m. split_and!; [done..| |done]. intros k.
    destruct (Load_spec m k W) as (m' & -> & _). apply Ha.
  - intros Hm. by rewrite doc_all_matching.
  - intros a k v old new Ek Hne. cbn. rewrite Ek. rewrite decide_False by congruence.
    rewrite decide_False by congruence. rewrite bool_decide_true by (by eexists). done.
Qed.

(** CompareAndSwap and CompareAndDelete do not compare: on a map that
    holds any value for the key they swap or delete it, report success, and their
    effect does not depend on [old]. *)
Lemma syncmap_compare_ignores_old (m : Map) (k : K) (v old new : V)
    (W : wf m) (Hv : (Load m k).1 = Some v) :
  (CompareAndSwap m k old new).1 = true /\
  (Load (CompareAndSwap m k old new).2 k).1 = Some new /\
  (CompareAndDelete m k old).1 = true /\
  (Load (CompareAndDelete m k old).2 k).1 = None.
Proof.
  destruct (Load_spec m k W) as (m0 & E0 & _). rewrite E0 in Hv. simpl in Hv.
  destruct (CompareAndSwap_spec m k old new W) as (m1 & -> & W1 & E1).
  destruct (CompareAndDelete_spec m k old W) as (m2 & -> & W2 & E2).
  rewrite Hv in *. simpl.
  destruct (Load_spec m1 k W1) as (? & -> & _), (Load_spec m2 k W2) as (? & -> & _). simpl.
  rewrite E1, E2. unfold upd. by rewrite !decide_True.
Qed.

(** One Load whose result is not looked at. *)
Definition miss_once (m : Map) (k : K) : Map := (Load m k).2.

(** The dirty map does not stay behind for ever: while the read map lacks
    a key, repeated Load calls of that key promote the dirty map to the read map
    within the number of calls that brings the miss counter to the size of the
    dirty map. *)
Lemma syncmap_promotion (m : Map) (k : K) (n : nat)
    (W : wf m) (Hr : read_m m !! k = None) (Hm : 0 <= misses m)
    (Hn : dirty_len m <= misses m + Z.of_nat n) (Hn0 : (0 < n)%nat) :
  exists j, (j <= n)%nat /\ amended (Nat.iter j (fun m => miss_once m k) m) = false.
Proof.
  revert m W Hr Hm Hn. induction n as [|n IH]; intros m W Hr Hm Hn; [lia|].
  destruct (amended m) eqn:Ha; [|exists 0%nat; split; [lia|done]].
  destruct (amended_dirty m W Ha) as [d Hd].
  assert (E1 : miss_once m k = missLocked m).
  { unfold miss_once, Load, find_entry, lookup_locked. rewrite Hr, Ha. by destruct (dirty_get m k). }
  unfold missLocked in E1. simpl in E1.
  change (dirty_len (set_misses m (misses m + 1))) with (dirty_len m) in E1.
  destruct (Z.ltb_spec (misses m + 1) (dirty_len m)).
  - destruct n as [|n]; [lia|].
    destruct (IH ltac:(lia) (miss_once m k)) as (j & Hj & Hj').
    + rewrite E1. by apply set_misses_wf.
    + by rewrite E1.
    + rewrite E1. simpl. lia.
    + rewrite E1. unfold dirty_len in *. simpl in *. lia.
    + exists (S j). split; [lia|]. by rewrite Nat.iter_succ_r.
  - exists 1%nat. split; [lia|]. simpl. by rewrite E1.
Qed.
End sync_map.

Arguments Map K V {_ _}.
Arguments ptr V : clear implicits.

Definition sample : Map string Z :=
  match run_all new_map [OpStore "a" 1; OpLoad "a"; OpStore "b" 2] with
  | Ret (_, m) => m
  | _ => new_map
  end.

Lemma sample_wf : wf sample.
Proof.
  destruct (Swap_spec (K := string) (V := Z) new_map "a" 1 new_map_wf) as (m1 & E1 & W1 & _).
  destruct (Load_spec m1 "a" W1) as (m2 & E2 & W2 & _).
  destruct (Swap_spec m2 "b" 2 W2) as (m3 & E3 & W3 & _).
  assert (E : sample = m3).
  { unfold sample, run_all, run, Store. rewrite E1. cbn [mbind go_bind]. rewrite E2.
    cbn [mbind go_bind]. rewrite E3. done. }
  by rewrite E.
Qed.

Lemma syncmap_compare_ignores_old_witness :
  (CompareAndSwap sample "a" 77 5).1 = true /\
  (Load (CompareAndSwap sample "a" 77 5).2 "a").1 = Some 5 /\
  (CompareAndDelete sample "a" 77).1 = true /\
  (Load (CompareAndDelete sample "a" 77).2 "a").1 = None.
Proof.
  apply (syncmap_compare_ignores_old sample "a" 1 77 5 sample_wf). vm_compute. reflexivity.
Defined.

Lemma syncmap_promotion_witness :
  exists j, (j <= 2)%nat /\ amended (Nat.iter j (fun m => miss_once m "b") sample) = false.
Proof.
  apply (syncmap_promotion sample "b" 2 sample_wf).
  - vm_compute. reflexivity.
  - vm_compute. discriminate.
  - vm_compute. discriminate.
  - lia.
Defined.

End SyncMap.
