(* ===== verification/SyncMapConc.v ===== *)
(** * The concurrent map under concurrency: util/sync_map.go

    The calls of any number of goroutines on one Map, interleaved at every action
    that another goroutine can see: a load of [read], an atomic operation on an
    entry, a lock or unlock of the mutex, a store of [read].  Accesses to the
    dirty map and the miss counter need the mutex, so they go with the visible
    action next to them.  A call is a program counter with its local variables
    ([pc]); [next] is what it does next.

    The memory is the [Map] of SyncMap.v whose values are pointers: an address
    and the value behind it.  Every call that stores has one address, its own
    number; compare-and-swap compares addresses. *)

From Stdlib Require Import ZArith Lia String.
From stdpp Require Import base numbers list strings gmap relations.
From S2P Require Import Prelude SyncMap.
Import SyncMap.

Module Conc.
Section conc.
Context {K V : Type} `{Countable K} (ρ : RangeOrder).

Abbreviation mem := (@Map K (nat * V) _ _).
Abbreviation pointer := (@ptr (nat * V)).
Abbreviation call_op := (@op K V).
Abbreviation result := (@res K V).

(** What a loop on an entry runs as: without the mutex, on an entry that the call
    has removed from the dirty map, or with the mutex (and then a miss to record
    or none). *)
Inductive mode := Free | Taken | Held (miss : bool).

(** What follows an unlock: the result, work on an entry, or Range's visits. *)
Inductive after :=
  | ARet (r : result)
  | AEntry (e : nat) (md : mode)
  | AVisit (l : list (K * nat)).

Inductive pc :=
  | PStart                                             (* m.loadReadOnly() *)
  | PEntry (e : nat) (md : mode)                       (* e.p.Load() *)
  | PCas (e : nat) (p : pointer) (md : mode)           (* e.p.CompareAndSwap(p, ...) *)
  | PLock                                              (* m.mu.Lock() *)
  | PLocked                                            (* the two maps, with the mutex *)
  | PUnexpunge (e : nat)                               (* e.unexpungeLocked() *)
  | PSwapLocked (e : nat)                              (* e.swapLocked() *)
  | PCopy (todo : list (K * nat))                      (* dirtyLocked: e.p.Load() of the next entry *)
  | PCopyCas (k : K) (e : nat) (todo : list (K * nat)) (* tryExpungeLocked: CompareAndSwap(nil, expunged) *)
  | PInsert                                            (* m.dirty[key] = newEntry(value) *)
  | PMiss (r : result)                                 (* m.missLocked() *)
  | PUnlock (a : after)                                (* m.mu.Unlock() *)
  | PVisit (l : list (K * nat)) (acc : list (K * V))   (* Range: e.load() of the next entry *)
  | PDone (r : result)
  | PStopped (acc : list (K * V))                      (* Range: f returned false *)
  | PPanic.

(** ** One action of a call *)

(** The key of a call, and the value it stores. *)
Definition key_of (o : call_op) : option K :=
  match o with
  | OpLoad k | OpStore k _ | OpSwap k _ | OpLoadOrStore k _ | OpLoadAndDelete k | OpDelete k
  | OpCompareAndSwap k _ _ | OpCompareAndDelete k _ => Some k
  | OpRange _ => None
  end.

Definition value_of (o : call_op) : option V :=
  match o with
  | OpStore _ v | OpSwap _ v | OpLoadOrStore _ v | OpCompareAndSwap _ _ v => Some v
  | _ => None
  end.

(** Store is Swap and Delete is LoadAndDelete, without the results. *)
Definition swap_result (o : call_op) (prev : option V) : result :=
  match o with OpStore _ _ | OpDelete _ => RNone | _ => RVal prev end.

(** The result when the key has no value. *)
Definition absent (o : call_op) : result :=
  match o with
  | OpCompareAndSwap _ _ _ | OpCompareAndDelete _ _ => RBool false
  | _ => swap_result o None
  end.

(** Comparing pointers. *)
Definition same (p q : pointer) : bool :=
  match p, q with
  | PNil, PNil | PExpunged, PExpunged => true
  | PVal (a, _), PVal (b, _) => Nat.eqb a b
  | _, _ => false
  end.

Definition pointed (p : pointer) : option V := snd <$> val p.

(** The pointer a successful compare-and-swap of call [c] leaves. *)
Definition new_pointer (c : nat) (o : call_op) : pointer :=
  match value_of o with Some v => PVal (c, v) | None => PNil end.

(** The result of a compare-and-swap that replaced [p]. *)
Definition swapped (o : call_op) (p : pointer) : result :=
  match o with
  | OpLoadOrStore _ v => RLoaded v false
  | OpCompareAndSwap _ _ _ | OpCompareAndDelete _ _ => RBool true
  | _ => swap_result o (pointed p)
  end.

(** The end of a loop on an entry. *)
Definition finish (md : mode) (r : result) : pc :=
  match md with
  | Free | Taken => PDone r
  | Held true => PMiss r
  | Held false => PUnlock (ARet r)
  end.

(** The loops load, entry.delete, trySwap, tryLoadOrStore, tryCompareAndSwap and the
    one of CompareAndDelete, at the load [p] of the entry [e]. *)
Definition at_entry (o : call_op) (e : nat) (md : mode) (p : pointer) : pc :=
  match o with
  | OpLoad _ => finish md (RVal (pointed p))
  | OpStore _ _ | OpSwap _ _ => match p with PExpunged => PLock | _ => PCas e p md end
  | OpLoadOrStore _ v =>
      match p, md with
      | PExpunged, Free => PLock
      | PExpunged, _ => PPanic                         (* the zero value would be returned *)
      | PVal (_, w), _ => finish md (RLoaded w true)
      | PNil, _ => PCas e PNil md
      end
  | _ => match p with PVal _ => PCas e p md | _ => finish md (absent o) end
  end.

(** The first look at the read map. *)
Definition at_start (m : mem) (o : call_op) : pc :=
  match o, key_of o with
  | OpRange ρ', _ => if amended m then PLock else PVisit (ρ' _ (map_to_list (read_m m))) []
  | _, None => PPanic
  | _, Some k =>
      match read_m m !! k, o with
      | Some e, _ => PEntry e Free
      | None, (OpStore _ _ | OpSwap _ _ | OpLoadOrStore _ _) => PLock
      | None, _ => if amended m then PLock else PDone (absent o)
      end
  end.

(** With the mutex: Load, LoadAndDelete and CompareAndDelete. *)
Definition locked_lookup (m : mem) (o : call_op) (k : K) : mem * pc :=
  match read_m m !! k with
  | Some e => (m, PUnlock (AEntry e Free))
  | None =>
      if amended m then
        let deletes := match o with OpLoadAndDelete _ | OpDelete _ => true | _ => false end in
        let m' := missLocked (if deletes then set_dirty m (delete k <$> dirty m) else m) in
        (m', PUnlock (match dirty_get m k with
                      | Some e => AEntry e (if deletes then Taken else Free)
                      | None => ARet (absent o)
                      end))
      else (m, PUnlock (ARet (absent o)))
  end.

(** With the mutex: a key that neither map knows. *)
Definition locked_insert (m : mem) : mem * pc :=
  if amended m then (m, PInsert)
  else match dirty m with
       | Some _ => (m, PCopy [])
       | None => (set_dirty m (Some ∅), PCopy (ρ _ (map_to_list (read_m m))))
       end.

Definition at_locked (m : mem) (o : call_op) : mem * pc :=
  match o, key_of o with
  | OpRange ρ', _ => let m := promote m in (m, PUnlock (AVisit (ρ' _ (map_to_list (read_m m)))))
  | (OpLoad _ | OpLoadAndDelete _ | OpDelete _ | OpCompareAndDelete _ _), Some k => locked_lookup m o k
  | OpCompareAndSwap _ _ _, Some k =>
      (m, match read_m m !! k, dirty_get m k with
          | Some e, _ => PEntry e (Held false)
          | None, Some e => PEntry e (Held true)
          | None, None => PUnlock (ARet (absent o))
          end)
  | (OpStore _ _ | OpSwap _ _), Some k =>
      match read_m m !! k, dirty_get m k with
      | Some e, _ => (m, PUnexpunge e)
      | None, Some e => (m, PSwapLocked e)
      | None, None => locked_insert m
      end
  | OpLoadOrStore _ _, Some k =>
      match read_m m !! k, dirty_get m k with
      | Some e, _ => (m, PUnexpunge e)
      | None, Some e => (m, PEntry e (Held true))
      | None, None => locked_insert m
      end
  | _, None => (m, PPanic)
  end.

Definition at_unexpunge (m : mem) (o : call_op) (k : K) (e : nat) : mem * pc :=
  let continue := match o with OpLoadOrStore _ _ => PEntry e (Held false) | _ => PSwapLocked e end in
  let '(was, m) := unexpungeLocked m e in
  if was : bool then match dirty_put m k e with Ret m => (m, continue) | _ => (m, PPanic) end
  else (m, continue).

Definition at_swap (m : mem) (c : nat) (o : call_op) (v : V) (e : nat) : mem * pc :=
  let '(p, m) := swapLocked m e (c, v) in
  (m, match p with PExpunged => PPanic | _ => PUnlock (ARet (swap_result o (pointed p))) end).

Definition at_copy (m : mem) (todo : list (K * nat)) : mem * pc :=
  match todo with
  | [] => (set_read m (read_m m) true, PInsert)
  | (k, e) :: rest =>
      match get_p m e with
      | PNil => (m, PCopyCas k e rest)
      | PExpunged => (m, PCopy rest)
      | PVal _ => match dirty_put m k e with Ret m => (m, PCopy rest) | _ => (m, PPanic) end
      end
  end.

Definition at_insert (m : mem) (c : nat) (o : call_op) (k : K) (v : V) : mem * pc :=
  let '(e, m) := newEntry m (c, v) in
  match dirty_put m k e with
  | Ret m => (m, PUnlock (ARet (match o with OpLoadOrStore _ _ => RLoaded v false | _ => swap_result o None end)))
  | _ => (m, PPanic)
  end.

Definition after_unlock (a : after) : pc :=
  match a with ARet r => PDone r | AEntry e md => PEntry e md | AVisit l => PVisit l [] end.

(** The next action of call [c]: the memory, the holder of the mutex and the
    program counter after it.  [None]: the call is over or waits. *)
Definition next (m : mem) (holder : option nat) (c : nat) (o : call_op) (p : pc) : option (mem * option nat * pc) :=
  match p with
  | PStart => Some (m, holder, at_start m o)
  | PEntry e md => Some (m, holder, at_entry o e md (get_p m e))
  | PCas e p md =>
      if same (get_p m e) p then Some (set_p m e (new_pointer c o), holder, finish md (swapped o p))
      else Some (m, holder, PEntry e md)
  | PLock => match holder with None => Some (m, Some c, PLocked) | Some _ => None end
  | PLocked => let '(m, p) := at_locked m o in Some (m, holder, p)
  | PUnexpunge e =>
      k ← key_of o; let '(m, p) := at_unexpunge m o k e in Some (m, holder, p)
  | PSwapLocked e => v ← value_of o; let '(m, p) := at_swap m c o v e in Some (m, holder, p)
  | PCopy todo => let '(m, p) := at_copy m todo in Some (m, holder, p)
  | PCopyCas k e todo =>
      match get_p m e with
      | PNil => Some (set_p m e PExpunged, holder, PCopy todo)
      | _ => Some (m, holder, PCopy ((k, e) :: todo))
      end
  | PInsert => k ← key_of o; v ← value_of o; let '(m, p) := at_insert m c o k v in Some (m, holder, p)
  | PMiss r => Some (missLocked m, holder, PUnlock (ARet r))
  | PUnlock a => Some (m, None, after_unlock a)
  | PVisit [] acc => Some (m, holder, PDone (RList acc))
  | PVisit ((k, e) :: l) acc =>
      Some (m, holder, PVisit l (match pointed (get_p m e) with Some v => acc ++ [(k, v)] | None => acc end))
  | PDone _ | PStopped _ | PPanic => None
  end.

(** ** Executions *)

(** [prior]: the calls that had returned when this one was made. *)
Record call := { c_op : call_op; c_pc : pc; prior : gset nat }.

Record state := { mp : mem; holder : option nat; calls : gmap nat call }.

Definition start : state := {| mp := new_map; holder := None; calls := ∅ |}.

(** Calls other than Range, which is not one action on the map. *)
Definition on_key (o : call_op) : bool := match o with OpRange _ => false | _ => true end.

Definition returned (cl : call) : Prop := on_key (c_op cl) = true /\ exists r, c_pc cl = PDone r.
#[global] Instance returned_dec cl : Decision (returned cl).
Proof.
  refine (match c_pc cl as p return c_pc cl = p -> Decision (returned cl) with
          | PDone r => fun E => if decide (on_key (c_op cl) = true) then left _ else right _
          | _ => fun E => right _
          end eq_refl); unfold returned; try (intros [? [? ?]]; congruence); eauto.
Defined.

Definition set_call (s : state) (m : mem) (h : option nat) (c : nat) (cl : call) : state :=
  {| mp := m; holder := h; calls := <[c := cl]> (calls s) |}.

Definition with_pc (cl : call) (p : pc) : call := {| c_op := c_op cl; c_pc := p; prior := prior cl |}.

Inductive step (s : state) : state -> Prop :=
  | s_invoke c o : calls s !! c = None ->
      step s (set_call s (mp s) (holder s) c
        {| c_op := o; c_pc := PStart; prior := dom (filter (fun x => returned x.2) (calls s)) |})
  | s_next c cl m h p : calls s !! c = Some cl -> next (mp s) (holder s) c (c_op cl) (c_pc cl) = Some (m, h, p) ->
      step s (set_call s m h c (with_pc cl p))
  | s_stop c cl l acc : calls s !! c = Some cl -> c_pc cl = PVisit l acc -> acc <> [] ->  (* f returned false *)
      step s (set_call s (mp s) (holder s) c (with_pc cl (PStopped acc))).

(** ** Linearizability *)

(** Calls one after the other on a finite map, with their results. *)
Fixpoint legal (a : gmap K V) (l : list (nat * call_op * result)) : Prop :=
  match l with
  | [] => True
  | (_, o, r) :: l => r = (spec_run a o).1 /\ legal (spec_run a o).2 l
  end.

Fixpoint final (a : gmap K V) (l : list (nat * call_op * result)) : gmap K V :=
  match l with
  | [] => a
  | (_, o, _) :: l => final (spec_run a o).2 l
  end.

Definition ids (l : list (nat * call_op * result)) : list nat := (fun x => x.1.1) <$> l.

(** An order of the calls that have had their effect that explains their results
    on a plain map and respects the order of calls that did not overlap. *)
Record linearization (s : state) (l : list (nat * call_op * result)) : Prop := {
  lin_once : NoDup (ids l);
  lin_legal : legal ∅ l;
  lin_calls : forall c o r, (c, o, r) ∈ l -> exists cl, calls s !! c = Some cl /\ c_op cl = o;
  lin_results : forall c cl r, calls s !! c = Some cl -> c_pc cl = PDone r -> on_key (c_op cl) = true -> (c, c_op cl, r) ∈ l;
  lin_order : forall pre c o r post cl x, l = pre ++ (c, o, r) :: post -> calls s !! c = Some cl -> x ∈ prior cl -> x ∈ ids pre
}.
End conc.
End Conc.
