(* ===== verification/SyncMapInv.v ===== *)
(** * What every execution of the concurrent map keeps

    The order of the calls of SyncMapConc.v that have had their effect, the
    invariant that ties it to the memory and to the program counters ([inv]), and
    what an action of one call leaves to the others ([rely]).  A write is appended
    to the order where its atomic operation succeeds, a read where it looks.  Three
    kinds of calls need more:

    - a reader that looks through an entry that is no longer the key's: it is
      inserted where the entry was the last time the key's ([seen]);
    - LoadAndDelete that has removed the entry from the dirty map: it is appended at
      the removal, with the value it expects ([Taken]);
    - CompareAndDelete that gets that value first: it takes the place of the
      LoadAndDelete, which then found nothing ([overtaken]). *)

From Stdlib Require Import ZArith Lia String.
From stdpp Require Import base numbers list strings gmap relations.
From S2P Require Import Prelude SyncMap SyncMapConc.
Import SyncMap Conc.

Module Inv.
Section inv.
Context {K V : Type} `{Countable K}.

Abbreviation entry_of_order := (nat * @op K V * @res K V)%type.
Abbreviation order := (list entry_of_order).
Implicit Types (l pre post : order) (a : gmap K V).

(** ** Orders *)

Lemma final_app a l1 l2 : final a (l1 ++ l2) = final (final a l1) l2.
Proof. revert a; induction l1 as [|[[c o] r] l1 IH]; intros a; [done|]. apply IH. Qed.

Lemma legal_app a l1 l2 : legal a (l1 ++ l2) <-> legal a l1 /\ legal (final a l1) l2.
Proof. revert a; induction l1 as [|[[c o] r] l1 IH]; intros a; cbn; [tauto|]. rewrite IH. tauto. Qed.

Lemma ids_app l1 l2 : ids (l1 ++ l2) = ids l1 ++ ids l2.
Proof. apply fmap_app. Qed.

Lemma elem_of_ids c l : c ∈ ids l <-> exists o r, (c, o, r) ∈ l.
Proof.
  unfold ids. rewrite list_elem_of_fmap. split.
  - intros ([[c' o] r] & -> & Hin). by exists o, r.
  - intros (o & r & Hin). by exists (c, o, r).
Qed.

Lemma ids_unique l c o r o' r' : NoDup (ids l) -> (c, o, r) ∈ l -> (c, o', r') ∈ l -> o = o' /\ r = r'.
Proof.
  induction l as [|[[c0 o0] r0] l IH]; [by intros _ ?%elem_of_nil|]. cbn. intros [Hn Hnd]%NoDup_cons.
  intros [[= <- <- <-]|H1]%elem_of_cons [[= <- <-]|H2]%elem_of_cons; [done|..|by apply IH];
    destruct Hn; apply elem_of_ids; eauto.
Qed.

(** A call that changes nothing where it stands. *)
Definition neutral (a : gmap K V) (o : @op K V) : Prop := (spec_run a o).2 = a.

(** At some point at which the calls of [P] were over, [k] had the value [v]. *)
Definition seen (l : order) (P : gset nat) (k : K) (v : option V) : Prop :=
  exists pre post, l = pre ++ post /\ (forall x, x ∈ P -> x ∈ ids pre) /\ final ∅ pre !! k = v.

(** The order [l'] has all points of [l], and all calls of [l] but [sk] as they were. *)
Record grows (sk : option nat) (l l' : order) : Prop := {
  g_split : forall pre post, l = pre ++ post -> exists pre' post', l' = pre' ++ post' /\
    (forall x, x ∈ ids pre -> x ∈ ids pre') /\ final ∅ pre' = final ∅ pre;
  g_mid : forall pre x post, l = pre ++ x :: post -> Some x.1.1 <> sk -> exists pre' post', l' = pre' ++ x :: post' /\
    (forall y, y ∈ ids pre -> y ∈ ids pre') /\ final ∅ pre' = final ∅ pre
}.

Lemma grows_refl sk l : grows sk l l.
Proof. split; intros; eauto. Qed.

Lemma grows_elem sk l l' x : grows sk l l' -> x ∈ l -> Some x.1.1 <> sk -> x ∈ l'.
Proof.
  intros [_ Hm] (pre & post & E)%list_elem_of_split Hs. destruct (Hm pre x post E Hs) as (pre' & post' & -> & _). apply elem_of_app. right. left.
Qed.

Lemma grows_ids sk l l' c : grows sk l l' -> c ∈ ids l -> c ∈ ids l'.
Proof.
  intros [Hs _] Hc. destruct (Hs l []) as (pre & post & -> & Hi & _); [by rewrite app_nil_r|]. rewrite ids_app, elem_of_app. left. by apply Hi.
Qed.

Lemma seen_grows sk l l' P k v : grows sk l l' -> seen l P k v -> seen l' P k v.
Proof.
  intros [Hs _] (pre & post & E & HP & Hv). destruct (Hs pre post E) as (pre' & post' & -> & Hi & Hf).
  exists pre', post'. split_and!; [done|auto|congruence].
Qed.

(** The present is a point. *)
Lemma seen_now l (P : gset nat) k v : (forall x, x ∈ P -> x ∈ ids l) -> final ∅ l !! k = v -> seen l P k v.
Proof. intros HP Hv. exists l, []. by rewrite app_nil_r. Qed.

(** Inserting a call that changes nothing, or appending any. *)
Lemma grows_insert sk pre0 post0 x : neutral (final ∅ pre0) x.1.2 \/ post0 = [] -> grows sk (pre0 ++ post0) (pre0 ++ x :: post0).
Proof.
  intros Hx. destruct x as [[c o] r]. cbn in Hx.
  assert (Hq : forall q, neutral (final ∅ pre0) o \/ q = [] -> q = [] \/ final ∅ (pre0 ++ (c, o, r) :: q) = final ∅ (pre0 ++ q)).
  { intros q [Hn|]; [right|by left]. rewrite !final_app. cbn. by rewrite Hn. }
  split.
  - intros pre post E. apply app_eq_inv in E as [(q & -> & ->)|(q & -> & ->)].
    + exists pre, (q ++ (c, o, r) :: post0). rewrite <- app_assoc. done.
    + destruct (Hq q) as [->|Hf]; [destruct Hx as [|[-> ->]%app_eq_nil]; [by left|by right]|..].
      * exists pre0, ((c, o, r) :: post). split; [done|]. by rewrite app_nil_r.
      * exists (pre0 ++ (c, o, r) :: q), post. rewrite <- app_assoc. split; [done|]. split; [|done]. intros y. rewrite !ids_app. cbn.
        rewrite !elem_of_app, elem_of_cons. tauto.
  - intros pre x post E _. apply app_eq_inv in E as [(q & -> & E)|(q & -> & ->)].
    + destruct q as [|y q]; cbn in E; [|injection E as <- ->].
      * subst post0. destruct Hx as [Hx|]; [|done]. rewrite app_nil_r in *. exists (pre ++ [(c, o, r)]), post. rewrite <- app_assoc. split; [done|].
        rewrite ids_app, final_app. cbn. rewrite Hx. split; [|done]. intros y. rewrite elem_of_app. by left.
      * exists pre, (q ++ (c, o, r) :: post0). rewrite <- app_assoc. done.
    + destruct Hx as [Hx|[_ ?]%app_eq_nil]; [|done]. destruct (Hq q (or_introl Hx)) as [->|Hf].
      * exists (pre0 ++ [(c, o, r)]), post. rewrite <- app_assoc. split; [done|]. rewrite app_nil_r, ids_app, final_app. cbn. rewrite Hx. split; [|done].
        intros y. rewrite elem_of_app. by left.
      * exists (pre0 ++ (c, o, r) :: q), post. rewrite <- app_assoc. split; [done|]. split; [|done]. intros y. rewrite !ids_app. cbn.
        rewrite !elem_of_app, elem_of_cons. tauto.
Qed.

(** An order that is legal and respects the calls that were over before. *)
Record wf_order (pr : nat -> gset nat) (l : order) : Prop := {
  wo_once : NoDup (ids l);
  wo_legal : legal ∅ l;
  wo_order : forall pre x post y, l = pre ++ x :: post -> y ∈ pr x.1.1 -> y ∈ ids pre
}.

Lemma insert_order pr pre post c o : wf_order pr (pre ++ post) -> c ∉ ids (pre ++ post) -> neutral (final ∅ pre) o \/ post = [] ->
  (forall y, y ∈ pr c -> y ∈ ids pre) -> wf_order pr (pre ++ (c, o, (spec_run (final ∅ pre) o).1) :: post).
Proof.
  intros [W1 W2 W3] Hc Hx Hp. set (r := (spec_run _ o).1). apply legal_app in W2 as [L1 L2]. split.
  - rewrite ids_app in *. cbn. rewrite <- Permutation_middle. by apply NoDup_cons.
  - apply legal_app. cbn. split_and!; [done|done|]. destruct Hx as [->| ->]; done.
  - intros p x q y E Hy. apply app_eq_inv in E as [(z & -> & E)|(z & -> & E)].
    + destruct z as [|x' z]; cbn in E; injection E as -> ->; [rewrite app_nil_r in Hp; by apply Hp|].
      eapply (W3 p _ (z ++ post)); [by rewrite <- app_assoc|done].
    + destruct z as [|x' z]; cbn in E; injection E as <- E; [rewrite app_nil_r; by apply Hp|].
      subst post. rewrite ids_app. cbn. rewrite elem_of_app, elem_of_cons.
      pose proof (W3 (pre ++ z) x q y) as Hw. rewrite ids_app, elem_of_app in Hw. destruct Hw; [by rewrite <- app_assoc|done|tauto|tauto].
Qed.

(** CompareAndDelete [c] takes the place of a deletion [d], which then finds nothing. *)
Definition deletes (k : K) (o : @op K V) : Prop := o = OpLoadAndDelete k \/ o = OpDelete k.

Definition overtaken (pre post : order) (c d : nat) (k : K) (old : V) (o : @op K V) : order :=
  pre ++ (c, OpCompareAndDelete k old, RBool true) :: (d, o, swap_result o None) :: post.

Lemma deletes_spec a k o : deletes k o -> spec_run a o = (swap_result o (a !! k), delete k a).
Proof. by intros [-> | ->]. Qed.

Lemma overtaken_final pre post c d k old o r : deletes k o -> final ∅ (overtaken pre post c d k old o) = final ∅ (pre ++ (d, o, r) :: post).
Proof.
  intros Ho. unfold overtaken. rewrite !final_app. cbn. rewrite !(deletes_spec _ k o Ho). cbn. by rewrite delete_delete_eq.
Qed.

Lemma grows_overtaken pre post c d k old o r : deletes k o -> grows (Some d) (pre ++ (d, o, r) :: post) (overtaken pre post c d k old o).
Proof.
  intros Ho. split.
  - intros p q E. apply app_eq_inv in E as [(z & -> & ->)|(z & -> & E)].
    + exists p, (z ++ (c, OpCompareAndDelete k old, RBool true) :: (d, o, swap_result o None) :: post). unfold overtaken. by rewrite <- app_assoc.
    + destruct z as [|x z]; cbn in E; [subst q|injection E as <- ->].
      * exists pre, ((c, OpCompareAndDelete k old, RBool true) :: (d, o, swap_result o None) :: post). by rewrite app_nil_r.
      * exists (overtaken pre z c d k old o), q. unfold overtaken at 1 2. split; [by rewrite <- app_assoc|].
        rewrite (overtaken_final _ _ _ _ _ _ _ r) by done. split; [|done]. intros y. unfold overtaken. rewrite !ids_app. cbn.
        rewrite !elem_of_app, !elem_of_cons. tauto.
  - intros p x q E Hne. apply app_eq_inv in E as [(z & -> & E)|(z & -> & E)].
    + destruct z as [|x' z]; cbn in E; injection E as -> ->; [by destruct Hne|].
      exists p, (z ++ (c, OpCompareAndDelete k old, RBool true) :: (d, o, swap_result o None) :: post). unfold overtaken. by rewrite <- app_assoc.
    + destruct z as [|x' z]; cbn in E; [injection E as <- _; by destruct Hne|injection E as <- ->].
      exists (overtaken pre z c d k old o), q. unfold overtaken at 1 2. split; [by rewrite <- app_assoc|].
      rewrite (overtaken_final _ _ _ _ _ _ _ r) by done. split; [|done]. intros y. unfold overtaken. rewrite !ids_app. cbn.
      rewrite !elem_of_app, !elem_of_cons. tauto.
Qed.

Lemma overtaken_order pr pre post c d k old o r v : deletes k o -> wf_order pr (pre ++ (d, o, r) :: post) -> c ∉ ids (pre ++ (d, o, r) :: post) ->
  final ∅ pre !! k = Some v -> (forall y, y ∈ pr c -> y ∈ ids pre) -> wf_order pr (overtaken pre post c d k old o).
Proof.
  intros Ho [W1 W2 W3] Hc Hv Hp. apply legal_app in W2 as [L1 [_ L2]]. rewrite (deletes_spec _ k o Ho) in L2. cbn in L2. split.
  - unfold overtaken. rewrite ids_app in *. cbn in *. rewrite <- Permutation_middle. by apply NoDup_cons.
  - unfold overtaken. apply legal_app. split; [done|]. cbn. rewrite (deletes_spec _ k o Ho). cbn. rewrite Hv, lookup_delete_eq, delete_delete_eq. done.
  - intros p x q y E Hy. unfold overtaken in E. apply app_eq_inv in E as [(z & -> & E)|(z & -> & E)].
    + destruct z as [|x' z]; cbn in E; injection E as -> ->; [rewrite app_nil_r in Hp; by apply Hp|].
      eapply (W3 p _ (z ++ (d, o, r) :: post)); [by rewrite <- app_assoc|done].
    + destruct z as [|x' z]; cbn in E; injection E as <- E; [rewrite app_nil_r; by apply Hp|].
      destruct z as [|x' z]; cbn in E; injection E as <- E.
      * rewrite ids_app, elem_of_app. left. by apply (W3 pre (d, o, r) post).
      * subst post. pose proof (W3 (pre ++ (d, o, r) :: z) x q y) as Hw. rewrite ids_app in *. cbn in *.
        rewrite !elem_of_app, !elem_of_cons in *. destruct Hw; [by rewrite <- app_assoc|done|tauto|tauto].
Qed.

(** ** The memory *)

Abbreviation mem := (@Map K (nat * V) _ _).
Implicit Types (m : mem) (k : K) (e : nat).

(** While dirtyLocked copies the read map: what is still to be copied. *)
Record copying (m : mem) (todo : list (K * nat)) : Prop := {
  cp_fresh : forall k e, any m k e -> (e < SyncMap.next m)%nat;
  cp_inj : forall k1 k2 e, any m k1 e -> any m k2 e -> k1 = k2;
  cp_amended : amended m = false;
  cp_dirty : exists d, dirty m = Some d /\
    (forall k e, d !! k = Some e -> read_m m !! k = Some e /\ get_p m e <> PExpunged) /\
    (forall k e, read_m m !! k = Some e -> (k, e) ∈ todo \/ get_p m e = PExpunged \/ d !! k = Some e);
  cp_todo : forall k e, (k, e) ∈ todo -> read_m m !! k = Some e /\ get_p m e <> PExpunged;
  cp_new : forall k e, (k, e) ∈ todo -> dirty_get m k = None;
  cp_once : NoDup todo.*1
}.

Definition wfc (m : mem) (cp : option (list (K * nat))) : Prop :=
  match cp with None => wf m | Some todo => copying m todo end.

(** What holds either way. *)
Record coherent (m : mem) : Prop := {
  co_fresh : forall k e, any m k e -> (e < SyncMap.next m)%nat;
  co_inj : forall k1 k2 e, any m k1 e -> any m k2 e -> k1 = k2;
  co_same : forall k e e', any m k e -> any m k e' -> e = e'
}.

Lemma wfc_coherent m cp : wfc m cp -> coherent m.
Proof.
  destruct cp as [todo|].
  - intros [C1 C2 C3 (d & Ed & C4 & _) _ _ _]. split; [done|done|].
    assert (Hr : forall k e, any m k e -> read_m m !! k = Some e).
    { intros k e [Hr|Hd]; [done|]. unfold dirty_get in Hd. rewrite Ed in Hd. by apply C4. }
    intros k e e' H1%Hr H2%Hr. congruence.
  - intros W. split; [apply W|apply W|].
    intros k e e' [H1|H1] [H2|H2]; [congruence|by eapply read_dirty_same|symmetry; by eapply read_dirty_same|congruence].
Qed.

Lemma abs_linked m k e : coherent m -> any m k e -> abs m k = entry_load m e.
Proof.
  intros C He. unfold abs. destruct (read_m m !! k) as [e'|] eqn:Er.
  - f_equal. eapply (co_same m C k); [by left|done].
  - destruct He as [He|He]; [congruence|]. by rewrite He.
Qed.

Lemma abs_unlinked m k : (forall e, ~ any m k e) -> abs m k = None.
Proof.
  intros Hn. unfold abs. destruct (read_m m !! k) as [e|] eqn:Er; [destruct (Hn e); by left|].
  destruct (dirty_get m k) as [e|] eqn:Ed; [destruct (Hn e); by right|done].
Qed.

Definition linked (m : mem) (e : nat) : Prop := exists k, any m k e.

Lemma any_set_p m e p k e' : any (set_p m e p) k e' <-> any m k e'.
Proof. done. Qed.

Lemma coherent_set_p m e p : coherent m -> coherent (set_p m e p).
Proof. intros [C1 C2 C3]. by split. Qed.

Lemma entry_load_set_p m e p e' : entry_load (set_p m e p) e' = if decide (e' = e) then val p else entry_load m e'.
Proof. unfold entry_load. rewrite get_set_p. by case_decide. Qed.

Lemma abs_set_p_linked m k e p k' : coherent m -> any m k e -> abs (set_p m e p) k' = upd (abs m) k (val p) k'.
Proof.
  intros C He. unfold upd. case_decide as Hk.
  - subst k'. rewrite (abs_linked (set_p m e p) k e); [|by apply coherent_set_p|done]. rewrite entry_load_set_p. by rewrite decide_True.
  - unfold abs. cbn [read_m set_p set_heap]. change (dirty_get (set_p m e p) k') with (dirty_get m k').
    assert (Hne : forall e', any m k' e' -> entry_load (set_p m e p) e' = entry_load m e').
    { intros e' He'. rewrite entry_load_set_p, decide_False; [done|]. intros ->. apply Hk. by eapply co_inj. }
    destruct (read_m m !! k') as [e'|] eqn:Er; [apply Hne; by left|].
    destruct (dirty_get m k') as [e'|] eqn:Ed; [apply Hne; by right|done].
Qed.

Lemma abs_set_p_unlinked m e p k' : ~ linked m e -> abs (set_p m e p) k' = abs m k'.
Proof.
  intros Hn. unfold abs. cbn [read_m set_p set_heap]. change (dirty_get (set_p m e p) k') with (dirty_get m k').
  assert (Hne : forall e', any m k' e' -> entry_load (set_p m e p) e' = entry_load m e').
  { intros e' He'. rewrite entry_load_set_p, decide_False; [done|]. intros ->. apply Hn. by exists k'. }
  destruct (read_m m !! k') as [e'|] eqn:Er; [apply Hne; by left|].
  destruct (dirty_get m k') as [e'|] eqn:Ed; [apply Hne; by right|done].
Qed.

(** Storing a value or nil in an entry that is not expunged. *)
Lemma wfc_set_p m cp e p : wfc m cp -> get_p m e <> PExpunged -> p <> PExpunged -> wfc (set_p m e p) cp.
Proof.
  intros W He Hp. destruct cp as [todo|]; [|by apply set_p_wf]. destruct W as [C1 C2 C3 (d & Ed & C4 & C5) C6 C7 C8].
  assert (Hx : forall e', get_p m e' <> PExpunged <-> get_p (set_p m e p) e' <> PExpunged)
    by (intros e'; rewrite get_set_p; case_decide; [subst; tauto|done]).
  split; try done.
  - exists d. split_and!; [done| |].
    + intros k e' Hk%C4. cbn [read_m set_p set_heap]. by rewrite <- Hx.
    + intros k e' Hk. destruct (C5 k e' Hk) as [?|[Hex|?]]; [by left| |by right; right]. right; left.
      rewrite get_set_p, decide_False; [done|]. by intros ->.
  - intros k e' Hk%C6. cbn [read_m set_p set_heap]. by rewrite <- Hx.
Qed.

Lemma wfc_set_p_unlinked m cp e p : wfc m cp -> ~ linked m e -> wfc (set_p m e p) cp.
Proof.
  intros W He. assert (Hx : forall k e', any m k e' -> get_p (set_p m e p) e' = get_p m e').
  { intros k e' Hk. rewrite get_set_p, decide_False; [done|]. intros ->. apply He. by exists k. }
  destruct cp as [todo|]; [|apply set_p_unreachable; [done|]; intros k Hk; apply He; by exists k].
  destruct W as [C1 C2 C3 (d & Ed & C4 & C5) C6 C7 C8]. split; try done.
  - exists d. split_and!; [done| |].
    + intros k e' Hk%C4. cbn [read_m set_p set_heap]. rewrite (Hx k) by (left; apply Hk). done.
    + intros k e' Hk. rewrite (Hx k) by (by left). by apply C5.
  - intros k e' Hk%C6. cbn [read_m set_p set_heap]. rewrite (Hx k) by (left; apply Hk). done.
Qed.

(** ** What holds of a call *)

Abbreviation pointer := (@ptr (nat * V)).
Abbreviation pcs := (@pc K V).
Abbreviation st := (@state K V _ _).
Implicit Types (s : st) (cl : @call K V) (o : @op K V) (P : gset nat) (p : pointer).

(** The call has removed the entry [e] from the dirty map. *)
Definition takes cl (e : nat) : Prop :=
  c_pc cl = PUnlock (AEntry e Taken) \/ c_pc cl = PEntry e Taken \/ exists p, c_pc cl = PCas e p Taken.

(** An entry that is no longer the entry of [k], seen by a call that came after the
    calls [P]: it holds a value only if its remover is still at work. *)
Definition gone s (l : order) P (k : K) (e : nat) : Prop :=
  match pointed (get_p (mp s) e) with
  | Some v => exists d cl pre post, calls s !! d = Some cl /\ takes cl e /\ deletes k (c_op cl) /\
      l = pre ++ (d, c_op cl, swap_result (c_op cl) (Some v)) :: post /\ final ∅ pre !! k = Some v /\ (forall x, x ∈ P -> x ∈ ids pre)
  | None => seen l P k None
  end.

(** An entry found for [k], perhaps in the dirty map. *)
Definition holds s l P (k : K) (e : nat) : Prop :=
  (e < SyncMap.next (mp s))%nat /\ (forall k', any (mp s) k' e -> k' = k) /\
  (any (mp s) k e \/ (~ linked (mp s) e /\ gone s l P k e)).

(** An entry found for [k] in a read map. *)
Definition read_holds s l P (k : K) (e : nat) : Prop :=
  (e < SyncMap.next (mp s))%nat /\ (forall k', any (mp s) k' e -> k' = k) /\
  (read_m (mp s) !! k = Some e \/ (~ linked (mp s) e /\ get_p (mp s) e = PExpunged /\ seen l P k None)).

(** Load and CompareAndDelete may work on an entry of the dirty map without the mutex. *)
Definition dirty_free o : bool := match o with OpLoad _ | OpCompareAndDelete _ _ => true | _ => false end.

Definition free_entry s l P o (e : nat) : Prop :=
  exists k, key_of o = Some k /\ if dirty_free o then holds s l P k e else read_holds s l P k e.

Definition taken_entry s l (c : nat) o (e : nat) : Prop :=
  (exists k, deletes k o) /\ (e < SyncMap.next (mp s))%nat /\ ~ linked (mp s) e /\ get_p (mp s) e <> PExpunged /\
  (c, o, swap_result o (pointed (get_p (mp s) e))) ∈ l.

(** With the mutex: LoadOrStore and CompareAndSwap. *)
Definition held_entry s o (e : nat) (miss : bool) : Prop :=
  exists k, key_of o = Some k /\ any (mp s) k e /\ (miss = true -> amended (mp s) = true) /\
    ((exists v, o = OpLoadOrStore k v) /\ get_p (mp s) e <> PExpunged \/ exists old v, o = OpCompareAndSwap k old v).

Definition in_mode s l (c : nat) cl (e : nat) (md : mode) : Prop :=
  match md with
  | Free => c ∉ ids l /\ free_entry s l (prior cl) (c_op cl) e
  | Taken => taken_entry s l c (c_op cl) e
  | Held miss => c ∉ ids l /\ held_entry s (c_op cl) e miss
  end.

(** The pointer a compare-and-swap expects. *)
Definition expected s o p : Prop :=
  match p with
  | PNil => match o with OpStore _ _ | OpSwap _ _ | OpLoadOrStore _ _ => True | _ => False end
  | PExpunged => False
  | PVal (b, v) => (match o with OpLoad _ | OpLoadOrStore _ _ | OpRange _ => False | _ => True end) /\
      exists cl, calls s !! b = Some cl /\ value_of (c_op cl) = Some v
  end.

Definition stores o (k : K) (v : V) : Prop := o = OpStore k v \/ o = OpSwap k v \/ o = OpLoadOrStore k v.

(** What Range has still to visit, and what it has seen. *)
Definition visits s l P (es : list (K * nat)) : Prop :=
  NoDup es.*1 /\ forall k e, (k, e) ∈ es -> read_holds s l P k e.
Definition visited l P (acc : list (K * V)) : Prop :=
  NoDup acc.*1 /\ forall k v, (k, v) ∈ acc -> seen l P k (Some v).

(** The keys that are neither to be visited nor seen had no value at some point. *)
Definition left_out l P (es : list (K * nat)) (acc : list (K * V)) : Prop :=
  forall k, k ∉ es.*1 -> k ∉ acc.*1 -> seen l P k None.

Definition at_pc s l (c : nat) cl : Prop :=
  let o := c_op cl in
  match c_pc cl with
  | PStart | PLock | PLocked => c ∉ ids l
  | PEntry e md => in_mode s l c cl e md
  | PCas e p md => in_mode s l c cl e md /\ expected s o p
  | PUnexpunge e => c ∉ ids l /\ exists k v, stores o k v /\ read_m (mp s) !! k = Some e
  | PSwapLocked e => c ∉ ids l /\ (exists k v, (o = OpStore k v \/ o = OpSwap k v) /\ any (mp s) k e) /\ get_p (mp s) e <> PExpunged
  | PCopy _ | PCopyCas _ _ _ => c ∉ ids l /\ exists k v, stores o k v /\ read_m (mp s) !! k = None
  | PInsert => c ∉ ids l /\ amended (mp s) = true /\
      exists k v, stores o k v /\ read_m (mp s) !! k = None /\ dirty_get (mp s) k = None
  | PMiss r => amended (mp s) = true /\ on_key o = true /\ (c, o, r) ∈ l
  | PUnlock (ARet r) => on_key o = true /\ (c, o, r) ∈ l
  | PUnlock (AEntry e md) => match md with Held _ => False | _ => in_mode s l c cl e md end
  | PUnlock (AVisit es) => c ∉ ids l /\ on_key o = false /\ visits s l (prior cl) es /\ left_out l (prior cl) es []
  | PVisit es acc => c ∉ ids l /\ on_key o = false /\ visits s l (prior cl) es /\ visited l (prior cl) acc /\
      (forall k, k ∈ es.*1 -> k ∉ acc.*1) /\ left_out l (prior cl) es acc
  | PDone r => if on_key o then (c, o, r) ∈ l else c ∉ ids l /\ exists acc, r = RList acc /\ visited l (prior cl) acc /\ left_out l (prior cl) [] acc
  | PStopped acc => c ∉ ids l /\ on_key o = false /\ visited l (prior cl) acc
  | PPanic => False
  end.

(** The program counters inside the critical section. *)
Definition locked (p : pcs) : bool :=
  match p with
  | PLocked | PEntry _ (Held _) | PCas _ _ (Held _) | PUnexpunge _ | PSwapLocked _ | PCopy _ | PCopyCas _ _ _ | PInsert | PMiss _ | PUnlock _ => true
  | _ => false
  end.

Definition copy_of (p : pcs) : option (list (K * nat)) :=
  match p with PCopy todo => Some todo | PCopyCas k e todo => Some ((k, e) :: todo) | _ => None end.

(** What the holder of the mutex is copying. *)
Definition copy_state s : option (list (K * nat)) := holder s ≫= fun c => calls s !! c ≫= fun cl => copy_of (c_pc cl).

Definition prior_of s (c : nat) : gset nat := from_option prior ∅ (calls s !! c).

Record inv s l : Prop := {
  i_mem : wfc (mp s) (copy_state s);
  i_order : wf_order (prior_of s) l;
  i_abs : forall k, final ∅ l !! k = snd <$> abs (mp s) k;
  i_known : forall c o r, (c, o, r) ∈ l -> exists cl, calls s !! c = Some cl /\ c_op cl = o;
  i_lock : forall c cl, calls s !! c = Some cl -> locked (c_pc cl) = true -> holder s = Some c;
  i_holder : forall c, holder s = Some c -> exists cl, calls s !! c = Some cl /\ locked (c_pc cl) = true;
  i_calls : forall c cl, calls s !! c = Some cl -> at_pc s l c cl;
  i_cells : forall e b v, get_p (mp s) e = PVal (b, v) -> exists cl, calls s !! b = Some cl /\ value_of (c_op cl) = Some v;
  i_takes : forall c c' cl cl' e, calls s !! c = Some cl -> calls s !! c' = Some cl' -> takes cl e -> takes cl' e -> c = c';
  i_prior : forall c x, x ∈ prior_of s c -> exists cl, calls s !! x = Some cl /\ returned cl
}.

Lemma prior_in s l c x : inv s l -> x ∈ prior_of s c -> x ∈ ids l.
Proof.
  intros I Hx. destruct (i_prior s l I c x Hx) as (cl & Hc & Ho & r & Hr). pose proof (i_calls s l I x cl Hc) as Ha.
  unfold at_pc in Ha. rewrite Hr, Ho in Ha. apply elem_of_ids. eauto.
Qed.
(** ** What a call leaves to the others *)

(** The order [l'] is [l] with call [c] added, or [sk] overtaken. *)
Record extends s l l' (c : nat) o (sk : option nat) : Prop := {
  x_grows : grows sk l l';
  x_order : wf_order (prior_of s) l';
  x_known : forall d o' r, (d, o', r) ∈ l' -> (d = c /\ o' = o) \/ exists r', (d, o', r') ∈ l
}.

Lemma extends_refl s l c o : wf_order (prior_of s) l -> extends s l l c o None.
Proof. intros W. split; [apply grows_refl|done|eauto]. Qed.

(** From [s] and [l] to [s'] and [l'], call [c] has acted. *)
Record rely s l s' l' (c : nat) (sk : option nat) : Prop := {
  r_next : (SyncMap.next (mp s) <= SyncMap.next (mp s'))%nat;
  r_any : forall k e, any (mp s') k e -> any (mp s) k e \/ (SyncMap.next (mp s) <= e)%nat;
  r_read : forall k e, read_m (mp s) !! k = Some e -> read_m (mp s') !! k = Some e \/
    (~ linked (mp s') e /\ get_p (mp s') e = PExpunged /\ forall P, (forall x, x ∈ P -> x ∈ ids l) -> seen l' P k None);
  r_kept : forall k e, any (mp s) k e -> any (mp s') k e \/
    (~ linked (mp s') e /\ forall P, (forall x, x ∈ P -> x ∈ ids l) -> gone s' l' P k e);
  r_gone : forall P k e, ~ linked (mp s) e -> (e < SyncMap.next (mp s))%nat -> gone s l P k e -> gone s' l' P k e;
  r_expunged : forall e, ~ linked (mp s) e -> (e < SyncMap.next (mp s))%nat -> get_p (mp s) e = PExpunged -> get_p (mp s') e = PExpunged;
  r_taken : forall d cl e, d <> c -> calls s !! d = Some cl -> takes cl e -> taken_entry s l d (c_op cl) e ->
    get_p (mp s') e <> PExpunged /\ (d, c_op cl, swap_result (c_op cl) (pointed (get_p (mp s') e))) ∈ l';
  r_grows : grows sk l l';
  r_skips : forall d cl, sk = Some d -> calls s !! d = Some cl -> exists e, takes cl e;
  r_ids : forall d, d ∈ ids l' -> d ∈ ids l \/ d = c;
  r_calls : forall d cl, calls s !! d = Some cl -> exists cl', calls s' !! d = Some cl' /\ c_op cl' = c_op cl;
  r_lock : forall d, d <> c -> holder s = Some d -> read_m (mp s') = read_m (mp s) /\ dirty (mp s') = dirty (mp s) /\
    amended (mp s') = amended (mp s) /\ forall e, get_p (mp s) e <> PExpunged -> get_p (mp s') e <> PExpunged
}.

Section frame.
Context {s s' : st} {l l' : order} {c : nat} {sk : option nat} (I : inv s l) (R : rely s l s' l' c sk).

Lemma rely_unlinked e : (e < SyncMap.next (mp s))%nat -> ~ linked (mp s) e -> ~ linked (mp s') e.
Proof using R. intros He Hn (k & [Hk|?]%(r_any _ _ _ _ _ _ R)); [apply Hn; by exists k|lia]. Qed.

Lemma rely_key k e : (e < SyncMap.next (mp s))%nat -> (forall k', any (mp s) k' e -> k' = k) -> forall k', any (mp s') k' e -> k' = k.
Proof using R. intros He Hk k' [?|?]%(r_any _ _ _ _ _ _ R); [by apply Hk|lia]. Qed.

Lemma rely_seen P k v : seen l P k v -> seen l' P k v.
Proof using R. apply seen_grows with sk. apply R. Qed.

Lemma rely_holds d k e : holds s l (prior_of s d) k e -> holds s' l' (prior_of s d) k e.
Proof using I R.
  intros (He & Hu & Hk). pose proof (r_next _ _ _ _ _ _ R). split_and!; [lia|by apply rely_key|]. destruct Hk as [Hk|[Hn Hg]].
  - destruct (r_kept _ _ _ _ _ _ R k e Hk) as [?|[? Hg]]; [by left|]. right. split; [done|]. apply Hg. intros x. by apply prior_in.
  - right. split; [by apply rely_unlinked|]. by apply (r_gone _ _ _ _ _ _ R).
Qed.

Lemma rely_read_holds d k e : read_holds s l (prior_of s d) k e -> read_holds s' l' (prior_of s d) k e.
Proof using I R.
  intros (He & Hu & Hk). pose proof (r_next _ _ _ _ _ _ R). split_and!; [lia|by apply rely_key|]. destruct Hk as [Hk|(Hn & Hx & Hg)].
  - destruct (r_read _ _ _ _ _ _ R k e Hk) as [?|(? & ? & Hg)]; [by left|]. right. split_and!; [done|done|]. apply Hg. intros x. by apply prior_in.
  - right. split_and!; [by apply rely_unlinked|by apply (r_expunged _ _ _ _ _ _ R)|by apply rely_seen].
Qed.

Lemma rely_out d : d <> c -> d ∉ ids l -> d ∉ ids l'.
Proof using R. intros Hd Hn [?|?]%(r_ids _ _ _ _ _ _ R); done. Qed.

Lemma rely_in d cl r : calls s !! d = Some cl -> (forall e, ~ takes cl e) -> (d, c_op cl, r) ∈ l -> (d, c_op cl, r) ∈ l'.
Proof using R.
  intros Hc Ht Hin. eapply grows_elem; [apply R|done|]. cbn. intros E. symmetry in E.
  destruct (r_skips _ _ _ _ _ _ R d cl E Hc) as [e ?]. by eapply Ht.
Qed.

Lemma rely_expected o p : expected s o p -> expected s' o p.
Proof using R.
  destruct p as [| |[b v]]; cbn; try done. intros [Ho (cl & Hc & Hv)]. split; [done|]. destruct (r_calls _ _ _ _ _ _ R b cl Hc) as (cl' & ? & Hop).
  exists cl'. by rewrite Hop.
Qed.

Lemma rely_mode d cl e md : d <> c -> calls s !! d = Some cl -> (md = Taken -> takes cl e) -> (forall b, md = Held b -> holder s = Some d) ->
  in_mode s l d cl e md -> in_mode s' l' d cl e md.
Proof using I R.
  intros Hd Hc Ht Hh. assert (Hp : prior cl = prior_of s d) by (unfold prior_of; by rewrite Hc). destruct md as [| |b]; cbn [in_mode].
  - intros [Hn (k & Hk & He)]. split; [by apply rely_out|]. exists k. split; [done|]. rewrite Hp in *.
    destruct (dirty_free (c_op cl)); [by apply rely_holds|by apply rely_read_holds].
  - intros Te. destruct (r_taken _ _ _ _ _ _ R d cl e Hd Hc (Ht eq_refl) Te). destruct Te as (Ho & He & Hn & _).
    pose proof (r_next _ _ _ _ _ _ R). split_and!; [done|lia|by apply rely_unlinked|done|done].
  - intros [Hn (k & Hk & He & Hm & Hx)]. split; [by apply rely_out|]. destruct (r_lock _ _ _ _ _ _ R d Hd (Hh b eq_refl)) as (E1 & E2 & E3 & E4).
    exists k. unfold any, dirty_get. rewrite E1, E2, E3. split_and!; [done|done|done|]. destruct Hx as [[? ?]|?]; [left; auto|by right].
Qed.

Lemma rely_visits d es : visits s l (prior_of s d) es -> visits s' l' (prior_of s d) es.
Proof using I R. intros [Hn Hv]. split; [done|]. intros k e ?%Hv. by apply rely_read_holds. Qed.

Lemma rely_visited P acc : visited l P acc -> visited l' P acc.
Proof using R. intros [Hn Hv]. split; [done|]. intros k v ?%Hv. by apply rely_seen. Qed.

Lemma rely_left_out P es acc : left_out l P es acc -> left_out l' P es acc.
Proof using R. intros Ho k H1 H2. by apply rely_seen, Ho. Qed.

(** Nothing of what holds of another call is lost. *)
Lemma rely_at_pc d cl : d <> c -> calls s !! d = Some cl -> at_pc s' l' d cl.
Proof using I R.
  intros Hd Hc. pose proof (i_calls s l I d cl Hc) as Ha. pose proof (i_lock s l I d cl Hc) as Hl.
  assert (Hp : prior cl = prior_of s d) by (unfold prior_of; by rewrite Hc).
  assert (Hlk := r_lock _ _ _ _ _ _ R d Hd). pose proof (rely_in d cl) as Hin. pose proof (rely_out d Hd) as Hout.
  pose proof (rely_visits d) as Hvs. pose proof (rely_visited (prior_of s d)) as Hvd.
  pose proof (rely_left_out (prior_of s d)) as Hlo. rewrite <- Hp in *.
  unfold at_pc, takes in *. destruct (c_pc cl) as [|e md|e p md| | |e|e|todo|k e todo| |r|a|es acc|r|acc|] eqn:Epc; cbn [locked] in *.
  - auto.
  - apply rely_mode; [done..| | |done]; [intros ->; right; left; by rewrite Epc|intros b ->; auto].
  - destruct Ha as [Ha ?]. split; [|by apply rely_expected].
    apply rely_mode; [done..| | |done]; [intros ->; right; right; exists p; by rewrite Epc|intros b ->; auto].
  - auto.
  - auto.
  - destruct (Hlk (Hl eq_refl)) as (E1 & _). rewrite E1. destruct Ha; auto.
  - destruct (Hlk (Hl eq_refl)) as (E1 & E2 & _ & E4). destruct Ha as (? & ? & ?). unfold any, dirty_get. rewrite E1, E2. auto.
  - destruct (Hlk (Hl eq_refl)) as (E1 & _). rewrite E1. destruct Ha; auto.
  - destruct (Hlk (Hl eq_refl)) as (E1 & _). rewrite E1. destruct Ha; auto.
  - destruct (Hlk (Hl eq_refl)) as (E1 & E2 & E3 & _). destruct Ha as (? & ? & ?). unfold dirty_get. rewrite E1, E2, E3. auto.
  - destruct (Hlk (Hl eq_refl)) as (_ & _ & E3 & _). rewrite E3. destruct Ha as (? & ? & ?). split_and!; [done|done|]. apply Hin; [done| |done].
    intros e [?|[?|[??]]]; done.
  - destruct a as [r|e md|es].
    + destruct Ha as [? ?]. split; [done|]. apply Hin; [done| |done]. intros e [?|[?|[??]]]; done.
    + destruct md; [| |done]; (apply rely_mode; [done..| |done|done]); [done|intros _; left; by rewrite Epc].
    + destruct Ha as (? & ? & ? & ?). split_and!; auto.
  - destruct Ha as (? & ? & ? & ? & ? & ?). split_and!; auto.
  - destruct (on_key (c_op cl)); [apply Hin; [done| |done]; intros e [?|[?|[??]]]; done|].
    destruct Ha as [? (acc & -> & ? & ?)]. split; [auto|]. exists acc. split_and!; auto.
  - destruct Ha as (? & ? & ?). split_and!; auto.
  - done.
Qed.
End frame.
(** ** One action *)

Lemma wf_order_ext (pr pr' : nat -> gset nat) l : (forall x, pr' x = pr x) -> wf_order pr l -> wf_order pr' l.
Proof. intros E [W1 W2 W3]. split; [done|done|]. intros pre x post y. rewrite E. apply W3. Qed.

(** How the mutex may change hands. *)
Definition lock_moves (h h' : option nat) (c : nat) (p p' : pcs) : Prop :=
  (h' = h /\ locked p' = locked p) \/ (h = None /\ h' = Some c /\ locked p' = true) \/ (h' = None /\ locked p = true /\ locked p' = false).

Section act.
Context {s : st} {l : order} {c : nat} {cl : @call K V} (I : inv s l) (Hc : calls s !! c = Some cl).

Abbreviation moved m' h' pc' := (set_call s m' h' c (with_pc cl pc')).

Lemma moved_c m' h' pc' : calls (moved m' h' pc') !! c = Some (with_pc cl pc').
Proof using Type. cbn. by rewrite lookup_insert_eq. Qed.

Lemma moved_ne m' h' pc' d : d <> c -> calls (moved m' h' pc') !! d = calls s !! d.
Proof using Type. intros Hd. cbn. by rewrite lookup_insert_ne. Qed.

Lemma moved_calls m' h' pc' d cld : calls s !! d = Some cld -> exists cl', calls (moved m' h' pc') !! d = Some cl' /\ c_op cl' = c_op cld.
Proof using Hc.
  intros Hd. destruct (decide (d = c)) as [->|Hne]; [rewrite moved_c; simplify_eq; eauto|rewrite moved_ne by done; eauto].
Qed.

Lemma moved_prior m' h' pc' d : prior_of (moved m' h' pc') d = prior_of s d.
Proof using Hc.
  unfold prior_of. destruct (decide (d = c)) as [->|Hne]; [by rewrite moved_c, Hc|by rewrite moved_ne].
Qed.

Lemma moved_copy_free m' pc' : locked (c_pc cl) = false -> copy_state (moved m' (holder s) pc') = copy_state s.
Proof using I Hc.
  intros Hl. unfold copy_state. cbn [holder set_call]. destruct (holder s) as [d|] eqn:Eh; [|done]. cbn.
  rewrite lookup_insert_ne; [done|]. intros ->. destruct (i_holder s l I d Eh) as (cl' & ? & ?). congruence.
Qed.

Lemma moved_copy_held m' pc' : copy_state (moved m' (Some c) pc') = copy_of pc'.
Proof using Type. unfold copy_state. cbn. by rewrite lookup_insert_eq. Qed.

Lemma held_copy : locked (c_pc cl) = true -> holder s = Some c /\ wfc (mp s) (copy_of (c_pc cl)).
Proof using I Hc.
  intros Hl. pose proof (i_lock s l I c cl Hc Hl) as Hh. split; [done|]. pose proof (i_mem s l I) as W. unfold copy_state in W.
  rewrite Hh in W. cbn in W. by rewrite Hc in W.
Qed.

Lemma moved_inv m' h' pc' l' sk : let s' := moved m' h' pc' in
  rely s l s' l' c sk -> extends s l l' c (c_op cl) sk -> wfc m' (copy_state s') -> (forall k, final ∅ l' !! k = snd <$> abs m' k) ->
  at_pc s' l' c (with_pc cl pc') -> lock_moves (holder s) h' c (c_pc cl) pc' ->
  (forall e b v, get_p m' e = PVal (b, v) -> get_p (mp s) e = PVal (b, v) \/ b = c /\ value_of (c_op cl) = Some v) ->
  (forall e, takes (with_pc cl pc') e -> takes cl e \/ linked (mp s) e) -> (forall r, c_pc cl <> PDone r) -> inv s' l'.
Proof using I Hc.
  cbv zeta. intros R X W A Hp L C T D. split.
  - exact W.
  - eapply wf_order_ext; [|apply X]. intros x. apply moved_prior.
  - exact A.
  - intros d o r [[-> ->]|[r' Hin]]%(x_known _ _ _ _ _ _ X); [exists (with_pc cl pc'); by rewrite moved_c|].
    destruct (i_known s l I d o r' Hin) as (cld & Hd & <-). by apply moved_calls.
  - intros d cld Hd Hk. cbn [holder set_call]. destruct (decide (d = c)) as [->|Hne].
    + rewrite moved_c in Hd. injection Hd as <-. cbn in Hk.
      destruct L as [[-> E]|[(_ & -> & _)|(_ & _ & E)]]; [|done|congruence]. eapply (i_lock s l I); [done|congruence].
    + rewrite moved_ne in Hd by done. pose proof (i_lock s l I d cld Hd Hk) as Hh.
      destruct L as [[-> _]|[(E & _)|(_ & E & _)]]; [done|congruence|]. pose proof (i_lock s l I c cl Hc E). congruence.
  - intros d Hd. cbn [holder set_call] in Hd. destruct (decide (d = c)) as [->|Hne].
    + exists (with_pc cl pc'). split; [apply moved_c|]. cbn. destruct L as [[-> E]|[(_ & _ & E)|(-> & _)]]; [|done|done].
      destruct (i_holder s l I c Hd) as (cl' & ? & ?). congruence.
    + destruct L as [[-> _]|[(_ & E & _)|(-> & _)]]; [|congruence|done].
      destruct (i_holder s l I d Hd) as (cld & ? & ?). exists cld. by rewrite moved_ne.
  - intros d cld Hd. destruct (decide (d = c)) as [->|Hne].
    + rewrite moved_c in Hd. by injection Hd as <-.
    + rewrite moved_ne in Hd by done. by apply (rely_at_pc I R).
  - intros e b v [He|[-> Hv]]%C; [|exists (with_pc cl pc'); by rewrite moved_c].
    destruct (i_cells s l I e b v He) as (clb & Hb & Hv). destruct (moved_calls m' h' pc' b clb Hb) as (cl' & ? & E). exists cl'. by rewrite E.
  - assert (G : forall d cld e, d <> c -> calls s !! d = Some cld -> takes cld e -> takes (with_pc cl pc') e -> False).
    { intros d cld e Hne Hd Ht [Ht'|Hn]%T; [by eapply Hne, (i_takes s l I)|].
      pose proof (i_calls s l I d cld Hd) as Ha. unfold at_pc in Ha.
      destruct Ht as [E|[E|[q E]]]; rewrite E in Ha; cbn in Ha; [| |destruct Ha as [Ha _]]; by destruct Ha as (_ & _ & ? & _). }
    intros d d' cld cld' e Hd Hd' Ht Ht'. destruct (decide (d = c)) as [->|Hne], (decide (d' = c)) as [->|Hne']; [done|..].
    + rewrite moved_c in Hd. rewrite moved_ne in Hd' by done. simplify_eq. by edestruct G.
    + rewrite moved_c in Hd'. rewrite moved_ne in Hd by done. simplify_eq. by edestruct G.
    + rewrite moved_ne in Hd by done. rewrite moved_ne in Hd' by done. by eapply (i_takes s l I).
  - intros d x Hx. rewrite moved_prior in Hx. destruct (i_prior s l I d x Hx) as (cx & Ex & Rx). exists cx. split; [|done].
    rewrite moved_ne; [done|]. intros ->. destruct Rx as [_ [r ?]]. simplify_eq. by eapply D.
Qed.

Lemma extends_ids l' o sk d : extends s l l' c o sk -> d ∈ ids l' -> d ∈ ids l \/ d = c.
Proof using Type.
  intros X (o' & r & [[-> _]|[r' ?]]%(x_known _ _ _ _ _ _ X))%elem_of_ids; [by right|]. left. apply elem_of_ids. eauto.
Qed.

(** An action that leaves the entries alone that are in no map. *)
Lemma moved_rely m' h' pc' l' : let s' := moved m' h' pc' in
  extends s l l' c (c_op cl) None -> (SyncMap.next (mp s) <= SyncMap.next m')%nat ->
  (forall k e, any m' k e -> any (mp s) k e \/ (SyncMap.next (mp s) <= e)%nat) ->
  (forall k e, read_m (mp s) !! k = Some e -> read_m m' !! k = Some e \/
    (~ linked m' e /\ get_p m' e = PExpunged /\ forall P, (forall x, x ∈ P -> x ∈ ids l) -> seen l' P k None)) ->
  (forall k e, any (mp s) k e -> any m' k e \/ (~ linked m' e /\ forall P, (forall x, x ∈ P -> x ∈ ids l) -> gone s' l' P k e)) ->
  (forall e, ~ linked (mp s) e -> (e < SyncMap.next (mp s))%nat -> get_p m' e = get_p (mp s) e) ->
  (forall e, takes cl e -> takes (with_pc cl pc') e \/ pointed (get_p (mp s) e) = None) ->
  (holder s = Some c \/ read_m m' = read_m (mp s) /\ dirty m' = dirty (mp s) /\ amended m' = amended (mp s) /\
    forall e, get_p (mp s) e <> PExpunged -> get_p m' e <> PExpunged) -> rely s l s' l' c None.
Proof using Hc.
  cbv zeta. intros X N A Rd Kp U T L. split; try done.
  - intros P k e Hn He. unfold gone. cbn [mp set_call]. rewrite U by done. destruct (pointed (get_p (mp s) e)) as [v|] eqn:Ev; [|by apply seen_grows with None, X].
    intros (d & cld & pre & post & Hd & Ht & Ho & El & Hf & HP).
    destruct (g_mid _ _ _ (x_grows _ _ _ _ _ _ X) _ _ _ El) as (pre' & post' & -> & Hi & Hf'); [done|].
    destruct (decide (d = c)) as [->|Hne].
    + rewrite Hc in Hd. injection Hd as <-. exists c, (with_pc cl pc'), pre', post'. rewrite moved_c, Hf'. destruct (T e Ht); [split_and!; auto|congruence].
    + exists d, cld, pre', post'. rewrite moved_ne, Hf' by done. split_and!; auto.
  - intros e Hn He Hx. cbn. by rewrite U.
  - intros d cld e Hne Hd Ht (Ho & He & Hn & Hx & Hin). cbn [mp set_call]. rewrite U by done. split; [done|].
    eapply grows_elem; [apply X|done|done].
  - apply X.
  - intros d. by eapply extends_ids.
  - intros d cld. by apply moved_calls.
  - intros d Hne Hh. destruct L as [?|?]; [congruence|done].
Qed.
End act.
End inv.
End Inv.
