(* ===== verification/SyncMapLin.v ===== *)
(** * The concurrent map is linearizable

    Every action of SyncMapConc.v keeps the invariant of SyncMapInv.v, so every
    execution has an order of its calls that explains all results on a plain map. *)

From Stdlib Require Import ZArith Lia String.
From stdpp Require Import base numbers list strings gmap relations.
From S2P Require Import Prelude SyncMap SyncMapConc SyncMapInv.
Import SyncMap Conc Inv.

Module Lin.
Section lin.
Context {K V : Type} `{Countable K}.

Abbreviation mem := (@Map K (nat * V) _ _).
Abbreviation pointer := (@ptr (nat * V)).
Abbreviation pcs := (@pc K V).
Abbreviation st := (@state K V _ _).
Abbreviation order := (list (nat * @op K V * @res K V)).
Implicit Types (s : st) (cl : @call K V) (o : @op K V) (P : gset nat) (p : pointer) (m : mem) (k : K) (l pre post : order).

(** ** Where a call takes its place in the order *)

Lemma holds_seen s l P k e : inv s l -> (forall x, x ∈ P -> x ∈ ids l) -> holds s l P k e -> seen l P k (pointed (get_p (mp s) e)).
Proof.
  intros I HP (_ & _ & [Hk|[_ Hg]]).
  - apply seen_now; [done|]. rewrite (i_abs s l I), (abs_linked _ k e); [done| |done]. eapply wfc_coherent, (i_mem s l I).
  - unfold gone in Hg. destruct (pointed (get_p (mp s) e)) as [v|]; [|done]. destruct Hg as (d & cl & pre & post & _ & _ & _ & -> & Hf & Hi).
    by exists pre, ((d, c_op cl, swap_result (c_op cl) (Some v)) :: post).
Qed.

Lemma read_holds_seen s l P k e : inv s l -> (forall x, x ∈ P -> x ∈ ids l) -> read_holds s l P k e -> seen l P k (pointed (get_p (mp s) e)).
Proof.
  intros I HP (Hl & Hu & [Hk|(_ & -> & Hs)]); [|done]. apply holds_seen; [done..|]. split_and!; [done..|]. left. by left.
Qed.

Lemma any_holds s l P k e : coherent (mp s) -> any (mp s) k e -> holds s l P k e.
Proof. intros [C1 C2 _] Hk. split_and!; [by eapply C1| |by left]. intros k' Hk'. by eapply C2. Qed.

Lemma read_read_holds s l P k e : coherent (mp s) -> read_m (mp s) !! k = Some e -> read_holds s l P k e.
Proof. intros C Hk. destruct (any_holds s l P k e) as (? & ? & _); [done|by left|]. split_and!; [done|done|by left]. Qed.

Lemma visits_read s l (σ : RangeOrder) P : coherent (mp s) -> visits s l P (σ _ (map_to_list (read_m (mp s)))).
Proof.
  split.
  - rewrite (range_order_perm σ). apply NoDup_fst_map_to_list.
  - intros k e. rewrite elem_of_range_order, elem_of_map_to_list. by apply read_read_holds.
Qed.

(** ** What the mutex allows *)

(** Changes of the two maps that no lookup sees. *)
Record keeps m m' : Prop := {
  kp_next : SyncMap.next m' = SyncMap.next m;
  kp_any : forall k e, any m' k e -> any m k e;
  kp_read : forall k e, read_m m !! k = Some e -> read_m m' !! k = Some e \/ (~ linked m' e /\ get_p m' e = PExpunged /\ abs m k = None);
  kp_kept : forall k e, any m k e -> any m' k e \/ (~ linked m' e /\ get_p m' e = PExpunged /\ abs m k = None);
  kp_unlinked : forall e, ~ linked m e -> get_p m' e = get_p m e;
  kp_abs : forall k, abs m' k = abs m k;
  kp_cells : forall e x, get_p m' e = PVal x -> get_p m e = PVal x
}.

Lemma keeps_refl m : keeps m m.
Proof. split; eauto. Qed.

Lemma promoted_keeps m : wf m -> amended m = true -> keeps m (promoted m).
Proof.
  intros W Ha. destruct (amended_dirty m W Ha) as [d Hd]. destruct (promoted_wf m d W Hd) as [W' E]. destruct (wf_dirty m W d Hd) as (_ & H1 & H2 & H3).
  assert (Hr : read_m (promoted m) = d) by (cbn; by rewrite Hd). assert (Hg : forall k, dirty_get m k = d !! k) by (intros k; unfold dirty_get; by rewrite Hd).
  assert (Hx : forall k e, read_m m !! k = Some e -> read_m (promoted m) !! k = Some e \/
    (~ linked (promoted m) e /\ get_p (promoted m) e = PExpunged /\ abs m k = None)).
  { intros k e Hk. rewrite Hr. change (get_p (promoted m) e) with (get_p m e). destruct (get_p m e) eqn:Ep; [left; apply H2; [done|congruence]| |left; apply H2; [done|congruence]].
    right. split_and!; [|done|].
    - intros [k' [Hk'|Hk']]; [rewrite Hr in Hk'; by apply H3 in Hk'|done].
    - unfold abs. rewrite Hk. unfold entry_load. by rewrite Ep. }
  split; try done.
  - intros k e [Hk|Hk]; [|done]. right. by rewrite Hg, <- Hr.
  - intros k e [Hk|Hk]; [destruct (Hx k e Hk) as [?|?]; [left; by left|by right]|]. left. left. by rewrite Hr, <- Hg.
Qed.

Lemma missLocked_keeps m : wf m -> amended m = true -> keeps m (missLocked m).
Proof.
  intros W Ha. unfold missLocked. case_goal; [split; by eauto|]. by apply (promoted_keeps m).
Qed.

Lemma promote_keeps m : wf m -> keeps m (promote m).
Proof. intros W. unfold promote. destruct (amended m) eqn:Ea; [by apply promoted_keeps|apply keeps_refl]. Qed.

Lemma unexpunge_keeps m k e m' : wf m -> read_m m !! k = Some e -> get_p m e = PExpunged -> dirty_put (set_p m e PNil) k e = Ret m' -> keeps m m'.
Proof.
  intros W Hk He Ep. destruct (unexpunge_wf m k e W Hk He) as (m1 & Em & _ & E & _). assert (m1 = m') as -> by congruence. clear Em.
  unfold dirty_put in Ep. cbn in Ep. destruct (dirty m) as [d|] eqn:Hd; [|done]. injection Ep as <-.
  assert (Hg : forall e' q, get_p (set_dirty (set_p m e PNil) (Some (<[k:=e]> d))) e' = q -> q = (if decide (e' = e) then PNil else get_p m e'))
    by (intros e' q <-; apply (get_set_p m e PNil)).
  destruct (wf_dirty m W d Hd) as (_ & H1 & _ & _). pose proof (H1 k e Hk He) as Hn. split; try done.
  - intros k' e' [?|Hk']; [by left|]. unfold dirty_get in Hk'. cbn in Hk'. destruct (decide (k' = k)) as [->|Hne].
    + rewrite lookup_insert_eq in Hk'. left. by simplify_eq.
    + rewrite lookup_insert_ne in Hk' by done. right. unfold dirty_get. by rewrite Hd.
  - by left.
  - intros k' e' [?|Hk']; left; [by left|]. right. unfold dirty_get in *. rewrite Hd in Hk'. cbn in *. by rewrite lookup_insert_ne by congruence.
  - intros e' Hl. rewrite (Hg e' _ eq_refl), decide_False; [done|]. intros ->. apply Hl. exists k. by left.
  - intros e' x Hx. apply Hg in Hx. by case_decide.
Qed.

(** dirtyLocked, entry by entry. *)
Lemma copy_start m (σ : RangeOrder) : wf m -> dirty m = None ->
  keeps m (set_dirty m (Some ∅)) /\ copying (set_dirty m (Some ∅)) (σ _ (map_to_list (read_m m))).
Proof.
  intros W Hd. destruct (wf_clean m W Hd) as [Ha Hc]. set (m' := set_dirty m (Some ∅)).
  assert (Hn : forall k, dirty_get m' k = None) by (intros k; apply lookup_empty). assert (Hn' : forall k, dirty_get m k = None) by (intros k; unfold dirty_get; by rewrite Hd).
  assert (Hk : forall k e, any m' k e <-> any m k e) by (intros k e; unfold any; by rewrite Hn, Hn').
  split; [split|split]; try done.
  - intros k e. by rewrite Hk.
  - by left.
  - intros k e. rewrite Hk. by left.
  - intros k. unfold abs. by rewrite Hn, Hn'.
  - intros k e. rewrite Hk. apply (wf_fresh m W).
  - intros k1 k2 e. rewrite !Hk. apply (wf_inj m W).
  - exists ∅. split_and!; [done|by intros k e; rewrite lookup_empty|]. intros k e He. left. by rewrite elem_of_range_order, elem_of_map_to_list.
  - intros k e. rewrite elem_of_range_order, elem_of_map_to_list. intros He. split; [done|]. by apply Hc in He.
  - rewrite (range_order_perm σ). apply NoDup_fst_map_to_list.
Qed.

Lemma copy_done m : copying m [] -> keeps m (set_read m (read_m m) true) /\ wf (set_read m (read_m m) true) /\
  forall k, read_m m !! k = None -> dirty_get m k = None.
Proof.
  intros [C1 C2 C3 (d & Ed & C4 & C5) _ _ _]. assert (Hk : forall k, read_m m !! k = None -> dirty_get m k = None).
  { intros k Hr. unfold dirty_get. rewrite Ed. cbn. destruct (d !! k) as [e|] eqn:E; [|done]. destruct (C4 k e E). congruence. }
  split_and!; [split; eauto; done| |done]. split; [done|done| |]; cbn; [by rewrite Ed|]. intros d' Ed'. cbn in Ed'. assert (d' = d) as -> by congruence.
  split_and!; [done|..].
  - intros k e Hr Hx. destruct (d !! k) as [e'|] eqn:E; [|done]. destruct (C4 k e' E) as [Er ?]. cbn in Hr. assert (e' = e) as -> by congruence. done.
  - intros k e Hr Hx. by destruct (C5 k e Hr) as [?%elem_of_nil|[?|?]].
  - intros k e E. by apply C4 in E as [_ ?].
Qed.

Lemma copy_put m k e todo v : copying m ((k, e) :: todo) -> get_p m e = PVal v -> exists m', dirty_put m k e = Ret m' /\ keeps m m' /\ copying m' todo /\
  read_m m' = read_m m.
Proof.
  intros [C1 C2 C3 (d & Ed & C4 & C5) C6 C7 C8] Hv. unfold dirty_put. rewrite Ed. eexists. split; [done|]. set (m' := set_dirty m _).
  destruct (C6 k e) as [Hr Hx]; [left|]. apply NoDup_cons in C8 as [Hn Hnd].
  assert (Hd : forall k' e', <[k := e]> d !! k' = Some e' -> read_m m !! k' = Some e' /\ get_p m e' <> PExpunged).
  { intros k' e'. rewrite lookup_insert_Some. intros [[<- <-]|[_ ?]]; auto. }
  assert (Hk : forall k' e', any m' k' e' -> any m k' e') by (intros k' e' [?|E]; left; [done|by apply Hd in E as [? _]]).
  split_and!; [split|split|done]; try done.
  - by left.
  - intros k' e' [?|E]; left; [by left|]. left. unfold dirty_get in E. rewrite Ed in E. by apply C4.
  - intros k'. unfold abs. cbn. destruct (read_m m !! k') as [e'|] eqn:Er; [done|]. unfold dirty_get. cbn. rewrite Ed. cbn.
    rewrite lookup_insert_ne by congruence. done.
  - intros k' e' ?%Hk. by apply (C1 k').
  - intros k1 k2 e' ?%Hk ?%Hk. by eapply C2.
  - exists (<[k := e]> d). split_and!; [done|exact Hd|]. intros k' e' Hr'. destruct (decide (k' = k)) as [->|Hne].
    + right; right. rewrite lookup_insert_eq. cbn in Hr'. congruence.
    + rewrite lookup_insert_ne by done. destruct (C5 k' e' Hr') as [[?|?]%elem_of_cons|?]; [congruence|by left|by right].
  - intros k' e' ?. apply C6. by right.
  - intros k' e' Hin. unfold dirty_get. cbn. rewrite lookup_insert_ne.
    + specialize (C7 k' e'). unfold dirty_get in C7. rewrite Ed in C7. apply C7. by right.
    + intros <-. apply Hn. by apply (list_elem_of_fmap_2 fst) in Hin.
Qed.

Lemma copy_expunge m k e todo : copying m ((k, e) :: todo) -> get_p m e = PNil -> keeps m (set_p m e PExpunged) /\ copying (set_p m e PExpunged) todo.
Proof.
  intros W Hp. pose proof (wfc_coherent m (Some _) W) as Co. destruct W as [C1 C2 C3 (d & Ed & C4 & C5) C6 C7 C8].
  destruct (C6 k e) as [Hr Hx]; [left|]. apply NoDup_cons in C8 as [Hn Hnd].
  assert (Hne : forall k' e', any m k' e' -> k' <> k -> get_p (set_p m e PExpunged) e' = get_p m e').
  { intros k' e' Hk' Hne. rewrite get_set_p, decide_False; [done|]. intros ->. apply Hne. eapply C2; [done|by left]. }
  assert (Hd : d !! k = None) by (specialize (C7 k e); unfold dirty_get in C7; rewrite Ed in C7; apply C7; left).
  split; split; try done; try (by left).
  - intros e' Hl. rewrite get_set_p, decide_False; [done|]. intros ->. apply Hl. exists k. by left.
  - intros k'. rewrite (abs_set_p_linked m k) by (done || by left). unfold upd. case_decide; [subst k'|done].
    rewrite (abs_linked m k e Co) by (by left). unfold entry_load. by rewrite Hp.
  - intros e' x. rewrite get_set_p. by case_decide.
  - exists d. split_and!; [done| |].
    + intros k' e' Hk'. destruct (C4 k' e' Hk') as [Hr' ?]. split; [done|]. rewrite (Hne k'); [done|by left|congruence].
    + intros k' e' Hr'. cbn in Hr'. destruct (decide (k' = k)) as [->|Hk']; [right; left; rewrite get_set_p, decide_True; [done|congruence]|].
      rewrite (Hne k') by (done || by left). destruct (C5 k' e' Hr') as [[?|?]%elem_of_cons|?]; [congruence|by left|by right].
  - intros k' e' Hin. destruct (C6 k' e') as [Hr' ?]; [by right|]. split; [done|]. rewrite (Hne k'); [done|by left|].
    intros ->. apply Hn. by apply (list_elem_of_fmap_2 fst) in Hin.
  - intros k' e' ?. apply (C7 k' e'). by right.
Qed.

(** The entry [e] of [k] is removed from the dirty map. *)
Record takes_out m m' k (e : nat) : Prop := {
  to_wf : wf m';
  to_next : SyncMap.next m' = SyncMap.next m;
  to_any : forall k' e', any m' k' e' -> any m k' e';
  to_gone : ~ linked m' e;
  to_same : forall e', ~ linked m e' \/ e' = e -> get_p m' e' = get_p m e';
  to_read : forall k' e', read_m m !! k' = Some e' -> read_m m' !! k' = Some e' \/ (~ linked m' e' /\ get_p m' e' = PExpunged /\ abs m k' = None);
  to_kept : forall k' e', any m k' e' -> e' <> e -> any m' k' e' \/ (~ linked m' e' /\ get_p m' e' = PExpunged /\ abs m k' = None);
  to_abs : forall k', abs m' k' = upd (abs m) k None k';
  to_cells : forall e' x, get_p m' e' = PVal x -> get_p m e' = PVal x
}.

Lemma drop_takes_out m k e : wf m -> amended m = true -> read_m m !! k = None -> dirty_get m k = Some e ->
  takes_out m (missLocked (set_dirty m (delete k <$> dirty m))) k e.
Proof.
  intros W Ham Hr Hd. destruct (amended_dirty m W Ham) as [d Ed]. rewrite Ed. cbn [fmap option_fmap option_map].
  destruct (drop_dirty_wf m k d W Ed Hr) as (W1 & E1 & N1). set (m1 := set_dirty m (Some (delete k d))) in *.
  pose proof (missLocked_keeps m1 W1 Ham) as Kp. pose proof (missLocked_wf m1 W1 Ham) as [W' _].
  assert (Hdk : d !! k = Some e) by (unfold dirty_get in Hd; by rewrite Ed in Hd). assert (N1' : ~ linked m1 e) by (intros [k' Hk']; by eapply N1).
  assert (Hm1 : forall k' e', any m1 k' e' -> any m k' e').
  { intros k' e' [?|Hk']; [by left|]. right. unfold dirty_get in *. rewrite Ed. cbn in *. by apply lookup_delete_Some in Hk' as [_ ?]. }
  assert (Hm2 : forall k' e', any m k' e' -> e' <> e -> any m1 k' e' /\ k' <> k).
  { intros k' e' Hk' Hne. assert (k' <> k) by (intros ->; destruct Hk' as [?|?]; congruence). split; [|done]. destruct Hk' as [?|Hk']; [by left|].
    right. unfold dirty_get in *. rewrite Ed in Hk'. cbn in *. by rewrite lookup_delete_ne. }
  assert (Ha : forall k', k' <> k -> abs m1 k' = abs m k') by (intros k' Hk'; rewrite E1; unfold upd; by rewrite decide_False).
  split; [done|apply (kp_next _ _ Kp)|..].
  - intros k' e' ?%(kp_any _ _ Kp). auto.
  - intros [k' Hk'%(kp_any _ _ Kp)]. apply N1'. by exists k'.
  - intros e' He'. apply (kp_unlinked _ _ Kp). destruct He' as [He'| ->]; [|done]. intros [k' Hk']. apply He'. exists k'. by apply Hm1.
  - intros k' e' Hk'. rewrite <- Ha by congruence. by apply (kp_read _ _ Kp).
  - intros k' e' Hk' Hne. destruct (Hm2 k' e' Hk' Hne). rewrite <- Ha by done. by apply (kp_kept _ _ Kp).
  - intros k'. by rewrite (kp_abs _ _ Kp), E1.
  - intros e' x. apply (kp_cells _ _ Kp).
Qed.

(** A new entry. *)
Lemma insert_new m k x m' : dirty_get m k = None -> dirty_put (newEntry m x).2 k (SyncMap.next m) = Ret m' ->
  SyncMap.next m' = S (SyncMap.next m) /\ read_m m' = read_m m /\ (forall k' e, any m' k' e -> any m k' e \/ (SyncMap.next m <= e)%nat) /\
  (forall k' e, any m k' e -> any m' k' e) /\ (forall e, get_p m' e = if decide (e = SyncMap.next m) then PVal x else get_p m e).
Proof.
  unfold dirty_put, any, dirty_get. cbn. destruct (dirty m) as [d|]; [|done]. intros Hk [= <-]. cbn in *. split_and!; [done|done|..].
  - intros k' e [?|E]; [by left; left|]. apply lookup_insert_Some in E as [[_ <-]|[_ ?]]; [by right|left; by right].
  - intros k' e [?|E]; [by left|]. right. rewrite lookup_insert_ne by congruence. done.
  - intros e. unfold get_p. cbn. case_decide; subst; [by rewrite lookup_insert_eq|by rewrite lookup_insert_ne].
Qed.

(** ** What the calls do on a plain map *)

Definition looks o : bool :=
  match o with OpLoad _ | OpLoadAndDelete _ | OpDelete _ | OpCompareAndSwap _ _ _ | OpCompareAndDelete _ _ => true | _ => false end.

Lemma absent_spec o k (a : gmap K V) : looks o = true -> key_of o = Some k -> a !! k = None -> spec_run a o = (absent o, a).
Proof.
  intros Ho Hk Ha. destruct o; try done; cbn in *; simplify_eq; rewrite ?Ha, ?(delete_id _ _ Ha); done.
Qed.

Lemma swapped_spec s c o k p (a : gmap K V) : key_of o = Some k -> expected s o p -> a !! k = pointed p ->
  spec_run a o = (swapped o p, match pointed (new_pointer c o) with Some v => <[k := v]> a | None => delete k a end).
Proof.
  intros Hk Hp Ha. destruct o, p as [| |[b w]]; cbn in *; try done; simplify_eq; rewrite ?Ha; try done; by destruct Hp.
Qed.

(** The entry a call has removed from the dirty map. *)
Definition taken_of (q : pcs) : option nat :=
  match q with PUnlock (AEntry e Taken) | PEntry e Taken | PCas e _ Taken => Some e | _ => None end.

Lemma takes_iff cl e : takes cl e <-> taken_of (c_pc cl) = Some e.
Proof.
  unfold takes, taken_of. split; [intros [->|[->|[? ->]]]; done|].
  destruct (c_pc cl) as [|? []|? ? []| | | | | | | | |[|? []|]| | | |]; intros; simplify_eq; eauto.
Qed.

Lemma takes_with cl (q : pcs) e : takes (with_pc cl q) e <-> taken_of q = Some e.
Proof. apply takes_iff. Qed.

Section act.
Context {s : st} {l : order} {c : nat} {cl : @call K V} (I : inv s l) (Hc : calls s !! c = Some cl).

Lemma prior_call : prior_of s c = prior cl.
Proof using Hc. unfold prior_of. by rewrite Hc. Qed.

Lemma prior_ids x : x ∈ prior cl -> x ∈ ids l.
Proof using I Hc. rewrite <- prior_call. by apply prior_in. Qed.

Lemma mem_coherent : coherent (mp s).
Proof using I. eapply wfc_coherent, (i_mem s l I). Qed.

(** A call that only looks at [k] may stand anywhere where [k] has the value it saw. *)
Lemma extend_seen k v r : c ∉ ids l -> seen l (prior cl) k v -> (forall a : gmap K V, a !! k = v -> spec_run a (c_op cl) = (r, a)) ->
  exists l', extends s l l' c (c_op cl) None /\ final ∅ l' = final ∅ l /\ (c, c_op cl, r) ∈ l'.
Proof using I Hc.
  intros Hn (pre & post & -> & HP & Hv) Hs. exists (pre ++ (c, c_op cl, r) :: post). pose proof (Hs _ Hv) as E. split_and!.
  - split.
    + apply grows_insert. left. unfold neutral. cbn. by rewrite E.
    + pose proof (insert_order _ pre post c (c_op cl) (i_order s _ I) Hn) as O. rewrite E in O. apply O; [left; unfold neutral; by rewrite E|].
      intros y. rewrite prior_call. apply HP.
    + intros d o' r' [Hin|[[= -> -> ->]|Hin]%elem_of_cons]%elem_of_app; [right|by left|right]; exists r'; apply elem_of_app; auto.
  - rewrite !final_app. cbn. by rewrite E.
  - apply elem_of_app. right. left.
Qed.

(** A call that acts now. *)
Lemma extend_now r a : c ∉ ids l -> spec_run (final ∅ l) (c_op cl) = (r, a) ->
  extends s l (l ++ [(c, c_op cl, r)]) c (c_op cl) None /\ final ∅ (l ++ [(c, c_op cl, r)]) = a.
Proof using I Hc.
  intros Hn E. rewrite final_app. cbn. rewrite E. split; [|done]. split.
  - rewrite <- (app_nil_r l) at 1. apply grows_insert. by right.
  - pose proof (insert_order (prior_of s) l [] c (c_op cl)) as O. rewrite app_nil_r, E in O. apply O; [apply I|done|by right|].
    intros y. by apply prior_in.
  - intros d o' r' [Hin|[= -> -> ->]%list_elem_of_singleton]%elem_of_app; [right; eauto|by left].
Qed.

(** ** Kinds of actions *)

Abbreviation moved m' h' pc' := (set_call s m' h' c (with_pc cl pc')).

Lemma moved_copy m' (pc' : pcs) : copy_of pc' = copy_of (c_pc cl) -> copy_state (moved m' (holder s) pc') = copy_state s.
Proof using Hc.
  intros E. unfold copy_state. cbn [holder set_call]. destruct (holder s) as [d|]; [|done]. cbn. destruct (decide (d = c)) as [->|Hne].
  - by rewrite lookup_insert_eq, Hc.
  - by rewrite lookup_insert_ne.
Qed.

(** The memory stays. *)
Lemma moved_same h' (pc' : pcs) l' : extends s l l' c (c_op cl) None -> final ∅ l' = final ∅ l -> wfc (mp s) (copy_state (moved (mp s) h' pc')) ->
  lock_moves (holder s) h' c (c_pc cl) pc' -> (forall e, takes cl e -> takes (with_pc cl pc') e \/ pointed (get_p (mp s) e) = None) ->
  (forall e, takes (with_pc cl pc') e -> takes cl e) -> (forall r, c_pc cl <> PDone r) -> at_pc (moved (mp s) h' pc') l' c (with_pc cl pc') ->
  inv (moved (mp s) h' pc') l'.
Proof using I Hc.
  intros X F W L T T' D A. eapply (moved_inv I Hc); [|done|done| |done|done|by left|auto|done].
  - apply (moved_rely Hc); eauto 8.
  - intros k. rewrite F. apply (i_abs s l I).
Qed.

(** A value is stored in an entry of [k], or taken from it. *)
Lemma moved_set k e q (pc' : pcs) l' : any (mp s) k e -> get_p (mp s) e <> PExpunged -> q <> PExpunged ->
  (forall b v, q = PVal (b, v) -> b = c /\ value_of (c_op cl) = Some v) -> extends s l l' c (c_op cl) None ->
  final ∅ l' = match pointed q with Some v => <[k := v]> (final ∅ l) | None => delete k (final ∅ l) end ->
  copy_of pc' = copy_of (c_pc cl) -> locked pc' = locked (c_pc cl) -> (forall e, ~ takes cl e) -> (forall e, ~ takes (with_pc cl pc') e) ->
  (forall r, c_pc cl <> PDone r) -> at_pc (moved (set_p (mp s) e q) (holder s) pc') l' c (with_pc cl pc') ->
  inv (moved (set_p (mp s) e q) (holder s) pc') l'.
Proof using I Hc.
  intros He Hx Hq Hv X F C L T T' D A.
  assert (Hs : forall e', get_p (mp s) e' <> PExpunged -> get_p (set_p (mp s) e q) e' <> PExpunged) by (intros e'; rewrite get_set_p; by case_decide).
  eapply (moved_inv I Hc); [|done| | |done|by left| |intros e' ?; by destruct (T' e')|done].
  - apply (moved_rely Hc); try done; [by left|by left|by left| |intros e' ?; by destruct (T e')|by right].
    intros e' Hn _. rewrite get_set_p, decide_False; [done|]. intros ->. apply Hn. by exists k.
  - rewrite moved_copy by done. apply wfc_set_p; [apply I|done|done].
  - intros k'. rewrite (abs_set_p_linked _ k) by (done || apply mem_coherent). unfold upd. rewrite F. unfold pointed.
    case_decide as Hk; [subst k'|]; destruct (val q); cbn;
      rewrite ?lookup_insert_eq, ?lookup_delete_eq, ?lookup_insert_ne, ?lookup_delete_ne by done; try done; apply (i_abs s l I).
  - intros e' b v. rewrite get_set_p. case_decide; [|by left]. intros E. right. by apply Hv.
Qed.

(** The memory, the mutex and the order stay, or a call takes its place in the order. *)
Lemma moved_still (pc' : pcs) l' : extends s l l' c (c_op cl) None -> final ∅ l' = final ∅ l -> copy_of pc' = copy_of (c_pc cl) ->
  locked pc' = locked (c_pc cl) -> taken_of pc' = taken_of (c_pc cl) -> (forall r, c_pc cl <> PDone r) ->
  at_pc (moved (mp s) (holder s) pc') l' c (with_pc cl pc') -> inv (moved (mp s) (holder s) pc') l'.
Proof using I Hc.
  intros X F C L T D A. apply moved_same; [done..| | | | |done|done].
  - rewrite moved_copy by done. apply I.
  - by left.
  - intros e. rewrite takes_with, takes_iff, T. by left.
  - intros e. by rewrite takes_with, takes_iff, T.
Qed.

Lemma extend_none : extends s l l c (c_op cl) None.
Proof using I. apply extends_refl, I. Qed.

(** What is known of an entry does not depend on the program counter of a call that has taken none. *)
Lemma moved_gone m' h' (pc' : pcs) P k e : taken_of pc' = taken_of (c_pc cl) -> m' = mp s -> gone s l P k e -> gone (moved m' h' pc') l P k e.
Proof using Hc.
  intros T -> Hg. unfold gone in *. cbn [mp set_call]. destruct (pointed (get_p (mp s) e)) as [v|]; [|done].
  destruct Hg as (d & cld & pre & post & Hd & Ht & Hg). destruct (decide (d = c)) as [->|Hne].
  - rewrite Hc in Hd. injection Hd as <-. exists c, (with_pc cl pc'), pre, post. rewrite moved_c, takes_with, T, <- takes_iff. done.
  - exists d, cld, pre, post. rewrite moved_ne by done. done.
Qed.

Lemma moved_free h' (pc' : pcs) o e : taken_of pc' = taken_of (c_pc cl) -> free_entry s l (prior cl) o e -> free_entry (moved (mp s) h' pc') l (prior cl) o e.
Proof using Hc.
  intros T (k & Hk & He). exists k. split; [done|]. destruct (dirty_free o); [|done]. destruct He as (H1 & H2 & H3).
  split_and!; [done|done|]. cbn [mp set_call]. destruct H3 as [?|[? ?]]; [by left|right]. split; [done|]. by apply moved_gone.
Qed.

Lemma moved_mode h' (pc' : pcs) e md : taken_of pc' = taken_of (c_pc cl) -> in_mode s l c cl e md ->
  in_mode (moved (mp s) h' pc') l c (with_pc cl pc') e md.
Proof using Hc. intros T. destruct md; cbn; [|done|done]. intros [? ?]. split; [done|]. by apply moved_free. Qed.

Lemma moved_expected m' h' (pc' : pcs) o p : expected s o p -> expected (moved m' h' pc') o p.
Proof using Hc.
  destruct p as [| |[b v]]; cbn; try done. intros [Ho (cl' & Hb & Hv)]. split; [done|].
  destruct (moved_calls Hc m' h' pc' b cl' Hb) as (cl'' & ? & E). exists cl''. by rewrite E.
Qed.

(** A call that found the value [v] of [k] ends with the result of that. *)
Lemma step_seen k v r md : c ∉ ids l -> seen l (prior cl) k v -> (forall a : gmap K V, a !! k = v -> spec_run a (c_op cl) = (r, a)) ->
  md <> Taken -> on_key (c_op cl) = true -> copy_of (c_pc cl) = None -> taken_of (c_pc cl) = None -> (forall r, c_pc cl <> PDone r) ->
  locked (c_pc cl) = (match md with Held _ => true | _ => false end) -> (md = Held true -> amended (mp s) = true) ->
  exists l', inv (moved (mp s) (holder s) (finish md r)) l'.
Proof using I Hc.
  intros Hn Hs Hr Hm Hk C T D L A. destruct (extend_seen k v r Hn Hs Hr) as (l' & X & F & Hin). exists l'.
  apply moved_still; [done|done|..]; rewrite ?C, ?T, ?L; [by destruct md as [| |[]]..|done|].
  destruct md as [| |[]]; unfold at_pc; cbn; rewrite ?Hk; auto.
Qed.

(** ** The actions without the mutex *)

Lemma unamended_absent k : amended (mp s) = false -> read_m (mp s) !! k = None -> final ∅ l !! k = None.
Proof using I.
  intros Ha Hr. rewrite (i_abs s l I). unfold abs. rewrite Hr. pose proof (i_mem s l I) as W. destruct (copy_state s) as [todo|].
  - destruct W as [_ _ _ (d & Ed & C4 & _) _ _ _]. unfold dirty_get. rewrite Ed. cbn. destruct (d !! k) as [e|] eqn:Edk; [|done].
    destruct (C4 k e Edk). congruence.
  - unfold dirty_get. by rewrite (unamended_clean _ W Ha).
Qed.

Lemma visited_nil P : visited l P [].
Proof using Type. split; [apply NoDup_nil_2|]. intros ? ? ?%elem_of_nil. done. Qed.

(** A read map that is complete leaves out the keys that have no value. *)
Lemma left_out_read m (σ : RangeOrder) : (forall k, read_m m !! k = None -> snd <$> abs (mp s) k = None) ->
  left_out l (prior cl) (σ _ (map_to_list (read_m m))) [].
Proof using I Hc.
  intros Hm k Hk _. apply seen_now; [apply prior_ids|]. rewrite (i_abs s l I). apply Hm. destruct (read_m m !! k) as [e|] eqn:E; [|done]. destruct Hk.
  apply list_elem_of_fmap. exists (k, e). split; [done|]. by rewrite elem_of_range_order, elem_of_map_to_list.
Qed.

Lemma step_wait (pc' : pcs) : c ∉ ids l -> pc' = PLock -> copy_of (c_pc cl) = None -> locked (c_pc cl) = false -> taken_of (c_pc cl) = None ->
  (forall r, c_pc cl <> PDone r) -> exists l', inv (moved (mp s) (holder s) pc') l'.
Proof using I Hc. intros Hn -> C L T D. exists l. apply moved_still; [apply extend_none|done..]. Qed.

Lemma step_start : c_pc cl = PStart -> exists l', inv (moved (mp s) (holder s) (at_start (mp s) (c_op cl))) l'.
Proof using I Hc.
  intros Epc. pose proof (i_calls s l I c cl Hc) as Hn. unfold at_pc in Hn. rewrite Epc in Hn. unfold at_start.
  assert (Hw : forall pc', pc' = PLock -> exists l', inv (moved (mp s) (holder s) pc') l') by (intros pc' ?; apply step_wait; by rewrite ?Epc).
  assert (He : forall k e, key_of (c_op cl) = Some k -> read_m (mp s) !! k = Some e -> exists l', inv (moved (mp s) (holder s) (PEntry e Free)) l').
  { intros k e Hk Hr. exists l. apply moved_still; rewrite ?Epc; [apply extend_none|done..|]. unfold at_pc. cbn. split; [done|]. exists k. split; [done|].
    destruct (read_read_holds s l (prior cl) k e mem_coherent Hr) as (? & ? & _). destruct (dirty_free (c_op cl)); [|apply read_read_holds; [apply mem_coherent|done]].
    split_and!; [done|done|left; by left]. }
  assert (Ha : forall k, key_of (c_op cl) = Some k -> looks (c_op cl) = true -> read_m (mp s) !! k = None ->
    exists l', inv (moved (mp s) (holder s) (if amended (mp s) then PLock else PDone (absent (c_op cl)))) l').
  { intros k Hk Hl Hr. destruct (amended (mp s)) eqn:Ea; [by apply Hw|]. eapply (step_seen k None _ Free); rewrite ?Epc; try done.
    - apply seen_now; [apply prior_ids|by apply unamended_absent].
    - intros a. by apply absent_spec.
    - by destruct (c_op cl). }
  destruct (c_op cl) as [k|k v|k v|k v|k|k|k old v|k old|σ] eqn:Eo; cbn [key_of];
    try (destruct (read_m (mp s) !! k) as [e|] eqn:Er; [by eapply He|]; first [by apply Hw|by eapply Ha]).
  destruct (amended (mp s)) eqn:Ea; [by apply Hw|]. exists l. apply moved_still; rewrite ?Epc; [apply extend_none|done..|].
  unfold at_pc. cbn. rewrite Eo. split_and!; [done|done|apply (visits_read (moved (mp s) (holder s) _)); cbn; apply mem_coherent|apply visited_nil|..].
  - intros ? _ ?%elem_of_nil. done.
  - apply left_out_read. intros k Hk. rewrite <- (i_abs s l I). by apply unamended_absent.
Qed.

(** What a loop on an entry finds, unless the call has removed the entry itself. *)
Lemma entry_seen e md : in_mode s l c cl e md -> md <> Taken ->
  exists k, key_of (c_op cl) = Some k /\ c ∉ ids l /\ seen l (prior cl) k (pointed (get_p (mp s) e)).
Proof using I Hc.
  intros Hm Ht. destruct md as [| |b]; [|done|].
  - destruct Hm as [Hn (k & Hk & He)]. exists k. split_and!; [done..|].
    destruct (dirty_free (c_op cl)); [apply holds_seen|apply read_holds_seen]; done || apply prior_ids.
  - destruct Hm as [Hn (k & Hk & He & _)]. exists k. split_and!; [done..|]. apply holds_seen; [done|apply prior_ids|apply any_holds; [apply mem_coherent|done]].
Qed.

Lemma mode_locked e md : in_mode s l c cl e md -> md = Held true -> amended (mp s) = true.
Proof using Type. intros Hm ->. destruct Hm as [_ (k & _ & _ & Ha & _)]. auto. Qed.

Lemma mode_on_key e md : in_mode s l c cl e md -> on_key (c_op cl) = true.
Proof using Type.
  destruct md; [intros [_ (k & Hk & _)]|intros [[k Hk] _]|intros [_ (k & Hk & _)]]; destruct (c_op cl); try done; by destruct Hk.
Qed.

(** The loop goes on to the compare-and-swap. *)
Lemma entry_cas e md : c_pc cl = PEntry e md -> expected s (c_op cl) (get_p (mp s) e) ->
  exists l', inv (moved (mp s) (holder s) (PCas e (get_p (mp s) e) md)) l'.
Proof using I Hc.
  intros Epc Hx. pose proof (i_calls s l I c cl Hc) as Hm. unfold at_pc in Hm. rewrite Epc in Hm. exists l.
  assert (taken_of (PCas e (get_p (mp s) e) md : pcs) = taken_of (c_pc cl)) by (rewrite Epc; by destruct md).
  apply moved_still; [apply extend_none|by rewrite ?Epc; try destruct md..|]. split; [by apply moved_mode|by apply moved_expected].
Qed.

(** entry.delete of a call that has removed the entry. *)
Lemma entry_taken e : c_pc cl = PEntry e Taken -> exists l', inv (moved (mp s) (holder s) (at_entry (c_op cl) e Taken (get_p (mp s) e))) l'.
Proof using I Hc.
  intros Epc. pose proof (i_calls s l I c cl Hc) as Hm. unfold at_pc in Hm. rewrite Epc in Hm.
  pose proof (mode_on_key e Taken Hm) as Hok. pose proof (entry_cas e Taken Epc) as Hcas. destruct Hm as ([k Ho] & Hlt & Hnl & Hnx & Hin).
  assert (Hat : at_entry (c_op cl) e Taken (get_p (mp s) e) =
    match get_p (mp s) e with PVal _ => PCas e (get_p (mp s) e) Taken | _ => PDone (swap_result (c_op cl) None) end)
    by (destruct Ho as [-> | ->]; done). rewrite Hat. clear Hat. destruct (get_p (mp s) e) as [| |[b v]] eqn:Ep; [|done|].
  - exists l. apply moved_same; rewrite ?Epc; [apply extend_none|done|..].
    + rewrite moved_copy by (by rewrite Epc). apply I.
    + by left.
    + intros e' He'. right. apply takes_iff in He'. rewrite Epc in He'. cbn in He'. simplify_eq. by rewrite Ep.
    + intros e'. by rewrite takes_with.
    + done.
    + unfold at_pc. cbn. by rewrite Hok.
  - apply Hcas. split; [by destruct Ho as [-> | ->]|by eapply (i_cells s l I)].
Qed.

Lemma step_entry e md : c_pc cl = PEntry e md -> exists l', inv (moved (mp s) (holder s) (at_entry (c_op cl) e md (get_p (mp s) e))) l'.
Proof using I Hc.
  intros Epc. pose proof (i_calls s l I c cl Hc) as Hm. unfold at_pc in Hm. rewrite Epc in Hm.
  pose proof (mode_on_key e md Hm) as Hok. pose proof (mode_locked e md Hm) as Ham. pose proof (entry_cas e md Epc) as Hcas.
  assert (Hex : forall b v, get_p (mp s) e = PVal (b, v) -> match c_op cl with OpLoad _ | OpLoadOrStore _ _ | OpRange _ => False | _ => True end ->
    expected s (c_op cl) (get_p (mp s) e)) by (intros b v E Ho; rewrite E; split; [done|]; by eapply (i_cells s l I)).
  assert (md = Taken \/ md <> Taken) as [->|Ht] by (by destruct md; auto); [by apply entry_taken|].
  destruct (entry_seen e md Hm Ht) as (k & Hk & Hn & Hs).
  assert (Hfin : forall r, (forall a : gmap K V, a !! k = pointed (get_p (mp s) e) -> spec_run a (c_op cl) = (r, a)) ->
    exists l', inv (moved (mp s) (holder s) (finish md r)) l').
  { intros r Hr. eapply step_seen; rewrite ?Epc; [done|done|done|done|done|done|by destruct md|done|by destruct md|done]. }
  assert (Hlk : md = Free -> exists l', inv (moved (mp s) (holder s) PLock) l').
  { intros ->. apply step_wait; by rewrite ?Epc. }
  destruct (c_op cl) as [k'|k' v|k' v|k' v|k'|k'|k' old v|k' old|σ] eqn:Eo; cbn in Hk; simplify_eq; cbn [at_entry];
    try (destruct (get_p (mp s) e) as [| |[b w]] eqn:Ep; [apply Hfin..|by apply Hcas, (Hex b w)]; intros a; by apply absent_spec).
  - apply Hfin. intros a Ha. cbn. by rewrite Ha.
  - destruct (get_p (mp s) e) as [| |[b w]] eqn:Ep; [by apply Hcas| |by apply Hcas, (Hex b w)].
    apply Hlk. destruct md; [done|done|]. destruct Hm as [_ (? & _ & _ & _ & [[[? ?] _]|(? & ? & ?)])]; congruence.
  - destruct (get_p (mp s) e) as [| |[b w]] eqn:Ep; [by apply Hcas| |by apply Hcas, (Hex b w)].
    apply Hlk. destruct md; [done|done|]. destruct Hm as [_ (? & _ & _ & _ & [[[? ?] _]|(? & ? & ?)])]; congruence.
  - destruct (get_p (mp s) e) as [| |[b w]] eqn:Ep.
    + by apply Hcas.
    + destruct md; [by apply Hlk|done|]. destruct Hm as [_ (? & _ & _ & _ & [[_ ?]|(? & ? & ?)])]; congruence.
    + apply Hfin. intros a Ha. cbn. by rewrite Ha.
Qed.

Lemma same_expected e p : expected s (c_op cl) p -> same (get_p (mp s) e) p = true -> get_p (mp s) e = p.
Proof using I.
  intros Hx Hs. destruct (get_p (mp s) e) as [| |[b v]] eqn:Ep, p as [| |[b' v']]; cbn in *; try done.
  apply Nat.eqb_eq in Hs as <-. destruct Hx as [_ (cb & Hb & Hv)]. destruct (i_cells s l I e b v Ep) as (cb' & Hb' & Hv'). congruence.
Qed.

(** The compare-and-swap on an entry of the key. *)
Lemma cas_linked k e p md : c_pc cl = PCas e p md -> in_mode s l c cl e md -> md <> Taken -> expected s (c_op cl) p -> get_p (mp s) e = p ->
  key_of (c_op cl) = Some k -> any (mp s) k e ->
  exists l', inv (moved (set_p (mp s) e (new_pointer c (c_op cl))) (holder s) (finish md (swapped (c_op cl) p))) l'.
Proof using I Hc.
  intros Epc Hm Ht Hx Ep Hk He. assert (Hn : c ∉ ids l) by (destruct md; [|done|]; apply Hm).
  pose proof (mode_on_key e md Hm) as Hok. pose proof (mode_locked e md Hm) as Ham.
  destruct (extend_now (swapped (c_op cl) p) (match pointed (new_pointer c (c_op cl)) with Some v => <[k := v]> (final ∅ l) | None => delete k (final ∅ l) end) Hn)
    as [X F].
  { apply (swapped_spec s); [done..|]. rewrite (i_abs s l I), (abs_linked _ k e); [by rewrite <- Ep|apply mem_coherent|done]. }
  eexists. eapply (moved_set k); [done| | | |exact X|exact F|..]; rewrite ?Epc.
  - rewrite Ep. by intros ->.
  - unfold new_pointer. by destruct (value_of (c_op cl)).
  - unfold new_pointer. destruct (value_of (c_op cl)); [|done]. by intros ? ? [= <- <-].
  - by destruct md as [| |[]].
  - by destruct md as [| |[]].
  - intros e'. rewrite takes_iff, Epc. by destruct md.
  - intros e'. rewrite takes_with. by destruct md as [| |[]].
  - done.
  - assert (Hin : (c, c_op cl, swapped (c_op cl) p) ∈ l ++ [(c, c_op cl, swapped (c_op cl) p)]) by (apply elem_of_app; right; left).
    destruct md as [| |[]]; unfold at_pc; cbn; rewrite ?Hok; auto.
Qed.

(** After its remover an entry that is gone held nothing. *)
Lemma gone_seen P k e : gone s l P k e -> seen l P k None.
Proof using I.
  unfold gone. destruct (pointed (get_p (mp s) e)) as [v|]; [|done]. intros (d & cld & pre & post & _ & _ & Ho & -> & _ & HP).
  eexists (pre ++ [_]), post. rewrite <- app_assoc. split; [done|]. rewrite ids_app, final_app. cbn. rewrite (deletes_spec _ k _ Ho). cbn.
  rewrite lookup_delete_eq. split; [|done]. intros x ?%HP. apply elem_of_app. by left.
Qed.

(** The value is taken from an entry that [d] has removed: by [d] or by one that overtakes it. *)
Lemma moved_unlinked e d cld (pc' : pcs) l' sk : ~ linked (mp s) e -> get_p (mp s) e <> PExpunged -> calls s !! d = Some cld -> takes cld e ->
  extends s l l' c (c_op cl) sk -> (sk = None \/ sk = Some d) -> (d <> c -> (d, c_op cld, swap_result (c_op cld) None) ∈ l') ->
  (forall e', takes cl e' -> e' = e) -> taken_of pc' = None -> final ∅ l' = final ∅ l -> copy_of pc' = copy_of (c_pc cl) -> locked pc' = locked (c_pc cl) ->
  (forall r, c_pc cl <> PDone r) -> at_pc (moved (set_p (mp s) e PNil) (holder s) pc') l' c (with_pc cl pc') ->
  inv (moved (set_p (mp s) e PNil) (holder s) pc') l'.
Proof using I Hc.
  intros Hn Hx Hd Ht X Hsk Hin T T' F C L D A.
  assert (Hne : forall e' q, get_p (mp s) e' = q -> e' <> e -> get_p (set_p (mp s) e PNil) e' = q) by (intros; by rewrite get_set_p, decide_False).
  assert (Hu : forall x clx e', calls s !! x = Some clx -> takes clx e' -> x = d <-> e' = e).
  { intros x clx e' Hx' Htx. split; [|intros ->; by eapply (i_takes s l I)]. intros ->. simplify_eq. apply takes_iff in Ht, Htx. congruence. }
  eapply (moved_inv I Hc); [|exact X| | |exact A|by left| |intros e'; by rewrite takes_with, T'|done].
  - split; try done; try (by left).
    + intros P k e' Hn' He' Hg. destruct (decide (e' = e)) as [->|Hee].
      * unfold gone. cbn [mp set_call]. rewrite get_set_p, decide_True by done. cbn. eapply seen_grows; [apply X|by eapply gone_seen].
      * unfold gone in *. cbn [mp set_call]. rewrite (Hne e' _ eq_refl Hee). destruct (pointed (get_p (mp s) e')) as [v|]; [|by eapply seen_grows; [apply X|]].
        destruct Hg as (x & clx & pre & post & Ex & Htx & Hox & El & Hf & HP).
        assert (x <> c) by (intros ->; simplify_eq; auto). assert (x <> d) by (intros E; apply Hee; by apply (Hu x clx)).
        destruct (g_mid _ _ _ (x_grows _ _ _ _ _ _ X) _ _ _ El) as (pre' & post' & -> & Hi & Hf'); [cbn; destruct Hsk as [-> | ->]; congruence|].
        exists x, clx, pre', post'. rewrite moved_ne, Hf' by done. split_and!; auto.
    + intros e' _ _ He'. cbn [mp set_call]. apply Hne; [done|]. by intros ->.
    + intros x clx e' Hxc Ex Htx Te. cbn [mp set_call]. destruct (decide (x = d)) as [->|Hxd].
      * assert (e' = e) as -> by (by apply (Hu d clx)). simplify_eq. rewrite get_set_p, decide_True by done. split; [done|]. by apply Hin.
      * assert (e' <> e) by (intros E; apply Hxd; by apply (Hu x clx e')). destruct Te as (_ & _ & _ & Hx' & Hin').
        rewrite (Hne e' _ eq_refl) by done. split; [done|]. eapply grows_elem; [apply X|done|]. cbn. destruct Hsk as [-> | ->]; congruence.
    + apply X.
    + intros x clx -> Ex. destruct Hsk as [?|?]; simplify_eq. by exists e.
    + intros x. by eapply extends_ids.
    + intros x clx. by apply moved_calls.
    + intros x Hxc _. split_and!; try done. intros e'. cbn [mp set_call]. rewrite get_set_p. by case_decide.
  - rewrite moved_copy by done. apply wfc_set_p_unlinked; [apply I|done].
  - intros k. rewrite F, abs_set_p_unlinked by done. apply (i_abs s l I).
  - intros e' b v. rewrite get_set_p. case_decide; [done|]. by left.
Qed.

(** entry.delete gets the value of the entry the call has removed. *)
Lemma cas_taken e p : c_pc cl = PCas e p Taken -> taken_entry s l c (c_op cl) e -> expected s (c_op cl) p -> get_p (mp s) e = p ->
  exists l', inv (moved (set_p (mp s) e (new_pointer c (c_op cl))) (holder s) (PDone (swapped (c_op cl) p))) l'.
Proof using I Hc.
  intros Epc ([k Ho] & Hlt & Hn & Hx & Hin) Hp Ep.
  assert (new_pointer c (c_op cl) = PNil /\ swapped (c_op cl) p = swap_result (c_op cl) (pointed p) /\ on_key (c_op cl) = true) as (-> & -> & Hok)
    by (destruct Ho as [-> | ->]; done). exists l. eapply (moved_unlinked e c cl); rewrite ?Epc; try done; [..|apply extend_none|by left| |].
  - apply takes_iff. by rewrite Epc.
  - intros e'. rewrite takes_iff, Epc. by intros [= <-].
  - unfold at_pc. cbn. rewrite Hok. by rewrite <- Ep.
Qed.

(** CompareAndDelete gets the value of an entry before its remover does. *)
Lemma cas_overtakes k old e p : c_pc cl = PCas e p Free -> c_op cl = OpCompareAndDelete k old -> c ∉ ids l -> expected s (c_op cl) p -> get_p (mp s) e = p ->
  ~ linked (mp s) e -> gone s l (prior cl) k e -> exists l', inv (moved (set_p (mp s) e PNil) (holder s) (PDone (RBool true))) l'.
Proof using I Hc.
  intros Epc Eo Hn Hp Ep Hnl Hg. unfold gone in Hg. rewrite Ep in Hg. destruct p as [| |[b v]]; rewrite ?Eo in Hp; [done|done|]. cbn in Hg.
  destruct Hg as (d & cld & pre & post & Hd & Ht & Ho & El & Hf & HP).
  assert (d <> c) by (intros ->; simplify_eq; apply takes_iff in Ht; by rewrite Epc in Ht).
  exists (overtaken pre post c d k old (c_op cld)). eapply (moved_unlinked e d cld); rewrite ?Epc; try done.
  - by rewrite Ep.
  - split.
    + rewrite El. by apply grows_overtaken.
    + pose proof (i_order s l I) as W. rewrite El in W. eapply overtaken_order; [done|exact W|by rewrite <- El|done|]. by rewrite prior_call.
    + intros x o' r'. rewrite El, Eo. unfold overtaken. rewrite elem_of_app, !elem_of_cons. intros [Hin|[[= -> -> ->]|[[= -> -> ->]|Hin]]].
      * right. exists r'. apply elem_of_app. by left.
      * by left.
      * right. eexists. apply elem_of_app. right. left.
      * right. exists r'. apply elem_of_app. right. by right.
  - by right.
  - intros _. apply elem_of_app. right. right. left.
  - intros e'. by rewrite takes_iff, Epc.
  - rewrite El. by apply overtaken_final.
  - unfold at_pc. cbn. rewrite Eo. cbn. apply elem_of_app. right. left.
Qed.

Lemma step_cas e p md : c_pc cl = PCas e p md -> same (get_p (mp s) e) p = true ->
  exists l', inv (moved (set_p (mp s) e (new_pointer c (c_op cl))) (holder s) (finish md (swapped (c_op cl) p))) l'.
Proof using I Hc.
  intros Epc Hs. pose proof (i_calls s l I c cl Hc) as Ha. unfold at_pc in Ha. rewrite Epc in Ha. destruct Ha as [Hm Hp].
  pose proof (same_expected e p Hp Hs) as Ep. destruct md as [| |b]; [|by apply cas_taken|].
  - pose proof Hm as [Hn (k & Hk & He)]. destruct (dirty_free (c_op cl)) eqn:Edf.
    + destruct He as (_ & _ & [Hak|[Hnl Hg]]); [by eapply cas_linked|]. destruct (c_op cl) eqn:Eo; try done; [by destruct p as [| |[? ?]], Hp|].
      cbn in Hk. injection Hk as ->. cbn. rewrite <- Eo in Hp. by eapply cas_overtakes.
    + destruct He as (_ & _ & [Hr|(_ & Hx & _)]); [|rewrite Hx in Ep; by subst p]. eapply cas_linked; try done. by left.
  - pose proof Hm as [_ (k & Hk & Hak & _)]. by eapply cas_linked.
Qed.

Lemma step_retry e p md : c_pc cl = PCas e p md -> exists l', inv (moved (mp s) (holder s) (PEntry e md)) l'.
Proof using I Hc.
  intros Epc. pose proof (i_calls s l I c cl Hc) as Ha. unfold at_pc in Ha. rewrite Epc in Ha. destruct Ha as [Hm _]. exists l.
  assert (taken_of (PEntry e md : pcs) = taken_of (c_pc cl)) by (rewrite Epc; by destruct md).
  apply moved_still; [apply extend_none|by rewrite ?Epc; try destruct md..|]. by apply moved_mode.
Qed.

Lemma step_lock : c_pc cl = PLock -> holder s = None -> exists l', inv (moved (mp s) (Some c) PLocked) l'.
Proof using I Hc.
  intros Epc Hh. pose proof (i_calls s l I c cl Hc) as Ha. unfold at_pc in Ha. rewrite Epc in Ha. exists l.
  apply moved_same; rewrite ?Epc; try done; [apply extend_none|..].
  - rewrite moved_copy_held. pose proof (i_mem s l I) as W. unfold copy_state in W. by rewrite Hh in W.
  - right. left. done.
  - intros e. by rewrite takes_iff, Epc.
  - intros e. by rewrite takes_with.
Qed.

Lemma step_unlock a : c_pc cl = PUnlock a -> exists l', inv (moved (mp s) None (after_unlock a)) l'.
Proof using I Hc.
  intros Epc. pose proof (i_calls s l I c cl Hc) as Ha. unfold at_pc in Ha. rewrite Epc in Ha. exists l.
  assert (Ht : taken_of (after_unlock a) = taken_of (c_pc cl)) by (rewrite Epc; by destruct a as [|? []|]).
  apply moved_same; rewrite ?Epc; try done; [apply extend_none|..].
  - destruct (held_copy I Hc) as [_ W]; [by rewrite Epc|]. by rewrite Epc in W.
  - right. right. split_and!; [done|done|]. by destruct a as [|? [| |b]|].
  - intros e. rewrite takes_with, takes_iff, Ht. by left.
  - intros e. by rewrite takes_with, takes_iff, Ht.
  - destruct a as [r|e md|es].
    + destruct Ha as [Hk ?]. unfold at_pc. cbn. by rewrite Hk.
    + destruct md; [|done|done]. by apply (moved_mode None (PEntry e Free) e Free).
    + destruct Ha as (? & ? & ? & ?). unfold at_pc. cbn. split_and!; [done|done|done|apply visited_nil|by intros ? _ ?%elem_of_nil|done].
Qed.

Lemma step_visit k e es acc : c_pc cl = PVisit ((k, e) :: es) acc ->
  exists l', inv (moved (mp s) (holder s) (PVisit es (match pointed (get_p (mp s) e) with Some v => acc ++ [(k, v)] | None => acc end))) l'.
Proof using I Hc.
  intros Epc. pose proof (i_calls s l I c cl Hc) as Ha. unfold at_pc in Ha. rewrite Epc in Ha.
  destruct Ha as (Hn & Ho & [Hnd Hv] & [Hnd' Hv'] & Hd & Hlo). apply NoDup_cons in Hnd as [Hk Hnd]. exists l.
  assert (Hs : seen l (prior cl) k (pointed (get_p (mp s) e))).
  { apply read_holds_seen; [done|apply prior_ids|]. apply Hv. left. }
  apply moved_still; rewrite ?Epc; try done; [apply extend_none|]. unfold at_pc. cbn [c_pc with_pc c_op prior].
  split_and!; [done|done|split; [done|]; intros; apply Hv; by right|..]; destruct (pointed (get_p (mp s) e)) as [v|]; try done.
  - split.
    + rewrite fmap_app. apply NoDup_app. split_and!; [done| |apply NoDup_singleton]. intros x Hx. cbn. intros ->%list_elem_of_singleton.
      eapply Hd; [left|done].
    + intros k' v' [?|[= -> ->]%list_elem_of_singleton]%elem_of_app; auto.
  - intros k' Hk'. rewrite fmap_app, elem_of_app. intros [Hx| ->%list_elem_of_singleton]; [|done]. eapply Hd; [|done]. by right.
  - intros k' Hk'. apply Hd. by right.
  - intros k' H1 H2. rewrite fmap_app, elem_of_app in H2. apply Hlo; [|tauto]. cbn. rewrite elem_of_cons. intros [->|?]; [|done]. apply H2. right. left.
  - intros k' H1 H2. destruct (decide (k' = k)) as [->|Hne]; [done|]. apply Hlo; [|done]. cbn. rewrite elem_of_cons. tauto.
Qed.

Lemma step_visited acc : c_pc cl = PVisit [] acc -> exists l', inv (moved (mp s) (holder s) (PDone (RList acc))) l'.
Proof using I Hc.
  intros Epc. pose proof (i_calls s l I c cl Hc) as Ha. unfold at_pc in Ha. rewrite Epc in Ha. destruct Ha as (Hn & Ho & _ & Hv & _ & Hlo). exists l.
  apply moved_still; rewrite ?Epc; try done; [apply extend_none|]. unfold at_pc. cbn. rewrite Ho. eauto.
Qed.

Lemma step_stopped es acc : c_pc cl = PVisit es acc -> exists l', inv (moved (mp s) (holder s) (PStopped acc)) l'.
Proof using I Hc.
  intros Epc. pose proof (i_calls s l I c cl Hc) as Ha. unfold at_pc in Ha. rewrite Epc in Ha. destruct Ha as (Hn & Ho & _ & Hv & _). exists l.
  apply moved_still; rewrite ?Epc; try done. apply extend_none.
Qed.

(** ** The actions with the mutex *)

Lemma moved_keeps m' (pc' : pcs) l' : locked (c_pc cl) = true -> locked pc' = true -> keeps (mp s) m' -> wfc m' (copy_of pc') ->
  extends s l l' c (c_op cl) None -> final ∅ l' = final ∅ l -> taken_of (c_pc cl) = None -> taken_of pc' = None -> (forall r, c_pc cl <> PDone r) ->
  at_pc (moved m' (holder s) pc') l' c (with_pc cl pc') -> inv (moved m' (holder s) pc') l'.
Proof using I Hc.
  intros L L' Kp W X F T T' D A. pose proof (i_lock s l I c cl Hc L) as Hh. rewrite Hh in *.
  assert (Hs : forall k P, abs (mp s) k = None -> (forall x, x ∈ P -> x ∈ ids l) -> seen l' P k None).
  { intros k P Ha HP. eapply seen_grows; [apply X|]. apply seen_now; [done|]. by rewrite (i_abs s l I), Ha. }
  eapply (moved_inv I Hc); [|done| | |done|left; split; congruence| |intros e; by rewrite takes_with, T'|done].
  - apply (moved_rely Hc); [done|by rewrite (kp_next _ _ Kp)|..].
    + intros k e ?. left. by apply (kp_any _ _ Kp).
    + intros k e Hk. destruct (kp_read _ _ Kp k e Hk) as [?|(? & ? & ?)]; [by left|right]. auto.
    + intros k e Hk. destruct (kp_kept _ _ Kp k e Hk) as [?|(? & Ep & ?)]; [by left|right]. split; [done|]. intros P HP. unfold gone.
      cbn [mp set_call]. rewrite Ep. by apply Hs.
    + intros e Hn _. by apply (kp_unlinked _ _ Kp).
    + intros e. by rewrite takes_iff, T.
    + by left.
  - by rewrite moved_copy_held.
  - intros k. rewrite F, (kp_abs _ _ Kp). apply (i_abs s l I).
  - intros e b v Hv. left. by apply (kp_cells _ _ Kp).
Qed.

(** A call that found nothing ends. *)
Lemma locked_absent k m' : c_pc cl = PLocked -> keeps (mp s) m' -> wf m' -> key_of (c_op cl) = Some k -> looks (c_op cl) = true -> abs (mp s) k = None ->
  exists l', inv (moved m' (holder s) (PUnlock (ARet (absent (c_op cl))))) l'.
Proof using I Hc.
  intros Epc Kp W Hk Hl Ha. pose proof (i_calls s l I c cl Hc) as Hn. unfold at_pc in Hn. rewrite Epc in Hn.
  destruct (extend_seen k None (absent (c_op cl)) Hn) as (l' & X & F & Hin).
  - apply seen_now; [apply prior_ids|]. by rewrite (i_abs s l I), Ha.
  - intros a. by apply absent_spec.
  - exists l'. apply moved_keeps; rewrite ?Epc; try done. unfold at_pc. cbn. split; [|done]. by destruct (c_op cl).
Qed.

Lemma step_miss r : c_pc cl = PMiss r -> exists l', inv (moved (missLocked (mp s)) (holder s) (PUnlock (ARet r))) l'.
Proof using I Hc.
  intros Epc. pose proof (i_calls s l I c cl Hc) as Ha. unfold at_pc in Ha. rewrite Epc in Ha. destruct Ha as (Ham & Ho & Hin).
  destruct (held_copy I Hc) as [_ W]; rewrite ?Epc in *; [done|]. exists l. apply moved_keeps; rewrite ?Epc; try done.
  - by apply missLocked_keeps.
  - by apply missLocked_wf.
  - apply extend_none.
Qed.

Lemma step_unexpunge k v e : c_pc cl = PUnexpunge e -> stores (c_op cl) k v ->
  exists l', inv (let '(m', pc') := at_unexpunge (mp s) (c_op cl) k e in moved m' (holder s) pc') l'.
Proof using I Hc.
  intros Epc Ho. pose proof (i_calls s l I c cl Hc) as Ha. unfold at_pc in Ha. rewrite Epc in Ha. destruct Ha as (Hn & k' & v' & Ho' & Hr).
  assert (k' = k) as -> by (destruct Ho as [E|[E|E]], Ho' as [E'|[E'|E']]; congruence).
  destruct (held_copy I Hc) as [_ W]; rewrite ?Epc in *; [done|]. cbn in W. exists l.
  assert (Hg : forall m' pc', keeps (mp s) m' -> wf m' -> read_m m' !! k = Some e -> get_p m' e <> PExpunged ->
    pc' = (match c_op cl with OpLoadOrStore _ _ => PEntry e (Held false) | _ => PSwapLocked e end) -> inv (moved m' (holder s) pc') l).
  { intros m' pc' Kp W' Hr' Hx ->. assert (any m' k e) by (by left).
    destruct Ho as [E|[E|E]]; rewrite E; (apply moved_keeps; rewrite ?Epc; try done; [apply extend_none|]); unfold at_pc; cbn;
      rewrite E; split; eauto 6. exists k. split_and!; [done|done|done|left; eauto]. }
  unfold at_unexpunge, unexpungeLocked. destruct (get_p (mp s) e) eqn:Ep.
  - apply Hg; [apply keeps_refl|done|done|congruence|done].
  - destruct (unexpunge_wf (mp s) k e W Hr Ep) as (m' & Em & W' & _ & Ep' & Hr' & _). rewrite Em. apply Hg; [|done|done|congruence|done].
    by eapply unexpunge_keeps.
  - apply Hg; [apply keeps_refl|done|done|congruence|done].
Qed.

Lemma step_swap v e : c_pc cl = PSwapLocked e -> value_of (c_op cl) = Some v ->
  exists l', inv (let '(m', pc') := at_swap (mp s) c (c_op cl) v e in moved m' (holder s) pc') l'.
Proof using I Hc.
  intros Epc Hv. pose proof (i_calls s l I c cl Hc) as Ha. unfold at_pc in Ha. rewrite Epc in Ha. destruct Ha as (Hn & (k & v' & Ho & Hk) & Hx).
  assert (v' = v) as -> by (destruct Ho as [E|E]; rewrite E in Hv; by injection Hv).
  destruct (extend_now (swap_result (c_op cl) (pointed (get_p (mp s) e))) (<[k := v]> (final ∅ l)) Hn) as [X F].
  { assert (Hl : pointed (get_p (mp s) e) = final ∅ l !! k) by (rewrite (i_abs s l I), (abs_linked _ k e); [done|apply mem_coherent|done]).
    rewrite Hl. by destruct Ho as [-> | ->]. }
  unfold at_swap, swapLocked. assert (Hm : match get_p (mp s) e with PExpunged => PPanic | _ => PUnlock (ARet (swap_result (c_op cl) (pointed (get_p (mp s) e)))) end =
    PUnlock (ARet (swap_result (c_op cl) (pointed (get_p (mp s) e))))) by (by destruct (get_p (mp s) e)). rewrite Hm. clear Hm.
  eexists. eapply (moved_set k); rewrite ?Epc; [done|done|done| |exact X|exact F|done|done|..].
  - by intros b w [= <- <-].
  - intros e'. by rewrite takes_iff, Epc.
  - intros e'. by rewrite takes_with.
  - done.
  - unfold at_pc. cbn. split; [by destruct Ho as [-> | ->]|]. apply elem_of_app. right. left.
Qed.

Lemma step_copy todo : c_pc cl = PCopy todo -> exists l', inv (let '(m', pc') := at_copy (mp s) todo in moved m' (holder s) pc') l'.
Proof using I Hc.
  intros Epc. pose proof (i_calls s l I c cl Hc) as Ha. unfold at_pc in Ha. rewrite Epc in Ha. destruct Ha as (Hn & k & v & Ho & Hr).
  destruct (held_copy I Hc) as [_ W]; rewrite ?Epc in *; [done|]. cbn in W. exists l. pose proof extend_none as X. destruct todo as [|[k' e] todo]; cbn [at_copy].
  - destruct (copy_done _ W) as (Kp & W' & Hd). apply moved_keeps; rewrite ?Epc; try done. unfold at_pc. cbn. split_and!; [done|done|].
    exists k, v. split_and!; [done|done|by apply Hd].
  - destruct (cp_todo _ _ W k' e) as [_ Hx]; [left|]. destruct (get_p (mp s) e) as [| |w] eqn:Ep; [|done|].
    + apply moved_keeps; rewrite ?Epc; try done; [apply keeps_refl|]. split; eauto.
    + destruct (copy_put _ _ _ _ _ W Ep) as (m' & -> & Kp & W' & E). apply moved_keeps; rewrite ?Epc; try done. unfold at_pc. cbn. rewrite E. split; eauto.
Qed.

Lemma step_copy_cas k e todo : c_pc cl = PCopyCas k e todo -> exists l',
  inv (let '(m', pc') := match get_p (mp s) e with PNil => (set_p (mp s) e PExpunged, PCopy todo) | _ => (mp s, PCopy ((k, e) :: todo)) end in
       moved m' (holder s) pc') l'.
Proof using I Hc.
  intros Epc. pose proof (i_calls s l I c cl Hc) as Ha. unfold at_pc in Ha. rewrite Epc in Ha. destruct Ha as (Hn & k' & v & Ho & Hr).
  destruct (held_copy I Hc) as [_ W]; rewrite ?Epc in *; [done|]. cbn in W. exists l. pose proof extend_none as X. destruct (get_p (mp s) e) as [| |w] eqn:Ep.
  - destruct (copy_expunge _ _ _ _ W Ep) as [Kp W']. apply moved_keeps; rewrite ?Epc; try done. split; eauto.
  - apply moved_keeps; rewrite ?Epc; try done; [apply keeps_refl|]. split; eauto.
  - apply moved_keeps; rewrite ?Epc; try done; [apply keeps_refl|]. split; eauto.
Qed.

Lemma step_insert k v : c_pc cl = PInsert -> stores (c_op cl) k v -> exists l', inv (let '(m', pc') := at_insert (mp s) c (c_op cl) k v in moved m' (holder s) pc') l'.
Proof using I Hc.
  intros Epc Ho. pose proof (i_calls s l I c cl Hc) as Ha. unfold at_pc in Ha. rewrite Epc in Ha. destruct Ha as (Hn & Ham & k' & v' & Ho' & Hr & Hd).
  assert (k' = k /\ v' = v) as [-> ->] by (destruct Ho as [E|[E|E]], Ho' as [E'|[E'|E']]; split; congruence). clear Ho'.
  destruct (held_copy I Hc) as [Hh W]; rewrite ?Epc in *; [done|]. cbn in W. destruct (amended_dirty _ W Ham) as [d Ed].
  destruct (insert_new_wf (mp s) k (c, v) W) as (m' & Em & W' & E'); [by rewrite Ed|done|done|].
  set (r := match c_op cl with OpLoadOrStore _ _ => RLoaded v false | o => swap_result o None end).
  assert (Hf : final ∅ l !! k = None) by (rewrite (i_abs s l I); unfold abs; by rewrite Hr, Hd).
  destruct (extend_now r (<[k := v]> (final ∅ l)) Hn) as [X F]; [subst r; destruct Ho as [-> |[-> | ->]]; cbn; by rewrite ?Hf|].
  assert (Ei : at_insert (mp s) c (c_op cl) k v = (m', PUnlock (ARet r))).
  { unfold at_insert, newEntry in *. cbn [snd] in Em. rewrite Em. subst r. by destruct Ho as [-> |[-> | ->]]. }
  rewrite Ei, Hh. clear Ei. eexists. destruct (insert_new _ _ _ _ Hd Em) as (Nx & Rd & An & Kp & Hg).
  eapply (moved_inv I Hc); rewrite ?Epc, ?Hh; [|exact X|by rewrite moved_copy_held| | |by left| | |done].
  - apply (moved_rely Hc); [done|lia|done| |eauto| | |by left].
    + intros k' e ?. left. by rewrite Rd.
    + intros e _ He. rewrite Hg, decide_False; [done|lia].
    + intros e. by rewrite takes_iff, Epc.
  - intros k'. rewrite E', F. unfold upd. case_decide; [subst; by rewrite lookup_insert_eq|rewrite lookup_insert_ne by done; apply (i_abs s l I)].
  - unfold at_pc. cbn. split; [by destruct Ho as [-> |[-> | ->]]|]. apply elem_of_app. right. left.
  - intros e b w. rewrite Hg. case_decide; [|by left]. intros [= <- <-]. right. split; [done|]. by destruct Ho as [-> |[-> | ->]].
  - intros e. by rewrite takes_with.
Qed.

(** LoadAndDelete removes the entry of [k] from the dirty map. *)
Lemma step_take k e m' : c_pc cl = PLocked -> deletes k (c_op cl) -> any (mp s) k e -> get_p (mp s) e <> PExpunged -> takes_out (mp s) m' k e ->
  exists l', inv (moved m' (holder s) (PUnlock (AEntry e Taken))) l'.
Proof using I Hc.
  intros Epc Ho Hk Hx To. pose proof (i_calls s l I c cl Hc) as Hn. unfold at_pc in Hn. rewrite Epc in Hn.
  destruct (held_copy I Hc) as [Hh _]; rewrite ?Epc in *; [done|]. pose proof mem_coherent as Co.
  assert (Hg : get_p m' e = get_p (mp s) e) by (apply (to_same _ _ _ _ To); by right).
  assert (Hv : pointed (get_p (mp s) e) = final ∅ l !! k) by (by rewrite (i_abs s l I), (abs_linked _ k e)).
  set (r := swap_result (c_op cl) (pointed (get_p (mp s) e))). set (l' := l ++ [(c, c_op cl, r)]).
  destruct (extend_now r (delete k (final ∅ l)) Hn) as [X F]; [by rewrite (deletes_spec _ k _ Ho), <- Hv|].
  assert (Hs : forall k' P v, snd <$> abs (mp s) k' = v -> (forall x, x ∈ P -> x ∈ ids l) -> seen l' P k' v).
  { intros k' P v Ha HP. eapply seen_grows; [apply X|]. apply seen_now; [done|]. by rewrite (i_abs s l I). }
  exists l'. eapply (moved_inv I Hc); rewrite ?Epc, ?Hh; [|exact X|rewrite moved_copy_held; apply (to_wf _ _ _ _ To)| | |by left| | |done].
  - apply (moved_rely Hc); [done|by rewrite (to_next _ _ _ _ To)|..].
    + intros k' e' ?%(to_any _ _ _ _ To). by left.
    + intros k' e' Hk'. destruct (to_read _ _ _ _ To k' e' Hk') as [?|(? & ? & Ea)]; [by left|right]. split_and!; [done|done|]. intros P. apply Hs. by rewrite Ea.
    + intros k' e' Hk'. destruct (decide (e' = e)) as [->|Hne].
      * assert (k' = k) as -> by (by eapply co_inj). right. split; [apply To|]. intros P HP. unfold gone. cbn [mp set_call]. rewrite Hg.
        destruct (pointed (get_p (mp s) e)) as [v|] eqn:Ev; [|apply Hs; [by rewrite <- (i_abs s l I)|done]].
        exists c, (with_pc cl (PUnlock (AEntry e Taken))), l, []. rewrite moved_c, takes_with. split_and!; done.
      * destruct (to_kept _ _ _ _ To k' e' Hk' Hne) as [?|(? & Ep & Ea)]; [by left|right]. split; [done|]. intros P HP. unfold gone. cbn [mp set_call].
        rewrite Ep. apply Hs; [by rewrite Ea|done].
    + intros e' He' _. apply (to_same _ _ _ _ To). by left.
    + intros e'. by rewrite takes_iff, Epc.
    + by left.
  - intros k'. unfold l'. rewrite F, (to_abs _ _ _ _ To). unfold upd.
    case_decide; [subst; by rewrite lookup_delete_eq|rewrite lookup_delete_ne by done; apply (i_abs s l I)].
  - unfold at_pc. cbn [c_pc with_pc in_mode]. unfold taken_entry. cbn [mp set_call c_op with_pc]. rewrite Hg, (to_next _ _ _ _ To).
    split_and!; [eauto|by eapply co_fresh|apply To|done|]. apply elem_of_app. right. left.
  - intros e' b v Hb%(to_cells _ _ _ _ To). by left.
  - intros e'. rewrite takes_with. intros [= <-]. right. by exists k.
Qed.

(** The look at both maps. *)
Lemma step_lookup k : c_pc cl = PLocked -> looks (c_op cl) = true -> key_of (c_op cl) = Some k -> (forall old v, c_op cl <> OpCompareAndSwap k old v) ->
  exists l', inv (let '(m', pc') := locked_lookup (mp s) (c_op cl) k in moved m' (holder s) pc') l'.
Proof using I Hc.
  intros Epc Hl Hk Hcas. pose proof (i_calls s l I c cl Hc) as Hn. unfold at_pc in Hn. rewrite Epc in Hn.
  destruct (held_copy I Hc) as [_ W]; rewrite ?Epc in *; [done|]. cbn in W. pose proof extend_none as X. unfold locked_lookup.
  assert (Hfree : forall m' e, keeps (mp s) m' -> wf m' -> (if dirty_free (c_op cl) then any m' k e else read_m m' !! k = Some e) ->
    exists l', inv (moved m' (holder s) (PUnlock (AEntry e Free))) l').
  { intros m' e Kp W' He. exists l. apply moved_keeps; rewrite ?Epc; try done. unfold at_pc. cbn. split; [done|]. exists k. split; [done|].
    assert (Ha : any m' k e) by (destruct (dirty_free (c_op cl)); [done|by left]).
    pose proof (wf_fresh m' W' k e Ha). assert (forall k', any m' k' e -> k' = k) by (intros k' ?; by eapply (wf_inj m' W')).
    destruct (dirty_free (c_op cl)); (split_and!; [done|done|by left]). }
  destruct (read_m (mp s) !! k) as [e|] eqn:Er.
  { apply Hfree; [apply keeps_refl|done|]. destruct (dirty_free (c_op cl)); [by left|done]. }
  destruct (amended (mp s)) eqn:Ea.
  2: { apply (locked_absent k); try done; [apply keeps_refl|]. unfold abs, dirty_get. by rewrite Er, (unamended_clean _ W Ea). }
  destruct (missLocked_wf _ W Ea) as [W' _]. pose proof (missLocked_keeps _ W Ea) as Kp.
  assert (deletes k (c_op cl) \/ dirty_free (c_op cl) = true /\ match c_op cl with OpLoadAndDelete _ | OpDelete _ => true | _ => false end = false)
    as [Ho|[Ho E]].
  { destruct (c_op cl) as [| | | |k'|k'|k' ? ?| |]; try done; cbn in Hk; injection Hk as ->; unfold deletes; auto; by edestruct Hcas. }
  - assert (match c_op cl with OpLoadAndDelete _ | OpDelete _ => true | _ => false end = true) as -> by (by destruct Ho as [-> | ->]).
    destruct (dirty_get (mp s) k) as [e|] eqn:Ed.
    { apply (step_take k); [done|done|by right|by eapply dirty_entry_live|by apply drop_takes_out]. }
    assert (Em : set_dirty (mp s) (delete k <$> dirty (mp s)) = mp s).
    { unfold dirty_get in Ed. destruct (mp s) as [h n r a d mi]. cbn in *. unfold set_dirty. cbn. f_equal. destruct d as [d|]; [|done]. cbn in *. by rewrite delete_id. }
    rewrite Em. apply (locked_absent k); try done. unfold abs. by rewrite Er, Ed.
  - rewrite E, Ho in *. destruct (dirty_get (mp s) k) as [e|] eqn:Ed; [apply Hfree; [done|done|by apply missLocked_any]|].
    apply (locked_absent k); try done. unfold abs. by rewrite Er, Ed.
Qed.

(** A key that neither map knows. *)
Lemma step_new (σ : RangeOrder) k v : c_pc cl = PLocked -> stores (c_op cl) k v -> read_m (mp s) !! k = None -> dirty_get (mp s) k = None ->
  exists l', inv (let '(m', pc') := locked_insert σ (mp s) in moved m' (holder s) pc') l'.
Proof using I Hc.
  intros Epc Ho Hr Hd. pose proof (i_calls s l I c cl Hc) as Hn. unfold at_pc in Hn. rewrite Epc in Hn.
  destruct (held_copy I Hc) as [_ W]; rewrite ?Epc in *; [done|]. cbn in W. pose proof extend_none as X. unfold locked_insert. exists l.
  destruct (amended (mp s)) eqn:Ea.
  - apply moved_keeps; rewrite ?Epc; try done; [apply keeps_refl|]. split_and!; [done|done|]. exists k, v. auto.
  - pose proof (unamended_clean _ W Ea) as Ed. rewrite Ed. destruct (copy_start (mp s) σ W Ed) as [Kp Cp].
    apply moved_keeps; rewrite ?Epc; try done. split; [done|]. exists k, v. auto.
Qed.

Lemma step_locked (σ : RangeOrder) : c_pc cl = PLocked -> exists l', inv (let '(m', pc') := at_locked σ (mp s) (c_op cl) in moved m' (holder s) pc') l'.
Proof using I Hc.
  intros Epc. pose proof (i_calls s l I c cl Hc) as Hn. unfold at_pc in Hn. rewrite Epc in Hn.
  destruct (held_copy I Hc) as [_ W]; rewrite ?Epc in *; [done|]. cbn in W. pose proof extend_none as X.
  assert (Hstay : forall pc', locked pc' = true -> copy_of pc' = None -> taken_of pc' = None ->
    at_pc (moved (mp s) (holder s) pc') l c (with_pc cl pc') -> exists l', inv (moved (mp s) (holder s) pc') l').
  { intros pc' L C T A. exists l. apply moved_keeps; rewrite ?Epc, ?C; try done. apply keeps_refl. }
  assert (Hdl : forall k e, dirty_get (mp s) k = Some e -> get_p (mp s) e <> PExpunged /\ amended (mp s) = true).
  { intros k e Hd. split; [by eapply dirty_entry_live|]. destruct (amended (mp s)) eqn:Ea; [done|].
    unfold dirty_get in Hd. by rewrite (unamended_clean _ W Ea) in Hd. }
  unfold at_locked. destruct (c_op cl) as [k|k v|k v|k v|k|k|k old v|k old|τ] eqn:Eo; cbn [key_of];
    try (rewrite <- Eo; apply step_lookup; rewrite ?Eo; done).
  - destruct (read_m (mp s) !! k) as [e|] eqn:Er; [|destruct (dirty_get (mp s) k) as [e|] eqn:Ed].
    + apply Hstay; try done. split; [done|]. exists k, v. unfold stores. auto.
    + apply Hstay; try done. destruct (Hdl k e Ed). split_and!; [done| |done]. exists k, v. split; [auto|by right].
    + apply (step_new σ k v); rewrite ?Eo; unfold stores; auto.
  - destruct (read_m (mp s) !! k) as [e|] eqn:Er; [|destruct (dirty_get (mp s) k) as [e|] eqn:Ed].
    + apply Hstay; try done. split; [done|]. exists k, v. unfold stores. auto.
    + apply Hstay; try done. destruct (Hdl k e Ed). split_and!; [done| |done]. exists k, v. split; [auto|by right].
    + apply (step_new σ k v); rewrite ?Eo; unfold stores; auto.
  - destruct (read_m (mp s) !! k) as [e|] eqn:Er; [|destruct (dirty_get (mp s) k) as [e|] eqn:Ed].
    + apply Hstay; try done. split; [done|]. exists k, v. unfold stores. auto.
    + apply Hstay; try done. destruct (Hdl k e Ed). split; [done|]. cbn. rewrite Eo. exists k. split_and!; [done|by right|done|left; eauto].
    + apply (step_new σ k v); rewrite ?Eo; unfold stores; auto.
  - destruct (read_m (mp s) !! k) as [e|] eqn:Er; [|destruct (dirty_get (mp s) k) as [e|] eqn:Ed].
    + apply Hstay; try done. split; [done|]. cbn. rewrite Eo. exists k. split_and!; [done|by left|done|right; eauto].
    + apply Hstay; try done. destruct (Hdl k e Ed). split; [done|]. cbn. rewrite Eo. exists k. split_and!; [done|by right|done|right; eauto].
    + rewrite <- Eo. apply (locked_absent k); rewrite ?Eo; try done; [apply keeps_refl|]. unfold abs. by rewrite Er, Ed.
  - exists l. pose proof (promote_keeps _ W) as Kp. destruct (promote_wf _ W) as (W' & A' & _). apply moved_keeps; rewrite ?Epc; try done; [apply extend_none|].
    split; [done|]. split; [cbn; by rewrite Eo|]. split.
    + apply (visits_read (moved (promote (mp s)) (holder s) (PUnlock (AVisit _))) l τ). by apply (wfc_coherent _ None).
    + apply left_out_read. intros k Hk. rewrite <- (kp_abs _ _ Kp). unfold abs, dirty_get. by rewrite Hk, (unamended_clean _ W' A').
Qed.

(** ** Every action *)

Lemma step_next (ρ : RangeOrder) m' h' (pc' : pcs) : next ρ (mp s) (holder s) c (c_op cl) (c_pc cl) = Some (m', h', pc') -> exists l', inv (moved m' h' pc') l'.
Proof using I Hc.
  intros Hx. pose proof (i_calls s l I c cl Hc) as Ha. unfold at_pc in Ha.
  assert (Hst : forall k v, stores (c_op cl) k v -> key_of (c_op cl) = Some k /\ value_of (c_op cl) = Some v) by (intros k v [-> |[-> | ->]]; done).
  destruct (c_pc cl) as [|e md|e p md| | |e|e|todo|k e todo| |r|a|[|[k e] es] acc|r|acc|] eqn:Epc; cbn [next] in Hx.
  - injection Hx as <- <- <-. by apply step_start.
  - injection Hx as <- <- <-. by apply step_entry.
  - destruct (same (get_p (mp s) e) p) eqn:Es; injection Hx as <- <- <-; [by apply step_cas|by eapply step_retry].
  - destruct (holder s) as [|] eqn:Eh; [done|]. injection Hx as <- <- <-. by apply step_lock.
  - pose proof (step_locked ρ Epc) as G. destruct (at_locked ρ (mp s) (c_op cl)) as [m1 p1]. by injection Hx as <- <- <-.
  - destruct Ha as (_ & k & v & Ho & _). destruct (Hst k v Ho) as [Ek _]. rewrite Ek in Hx. cbn [mbind option_bind] in Hx.
    pose proof (step_unexpunge k v e Epc Ho) as G. destruct (at_unexpunge (mp s) (c_op cl) k e) as [m1 p1]. by injection Hx as <- <- <-.
  - destruct Ha as (_ & (k & v & Ho & _) & _). assert (Ev : value_of (c_op cl) = Some v) by (by destruct Ho as [-> | ->]). rewrite Ev in Hx.
    cbn [mbind option_bind] in Hx. pose proof (step_swap v e Epc Ev) as G. destruct (at_swap (mp s) c (c_op cl) v e) as [m1 p1]. by injection Hx as <- <- <-.
  - pose proof (step_copy todo Epc) as G. destruct (at_copy (mp s) todo) as [m1 p1]. by injection Hx as <- <- <-.
  - pose proof (step_copy_cas k e todo Epc) as G. by destruct (get_p (mp s) e); injection Hx as <- <- <-.
  - destruct Ha as (_ & _ & k & v & Ho & _). destruct (Hst k v Ho) as [Ek Ev]. rewrite Ek, Ev in Hx. cbn [mbind option_bind] in Hx.
    pose proof (step_insert k v Epc Ho) as G. destruct (at_insert (mp s) c (c_op cl) k v) as [m1 p1]. by injection Hx as <- <- <-.
  - injection Hx as <- <- <-. by apply step_miss.
  - injection Hx as <- <- <-. by apply step_unlock.
  - injection Hx as <- <- <-. by apply step_visited.
  - injection Hx as <- <- <-. by apply step_visit.
  - done.
  - done.
  - done.
Qed.

(** Only a call that waits for the mutex cannot act. *)
Lemma next_or_waits (ρ : RangeOrder) : (forall r, c_pc cl <> PDone r) -> (forall acc, c_pc cl <> PStopped acc) -> (exists x, next ρ (mp s) (holder s) c (c_op cl) (c_pc cl) = Some x) \/
  (c_pc cl = PLock /\ holder s <> None).
Proof using I Hc.
  intros Hd Hst'. pose proof (i_calls s l I c cl Hc) as Ha. unfold at_pc in Ha.
  assert (Hst : forall k v, stores (c_op cl) k v -> key_of (c_op cl) = Some k /\ value_of (c_op cl) = Some v) by (intros k v [-> |[-> | ->]]; done).
  destruct (c_pc cl) as [|e md|e p md| | |e|e|todo|k e todo| |r|a|[|[k e] es] acc|r|acc|] eqn:Epc; cbn [next]; try (left; eexists; reflexivity).
  - left. destruct (same (get_p (mp s) e) p); eauto.
  - destruct (holder s); [by right|]. eauto.
  - left. destruct (at_locked ρ (mp s) (c_op cl)). eauto.
  - left. destruct Ha as (_ & k & v & Ho & _). destruct (Hst k v Ho) as [-> _]. cbn [mbind option_bind]. destruct (at_unexpunge (mp s) (c_op cl) k e). eauto.
  - left. destruct Ha as (_ & (k & v & Ho & _) & _). assert (value_of (c_op cl) = Some v) as -> by (by destruct Ho as [-> | ->]). cbn [mbind option_bind].
    destruct (at_swap (mp s) c (c_op cl) v e). eauto.
  - left. destruct (at_copy (mp s) todo). eauto.
  - left. destruct (get_p (mp s) e); eauto.
  - left. destruct Ha as (_ & _ & k & v & Ho & _). destruct (Hst k v Ho) as [-> ->]. cbn [mbind option_bind]. destruct (at_insert (mp s) c (c_op cl) k v). eauto.
  - by destruct (Hd r).
  - by destruct (Hst' acc).
  - done.
Qed.
End act.

Lemma start_inv : inv (start (K := K) (V := V)) [].
Proof.
  split; cbn; try done.
  - apply new_map_wf.
  - split; [apply NoDup_nil_2|done|]. intros [|??]; done.
  - intros c o r ?%elem_of_nil. done.
Qed.

(** A new call. *)
Lemma invoke_inv s l c o : inv s l -> calls s !! c = None -> inv (set_call s (mp s) (holder s) c
  {| c_op := o; c_pc := PStart; prior := dom (filter (fun x => returned x.2) (calls s)) |}) l.
Proof.
  intros I Hc. set (cl := {| c_op := o; c_pc := _; prior := _ |}). set (s' := set_call _ _ _ _ _).
  assert (Hne : forall d cld, calls s !! d = Some cld -> d <> c) by (intros d cld Hd ->; congruence).
  assert (Hold : forall d cld, calls s !! d = Some cld -> calls s' !! d = Some cld) by (intros d cld Hd; cbn; rewrite lookup_insert_ne; [done|by apply not_eq_sym, (Hne d cld)]).
  assert (Hnew : forall d cld, calls s' !! d = Some cld -> d = c /\ cld = cl \/ calls s !! d = Some cld).
  { intros d cld Hd. cbn in Hd. apply lookup_insert_Some in Hd as [[<- <-]|[_ ?]]; [by left|by right]. }
  assert (Hn : c ∉ ids l) by (intros (o' & r & (clx & Hx & _)%(i_known s l I))%elem_of_ids; congruence).
  assert (Hp : forall d, d <> c -> prior_of s' d = prior_of s d) by (intros d Hd; unfold prior_of; cbn; by rewrite lookup_insert_ne).
  assert (R : rely s l s' l c None).
  { split; try done; try (by left); try (by intros; eauto).
    - intros P k e _ _ Hg. unfold gone in *. cbn [mp s' set_call]. destruct (pointed (get_p (mp s) e)); [|done].
      destruct Hg as (d & cld & pre & post & Hd & Hg). exists d, cld, pre, post. split; [by apply Hold|done].
    - intros d cld e _ Hd Ht (_ & _ & _ & ? & ?). done.
    - apply grows_refl. }
  split; try apply I.
  - assert (copy_state s' = copy_state s) as ->; [|apply I]. unfold copy_state. cbn. destruct (holder s) as [d|] eqn:Eh; [|done]. cbn.
    destruct (i_holder s l I d Eh) as (cld & Hd & _). rewrite lookup_insert_ne; [done|by apply not_eq_sym, (Hne d cld)].
  - destruct (i_order s l I) as [W1 W2 W3]. split; [done|done|]. intros pre x post y E. rewrite Hp; [by apply (W3 pre x post y)|].
    intros Ex. apply Hn. rewrite E, ids_app. apply elem_of_app. right. rewrite <- Ex. left.
  - intros d o' r (cld & Hd & Eo)%(i_known s l I). exists cld. split; [by apply Hold|done].
  - intros d cld [[-> ->]|Hd]%Hnew; [done|]. by apply (i_lock s l I).
  - intros d (cld & Hd & Hl)%(i_holder s l I). exists cld. split; [by apply Hold|done].
  - intros d cld [[-> ->]|Hd]%Hnew; [done|]. apply (rely_at_pc I R); [by eapply Hne|done].
  - intros e b v (clb & Hb & Hv)%(i_cells s l I). exists clb. split; [by apply Hold|done].
  - intros d d' cld cld' e Hd Hd' Ht Ht'. apply Hnew in Hd as [[-> ->]|Hd]; [by destruct Ht as [?|[?|[? ?]]]|].
    apply Hnew in Hd' as [[-> ->]|Hd']; [by destruct Ht' as [?|[?|[? ?]]]|]. by eapply (i_takes s l I).
  - intros d x. destruct (decide (d = c)) as [->|Hd].
    + unfold prior_of. cbn. rewrite lookup_insert_eq. cbn. intros (clx & Hx)%elem_of_dom. apply map_lookup_filter_Some in Hx as [Hx Hr]. exists clx. split; [by apply Hold|done].
    + rewrite Hp by done. intros (clx & Hx & Hr)%(i_prior s l I). exists clx. split; [by apply Hold|done].
Qed.

Lemma conc_reachable_inv (ρ : RangeOrder) s : rtc (step ρ) start s -> exists l, inv s l.
Proof.
  revert s. apply rtc_ind_r; [eexists; apply start_inv|]. intros s1 s2 _ Hst [l I].
  destruct Hst as [c o Hc|c cl m h p Hc Hx|c cl es acc Hc Epc _].
  - exists l. by apply invoke_inv.
  - by eapply step_next.
  - by eapply step_stopped.
Qed.

Lemma inv_linearization s l : inv s l -> linearization s l.
Proof.
  intros I. destruct (i_order s l I) as [W1 W2 W3]. split; [done|done|apply (i_known s l I)|..].
  - intros c cl r Hc Epc Ho. pose proof (i_calls s l I c cl Hc) as Ha. unfold at_pc in Ha. by rewrite Epc, Ho in Ha.
  - intros pre c o r post cl x E Hc Hx. apply (W3 pre (c, o, r) post x E). unfold prior_of. cbn. by rewrite Hc.
Qed.
(** C5. The map is linearizable: in every execution of concurrent calls from the zero
    Map, interleaved at each load, compare-and-swap, lock and unlock, there is one
    order of the calls that have had their effect in which each occurs once, every
    result returned is the one a plain map gives there, calls that had returned before
    another was made stand before it, and what the order leaves is what the Map holds.
    No call panics.  Range visits each key at most once; when it has returned without
    being stopped, every key was seen, or not seen, with what it had at some point after
    the calls that came before the Range. *)
Theorem syncmap_linearizable (ρ : RangeOrder) s (Hr : rtc (step ρ) start s) : exists l, linearization s l /\
  (forall k, final ∅ l !! k = snd <$> abs (mp s) k) /\
  (forall c cl, calls s !! c = Some cl -> c_pc cl <> PPanic) /\
  (forall c cl r, calls s !! c = Some cl -> c_pc cl = PDone r -> on_key (c_op cl) = false -> exists acc, r = RList acc /\ NoDup acc.*1 /\
    forall k v, (forall w, (k, w) ∈ acc <-> v = Some w) -> seen l (prior cl) k v) /\
  (forall c cl acc, calls s !! c = Some cl -> c_pc cl = PStopped acc -> NoDup acc.*1 /\ forall k v, (k, v) ∈ acc -> seen l (prior cl) k (Some v)).
Proof.
  destruct (conc_reachable_inv ρ s Hr) as [l I]. exists l. split_and!; [by apply inv_linearization|apply (i_abs s l I)|..].
  - intros c cl Hc E. pose proof (i_calls s l I c cl Hc) as Ha. unfold at_pc in Ha. by rewrite E in Ha.
  - intros c cl r Hc E Ho. pose proof (i_calls s l I c cl Hc) as Ha. unfold at_pc in Ha. rewrite E, Ho in Ha.
    destruct Ha as [_ (acc & -> & [Hn Hv] & Hlo)]. exists acc. split_and!; [done|done|]. intros k [v|] Hk; [apply Hv; by apply Hk|].
    apply Hlo; [apply not_elem_of_nil|]. intros ([k' w] & -> & Hin)%list_elem_of_fmap. by apply Hk in Hin.
  - intros c cl acc Hc E. pose proof (i_calls s l I c cl Hc) as Ha. unfold at_pc in Ha. rewrite E in Ha. apply Ha.
Qed.

(** C34. No deadlock: in every reachable state a call that has not returned can take its
    next action, or it waits for the mutex and the call that holds it can. *)
Theorem syncmap_no_deadlock (ρ : RangeOrder) s (Hr : rtc (step ρ) start s) c cl (Hc : calls s !! c = Some cl) (Hd : forall r, c_pc cl <> PDone r)
    (Hs : forall acc, c_pc cl <> PStopped acc) :
  (exists x, next ρ (mp s) (holder s) c (c_op cl) (c_pc cl) = Some x) \/
  (c_pc cl = PLock /\ exists d cld x, holder s = Some d /\ calls s !! d = Some cld /\ next ρ (mp s) (holder s) d (c_op cld) (c_pc cld) = Some x).
Proof.
  destruct (conc_reachable_inv ρ s Hr) as [l I]. destruct (next_or_waits I Hc ρ Hd Hs) as [?|[El Hh]]; [by left|right]. split; [done|].
  destruct (holder s) as [d|] eqn:Eh; [|done]. destruct (i_holder s l I d Eh) as (cld & Hcd & Hl). exists d, cld.
  destruct (next_or_waits I Hcd ρ) as [[x Hx]|[E _]]; [intros r E; by rewrite E in Hl|intros r E; by rewrite E in Hl| |by rewrite E in Hl]. exists x. by rewrite <- Eh.
Qed.
End lin.

(** ** A schedule *)

Section schedule.
Context {K V : Type} `{Countable K} (ρ : RangeOrder).

Inductive event := Invoke (c : nat) (o : @op K V) | Act (c : nat).

Definition perform (s : @state K V _ _) (ev : event) : option state :=
  match ev with
  | Invoke c o => match calls s !! c with
                  | None => Some (set_call s (mp s) (holder s) c {| c_op := o; c_pc := PStart; prior := dom (filter (fun x => returned x.2) (calls s)) |})
                  | Some _ => None
                  end
  | Act c => cl ← calls s !! c; '(m, h, p) ← next ρ (mp s) (holder s) c (c_op cl) (c_pc cl); Some (set_call s m h c (with_pc cl p))
  end.

Lemma perform_step s ev s' : perform s ev = Some s' -> step ρ s s'.
Proof.
  destruct ev as [c o|c]; cbn.
  - destruct (calls s !! c) eqn:E; [done|]. intros [= <-]. by constructor.
  - intros (cl & Hc & ([[m h] p] & Hx & [= <-])%bind_Some)%bind_Some. by eapply s_next.
Qed.

Lemma schedule_reachable evs s s' : foldl (fun o ev => o ≫= fun s => perform s ev) (Some s) evs = Some s' -> rtc (step ρ) s s'.
Proof.
  revert s. induction evs as [|ev evs IH]; cbn; intros s Hs; [injection Hs as ->; apply rtc_refl|].
  destruct (perform s ev) as [s1|] eqn:E; cbn in Hs; [eapply rtc_l; [by eapply perform_step|by apply IH]|].
  assert (N : foldl (fun o ev => o ≫= fun s => perform s ev) None evs = None) by (clear; by induction evs). congruence.
Qed.
End schedule.

(** A CompareAndDelete that has found the entry of a key, a LoadAndDelete that removes
    the entry from the dirty map, and the CompareAndDelete that gets the value first. *)
Definition race_events : list (@event string Z) :=
  Invoke 0 (OpStore "a" 1) :: replicate 6 (Act 0) ++ Invoke 1 (OpStore "b" 2) :: replicate 5 (Act 1) ++ Invoke 2 (OpStore "c" 3) :: replicate 5 (Act 2) ++
  Invoke 3 (OpCompareAndDelete "a" 0) :: replicate 4 (Act 3) ++ Invoke 4 (OpLoadAndDelete "a") :: replicate 4 (Act 4) ++ [Act 3; Act 3; Act 4].

Definition race : state := default start (foldl (fun o ev => o ≫= fun s => perform range_id s ev) (Some start) race_events).
Definition pc_of (s : @state string Z _ _) (c : nat) : option pc := c_pc <$> calls s !! c.

Lemma race_reachable : rtc (step range_id) start race.
Proof.
  apply (schedule_reachable range_id race_events). unfold race. destruct (foldl _ _ _) as [s|] eqn:E; [done|]. exfalso. revert E. vm_compute. discriminate.
Qed.

Lemma syncmap_linearizable_witness : pc_of race 3 = Some (PDone (RBool true)) /\ pc_of race 4 = Some (PDone (RVal None)) /\
  exists l, linearization race l /\ (forall k, final ∅ l !! k = snd <$> abs (mp race) k).
Proof.
  split; [vm_compute; reflexivity|]. split; [vm_compute; reflexivity|].
  destruct (syncmap_linearizable range_id race race_reachable) as (l & Hl & Ha & _). exists l. exact (conj Hl Ha).
Defined.

(** A Store that waits while the Store of another key is in its critical section. *)
Definition wait_events : list (@event string Z) := [Invoke 0 (OpStore "a" 1); Act 0; Act 0; Invoke 1 (OpStore "b" 2); Act 1].
Definition waiting : state := default start (foldl (fun o ev => o ≫= fun s => perform range_id s ev) (Some start) wait_events).

Lemma syncmap_no_deadlock_witness : exists d cld x, holder waiting = Some d /\ calls waiting !! d = Some cld /\
  next range_id (mp waiting) (holder waiting) d (c_op cld) (c_pc cld) = Some x.
Proof.
  destruct (syncmap_no_deadlock range_id waiting (schedule_reachable range_id wait_events start waiting ltac:(vm_compute; reflexivity))
    1 (default {| c_op := OpLoad "a"; c_pc := PStart; prior := ∅ |} (calls waiting !! 1%nat))) as [[x Hx]|[_ Hw]].
  - vm_compute. reflexivity.
  - intros r. vm_compute. discriminate.
  - intros acc. vm_compute. discriminate.
  - exfalso. revert Hx. vm_compute. discriminate.
  - exact Hw.
Defined.
End Lin.
