(* ===== verification/SyncMapSolo.v ===== *)
(** * A call that runs alone

    The two models of util/sync_map.go agree: a call of SyncMapConc.v whose actions are
    not interleaved with others returns, and gives the result and the memory of the
    same call in SyncMap.v. *)

From Stdlib Require Import ZArith Lia String.
From stdpp Require Import base numbers list strings gmap relations.
From S2P Require Import Prelude SyncMap SyncMapConc.
Import SyncMap Conc.

Module Solo.
Section solo.
Context {K V : Type} `{Countable K}.

Abbreviation mem := (@Map K (nat * V) _ _).
Implicit Types (m : mem) (k : K) (v : V) (o : @op K V).

(** The call with the pointers it stores: the address of call [c]. *)
Definition tagged (c : nat) o : @op K (nat * V) :=
  match o with
  | OpLoad k => OpLoad k
  | OpStore k v => OpStore k (c, v)
  | OpSwap k v => OpSwap k (c, v)
  | OpLoadOrStore k v => OpLoadOrStore k (c, v)
  | OpLoadAndDelete k => OpLoadAndDelete k
  | OpDelete k => OpDelete k
  | OpCompareAndSwap k old new => OpCompareAndSwap k (c, old) (c, new)
  | OpCompareAndDelete k old => OpCompareAndDelete k (c, old)
  | OpRange σ => OpRange σ
  end.

(** The values behind the pointers of a result. *)
Definition values (r : @res K (nat * V)) : @res K V :=
  match r with
  | RNone => RNone
  | RVal p => RVal (snd <$> p)
  | RLoaded p b => RLoaded p.2 b
  | RBool b => RBool b
  | RList l => RList (prod_map id snd <$> l)
  end.

(** The actions of call [c], one after the other. *)
Definition act (c : nat) o : relation (mem * option nat * @pc K V) :=
  fun a b => next range_id a.1.1 a.1.2 c o a.2 = Some b.

(** [m] with the mutex free, and with the mutex held by the call. *)
Abbreviation goes c o m h p m' h' p' := (rtc (act c o) (m, h, p) (m', h', p')).

Lemma go_on c o m h p m1 h1 p1 x : next range_id m h c o p = Some (m1, h1, p1) -> rtc (act c o) (m1, h1, p1) x -> rtc (act c o) (m, h, p) x.
Proof. intros E. by apply rtc_l. Qed.

Lemma same_refl (p : @ptr (nat * V)) : same p p = true.
Proof. destruct p as [| |[a v]]; [done|done|]. apply Nat.eqb_refl. Qed.

(** ** Loops on an entry: one round *)

Lemma alone_cas c o m h e p md x : get_p m e = p -> rtc (act c o) (set_p m e (new_pointer c o), h, finish md (swapped o p)) x ->
  rtc (act c o) (m, h, PCas e p md) x.
Proof. intros E. eapply go_on. cbn [next]. by rewrite E, same_refl. Qed.

(** The end with the mutex. *)
Lemma alone_unlock c o m r : goes c o m (Some c) (PUnlock (ARet r)) m None (PDone r).
Proof. eapply go_on; [reflexivity|]. apply rtc_refl. Qed.

Lemma alone_lock c o m x : rtc (act c o) (m, Some c, PLocked) x -> rtc (act c o) (m, None, PLock) x.
Proof. by eapply go_on. Qed.

Lemma alone_locked c o m x : rtc (act c o) ((at_locked range_id m o).1, Some c, (at_locked range_id m o).2) x -> rtc (act c o) (m, Some c, PLocked) x.
Proof. eapply go_on. cbn [next]. by destruct (at_locked range_id m o). Qed.

(** ** dirtyLocked: the copy, entry by entry *)

Lemma dirty_step_some m k e d : dirty m = Some d -> dirty_step m (k, e) =
  match get_p m e with
  | PNil => set_p m e PExpunged
  | PExpunged => m
  | PVal _ => set_dirty m (Some (<[k := e]> d))
  end.
Proof. intros Hd. unfold dirty_step, tryExpungeLocked. destruct (get_p m e); [done|done|]. by rewrite Hd. Qed.

Lemma alone_copy c o m d todo x : dirty m = Some d -> rtc (act c o) (fold_left dirty_step todo m, Some c, PCopy []) x ->
  rtc (act c o) (m, Some c, PCopy todo) x.
Proof.
  revert m d. induction todo as [|[k e] todo IH]; intros m d Hd Hx; [done|]. cbn [fold_left] in Hx.
  rewrite (dirty_step_some m k e d Hd) in Hx. destruct (get_p m e) as [| |w] eqn:Ep.
  - eapply go_on; [cbn [next at_copy]; by rewrite Ep|]. eapply go_on; [cbn [next]; by rewrite Ep|]. by eapply IH.
  - eapply go_on; [cbn [next at_copy]; by rewrite Ep|]. by eapply IH.
  - eapply go_on; [cbn [next at_copy]; rewrite Ep; unfold dirty_put; by rewrite Hd|]. by eapply IH.
Qed.

(** A key that neither map knows: the entry is added. *)
Definition added m : mem := if amended m then m else set_read (dirtyLocked m) (read_m m) true.

Lemma fold_dirty_read l m : read_m (fold_left dirty_step l m) = read_m m.
Proof.
  revert m. induction l as [|[k e] l IH]; intros m; [done|]. cbn [fold_left]. rewrite IH. unfold dirty_step, tryExpungeLocked. by destruct (get_p m e).
Qed.

Lemma alone_insert c o m k v m' r : wf m -> key_of o = Some k -> value_of o = Some v -> (o = OpStore k v \/ o = OpSwap k v \/ o = OpLoadOrStore k v) ->
  dirty_put (newEntry (added m) (c, v)).2 k (newEntry (added m) (c, v)).1 = Ret m' ->
  r = (match o with OpLoadOrStore _ _ => RLoaded v false | o => swap_result o None end) ->
  forall p, locked_insert range_id m = p -> goes c o p.1 (Some c) p.2 m' None (PDone r).
Proof.
  intros W Hk Hv Ho Hm -> p <-. unfold locked_insert, added in *.
  assert (Hi : forall m0, dirty_put (newEntry m0 (c, v)).2 k (newEntry m0 (c, v)).1 = Ret m' ->
    goes c o m0 (Some c) PInsert m' None (PDone (match o with OpLoadOrStore _ _ => RLoaded v false | o => swap_result o None end))).
  { intros m0 E. eapply go_on; [|apply alone_unlock]. cbn [next]. rewrite Hk, Hv. cbn [mbind option_bind]. unfold at_insert. cbn [newEntry fst snd] in *. rewrite E.
    by destruct Ho as [-> |[-> | ->]]. }
  destruct (amended m) eqn:Ea; [by apply Hi|]. rewrite (unamended_clean m W Ea). cbn [fst snd]. eapply alone_copy; [done|].
  unfold dirtyLocked in Hm. rewrite (unamended_clean m W Ea) in Hm. set (m1 := fold_left dirty_step _ _) in *.
  eapply go_on; [reflexivity|]. unfold m1 at 2. rewrite fold_dirty_read. by apply Hi.
Qed.
(** ** The calls *)

Lemma alone_swap c o m k v p m' : o = OpStore k v \/ o = OpSwap k v -> wf m -> Swap m k (c, v) = Ret (p, m') ->
  goes c o m None PStart m' None (PDone (swap_result o (snd <$> p))).
Proof.
  intros Ho W Hs. assert (Hk : key_of o = Some k /\ value_of o = Some v) by (by destruct Ho as [-> | ->]). destruct Hk as [Hk Hv].
  assert (Hst : at_start m o = match read_m m !! k with Some e => PEntry e Free | None => PLock end) by (by destruct Ho as [-> | ->]).
  assert (Hen : forall e q, at_entry o e Free q = match q with PExpunged => PLock | _ => PCas e q Free end) by (by destruct Ho as [-> | ->]).
  assert (Hlo : at_locked range_id m o = match read_m m !! k, dirty_get m k with
    | Some e, _ => (m, PUnexpunge e) | None, Some e => (m, PSwapLocked e) | None, None => locked_insert range_id m end) by (by destruct Ho as [-> | ->]).
  assert (Hsw : forall m0 e q, get_p m0 e <> PExpunged -> q = get_p m0 e ->
    goes c o m0 (Some c) (PSwapLocked e) (set_p m0 e (PVal (c, v))) None (PDone (swap_result o (pointed q)))).
  { intros m0 e q Hq ->. eapply go_on; [|apply alone_unlock]. cbn [next]. rewrite Hv. cbn [mbind option_bind]. unfold at_swap, swapLocked. by destruct (get_p m0 e). }
  unfold Swap in Hs. eapply go_on; [cbn [next]; by rewrite Hst|]. destruct (read_m m !! k) as [e|] eqn:Er.
  - unfold trySwap in Hs. destruct (get_p m e) as [| |w] eqn:Ep.
    + cbn [mbind go_bind deref] in Hs. injection Hs as <- <-. eapply go_on; [cbn [next]; by rewrite Hen, Ep|]. eapply alone_cas; [done|].
      destruct Ho as [-> | ->]; apply rtc_refl.
    + rewrite Er in Hs. unfold unexpungeLocked in Hs. rewrite Ep in Hs.
      destruct (unexpunge_wf m k e W Er Ep) as (m1 & Em & _ & _ & Ep1 & _). rewrite Em in Hs. cbn [mbind go_bind] in Hs. unfold swapLocked in Hs. rewrite Ep1 in Hs.
      cbn [mbind go_bind deref] in Hs. injection Hs as <- <-. eapply go_on; [cbn [next]; by rewrite Hen, Ep|]. apply alone_lock.
      apply alone_locked. rewrite Hlo. cbn [fst snd]. eapply go_on; [|apply (Hsw m1 e PNil); congruence].
      cbn [next]. rewrite Hk. cbn [mbind option_bind]. unfold at_unexpunge, unexpungeLocked. rewrite Ep, Em. by destruct Ho as [-> | ->].
    + cbn [mbind go_bind deref] in Hs. injection Hs as <- <-. eapply go_on; [cbn [next]; by rewrite Hen, Ep|]. eapply alone_cas; [done|].
      destruct Ho as [-> | ->]; apply rtc_refl.
  - rewrite Er in Hs. apply alone_lock, alone_locked. rewrite Hlo.
    destruct (dirty_get m k) as [e|] eqn:Ed.
    + pose proof (dirty_entry_live m k e W Ed) as Hl. unfold swapLocked in Hs. destruct (get_p m e) as [| |w] eqn:Ep; [|done|]; cbn [mbind go_bind deref] in Hs;
        injection Hs as <- <-; cbn [fst snd].
      * apply (Hsw m e PNil); congruence.
      * apply (Hsw m e (PVal w)); congruence.
    + fold (added m) in Hs. destruct (newEntry (added m) (c, v)) as [e m1] eqn:En. destruct (dirty_put m1 k e) as [m2| |] eqn:Em; cbn [mbind go_bind] in Hs; [|done|done].
      injection Hs as <- <-. eapply (alone_insert c o m k v m2); [done|done|done|tauto|by rewrite En| |done]. by destruct Ho as [-> | ->].
Qed.
Lemma alone_load_or_store c m k v a b m' : wf m -> LoadOrStore m k (c, v) = Ret ((a, b), m') ->
  goes c (OpLoadOrStore k v) m None PStart m' None (PDone (RLoaded a.2 b)).
Proof.
  intros W Hs. set (o := OpLoadOrStore k v). unfold LoadOrStore in Hs. eapply go_on; [reflexivity|]. cbn [at_start key_of o].
  assert (Hheld : forall m0 e miss, get_p m0 e <> PExpunged -> rtc (act c o) (m0, Some c, PEntry e (Held miss))
    (match tryLoadOrStore m0 e (c, v) with (Some r, m1) => (m1, Some c, finish (Held miss) (RLoaded r.1.2 r.2)) | (None, m1) => (m1, Some c, PPanic) end)).
  { intros m0 e miss Hx. unfold tryLoadOrStore. destruct (get_p m0 e) as [| |[b0 w]] eqn:Ep; [|done|]; (eapply go_on; [cbn [next o at_entry]; by rewrite Ep|]).
    - eapply alone_cas; [done|]. apply rtc_refl.
    - apply rtc_refl. }
  destruct (read_m m !! k) as [e|] eqn:Er.
  - unfold tryLoadOrStore in Hs at 1. destruct (get_p m e) as [| |[b0 w]] eqn:Ep.
    + injection Hs as <- <- <-. eapply go_on; [cbn [next o at_entry]; by rewrite Ep|]. eapply alone_cas; [done|]. apply rtc_refl.
    + rewrite Er in Hs. unfold unexpungeLocked in Hs. rewrite Ep in Hs.
      destruct (unexpunge_wf m k e W Er Ep) as (m1 & Em & _ & _ & Ep1 & _). rewrite Em in Hs. cbn [mbind go_bind] in Hs.
      eapply go_on; [cbn [next o at_entry]; by rewrite Ep|]. apply alone_lock, alone_locked. cbn [at_locked key_of o]. rewrite Er. cbn [fst snd].
      eapply go_on; [cbn [next key_of o mbind option_bind]; unfold at_unexpunge, unexpungeLocked; by rewrite Ep, Em|].
      etrans; [apply Hheld; congruence|]. destruct (tryLoadOrStore m1 e (c, v)) as [[r|] m2]; [|done]. injection Hs as -> <-. apply alone_unlock.
    + injection Hs as <- <- <-. eapply go_on; [cbn [next o at_entry]; by rewrite Ep|]. apply rtc_refl.
  - rewrite Er in Hs. apply alone_lock, alone_locked. cbn [at_locked key_of o]. rewrite Er. destruct (dirty_get m k) as [e|] eqn:Ed; cbn [fst snd].
    + etrans; [apply Hheld; by eapply dirty_entry_live|]. destruct (tryLoadOrStore m e (c, v)) as [[r|] m2]; [|done]. injection Hs as -> <-.
      eapply go_on; [reflexivity|]. apply alone_unlock.
    + fold (added m) in Hs. destruct (newEntry (added m) (c, v)) as [e m1] eqn:En. destruct (dirty_put m1 k e) as [m2| |] eqn:Em; cbn [mbind go_bind] in Hs; [|done|done].
      injection Hs as <- <- <-. by eapply (alone_insert c o m k v m2); [done|done|done|tauto|by rewrite En|..].
Qed.

(** LoadAndDelete, Delete, CompareAndSwap and CompareAndDelete: one round of the loop
    on the entry. *)
Definition on_value o : bool :=
  match o with OpLoadAndDelete _ | OpDelete _ | OpCompareAndSwap _ _ _ | OpCompareAndDelete _ _ => true | _ => false end.

Lemma alone_entry c o m h e md : on_value o = true ->
  goes c o m h (PEntry e md)
    (match get_p m e with PVal _ => set_p m e (new_pointer c o) | _ => m end) h
    (finish md (match get_p m e with PVal _ => swapped o (get_p m e) | _ => absent o end)).
Proof.
  intros Ho. assert (He : forall q, at_entry o e md q = match q with PVal _ => PCas e q md | _ => finish md (absent o) end) by (by destruct o).
  eapply go_on; [cbn [next]; by rewrite He|]. destruct (get_p m e) as [| |w] eqn:Ep; [apply rtc_refl..|].
  eapply alone_cas; [done|]. apply rtc_refl.
Qed.

Lemma alone_delete c o m k p m' : o = OpLoadAndDelete k \/ o = OpDelete k -> LoadAndDelete m k = (p, m') ->
  goes c o m None PStart m' None (PDone (swap_result o (snd <$> p))).
Proof.
  intros Ho Hs. unfold LoadAndDelete in Hs. assert (Hov : on_value o = true) by (by destruct Ho as [-> | ->]).
  assert (Hab : absent o = swap_result o None) by (by destruct Ho as [-> | ->]).
  assert (Hend : forall m0 e md, (forall r : @res K V, finish md r = PDone r) -> entry_delete m0 e = (p, m') ->
    goes c o m0 None (PEntry e md) m' None (PDone (swap_result o (snd <$> p)))).
  { intros m0 e md Hf Hd. unfold entry_delete in Hd. pose proof (alone_entry c o m0 None e md Hov) as Hx. rewrite Hf in Hx.
    destruct (get_p m0 e) as [| |w] eqn:Ep; injection Hd as <- <-; [rewrite Hab in Hx; exact Hx..|]. by destruct Ho as [-> | ->]. }
  assert (Hst : at_start m o = match read_m m !! k with Some e => PEntry e Free | None => if amended m then PLock else PDone (absent o) end) by (by destruct Ho as [-> | ->]).
  eapply go_on; [cbn [next]; by rewrite Hst|]. destruct (read_m m !! k) as [e|] eqn:Er; [by apply Hend|].
  destruct (amended m) eqn:Ea; [|injection Hs as <- <-; rewrite Hab; apply rtc_refl]. apply alone_lock, alone_locked.
  assert (Hlo : at_locked range_id m o = (missLocked (set_dirty m (delete k <$> dirty m)),
    PUnlock (match dirty_get m k with Some e => AEntry e Taken | None => ARet (absent o) end))).
  { destruct Ho as [-> | ->]; cbn [at_locked key_of]; unfold locked_lookup; rewrite Er, Ea; done. }
  rewrite Hlo. cbn [fst snd]. eapply go_on; [reflexivity|]. destruct (dirty_get m k) as [e|]; cbn [after_unlock]; [by apply Hend|].
  injection Hs as <- <-. rewrite Hab. apply rtc_refl.
Qed.

(** Load and CompareAndDelete: the entry, found with or without the mutex. *)
Lemma alone_find c o m k : (o = OpLoad k \/ exists old, o = OpCompareAndDelete k old) ->
  goes c o m None PStart (find_entry m k).2 None (match (find_entry m k).1 with Some e => PEntry e Free | None => PDone (absent o) end).
Proof.
  intros Ho. assert (Hst : at_start m o = match read_m m !! k with Some e => PEntry e Free | None => if amended m then PLock else PDone (absent o) end)
    by (by destruct Ho as [-> |[? ->]]).
  assert (Hlo : at_locked range_id m o = locked_lookup m o k) by (by destruct Ho as [-> |[? ->]]).
  assert (Hd : match o with OpLoadAndDelete _ | OpDelete _ => true | _ => false end = false) by (by destruct Ho as [-> |[? ->]]).
  unfold find_entry, lookup_locked. eapply go_on; [cbn [next]; by rewrite Hst|]. destruct (read_m m !! k) as [e|] eqn:Er; [apply rtc_refl|].
  destruct (amended m) eqn:Ea; [|apply rtc_refl]. apply alone_lock, alone_locked. rewrite Hlo. unfold locked_lookup. rewrite Er, Ea, Hd. cbn [fst snd].
  eapply go_on; [reflexivity|]. destruct (dirty_get m k) as [e|]; apply rtc_refl.
Qed.

Lemma alone_load c m k : goes c (OpLoad k) m None PStart (Load m k).2 None (PDone (RVal (snd <$> (Load m k).1))).
Proof.
  etrans; [apply (alone_find c (OpLoad k) m k); by left|]. unfold Load. destruct (find_entry m k) as [[e|] m1]; cbn [fst snd]; [|apply rtc_refl].
  eapply go_on; [reflexivity|]. apply rtc_refl.
Qed.

Lemma alone_compare_and_delete c m k old : let q := CompareAndDelete m k (c, old) in
  goes c (OpCompareAndDelete k old) m None PStart q.2 None (PDone (RBool q.1)).
Proof.
  intros q. subst q. etrans; [apply (alone_find c _ m k); eauto|]. unfold CompareAndDelete. destruct (find_entry m k) as [[e|] m1]; cbn [fst snd]; [|apply rtc_refl].
  etrans; [by apply alone_entry|]. destruct (get_p m1 e); apply rtc_refl.
Qed.

Lemma alone_compare_and_swap c m k old new : let q := CompareAndSwap m k (c, old) (c, new) in
  goes c (OpCompareAndSwap k old new) m None PStart q.2 None (PDone (RBool q.1)).
Proof.
  intros q. subst q. set (o := OpCompareAndSwap k old new). unfold CompareAndSwap.
  assert (He : forall h e md, goes c o m h (PEntry e md) (tryCompareAndSwap m e (c, old) (c, new)).2 h (finish md (RBool (tryCompareAndSwap m e (c, old) (c, new)).1))).
  { intros h e md. unfold tryCompareAndSwap. etrans; [by apply alone_entry|]. destruct (get_p m e); apply rtc_refl. }
  eapply go_on; [reflexivity|]. cbn [at_start key_of o]. destruct (read_m m !! k) as [e|] eqn:Er; [apply He|].
  destruct (amended m) eqn:Ea; [|apply rtc_refl]. apply alone_lock, alone_locked. cbn [at_locked key_of o fst snd]. rewrite Er.
  destruct (dirty_get m k) as [e|] eqn:Ed; [|apply alone_unlock]. etrans; [apply He|].
  destruct (tryCompareAndSwap m e (c, old) (c, new)) as [b m1]. cbn [fst snd finish]. eapply go_on; [reflexivity|]. apply alone_unlock.
Qed.

Lemma alone_visit c o m l acc :
  goes c o m None (PVisit l acc) m None (PDone (RList (acc ++ (prod_map id snd <$>
    (l ≫= fun '(k, e) => match entry_load m e with Some v => [(k, v)] | None => [] end))))).
Proof.
  revert acc. induction l as [|[k e] l IH]; intros acc; cbn [mbind list_bind].
  - eapply go_on; [reflexivity|]. rewrite app_nil_r. apply rtc_refl.
  - eapply go_on; [reflexivity|]. unfold pointed. unfold entry_load at 1. destruct (val (get_p m e)) as [[a w]|]; cbn [fmap option_fmap option_map].
    + cbn [app fmap list_fmap]. change (prod_map id snd (k, (a, w))) with (k, w). etrans; [apply IH|]. rewrite <- app_assoc. apply rtc_refl.
    + apply IH.
Qed.

Lemma alone_range c σ m : goes c (OpRange σ) m None PStart (promote m) None (PDone (RList (prod_map id snd <$> visible σ (promote m)))).
Proof.
  eapply go_on; [reflexivity|]. cbn [at_start]. unfold visible. destruct (amended m) eqn:Ea.
  - apply alone_lock, alone_locked. cbn [at_locked fst snd]. eapply go_on; [reflexivity|]. apply (alone_visit c (OpRange σ) (promote m) _ []).
  - assert (Hp : promote m = m) by (unfold promote; by rewrite Ea). rewrite Hp. apply (alone_visit c (OpRange σ) m _ []).
Qed.

(** An action has one outcome, so all runs of the call are prefixes of one. *)
Lemma act_det c o x y z : act c o x y -> act c o x z -> y = z.
Proof. unfold act. congruence. Qed.

Lemma det_reaches {A} (R : relation A) x y n : (forall a b b', R a b -> R a b' -> b = b') -> (forall b, ~ R n b) ->
  rtc R x n -> rtc R x y -> rtc R y n.
Proof.
  intros Hdet Hn Hxn Hxy. revert Hxn. induction Hxy as [x|x x' y Hx Hxy IH]; [done|].
  intros Hxn. apply IH. destruct Hxn as [|a b n Ha Hb]; [by destruct (Hn x')|]. by rewrite (Hdet _ _ _ Hx Ha).
Qed.

Lemma alone_run c o m : wf m -> exists r m', run m (tagged c o) = Ret (r, m') /\ goes c o m None PStart m' None (PDone (values r)).
Proof.
  intros W. destruct o as [k|k v|k v|k v|k|k|k old new|k old|σ]; cbn [run tagged].
  - pose proof (alone_load c m k). destruct (Load m k) as [v m1]. by eexists _, _.
  - unfold Store. destruct (Swap_spec m k (c, v) W) as (m1 & E & _). rewrite E. cbn [mbind go_bind]. eexists _, _. split; [done|].
    apply (alone_swap c (OpStore k v) m k v (abs m k) m1); [by left|done|done].
  - destruct (Swap_spec m k (c, v) W) as (m1 & E & _). rewrite E. cbn [mbind go_bind]. eexists _, _. split; [done|].
    apply (alone_swap c (OpSwap k v) m k v (abs m k) m1); [by right|done|done].
  - destruct (LoadOrStore_spec m k (c, v) W) as (m1 & E & _). rewrite E. destruct (match abs m k with Some w => _ | None => _ end) as [a b] eqn:Ea.
    cbn [mbind go_bind]. eexists _, _. split; [done|]. by apply alone_load_or_store.
  - destruct (LoadAndDelete m k) as [v m1] eqn:E. eexists _, _. split; [done|]. apply (alone_delete c (OpLoadAndDelete k) m k v); [by left|done].
  - unfold Delete. destruct (LoadAndDelete m k) as [v m1] eqn:E. eexists _, _. split; [done|]. apply (alone_delete c (OpDelete k) m k v); [by right|done].
  - pose proof (alone_compare_and_swap c m k old new). destruct (CompareAndSwap m k (c, old) (c, new)) as [b m1]. by eexists _, _.
  - pose proof (alone_compare_and_delete c m k old). destruct (CompareAndDelete m k (c, old)) as [b m1]. by eexists _, _.
  - unfold Range. rewrite visit_collect. eexists _, _. split; [done|]. apply alone_range.
Qed.

(** C33. The two models of the map are equivalent on calls that do not overlap: a
    call made on a well-formed map whose mutex is free, and whose atomic actions no
    other call interleaves, never waits, panics or runs for ever, but returns with
    the mutex free, the memory (entries, read map, dirty map, amended flag, miss
    counter) and the result of the operation of the sequential model; every state
    on the way leads there. *)
Theorem syncmap_solo_agrees (c : nat) (o : @op K V) (m : mem) (W : wf m) :
  exists r m', run m (tagged c o) = Ret (r, m') /\
    rtc (act c o) (m, None, PStart) (m', None, PDone (values r)) /\
    forall x, rtc (act c o) (m, None, PStart) x -> rtc (act c o) x (m', None, PDone (values r)).
Proof.
  destruct (alone_run c o m W) as (r & m' & E & Hr). exists r, m'. split_and!; [done..|]. intros x Hx.
  eapply det_reaches; [intros a b b'; apply act_det|by intros b|exact Hr|exact Hx].
Qed.
End solo.

(** A map with a dirty map, and a swap of the key that only the dirty map has. *)
Definition busy : SyncMap.Map string (nat * Z) :=
  match run_all new_map [OpStore "a" (1%nat, 1); OpLoad "a"; OpStore "b" (2%nat, 2)] with Ret (_, m) => m | _ => new_map end.

Lemma busy_wf : wf busy.
Proof.
  pose proof (fun (m : SyncMap.Map string (nat * Z)) a o => run_sim m a o) as S.
  destruct (S new_map ∅ (OpStore "a" (1%nat, 1))) as (r1 & m1 & E1 & _ & S1).
  { split; [apply new_map_wf|]. intros k. unfold abs; simpl. by rewrite !lookup_empty. }
  destruct (S _ _ (OpLoad "a") S1) as (r2 & m2 & E2 & _ & S2). destruct (S _ _ (OpStore "b" (2%nat, 2)) S2) as (r3 & m3 & E3 & _ & S3).
  assert (E : busy = m3) by (unfold busy; cbn [run_all]; rewrite E1; cbn [mbind go_bind]; rewrite E2; cbn [mbind go_bind]; rewrite E3; done).
  rewrite E. apply S3.
Qed.

Lemma syncmap_solo_agrees_witness : exists r m', run busy (OpSwap "b" (3%nat, 9)) = Ret (r, m') /\
  rtc (act 3 (OpSwap "b" 9)) (busy, None, PStart) (m', None, PDone (values r)).
Proof.
  destruct (syncmap_solo_agrees 3 (OpSwap "b" 9) busy busy_wf) as (r & m' & E & Hr & _). exists r, m'. split; [exact E|exact Hr].
Defined.
End Solo.
