(* ===== verification/WatchServer.v ===== *)
(** * The watch server: watch/server.go

    Every client connection has a main loop (runConn) that writes the messages
    of its [Out] channel and runs a handler for each message of its [In]
    channel; a second goroutine (read) fills [In].  A handler is a state change
    followed by the actions that can block: sends on a channel of capacity 32
    and the server mutex.  The goroutines are interleaved action by action. *)

From Stdlib Require Import ZArith Lia Ascii String.
From stdpp Require Import base numbers list strings gmap.
From S2P Require Import Prelude GoStd HashSet WatchMessage.

Section watch_server.
Context {B : Bolt} (ρ : RangeOrder).

(** ** State *)

(** What a handler still has to do. *)
Inductive action :=
  | ASend (to : Z) (m : WatchMessage)                      (* wc.Out <- msg *)
  | ALock                                                  (* ws.Mutex.Lock() *)
  | AUnlock                                                (* ws.Mutex.Unlock() *)
  | ARegister (keys : list string)                         (* the loop of initializeProcess *)
  | ANotify (key field value : string)                     (* the lookup of notify *)
  | ANotifyLoop (ids delId : list Z) (key field value : string)   (* its loop *)
  | ANotifySend (to : Z) (m : WatchMessage).               (* the send in the loop *)

Inductive proc :=
  | PIdle                         (* in the select of runConn *)
  | PRun (acts : list action)     (* inside a handler *)
  | PExited.                      (* runConn has returned *)

Record WatchConnect := {
  Status : Z;                     (* 0 - not initialised, 1 - normal, 2 - disconnected *)
  WatchKeys : list string;
  In : list WatchMessage;
  Out : list WatchMessage;
  pc : proc;
  reading : bool;                 (* the goroutine of read is running *)
  wire : list WatchMessage        (* written to the client so far *)
}.

Record WatchServer := {
  Clients : gmap Z WatchConnect;
  KeyWatchers : gmap string (gset Z);
  Set' : Store;
  Mutex : option Z;               (* the connection whose goroutine holds it *)
  lastId : Z;                     (* the id counter of Start *)
  accepted : gset Z               (* ids whose runConn has not registered them yet *)
}.

Definition chan_cap : nat := 32.

Definition set_Status c v := {| Status := v; WatchKeys := WatchKeys c; In := In c; Out := Out c; pc := pc c; reading := reading c; wire := wire c |}.
Definition set_WatchKeys c v := {| Status := Status c; WatchKeys := v; In := In c; Out := Out c; pc := pc c; reading := reading c; wire := wire c |}.
Definition set_In c v := {| Status := Status c; WatchKeys := WatchKeys c; In := v; Out := Out c; pc := pc c; reading := reading c; wire := wire c |}.
Definition set_Out c v := {| Status := Status c; WatchKeys := WatchKeys c; In := In c; Out := v; pc := pc c; reading := reading c; wire := wire c |}.
Definition set_pc c v := {| Status := Status c; WatchKeys := WatchKeys c; In := In c; Out := Out c; pc := v; reading := reading c; wire := wire c |}.
Definition set_reading c v := {| Status := Status c; WatchKeys := WatchKeys c; In := In c; Out := Out c; pc := pc c; reading := v; wire := wire c |}.
Definition set_wire c v := {| Status := Status c; WatchKeys := WatchKeys c; In := In c; Out := Out c; pc := pc c; reading := reading c; wire := v |}.

Definition set_Clients s v := {| Clients := v; KeyWatchers := KeyWatchers s; Set' := Set' s; Mutex := Mutex s; lastId := lastId s; accepted := accepted s |}.
Definition set_KeyWatchers s v := {| Clients := Clients s; KeyWatchers := v; Set' := Set' s; Mutex := Mutex s; lastId := lastId s; accepted := accepted s |}.
Definition set_Set s v := {| Clients := Clients s; KeyWatchers := KeyWatchers s; Set' := v; Mutex := Mutex s; lastId := lastId s; accepted := accepted s |}.
Definition set_Mutex s v := {| Clients := Clients s; KeyWatchers := KeyWatchers s; Set' := Set' s; Mutex := v; lastId := lastId s; accepted := accepted s |}.

(** Change the connection [i]. *)
Definition upd_conn (s : WatchServer) (i : Z) (f : WatchConnect -> WatchConnect) : WatchServer :=
  set_Clients s (alter f i (Clients s)).

Definition NewWatchServer (db : option bolt) : WatchServer :=
  {| Clients := ∅; KeyWatchers := ∅; Set' := {| Set_ := NewHashSet; boltDB := db |};
     Mutex := None; lastId := 0; accepted := ∅ |}.

(** ** Handlers: the new state and what is left to do; an index panic when the
    message has too few values *)

Definition reply (msg : WatchMessage) (values : list string) : WatchMessage :=
  {| Cmd := Cmd msg; Seq := Seq msg; Values := values |}.

Definition notify (key field value : string) : list action :=
  [ALock; ANotify key field value; AUnlock].

Definition initializeProcess (s : WatchServer) (i : Z) (msg : WatchMessage) : go (WatchServer * list action) :=
  let s := upd_conn s i (fun c => set_WatchKeys (set_Status c 1) (Values msg)) in
  Ret (s, [ASend i (reply msg []); ALock; ARegister (Values msg); AUnlock]).

Definition heartbeatProcess (s : WatchServer) (i : Z) (msg : WatchMessage) : go (WatchServer * list action) :=
  Ret (s, [ASend i (reply msg [])]).

Definition KeyPrefixtProcess (s : WatchServer) (i : Z) (msg : WatchMessage) : go (WatchServer * list action) :=
  key ← go_index (Values msg) 0;
  Ret (s, [ASend i (reply msg (KeyPrefix ρ (Set_ (Set' s)) key))]).

Definition delProcess (s : WatchServer) (i : Z) (msg : WatchMessage) : go (WatchServer * list action) :=
  key ← go_index (Values msg) 0;
  Ret (set_Set s (Del (Set' s) key), ASend i (reply msg []) :: notify key "" "").

Definition hgetProcess (s : WatchServer) (i : Z) (msg : WatchMessage) : go (WatchServer * list action) :=
  key ← go_index (Values msg) 0;
  field ← go_index (Values msg) 1;
  Ret (s, [ASend i (reply msg [Hget (Set_ (Set' s)) key field])]).

Definition hgetallProcess (s : WatchServer) (i : Z) (msg : WatchMessage) : go (WatchServer * list action) :=
  key ← go_index (Values msg) 0;
  Ret (s, [ASend i (reply msg (Hgetall ρ (Set_ (Set' s)) key))]).

Definition hsetProcess (s : WatchServer) (i : Z) (msg : WatchMessage) : go (WatchServer * list action) :=
  key ← go_index (Values msg) 0;
  field ← go_index (Values msg) 1;
  value ← go_index (Values msg) 2;
  Ret (set_Set s (Hset (Set' s) key field value).2,
       ASend i (reply msg []) :: notify key field value).

Definition hincrbyProcess (s : WatchServer) (i : Z) (msg : WatchMessage) : go (WatchServer * list action) :=
  key ← go_index (Values msg) 0;
  field ← go_index (Values msg) 1;
  a ← go_index (Values msg) 2;
  let '(value, st) := Hincrby (Set' s) key field (Atoi a).1 in
  Ret (set_Set s st, ASend i (reply msg [value]) :: notify key field value).

Definition dispatch (s : WatchServer) (i : Z) (msg : WatchMessage) : go (WatchServer * list action) :=
  if decide (Cmd msg = "initialize") then initializeProcess s i msg
  else if decide (Cmd msg = "heartbeat") then heartbeatProcess s i msg
  else if decide (Cmd msg = "hset") then hsetProcess s i msg
  else if decide (Cmd msg = "hget") then hgetProcess s i msg
  else if decide (Cmd msg = "key_prefix") then KeyPrefixtProcess s i msg
  else if decide (Cmd msg = "hgetall") then hgetallProcess s i msg
  else if decide (Cmd msg = "del") then delProcess s i msg
  else if decide (Cmd msg = "hincrby") then hincrbyProcess s i msg
  else Ret (s, []).

(** ** One action of the goroutine of connection [i]; [None]: it is blocked *)

(** wc.Out <- msg: blocks while the channel is full. *)
Definition writeMsgToClient (s : WatchServer) (to : Z) (m : WatchMessage) : option WatchServer :=
  c ← Clients s !! to;
  if decide (length (Out c) < chan_cap)%nat
  then Some (upd_conn s to (fun c => set_Out c (Out c ++ [m])))
  else None.

Definition register_key (i : Z) (kw : gmap string (gset Z)) (key : string) : gmap string (gset Z) :=
  <[key := {[i]} ∪ default ∅ (kw !! key)]> kw.

Definition watch_msg (key field value : string) : WatchMessage :=
  {| Cmd := "watch"; Seq := 0; Values := [key; field; value] |}.

(** [acts] is what remains after the action. *)
Definition goto (s : WatchServer) (i : Z) (acts : list action) : WatchServer :=
  upd_conn s i (fun c => set_pc c (match acts with [] => PIdle | _ => PRun acts end)).

Definition run_action (s : WatchServer) (i : Z) (a : action) (rest : list action) : option WatchServer :=
  match a with
  | ASend to m => s ← writeMsgToClient s to m; Some (goto s i rest)
  | ALock => match Mutex s with
             | None => Some (goto (set_Mutex s (Some i)) i rest)
             | Some _ => None
             end
  | AUnlock => Some (goto (set_Mutex s None) i rest)
  | ARegister keys =>
      Some (goto (set_KeyWatchers s (fold_left (register_key i) keys (KeyWatchers s))) i rest)
  | ANotify key field value =>
      match KeyWatchers s !! key with
      | None => Some (goto s i rest)
      | Some ids => Some (goto s i (ANotifyLoop (ρ _ (elements ids)) [] key field value :: rest))
      end
  | ANotifyLoop [] delId key field value =>
      Some (goto (set_KeyWatchers s (alter (fun ids => ids ∖ list_to_set delId) key (KeyWatchers s))) i rest)
  | ANotifyLoop (j :: ids) delId key field value =>
      c ← Clients s !! j;
      if decide (Status c = 2)
      then Some (goto s i (ANotifyLoop ids (delId ++ [j]) key field value :: rest))
      else Some (goto s i (ANotifySend j (watch_msg key field value)
                             :: ANotifyLoop ids delId key field value :: rest))
  | ANotifySend to m => s ← writeMsgToClient s to m; Some (goto s i rest)
  end.

(** ** Steps *)

Definition new_conn : WatchConnect :=
  {| Status := 0; WatchKeys := []; In := []; Out := []; pc := PIdle; reading := true; wire := [] |}.

Definition do_accept (s : WatchServer) : WatchServer :=
  {| Clients := Clients s; KeyWatchers := KeyWatchers s; Set' := Set' s; Mutex := Mutex s;
     lastId := lastId s + 1; accepted := {[lastId s + 1]} ∪ accepted s |}.

Definition do_register (s : WatchServer) (i : Z) : WatchServer :=
  {| Clients := <[i := new_conn]> (Clients s); KeyWatchers := KeyWatchers s; Set' := Set' s;
     Mutex := Mutex s; lastId := lastId s; accepted := accepted s ∖ {[i]} |}.

Inductive step : WatchServer -> WatchServer -> Prop :=
  (* Start accepts a connection and starts its goroutine *)
  | step_accept s :
      step s (do_accept s)
  (* runConn registers the connection, under the mutex *)
  | step_register s i :
      i ∈ accepted s -> Mutex s = None -> step s (do_register s i)
  (* read: a message arrives on the connection; blocks while In is full *)
  | step_read s i c m :
      Clients s !! i = Some c -> reading c = true -> (length (In c) < chan_cap)%nat ->
      step s (upd_conn s i (fun c => set_In c (In c ++ [m])))
  (* read: the connection is gone *)
  | step_close s i c :
      Clients s !! i = Some c -> reading c = true ->
      step s (upd_conn s i (fun c => set_reading (set_Status c 2) false))
  (* runConn: case msg := <-wc.Out *)
  | step_write s i c m ms :
      Clients s !! i = Some c -> pc c = PIdle -> Out c = m :: ms ->
      step s (upd_conn s i (fun c => set_wire (set_Out c ms) (wire c ++ [m])))
  (* runConn: case msg := <-wc.In *)
  | step_handle s i c m ms s' acts :
      Clients s !! i = Some c -> pc c = PIdle -> In c = m :: ms ->
      dispatch (upd_conn s i (fun c => set_In c ms)) i m = Ret (s', acts) ->
      step s (goto s' i acts)
  | step_panic s i c m ms why :
      Clients s !! i = Some c -> pc c = PIdle -> In c = m :: ms ->
      dispatch (upd_conn s i (fun c => set_In c ms)) i m = Panic why ->
      step s (upd_conn s i (fun c => set_pc (set_In c ms) PExited))
  (* runConn: case <-wc.Close, or the timeout *)
  | step_exit s i c :
      Clients s !! i = Some c -> pc c = PIdle ->
      step s (upd_conn s i (fun c => set_pc c PExited))
  (* one action of a handler *)
  | step_act s i c a rest s' :
      Clients s !! i = Some c -> pc c = PRun (a :: rest) ->
      run_action s i a rest = Some s' ->
      step s s'.

Definition reachable (s : WatchServer) : Prop := exists db, rtc step (NewWatchServer db) s.

(** ** The invariant *)

Definition section_action (a : action) : bool :=
  match a with ARegister _ | ANotify _ _ _ | ANotifyLoop _ _ _ _ _ | ANotifySend _ _ => true | _ => false end.

Definition loop_action (a : action) : bool :=
  match a with ARegister _ | ANotify _ _ _ | ANotifyLoop _ _ _ _ _ => true | _ => false end.

Definition entry_action (a : action) : bool :=
  match a with ARegister _ | ANotify _ _ _ => true | _ => false end.

(** The forms a handler's remaining work takes. *)
Inductive shape : list action -> Prop :=
  | shape_send i m : shape [ASend i m]
  | shape_send_lock i m x : entry_action x = true -> shape [ASend i m; ALock; x; AUnlock]
  | shape_lock x : entry_action x = true -> shape [ALock; x; AUnlock]
  | shape_section x : loop_action x = true -> shape [x; AUnlock]
  | shape_notify i m ids d k f v : shape [ANotifySend i m; ANotifyLoop ids d k f v; AUnlock]
  | shape_unlock : shape [AUnlock].

Definition in_section (acts : list action) : bool :=
  match acts with
  | a :: _ => section_action a || match a with AUnlock => true | _ => false end
  | [] => false
  end.

(** The connection's goroutine is between Lock and Unlock. *)
Definition holds (c : WatchConnect) : bool :=
  match pc c with PRun acts => in_section acts | _ => false end.

(** The connections a running notify has still to visit. *)
Definition targets (acts : list action) : list Z :=
  match acts with
  | ANotifyLoop ids _ _ _ _ :: _ => ids
  | ANotifySend _ _ :: ANotifyLoop ids _ _ _ _ :: _ => ids
  | _ => []
  end.

Record conn_ok (mx : option Z) (known : Z -> Prop) (i : Z) (c : WatchConnect) : Prop := {
  ok_out : (length (Out c) <= chan_cap)%nat;
  ok_in : (length (In c) <= chan_cap)%nat;
  ok_shape : forall acts, pc c = PRun acts -> shape acts;
  ok_targets : forall acts, pc c = PRun acts -> forall j, j ∈ targets acts -> known j;
  ok_mutex : holds c = true <-> mx = Some i
}.

Record server_ok (s : WatchServer) : Prop := {
  ok_conns : forall i c, Clients s !! i = Some c ->
    conn_ok (Mutex s) (fun j => is_Some (Clients s !! j)) i c;
  ok_watchers : forall k ids j, KeyWatchers s !! k = Some ids -> j ∈ ids -> is_Some (Clients s !! j);
  ok_holder : forall i, Mutex s = Some i -> is_Some (Clients s !! i);
  ok_ids : forall i, is_Some (Clients s !! i) -> 1 <= i <= lastId s /\ i ∉ accepted s;
  ok_accepted : forall i, i ∈ accepted s -> 1 <= i <= lastId s;
  ok_lastId : 0 <= lastId s
}.

(** One connection changes, the mutex only on its account. *)
Lemma server_ok_update s s' i c c' :
  server_ok s -> Clients s !! i = Some c -> Clients s' = <[i := c']> (Clients s) ->
  lastId s' = lastId s -> accepted s' = accepted s ->
  (forall k ids j, KeyWatchers s' !! k = Some ids -> j ∈ ids -> is_Some (Clients s !! j)) ->
  (forall j, j <> i -> Mutex s' = Some j <-> Mutex s = Some j) ->
  conn_ok (Mutex s') (fun j => is_Some (Clients s !! j)) i c' ->
  server_ok s'.
Proof.
  intros [Hc Hw Hh Hi Ha Hl] Hlk EC EL EA HW HM Hok.
  assert (Hdom : forall j, is_Some (Clients s' !! j) <-> is_Some (Clients s !! j)).
  { intros j. rewrite EC. destruct (decide (j = i)) as [->|Hne].
    - rewrite lookup_insert_eq, Hlk. split; by eexists.
    - by rewrite lookup_insert_ne by done. }
  split.
  - intros j cj Hj. rewrite EC in Hj. destruct (decide (j = i)) as [->|Hne].
    + rewrite lookup_insert_eq in Hj. simplify_eq. destruct Hok as [H1 H2 H3 H4 H5].
      split; try done. intros acts Hp j Hin. apply Hdom. by eapply H4.
    + rewrite lookup_insert_ne in Hj by done. destruct (Hc j cj Hj) as [H1 H2 H3 H4 H5].
      split; try done.
      * intros acts Hp j' Hin. apply Hdom. by eapply H4.
      * by rewrite HM.
  - intros k ids j Hk Hin. apply Hdom. by eapply HW.
  - intros j Hj. destruct (decide (j = i)) as [->|Hne]; apply Hdom; [by eexists|].
    apply Hh. by apply HM.
  - intros j Hj. rewrite EL, EA. apply Hi. by apply Hdom.
  - intros j. rewrite EL, EA. apply Ha.
  - by rewrite EL.
Qed.

Lemma Clients_upd_conn s i f c :
  Clients s !! i = Some c -> Clients (upd_conn s i f) = <[i := f c]> (Clients s).
Proof.
  intros Hc. apply map_eq. intros j. unfold upd_conn; simpl. rewrite lookup_alter.
  destruct (decide (i = j)) as [->|Hne].
  - by rewrite lookup_insert_eq, Hc.
  - by rewrite lookup_insert_ne.
Qed.

(** A change of connection [i] that keeps what the invariant says of it. *)
Lemma upd_conn_ok s i f c :
  server_ok s -> Clients s !! i = Some c ->
  conn_ok (Mutex s) (fun j => is_Some (Clients s !! j)) i (f c) -> server_ok (upd_conn s i f).
Proof.
  intros Hs Hc Hok. eapply (server_ok_update s _ i c (f c)); try done.
  - by apply Clients_upd_conn.
  - by apply (ok_watchers s Hs).
Qed.

(** The goroutine of [i] goes on with [acts], having possibly changed the
    mutex or the watchers. *)
Lemma goto_ok s s' i c acts :
  server_ok s -> Clients s !! i = Some c ->
  Clients s' = Clients s -> lastId s' = lastId s -> accepted s' = accepted s ->
  (forall k ids j, KeyWatchers s' !! k = Some ids -> j ∈ ids -> is_Some (Clients s !! j)) ->
  (forall j, j <> i -> Mutex s' = Some j <-> Mutex s = Some j) ->
  (acts <> [] -> shape acts) ->
  (forall j, j ∈ targets acts -> is_Some (Clients s !! j)) ->
  (in_section acts = true <-> Mutex s' = Some i) ->
  server_ok (goto s' i acts).
Proof.
  intros Hs Hc EC EL EA HW HM Hsh Hids Hsec.
  destruct (ok_conns s Hs i c Hc) as [H1 H2 _ _ _].
  eapply (server_ok_update s _ i c (set_pc c (match acts with [] => PIdle | _ => PRun acts end)));
    try done.
  - unfold goto. rewrite (Clients_upd_conn s' i _ c); rewrite EC; done.
  - split; try done.
    + intros acts' Ha. destruct acts; simpl in *; [done|]. simplify_eq. by apply Hsh.
    + intros acts' Ha. destruct acts; simpl in *; [done|]. simplify_eq. by eapply Hids.
    + unfold holds; simpl. rewrite <- Hsec. by destruct acts.
Qed.

Lemma send_ok s to m s' :
  server_ok s -> writeMsgToClient s to m = Some s' ->
  server_ok s' /\ KeyWatchers s' = KeyWatchers s /\ Mutex s' = Mutex s /\ Set' s' = Set' s /\
  (forall j c, Clients s !! j = Some c -> exists c', Clients s' !! j = Some c' /\ pc c' = pc c) /\
  (forall j, is_Some (Clients s' !! j) <-> is_Some (Clients s !! j)).
Proof.
  intros Hs. unfold writeMsgToClient. intros (c & Hc & Hw)%bind_Some.
  destruct (decide _) as [Hlt|]; [|done]. injection Hw as <-.
  split; [|split; [done|split; [done|split; [done|]]]].
  - apply (upd_conn_ok s to _ c Hs Hc). destruct (ok_conns s Hs to c Hc) as [H1 H2 H3 H4 H5].
    split; try done. simpl. rewrite length_app. simpl. lia.
  - rewrite (Clients_upd_conn s to _ c Hc). split.
    + intros j cj Hj. destruct (decide (j = to)) as [->|Hne].
      * rewrite lookup_insert_eq. eexists; split; [done|]. by simplify_eq.
      * rewrite lookup_insert_ne by done. eauto.
    + intros j. destruct (decide (j = to)) as [->|Hne].
      * rewrite lookup_insert_eq, Hc. split; by eexists.
      * by rewrite lookup_insert_ne by done.
Qed.

Lemma register_watchers i keys kw k ids j :
  fold_left (register_key i) keys kw !! k = Some ids -> j ∈ ids ->
  j = i \/ exists ids', kw !! k = Some ids' /\ j ∈ ids'.
Proof.
  revert kw; induction keys as [|key keys IH]; intros kw; simpl; [eauto|].
  intros Hk Hj. destruct (IH _ Hk Hj) as [?|(ids' & Hl & Hin)]; [by left|].
  unfold register_key in Hl. destruct (decide (key = k)) as [->|Hne].
  - rewrite lookup_insert_eq in Hl. simplify_eq. apply elem_of_union in Hin as [Hin|Hin].
    + left. set_solver.
    + destruct (kw !! k) as [ids0|]; simpl in Hin; [right; eauto|set_solver].
  - rewrite lookup_insert_ne in Hl by done. right. eauto.
Qed.

Lemma goto_send_ok s to m s' i c acts :
  server_ok s -> writeMsgToClient s to m = Some s' -> Clients s !! i = Some c ->
  (acts <> [] -> shape acts) ->
  (forall j, j ∈ targets acts -> is_Some (Clients s !! j)) ->
  (in_section acts = true <-> Mutex s = Some i) ->
  server_ok (goto s' i acts).
Proof.
  intros Hs Hw Hc Hsh Hids Hsec.
  destruct (send_ok s to m s' Hs Hw) as (Hs' & EK & EM & _ & Hpc & Hdom).
  destruct (Hpc i c Hc) as (c' & Hc' & _).
  apply (goto_ok s' s' i c' acts); try done.
  - apply (ok_watchers s' Hs').
  - intros j Hj. apply Hdom. by eapply Hids.
  - by rewrite EM.
Qed.

Lemma run_action_ok s i c a rest s' :
  server_ok s -> Clients s !! i = Some c -> pc c = PRun (a :: rest) ->
  run_action s i a rest = Some s' -> server_ok s'.
Proof.
  intros Hs Hc Hpc Hrun. destruct (ok_conns s Hs i c Hc) as [H1 H2 H3 H4 H5].
  pose proof (H3 _ Hpc) as Hsh. unfold holds in H5. rewrite Hpc in H5.
  pose proof (ok_watchers s Hs) as Hw.
  destruct a as [to m| | |keys|key field value|ids d key field value|to m]; simpl in Hrun.
  - apply bind_Some in Hrun as (s1 & Hsend & [= <-]).
    inversion Hsh; subst; try done; eapply goto_send_ok; try done;
      try (intros _; by constructor); by intros ? ?%elem_of_nil.
  - destruct (Mutex s) as [?|] eqn:EM; [done|]. injection Hrun as <-.
    inversion Hsh; subst; try done.
    eapply (goto_ok s _ i c); try done.
    + simpl. intros j Hj. split; [congruence|]. by rewrite EM.
    + intros _. apply shape_section. by destruct x.
    + destruct x; try done; by intros ? ?%elem_of_nil.
    + simpl. by destruct x.
  - injection Hrun as <-. assert (EM : Mutex s = Some i) by (apply H5; done).
    inversion Hsh; subst; try done.
    eapply (goto_ok s _ i c); try done.
    + simpl. intros j Hj. split; [done|]. rewrite EM. congruence.
    + by intros ? ?%elem_of_nil.
  - injection Hrun as <-. assert (EM : Mutex s = Some i) by (apply H5; done).
    inversion Hsh; subst; try done.
    eapply (goto_ok s _ i c); try done.
    + intros k ids j Hk Hj. destruct (register_watchers _ _ _ _ _ _ Hk Hj) as [->|(ids' & Hl & Hin)];
        [by eexists|eauto].
    + intros _. constructor.
    + by intros ? ?%elem_of_nil.
  - assert (EM : Mutex s = Some i) by (apply H5; done). inversion Hsh; subst; try done.
    destruct (KeyWatchers s !! key) as [ids|] eqn:Ek; injection Hrun as <-;
      eapply (goto_ok s _ i c); try done; try (intros _; by constructor);
      try (by intros ? ?%elem_of_nil).
    simpl. intros j Hj. rewrite elem_of_range_order, elem_of_elements in Hj. eauto.
  - assert (EM : Mutex s = Some i) by (apply H5; done). inversion Hsh; subst; try done.
    pose proof (H4 _ Hpc) as Hids. simpl in Hids.
    destruct ids as [|j ids].
    + injection Hrun as <-. eapply (goto_ok s _ i c); try done; try (intros _; by constructor);
        try (by intros ? ?%elem_of_nil).
      simpl. intros k ids j Hk Hj. rewrite lookup_alter in Hk. case_decide; [|eauto].
      subst. destruct (KeyWatchers s !! k) as [ids0|] eqn:Ek; [|done]. simplify_eq/=. set_solver.
    + apply bind_Some in Hrun as (cj & Hcj & Hrun).
      assert (Hids' : forall j', j' ∈ ids -> is_Some (Clients s !! j')) by set_solver.
      destruct (decide (Status cj = 2)); injection Hrun as <-;
        eapply (goto_ok s _ i c); try done; intros _; by constructor.
  - assert (EM : Mutex s = Some i) by (apply H5; done). inversion Hsh; subst; try done.
    pose proof (H4 _ Hpc) as Hids. simpl in Hids.
    apply bind_Some in Hrun as (s1 & Hsend & [= <-]).
    eapply goto_send_ok; try done. intros _. by constructor.
Qed.

Lemma dispatch_ok s i c msg s' acts :
  server_ok s -> Clients s !! i = Some c -> pc c = PIdle ->
  dispatch s i msg = Ret (s', acts) -> server_ok (goto s' i acts).
Proof.
  intros Hs Hc Hpc Hd.
  assert (EM : Mutex s <> Some i).
  { destruct (ok_conns s Hs i c Hc) as [_ _ _ _ H5]. unfold holds in H5. rewrite Hpc in H5. naive_solver. }
  pose proof (ok_watchers s Hs) as Hw.
  assert (Ht : forall acts, in_section acts = false -> targets acts = []).
  { intros [|[] acts']; by simpl. }
  assert (G : forall st acts, (acts <> [] -> shape acts) -> in_section acts = false ->
    server_ok (goto (set_Set s st) i acts)).
  { intros st acts' Hsh Hsec. eapply (goto_ok s _ i c); try done.
    - rewrite (Ht acts' Hsec). by intros ? ?%elem_of_nil.
    - rewrite Hsec. simpl. naive_solver. }
  assert (G' : forall acts, (acts <> [] -> shape acts) -> in_section acts = false ->
    server_ok (goto s i acts)) by (intros acts' Hsh Hsec; exact (G (Set' s) acts' Hsh Hsec)).
  unfold dispatch in Hd. repeat case_decide;
    unfold initializeProcess, heartbeatProcess, KeyPrefixtProcess, delProcess, hgetProcess,
      hgetallProcess, hsetProcess, hincrbyProcess, notify, go_index in Hd;
    repeat match type of Hd with context [Values msg !! ?n] => destruct (Values msg !! n); [simpl in Hd|done] end.
  all: try (injection Hd as <- <-; first [apply G'|apply G]; [intros _; by constructor|done]).
  - injection Hd as <- <-.
    set (s1 := upd_conn _ _ _).
    assert (Hs1 : server_ok s1).
    { apply (upd_conn_ok s i _ c Hs Hc). by destruct (ok_conns s Hs i c Hc); split. }
    assert (Hc1 : exists c1, Clients s1 !! i = Some c1).
    { unfold s1. rewrite (Clients_upd_conn s i _ c Hc), lookup_insert_eq. eauto. }
    destruct Hc1 as [c1 Hc1]. eapply (goto_ok s1 s1 i c1); try done.
    + apply (ok_watchers s1 Hs1).
    + intros _. by constructor.
    + by intros ? ?%elem_of_nil.
  - destruct (Hincrby _ _ _ _) as [value st]. injection Hd as <- <-.
    apply G; [intros _; by constructor|done].
  - injection Hd as <- <-. by apply G'.
Qed.

Lemma accept_ok s : server_ok s -> server_ok (do_accept s).
Proof.
  intros [Hc Hw Hh Hi Ha Hl]. split; simpl; try done; [..|lia].
  - intros i Hs. destruct (Hi i Hs). split; [lia|]. intros [->%elem_of_singleton|?]%elem_of_union; [lia|done].
  - intros i [->%elem_of_singleton|Hin]%elem_of_union; [lia|]. apply Ha in Hin. lia.
Qed.

Lemma register_ok s i : server_ok s -> i ∈ accepted s -> Mutex s = None -> server_ok (do_register s i).
Proof.
  intros [Hc Hw Hh Hi Ha Hl] Hin EM.
  assert (Hfresh : Clients s !! i = None).
  { destruct (Clients s !! i) eqn:E; [|done]. destruct (Hi i) as [_ []]; [by eexists|done]. }
  assert (Hmono : forall j, is_Some (Clients s !! j) -> is_Some (<[i := new_conn]> (Clients s) !! j)).
  { intros j Hj. by apply lookup_insert_is_Some'; right. }
  split; simpl; eauto.
  - intros j cj Hj. destruct (decide (j = i)) as [->|Hne].
    + rewrite lookup_insert_eq in Hj. injection Hj as <-. split; simpl; try done; [lia..|].
      unfold holds; simpl. by rewrite EM.
    + rewrite lookup_insert_ne in Hj by done. destruct (Hc j cj Hj) as [H1 H2 H3 H4 H5].
      split; eauto.
  - intros j [->|[? Hj]]%lookup_insert_is_Some.
    + split; [by apply Ha|set_solver].
    + destruct (Hi j Hj). split; [done|set_solver].
  - intros j Hj. apply Ha. set_solver.
Qed.

Lemma step_ok s s' : server_ok s -> step s s' -> server_ok s'.
Proof.
  intros Hs Hstep.
  destruct Hstep as [s|s i Hia EM|s i c m Hc Hst Hlt|s i c Hc Hrd|s i c m ms Hc Hpc Ho
    |s i c m ms s' acts Hc Hpc Hi Hd|s i c m ms why Hc Hpc Hi Hd|s i c Hc Hpc|s i c a rest s' Hc Hpc Hrun].
  - by apply accept_ok.
  - by apply register_ok.
  - apply (upd_conn_ok s i _ c Hs Hc). destruct (ok_conns s Hs i c Hc). split; try done.
    simpl. rewrite length_app. simpl. lia.
  - apply (upd_conn_ok s i _ c Hs Hc). by destruct (ok_conns s Hs i c Hc); split.
  - apply (upd_conn_ok s i _ c Hs Hc). destruct (ok_conns s Hs i c Hc) as [H1 H2 H3 H4 H5].
    split; try done. rewrite Ho in H1. simpl in *. lia.
  - eapply (dispatch_ok _ i (set_In c ms)); [|..|exact Hd].
    + apply (upd_conn_ok s i _ c Hs Hc). destruct (ok_conns s Hs i c Hc) as [H1 H2 H3 H4 H5].
      split; try done. rewrite Hi in H2. simpl in *. lia.
    + rewrite (Clients_upd_conn s i _ c Hc). apply lookup_insert_eq.
    + done.
  - apply (upd_conn_ok s i _ c Hs Hc). destruct (ok_conns s Hs i c Hc) as [H1 H2 H3 H4 H5].
    unfold holds in H5. rewrite Hpc in H5. split; simpl; try done. rewrite Hi in H2. simpl in *. lia.
  - apply (upd_conn_ok s i _ c Hs Hc). destruct (ok_conns s Hs i c Hc) as [H1 H2 H3 H4 H5].
    unfold holds in H5. rewrite Hpc in H5. split; simpl; done.
  - by eapply run_action_ok.
Qed.

Lemma reachable_ok s : reachable s -> server_ok s.
Proof.
  intros [db Hr]. assert (H0 : server_ok (NewWatchServer db)).
  { split; simpl; try done; intros; rewrite ?lookup_empty in *; done. }
  induction Hr as [|s1 s2 s3 Hstep _ IH]; [done|]. apply IH. by eapply step_ok.
Qed.

(** C13. In every reachable state the two queues of a connection are within
    their capacity, a key's watchers are registered connections, and the mutex
    is held by a connection exactly when that connection's goroutine is between
    Lock and Unlock, so at most one is; connection ids are never reused. *)
Theorem watch_server_invariant (s : WatchServer) (Hr : reachable s) :
  (forall i c, Clients s !! i = Some c ->
     (length (Out c) <= 32)%nat /\ (length (In c) <= 32)%nat /\
     (holds c = true <-> Mutex s = Some i) /\ 1 <= i <= lastId s /\ i ∉ accepted s) /\
  (forall i j c d, Clients s !! i = Some c -> Clients s !! j = Some d ->
     holds c = true -> holds d = true -> i = j) /\
  (forall k ids j, KeyWatchers s !! k = Some ids -> j ∈ ids -> is_Some (Clients s !! j)).
Proof.
  apply reachable_ok in Hr as [Hc Hw Hh Hi _ _]. split; [|split; [|done]].
  - intros i c E. destruct (Hc i c E) as [H1 H2 _ _ H5]. unfold chan_cap in *.
    destruct (Hi i ltac:(by eexists)). splits; (done || lia).
  - intros i j c d Ec Ed Hhc Hhd. destruct (Hc i c Ec) as [_ _ _ _ H5], (Hc j d Ed) as [_ _ _ _ H6].
    apply H5 in Hhc. apply H6 in Hhd. congruence.
Qed.

(** ** Delivery *)

Definition at_pc (i : Z) (p : proc) (j : Z) (c : WatchConnect) : WatchConnect :=
  if decide (j = i) then set_pc c p else c.

Definition visit (ids : list Z) (m : WatchMessage) (j : Z) (c : WatchConnect) : WatchConnect :=
  if decide (j ∈ ids /\ Status c <> 2) then set_Out c (Out c ++ [m]) else c.

Definition dead (s : WatchServer) (ids : list Z) : list Z :=
  filter (fun j => (Status <$> Clients s !! j) = Some 2) ids.

Lemma lookup_upd_conn s i f j :
  Clients (upd_conn s i f) !! j = (if decide (j = i) then f <$> Clients s !! j else Clients s !! j).
Proof.
  unfold upd_conn; simpl. rewrite lookup_alter. repeat case_decide; simplify_eq; done.
Qed.

Lemma lookup_goto s i acts j :
  Clients (goto s i acts) !! j =
  at_pc i (match acts with [] => PIdle | _ => PRun acts end) j <$> Clients s !! j.
Proof.
  unfold goto. rewrite lookup_upd_conn. unfold at_pc.
  case_decide; [done|]. by destruct (Clients s !! j).
Qed.

(** What the steps of one handler leave alone. *)
Definition same_rest (s s' : WatchServer) : Prop :=
  KeyWatchers s' = KeyWatchers s /\ Set' s' = Set' s /\ Mutex s' = Mutex s /\
  lastId s' = lastId s /\ accepted s' = accepted s.

Lemma send_room s to m c :
  Clients s !! to = Some c -> (length (Out c) < chan_cap)%nat ->
  writeMsgToClient s to m = Some (upd_conn s to (fun c => set_Out c (Out c ++ [m]))).
Proof. intros Hc Hlt. unfold writeMsgToClient. rewrite Hc. simpl. by rewrite decide_True. Qed.

(** The steps of notify's loop that visit one watcher. *)
Lemma notify_visit i k f v rest j0 ids s d ci c0 :
  Clients s !! i = Some ci -> pc ci = PRun (ANotifyLoop (j0 :: ids) d k f v :: rest) ->
  Clients s !! j0 = Some c0 -> (length (Out c0) < chan_cap)%nat ->
  exists s1 d1, rtc step s s1 /\ same_rest s s1 /\ d1 ++ dead s ids = d ++ dead s (j0 :: ids) /\
    forall j, Clients s1 !! j = (fun c => at_pc i (PRun (ANotifyLoop ids d1 k f v :: rest)) j
                  (visit [j0] (watch_msg k f v) j c)) <$> Clients s !! j.
Proof.
  intros Hci Hpc Hc0 Hlt.
  destruct (decide (Status c0 = 2)) as [Hst|Hst].
  - exists (goto s i (ANotifyLoop ids (d ++ [j0]) k f v :: rest)), (d ++ [j0]).
    split; [|split; [done|split]].
    + apply rtc_once. eapply step_act; [exact Hci|exact Hpc|]. simpl. rewrite Hc0. simpl. by rewrite decide_True.
    + unfold dead. rewrite filter_cons_True by (by rewrite Hc0; simpl; rewrite Hst).
      by rewrite <- app_assoc.
    + intros j. rewrite lookup_goto. destruct (Clients s !! j) as [c|] eqn:E; [|done]. simpl. f_equal.
      unfold visit. rewrite decide_False; [done|]. intros [->%list_elem_of_singleton ?]. congruence.
  - set (m := watch_msg k f v). set (loop := ANotifyLoop ids d k f v :: rest).
    set (s1 := goto s i (ANotifySend j0 m :: loop)).
    assert (Hc1 : forall j, Clients s1 !! j = at_pc i (PRun (ANotifySend j0 m :: loop)) j <$> Clients s !! j)
      by (intros; apply lookup_goto).
    exists (goto (upd_conn s1 j0 (fun c => set_Out c (Out c ++ [m]))) i loop), d.
    split; [|split; [done|split]].
    + eapply rtc_l; [eapply step_act; [exact Hci|exact Hpc|]|].
      { simpl. rewrite Hc0. simpl. by rewrite decide_False. }
      apply rtc_once. eapply (step_act s1 i (set_pc ci (PRun (ANotifySend j0 m :: loop)))); [|done|].
      { rewrite Hc1, Hci. simpl. unfold at_pc. by rewrite decide_True. }
      simpl. rewrite (send_room s1 j0 m (at_pc i (PRun (ANotifySend j0 m :: loop)) j0 c0)); [done|..].
      * rewrite Hc1, Hc0. done.
      * unfold at_pc. by case_decide.
    + unfold dead. rewrite filter_cons_False; [done|]. rewrite Hc0. simpl. congruence.
    + intros j. rewrite lookup_goto, lookup_upd_conn, Hc1.
      destruct (Clients s !! j) as [c|] eqn:E; [|by case_decide]. simpl.
      unfold visit, at_pc. repeat case_decide; simplify_eq/=; try done; set_solver.
Qed.

(** The loop of notify visits the watchers one after the other. *)
Lemma notify_loop i k f v rest ids : forall s d ci,
  NoDup ids -> Clients s !! i = Some ci -> pc ci = PRun (ANotifyLoop ids d k f v :: rest) ->
  (forall j, j ∈ ids -> exists c, Clients s !! j = Some c /\ (length (Out c) < chan_cap)%nat) ->
  exists s', rtc step s s' /\ same_rest s s' /\
    forall j, Clients s' !! j =
      (fun c => at_pc i (PRun (ANotifyLoop [] (d ++ dead s ids) k f v :: rest)) j
                  (visit ids (watch_msg k f v) j c)) <$> Clients s !! j.
Proof.
  induction ids as [|j0 ids IH]; intros s d ci Hnd Hci Hpc Hroom.
  { exists s. split; [done|]. split; [done|]. intros j. unfold dead; simpl. rewrite app_nil_r.
    destruct (Clients s !! j) as [c|] eqn:E; [|done]. simpl. f_equal. unfold at_pc, visit.
    rewrite (decide_False (P := j ∈ [] /\ _)) by (intros [?%elem_of_nil _]; done).
    case_decide; [|done]. simplify_eq. destruct ci; simpl in *. by subst. }
  apply NoDup_cons in Hnd as [Hj0 Hnd].
  destruct (Hroom j0) as (c0 & Hc0 & Hlt); [set_solver|].
  destruct (notify_visit i k f v rest j0 ids s d ci c0 Hci Hpc Hc0 Hlt) as (s1 & d1 & Hrun & Hrest & Hd & HC).
  assert (Hkeep : forall j c, Status (at_pc i (PRun (ANotifyLoop ids d1 k f v :: rest)) j
      (visit [j0] (watch_msg k f v) j c)) = Status c).
  { intros j c. unfold at_pc, visit. by repeat case_decide. }
  assert (Edead : dead s1 ids = dead s ids).
  { unfold dead. apply list_filter_iff. intros j. rewrite HC. destruct (Clients s !! j) as [c|]; [|done].
    simpl. by rewrite Hkeep. }
  destruct (IH s1 d1 (set_pc (visit [j0] (watch_msg k f v) i ci) (PRun (ANotifyLoop ids d1 k f v :: rest))))
    as (s' & Hrun' & (K1 & K2 & K3 & K4 & K5) & HC'); try done.
  - rewrite HC, Hci. simpl. unfold at_pc. by rewrite decide_True.
  - intros j Hj. destruct (Hroom j) as (c & Hc & Hl); [set_solver|]. rewrite HC, Hc. simpl.
    eexists; split; [done|]. unfold at_pc, visit.
    assert (j <> j0) by set_solver. repeat case_decide; simpl; try done; set_solver.
  - exists s'. split; [by etrans|]. split.
    { destruct Hrest as (R1 & R2 & R3 & R4 & R5). unfold same_rest. splits; congruence. }
    intros j. rewrite HC', HC. destruct (Clients s !! j) as [c|] eqn:E; [|done]. simpl. f_equal.
    rewrite Edead, Hd.
    unfold at_pc, visit; simpl.
    repeat case_decide; simplify_eq/=; try done; set_solver.
Qed.

(** A change of one connection's place only. *)
Lemma goto_pc s i acts ci :
  Clients s !! i = Some ci ->
  Clients (goto s i acts) !! i = Some (set_pc ci (match acts with [] => PIdle | _ => PRun acts end)).
Proof. intros Hc. rewrite lookup_goto, Hc. simpl. unfold at_pc. by rewrite decide_True. Qed.

(** The ids that notify tells of a change of [k]. *)
Definition watching (s : WatchServer) (k : string) (j : Z) : Prop := j ∈ default ∅ (KeyWatchers s !! k).

#[local] Instance watching_dec s k j : Decision (watching s k j).
Proof. unfold watching. apply _. Defined.

(** The loop, the removal of the closed watchers and Unlock. *)
Lemma notify_loop_runs s i ci k f v ids :
  server_ok s -> KeyWatchers s !! k = Some ids -> Clients s !! i = Some ci ->
  pc ci = PRun [ANotifyLoop (ρ _ (elements ids)) [] k f v; AUnlock] ->
  (forall j c, watching s k j -> Clients s !! j = Some c -> (length (Out c) < chan_cap)%nat) ->
  exists s', rtc step s s' /\ Set' s' = Set' s /\ Mutex s' = None /\
    KeyWatchers s' = alter (fun ids => ids ∖ list_to_set (dead s (ρ _ (elements ids)))) k (KeyWatchers s) /\
    forall j, Clients s' !! j =
      (fun c => at_pc i PIdle j (visit (ρ _ (elements ids)) (watch_msg k f v) j c)) <$> Clients s !! j.
Proof.
  intros Hok Ek Hci Hpc Hroom.
  destruct (notify_loop i k f v [AUnlock] (ρ _ (elements ids)) s [] ci)
    as (s3 & Hr3 & (K1 & K2 & K3 & K4 & K5) & HC3); [|done|done|..].
  { rewrite range_order_perm. apply NoDup_elements. }
  { intros j Hj. rewrite elem_of_range_order, elem_of_elements in Hj.
    destruct (ok_watchers s Hok k ids j Ek Hj) as [c Hc]. exists c. split; [done|].
    apply (Hroom j c); [|done]. unfold watching. by rewrite Ek. }
  simpl in HC3. set (del := dead s (ρ _ (elements ids))) in *.
  assert (Hc3 : exists c3, Clients s3 !! i = Some c3 /\ pc c3 = PRun [ANotifyLoop [] del k f v; AUnlock]).
  { rewrite HC3, Hci. simpl. eexists; split; [done|]. unfold at_pc. by rewrite decide_True. }
  destruct Hc3 as (c3 & Hc3 & Hpc3).
  set (kw4 := alter (fun x => x ∖ list_to_set del) k (KeyWatchers s3)).
  set (s4 := goto (set_KeyWatchers s3 kw4) i [AUnlock]).
  assert (Hs4 : step s3 s4) by (by eapply (step_act _ _ _ _ _ _ Hc3 Hpc3)).
  pose proof (goto_pc (set_KeyWatchers s3 kw4) i [AUnlock] c3 Hc3) as Hc4.
  exists (goto (set_Mutex s4 None) i []). splits; try done.
  - etrans; [exact Hr3|]. etrans; [by apply rtc_once|].
    apply rtc_once. by eapply (step_act _ _ _ _ _ _ Hc4 eq_refl).
  - simpl. unfold kw4. rewrite K1. apply map_eq. intros k'. rewrite !lookup_alter.
    case_decide; [|done]. subst. by rewrite Ek.
  - intros j. rewrite lookup_goto. change (Clients (set_Mutex s4 None)) with (Clients s4).
    unfold s4. rewrite lookup_goto. change (Clients (set_KeyWatchers s3 kw4)) with (Clients s3).
    rewrite HC3.
    destruct (Clients s !! j) as [c|]; [|done]. simpl. f_equal. unfold at_pc. by repeat case_decide.
Qed.

(** From Lock to Unlock. *)
Lemma notify_runs s i ci k f v :
  server_ok s -> Clients s !! i = Some ci -> pc ci = PRun (notify k f v) -> Mutex s = None ->
  (forall j c, watching s k j -> Clients s !! j = Some c -> (length (Out c) < chan_cap)%nat) ->
  exists s', rtc step s s' /\ Set' s' = Set' s /\ Mutex s' = None /\
    KeyWatchers s' = alter (fun ids => ids ∖ list_to_set (dead s (ρ _ (elements ids)))) k (KeyWatchers s) /\
    forall j, Clients s' !! j =
      (fun c => at_pc i PIdle j
        (if decide (watching s k j /\ Status c <> 2) then set_Out c (Out c ++ [watch_msg k f v]) else c))
      <$> Clients s !! j.
Proof.
  intros Hok Hci Hpc HM Hroom.
  set (s1 := goto (set_Mutex s (Some i)) i [ANotify k f v; AUnlock]).
  assert (Hs1 : step s s1) by (eapply (step_act _ _ _ _ _ _ Hci Hpc); simpl; by rewrite HM).
  pose proof (goto_pc (set_Mutex s (Some i)) i [ANotify k f v; AUnlock] ci Hci) as Hc1.
  destruct (KeyWatchers s !! k) as [ids|] eqn:Ek.
  - set (loop := [ANotifyLoop (ρ _ (elements ids)) [] k f v; AUnlock]).
    set (s2 := goto s1 i loop).
    assert (Hs2 : step s1 s2) by (eapply (step_act _ _ _ _ _ _ Hc1 eq_refl); simpl; by rewrite Ek).
    pose proof (goto_pc s1 i loop _ Hc1) as Hc2.
    assert (HC2 : forall j, Clients s2 !! j = at_pc i (PRun loop) j <$> Clients s !! j).
    { intros j. unfold s2, s1. rewrite !lookup_goto. change (Clients (set_Mutex s (Some i))) with (Clients s).
      destruct (Clients s !! j); [|done]. simpl.
      f_equal. unfold at_pc. by repeat case_decide. }
    assert (Edead : forall l, dead s2 l = dead s l).
    { intros l. unfold dead. apply list_filter_iff. intros j. rewrite HC2. destruct (Clients s !! j); [|done].
      simpl. unfold at_pc. by case_decide. }
    edestruct (notify_loop_runs s2 i) with (3 := Hc2) (k := k) (f := f) (v := v) (ids := ids)
      as (s3 & Hr3 & K2 & K3 & K1 & HC3); try done.
    { eapply step_ok; [|exact Hs2]. by eapply step_ok. }
    { intros j c Hw Hc. rewrite HC2 in Hc. destruct (Clients s !! j) as [c'|] eqn:E; [|done].
      simpl in Hc. injection Hc as <-. pose proof (Hroom j c' Hw E). unfold at_pc. by case_decide. }
    exists s3. splits; try done.
    + etrans; [by apply rtc_once|]. etrans; [by apply rtc_once|]. done.
    + rewrite K1. apply map_eq. intros k'. rewrite !lookup_alter. case_decide; [|done].
      subst. change (KeyWatchers s2) with (KeyWatchers s). rewrite Ek. apply (f_equal Some).
      by rewrite Edead.
    + intros j. rewrite HC3, HC2. destruct (Clients s !! j) as [c|]; [|done]. simpl. f_equal.
      assert (Hperm : j ∈ ρ _ (elements ids) <-> watching s k j).
      { rewrite elem_of_range_order, elem_of_elements. unfold watching. by rewrite Ek. }
      unfold at_pc, visit. repeat case_decide; simplify_eq/=; try done; naive_solver.
  - set (s2 := goto s1 i [AUnlock]).
    assert (Hs2 : step s1 s2) by (eapply (step_act _ _ _ _ _ _ Hc1 eq_refl); simpl; by rewrite Ek).
    pose proof (goto_pc s1 i [AUnlock] _ Hc1) as Hc2.
    exists (goto (set_Mutex s2 None) i []). splits; try done.
    + etrans; [by apply rtc_once|]. etrans; [by apply rtc_once|].
      apply rtc_once. by eapply (step_act _ _ _ _ _ _ Hc2 eq_refl).
    + simpl. apply map_eq. intros k'. rewrite lookup_alter. case_decide; [|done]. subst. by rewrite Ek.
    + intros j. rewrite lookup_goto. change (Clients (set_Mutex s2 None)) with (Clients s2).
      unfold s2, s1. rewrite !lookup_goto. change (Clients (set_Mutex s (Some i))) with (Clients s).
      destruct (Clients s !! j) as [c|]; [|done]. simpl. f_equal.
      assert (Hno : ~ watching s k j) by (unfold watching; rewrite Ek; set_solver).
      unfold at_pc. repeat case_decide; simplify_eq/=; try done; naive_solver.
Qed.

(** ** The commands that change the store *)

(** What such a request does: the values of the reply, the change reported to
    the watchers, and the new store. *)
Definition mutation (st : Store) (msg : WatchMessage) : option (list string * (string * string * string) * Store) :=
  match Cmd msg, Values msg with
  | "hset", k :: f :: v :: _ => Some ([], (k, f, v), (Hset st k f v).2)
  | "hincrby", k :: f :: a :: _ =>
      let r := Hincrby st k f (Atoi a).1 in Some ([r.1], (k, f, r.1), r.2)
  | "del", k :: _ => Some ([], (k, "", ""), Del st k)
  | _, _ => None
  end.

Lemma dispatch_mutation s i msg vals k f v st :
  mutation (Set' s) msg = Some (vals, (k, f, v), st) ->
  dispatch s i msg = Ret (set_Set s st, ASend i (reply msg vals) :: notify k f v).
Proof.
  unfold mutation, dispatch. intros Hm.
  repeat case_decide;
    try (match goal with H : Cmd msg = _ |- _ => rewrite H in Hm end; try done).
  - unfold hsetProcess. destruct (Values msg) as [|k' [|f' [|v' r]]]; try done. by simplify_eq/=.
  - unfold delProcess. destruct (Values msg) as [|k' r]; try done. by simplify_eq/=.
  - unfold hincrbyProcess. destruct (Values msg) as [|k' [|f' [|v' r]]]; try done.
    cbn [mbind go_bind go_index lookup list_lookup]. destruct (Hincrby _ _ _ _). by simplify_eq/=.
  - repeat case_match; simplify_eq; congruence.
Qed.

(** Run on its own, a request that changes the store (hset, hincrby, del), taken by an idle
    connection [i] of a reachable server whose mutex is free and whose channels
    have room, runs to completion: the store becomes what the request asks for,
    the reply is queued for [i], every watcher of the key that is still
    connected is queued exactly one watch message with the change, the watchers
    that are disconnected are dropped, no other queue changes and the mutex is
    free again. *)
Lemma mutation_alone (s : WatchServer) (i : Z) (ci : WatchConnect) (msg : WatchMessage)
    (ms : list WatchMessage) (vals : list string) (k f v : string) (st : Store)
    (Hr : reachable s) (Hci : Clients s !! i = Some ci) (Hpc : pc ci = PIdle) (Hin : In ci = msg :: ms)
    (Hmx : Mutex s = None) (Hm : mutation (Set' s) msg = Some (vals, (k, f, v), st))
    (Hroom : forall j c, Clients s !! j = Some c -> (length (Out c) + 2 <= chan_cap)%nat) :
  exists s', rtc step s s' /\ Set' s' = st /\ Mutex s' = None /\
    (forall j c, Clients s !! j = Some c -> exists c', Clients s' !! j = Some c' /\
       pc c' = pc c /\ Status c' = Status c /\ In c' = (if decide (j = i) then ms else In c) /\
       Out c' = Out c ++ (if decide (j = i) then [reply msg vals] else [])
                      ++ (if decide (watching s k j /\ Status c <> 2) then [watch_msg k f v] else [])) /\
    (forall j, watching s' k j <-> watching s k j /\ (Status <$> Clients s !! j) <> Some 2) /\
    (forall k', k' <> k -> KeyWatchers s' !! k' = KeyWatchers s !! k').
Proof.
  pose proof (reachable_ok s Hr) as Hok.
  set (s0 := upd_conn s i (fun c => set_In c ms)).
  set (s1 := goto (set_Set s0 st) i (ASend i (reply msg vals) :: notify k f v)).
  assert (Hs1 : step s s1).
  { eapply step_handle; [done..|]. by apply dispatch_mutation. }
  assert (HC1 : forall j, Clients s1 !! j = (fun c => if decide (j = i)
      then set_pc (set_In c ms) (PRun (ASend i (reply msg vals) :: notify k f v)) else c) <$> Clients s !! j).
  { intros j. unfold s1. rewrite lookup_goto. change (Clients (set_Set s0 st)) with (Clients s0).
    unfold s0. rewrite lookup_upd_conn. unfold at_pc. destruct (Clients s !! j); repeat case_decide; done. }
  pose proof (Hroom i ci Hci) as Hri.
  set (s2 := goto (upd_conn s1 i (fun c => set_Out c (Out c ++ [reply msg vals]))) i (notify k f v)).
  assert (Hs2 : step s1 s2).
  { eapply (step_act s1 i (set_pc (set_In ci ms) (PRun (ASend i (reply msg vals) :: notify k f v))));
      [by rewrite HC1, Hci; simpl; rewrite decide_True|done|].
    cbn [run_action]. erewrite send_room; [done|by rewrite HC1, Hci; simpl; rewrite decide_True|]. simpl. lia. }
  assert (HC2 : forall j, Clients s2 !! j = (fun c => if decide (j = i)
      then set_pc (set_Out (set_In c ms) (Out c ++ [reply msg vals])) (PRun (notify k f v)) else c) <$> Clients s !! j).
  { intros j. unfold s2. rewrite lookup_goto, lookup_upd_conn, HC1. unfold at_pc.
    destruct (Clients s !! j); repeat case_decide; simplify_eq/=; repeat case_decide; done. }
  assert (HS2 : forall j, (Status <$> Clients s2 !! j) = (Status <$> Clients s !! j)).
  { intros j. rewrite HC2. destruct (Clients s !! j); [|done]. simpl. by case_decide. }
  edestruct (notify_runs s2 i) with (k := k) (f := f) (v := v)
    as (s3 & Hr3 & K1 & K2 & K3 & HC3); [|by rewrite HC2, Hci; simpl; rewrite decide_True|done|done|..].
  { eapply step_ok; [|exact Hs2]. by eapply step_ok. }
  { intros j c _. rewrite HC2. destruct (Clients s !! j) as [c'|] eqn:E; [|done]. simpl. intros [= <-].
    pose proof (Hroom j c' E). case_decide; simpl; [|lia]. rewrite length_app. simpl. lia. }
  change (watching s2) with (watching s) in HC3.
  exists s3. splits; try done.
  - etrans; [by apply rtc_once|]. by etrans; [apply rtc_once|].
  - intros j c Hc. rewrite HC3, HC2, Hc. simpl. eexists; split; [done|]. unfold at_pc.
    destruct (decide (j = i)) as [->|Hne]; simpl.
    + replace ci with c in * by congruence.
      repeat case_decide; simpl; splits; try done; try tauto; by rewrite <- ?app_assoc.
    + repeat case_decide; simpl; splits; try done; try tauto; by rewrite ?app_nil_r.
  - intros j. unfold watching. rewrite K3, lookup_alter, decide_True by done. simpl.
    destruct (KeyWatchers s !! k) as [ids|]; simpl; [|set_solver].
    rewrite elem_of_difference, elem_of_list_to_set. unfold dead.
    rewrite list_elem_of_filter, elem_of_range_order, elem_of_elements, HS2. naive_solver.
  - intros k' Hk'. rewrite K3, lookup_alter, decide_False by done. done.
Qed.

(** ** Blocking *)

(** The goroutine of [i] is inside notify, sending to connection [j] whose
    queue is full and whose only reader, the loop of runConn, is not running:
    it has returned, or it is the sender itself. *)
Record wedged (i j : Z) (s : WatchServer) : Prop := {
  wedged_mutex : Mutex s = Some i;
  wedged_sender : exists ci m rest, Clients s !! i = Some ci /\ pc ci = PRun (ANotifySend j m :: rest);
  wedged_queue : exists cj, Clients s !! j = Some cj /\ length (Out cj) = chan_cap /\ (pc cj = PExited \/ j = i)
}.

(** A step of another goroutine leaves both connections where they are. *)
Lemma wedged_frame i j s s' :
  wedged i j s -> Mutex s' = Mutex s ->
  (forall x c, Clients s !! x = Some c -> exists c', Clients s' !! x = Some c' /\
     (x = i \/ x = j -> pc c' = pc c) /\ (x = j -> Out c' = Out c)) ->
  wedged i j s'.
Proof.
  intros [HM (ci & m & rest & Hci & Hpi) (cj & Hcj & Hl & Hpj)] EM HC. split.
  - by rewrite EM.
  - destruct (HC i ci Hci) as (ci' & Hci' & Hp & _). exists ci', m, rest. split; [done|].
    rewrite Hp by auto. done.
  - destruct (HC j cj Hcj) as (cj' & Hcj' & Hp & Ho). exists cj'. split; [done|].
    rewrite Hp, Ho by auto. done.
Qed.

Lemma upd_frame s l f (P : Z -> Prop) (Q : Z -> Prop) :
  (forall c, (P l -> pc (f c) = pc c) /\ (Q l -> Out (f c) = Out c)) ->
  forall x c, Clients s !! x = Some c -> exists c', Clients (upd_conn s l f) !! x = Some c' /\
     (P x -> pc c' = pc c) /\ (Q x -> Out c' = Out c).
Proof.
  intros Hf x c Hc. rewrite lookup_upd_conn, Hc. case_decide; [subst|by exists c].
  exists (f c). split; [done|apply Hf].
Qed.

Lemma dispatch_frame s i msg s' acts :
  dispatch s i msg = Ret (s', acts) ->
  KeyWatchers s' = KeyWatchers s /\ Mutex s' = Mutex s /\ in_section acts = false /\
  (exists f, Clients s' = Clients (upd_conn s i f) /\
     forall c, pc (f c) = pc c /\ Out (f c) = Out c /\ reading (f c) = reading c /\ wire (f c) = wire c /\
               (Status (f c) = Status c \/ Status (f c) = 1)).
Proof.
  assert (Hid : Clients s = Clients (upd_conn s i id)).
  { apply map_eq. intros x. rewrite lookup_upd_conn. case_decide; [|done]. by rewrite option_fmap_id. }
  unfold dispatch. intros Hd. repeat case_decide;
    unfold initializeProcess, heartbeatProcess, KeyPrefixtProcess, delProcess, hgetProcess,
      hgetallProcess, hsetProcess, hincrbyProcess, notify, go_index in Hd;
    repeat match type of Hd with context [Values msg !! ?n] => destruct (Values msg !! n); [simpl in Hd|done] end;
    try destruct (Hincrby _ _ _ _); injection Hd as <- <-; splits; try done;
    try (exists id; split; [done|intros c; splits; try done; by left]).
  eexists. split; [done|]. intros c. splits; try done. by right.
Qed.

Lemma wedged_step i j s s' :
  server_ok s -> wedged i j s -> step s s' ->
  wedged i j s' /\ KeyWatchers s' = KeyWatchers s /\ dom (Clients s') = dom (Clients s).
Proof.
  intros Hok Hw Hstep. pose proof Hw as [HM (ci & m & rest & Hci & Hpi) (cj & Hcj & Hl & Hpj)].
  assert (Hdom : forall l f, dom (Clients (upd_conn s l f)) = dom (Clients s))
    by (intros; unfold upd_conn; simpl; apply dom_alter_L).
  (* a goroutine that is idle is neither of the two *)
  assert (Hidle : forall l c, Clients s !! l = Some c -> pc c = PIdle -> ~ (l = i \/ l = j)).
  { intros l c Hc Hp [->| ->]; [congruence|]. replace c with cj in Hp by congruence.
    destruct Hpj as [?| ->]; congruence. }
  destruct Hstep as [s|s l Hia EM|s l c ml Hc Hst Hlt|s l c Hc Hrd|s l c ml ms Hc Hpc Ho
    |s l c ml ms s' acts Hc Hpc Hi Hd|s l c ml ms why Hc Hpc Hi Hd|s l c Hc Hpc|s l c a r s' Hc Hpc Hrun].
  - splits; try done. by apply (wedged_frame i j s); [..|eauto].
  - congruence.
  - splits; try done. apply (wedged_frame i j s); [done..|]. by apply upd_frame.
  - splits; try done. apply (wedged_frame i j s); [done..|]. by apply upd_frame.
  - splits; try done. apply (wedged_frame i j s); [done..|]. apply upd_frame. intros c'.
    pose proof (Hidle l c Hc Hpc). split; [done|]. intros ->. tauto.
  - pose proof (Hidle l c Hc Hpc) as Hn.
    destruct (dispatch_frame _ _ _ _ _ Hd) as (EK & EM & _ & f & EC & Hf). splits; [|done|].
    + apply (wedged_frame i j s); [done|done|]. intros x cx Hx. unfold goto.
      rewrite lookup_upd_conn, EC, lookup_upd_conn, lookup_upd_conn, Hx. simpl.
      case_decide; [subst; eexists; split; [done|]; tauto|by exists cx].
    + unfold goto, upd_conn at 1. simpl. rewrite dom_alter_L, EC. unfold upd_conn; simpl. by rewrite !dom_alter_L.
  - splits; try done. apply (wedged_frame i j s); [done..|]. apply upd_frame. intros c'.
    pose proof (Hidle l c Hc Hpc). split; [tauto|done].
  - splits; try done. apply (wedged_frame i j s); [done..|]. apply upd_frame. intros c'.
    pose proof (Hidle l c Hc Hpc). split; [tauto|done].
  - assert (Hblocked : forall to x, writeMsgToClient s to x <> None -> to <> j).
    { intros to x Hs ->. apply Hs. unfold writeMsgToClient. rewrite Hcj. simpl. rewrite decide_False; [done|lia]. }
    assert (Hli : l <> i).
    { intros ->. replace c with ci in Hpc by congruence. rewrite Hpi in Hpc. injection Hpc as <- <-. simpl in Hrun.
      apply bind_Some in Hrun as (s1 & Hs & _). apply (Hblocked j m); [by rewrite Hs|done]. }
    assert (Hlj : l <> j) by (intros ->; replace c with cj in Hpc by congruence; destruct Hpj; congruence).
    destruct (ok_conns s Hok l c Hc) as [_ _ H3 _ H5]. pose proof (H3 _ Hpc) as Hsh.
    unfold holds in H5. rewrite Hpc, HM in H5.
    assert (Hsec : in_section (a :: r) = false).
    { destruct (in_section (a :: r)); [|done]. destruct H5 as [H5 _]. specialize (H5 eq_refl). congruence. }
    destruct a as [to x| | | | | |]; try done; simpl in Hrun; [|by rewrite HM in Hrun].
    apply bind_Some in Hrun as (s1 & Hs & [= <-]).
    pose proof (Hblocked to x ltac:(by rewrite Hs)) as Hto.
    unfold writeMsgToClient in Hs. apply bind_Some in Hs as (ct & Hct & Hs).
    case_decide; [|done]. injection Hs as <-. splits; [|done|].
    + apply (wedged_frame i j s); [done|done|]. intros y cy Hy. unfold goto.
      rewrite !lookup_upd_conn, Hy. simpl. repeat case_decide; subst; (eexists; split; [done|split; intros; simpl; try done; tauto]).
    + unfold goto, upd_conn; simpl. by rewrite !dom_alter_L.
Qed.

Lemma wedged_forever i j s s' :
  reachable s -> wedged i j s -> rtc step s s' ->
  wedged i j s' /\ KeyWatchers s' = KeyWatchers s /\ dom (Clients s') = dom (Clients s).
Proof.
  intros Hr%reachable_ok Hw Hsteps. induction Hsteps as [|s s1 s' Hstep _ IH]; [done|].
  destruct (wedged_step i j s s1 Hr Hw Hstep) as (Hw1 & EK & ED).
  destruct IH as (? & ? & ?); [by eapply step_ok|done|]. splits; [done|congruence..].
Qed.

(** ** An executable scheduler *)

Inductive label :=
  | LAccept | LRegister (i : Z) | LRead (i : Z) (m : WatchMessage) | LClose (i : Z)
  | LWrite (i : Z) | LHandle (i : Z) | LExit (i : Z) | LAct (i : Z).

Definition idle (c : WatchConnect) : bool := match pc c with PIdle => true | _ => false end.

Definition exec (l : label) (s : WatchServer) : option WatchServer :=
  match l with
  | LAccept => Some (do_accept s)
  | LRegister i => guard (i ∈ accepted s /\ Mutex s = None);; Some (do_register s i)
  | LRead i m => c ← Clients s !! i; guard (reading c = true /\ (length (In c) < chan_cap)%nat);;
      Some (upd_conn s i (fun c => set_In c (In c ++ [m])))
  | LClose i => c ← Clients s !! i; guard (reading c = true);;
      Some (upd_conn s i (fun c => set_reading (set_Status c 2) false))
  | LWrite i => c ← Clients s !! i; guard (idle c = true);;
      match Out c with
      | m :: ms => Some (upd_conn s i (fun c => set_wire (set_Out c ms) (wire c ++ [m])))
      | [] => None
      end
  | LHandle i => c ← Clients s !! i; guard (idle c = true);;
      match In c with
      | m :: ms => match dispatch (upd_conn s i (fun c => set_In c ms)) i m with
                   | Ret (s', acts) => Some (goto s' i acts)
                   | Panic _ => Some (upd_conn s i (fun c => set_pc (set_In c ms) PExited))
                   | Err _ => None
                   end
      | [] => None
      end
  | LExit i => c ← Clients s !! i; guard (idle c = true);; Some (upd_conn s i (fun c => set_pc c PExited))
  | LAct i => c ← Clients s !! i;
      match pc c with PRun (a :: rest) => run_action s i a rest | _ => None end
  end.

Lemma exec_step l s s' : exec l s = Some s' -> step s s'.
Proof.
  assert (Hidle : forall c, idle c = true -> pc c = PIdle) by (intros c; unfold idle; by destruct (pc c)).
  destruct l; simpl; intros He;
    repeat match goal with
      | H : (_ ≫= _) = Some _ |- _ => apply bind_Some in H as (? & ? & H)
      | H : guard _ = Some _ |- _ => clear H
      end;
    repeat (case_guard; simpl in *; [|done]); simplify_eq.
  - constructor.
  - destruct_and!. by constructor.
  - destruct_and!. by eapply step_read.
  - by eapply step_close.
  - destruct (Out x) as [|m ms] eqn:E; [done|]. injection He as <-. eapply step_write; eauto.
  - destruct (In x) as [|m ms] eqn:E; [done|]. destruct (dispatch _ _ _) as [[s1 acts]|e|e] eqn:Ed; [|done|];
      injection He as <-; [eapply step_handle|eapply step_panic]; eauto.
  - eapply step_exit; eauto.
  - destruct (pc x) as [|[|a r]|] eqn:E; try done. by eapply step_act.
Qed.

Definition run (ls : list label) (s : WatchServer) : option WatchServer :=
  foldl (fun o l => o ≫= exec l) (Some s) ls.

Lemma run_rtc ls : forall s s', run ls s = Some s' -> rtc step s s'.
Proof.
  induction ls as [|l ls IH] using rev_ind; intros s s' Hr; [injection Hr as <-; done|].
  unfold run in Hr. rewrite foldl_app in Hr. simpl in Hr. apply bind_Some in Hr as (s1 & Hr & He).
  etrans; [by apply IH|]. apply rtc_once. by eapply exec_step.
Qed.

Lemma run_reachable ls db s : run ls (NewWatchServer db) = Some s -> reachable s.
Proof. intros Hr. exists db. by eapply run_rtc. Qed.

End watch_server.

#[local] Existing Instance watching_dec.

(** ** Schedules *)

Definition request (cmd : string) (seq : Z) (values : list string) : WatchMessage :=
  {| Cmd := cmd; Seq := seq; Values := values |}.

Definition connect (i : Z) : list label := [LAccept; LRegister i].

(** Connection [i] receives a request, handles it in [n] actions. *)
Definition serve (i : Z) (m : WatchMessage) (n : nat) : list label :=
  LRead i m :: LHandle i :: repeat (LAct i) n.

(** A client asks to watch "k" and is gone before the request is handled; then
    another client sets "k" 32 times. *)
Definition stale_schedule : list label :=
  connect 1 ++ [LRead 1 (request "initialize" 1 ["k"]); LClose 1; LHandle 1] ++ repeat (LAct 1) 4 ++ [LExit 1]
  ++ connect 2
  ++ concat (repeat (serve 2 (request "hset" 1 ["k"; "f"; "v"]) 7 ++ [LWrite 2]) 31)
  ++ serve 2 (request "hset" 1 ["k"; "f"; "v"]) 4.

(** A client that watches "k" has 31 replies queued when it sets "k". *)
Definition self_schedule : list label :=
  connect 1 ++ serve 1 (request "initialize" 1 ["k"]) 4 ++ [LWrite 1]
  ++ concat (repeat (serve 1 (request "heartbeat" 1 []) 1) 31)
  ++ serve 1 (request "hset" 1 ["k"; "f"; "v"]) 4.

(** The schedule can be run, and ends in a state [test] accepts. *)
Definition runs_to (ls : list label) (test : @WatchServer BoltMap -> bool) : bool :=
  match run range_id ls (NewWatchServer None) with Some s => test s | None => false end.

Definition after (ls : list label) : @WatchServer BoltMap :=
  default (NewWatchServer None) (run range_id ls (NewWatchServer None)).

Lemma runs_to_after ls test : runs_to ls test = true -> reachable range_id (after ls) /\ test (after ls) = true.
Proof.
  unfold runs_to, after. destruct (run _ _ _) as [s|] eqn:E; [|done]. intros Ht. split; [|done].
  by eapply (run_reachable range_id ls None).
Qed.

Definition is_wedged (i j : Z) (s : @WatchServer BoltMap) : bool :=
  match Clients s !! i, Clients s !! j with
  | Some ci, Some cj =>
      match pc ci with PRun (ANotifySend j' _ :: _) => Z.eqb j' j | _ => false end
      && bool_decide (Mutex s = Some i) && bool_decide (length (Out cj) = chan_cap)
      && (match pc cj with PExited => true | _ => false end || Z.eqb j i)
  | _, _ => false
  end.

Lemma is_wedged_spec i j s : is_wedged i j s = true -> wedged i j s.
Proof.
  unfold is_wedged. destruct (Clients s !! i) as [ci|] eqn:Ei, (Clients s !! j) as [cj|] eqn:Ej; try done.
  intros [[[H1 H2%bool_decide_eq_true]%andb_true_iff H3%bool_decide_eq_true]%andb_true_iff H4]%andb_true_iff.
  split; [done|..].
  - destruct (pc ci) as [|[|[] rest]|] eqn:Ep; try done. apply Z.eqb_eq in H1 as ->. by do 3 eexists.
  - exists cj. splits; [done..|]. apply orb_true_iff in H4 as [H4|H4%Z.eqb_eq]; [left|by right].
    by destruct (pc cj).
Qed.

(** A client that watches "k". *)
Lemma watch_server_invariant_witness :
  exists c, Clients (after (connect 1 ++ serve 1 (request "initialize" 1 ["k"]) 4)) !! 1 = Some c /\
    (length (Out c) <= 32)%nat.
Proof.
  destruct (watch_server_invariant range_id (after (connect 1 ++ serve 1 (request "initialize" 1 ["k"]) 4)))
    as (H & _ & _).
  - apply (runs_to_after _ (fun _ => true)). by vm_compute.
  - destruct (Clients (after (connect 1 ++ serve 1 (request "initialize" 1 ["k"]) 4)) !! 1) as [c|] eqn:E.
    + exists c. split; [done|]. by apply (H 1 c).
    + exfalso. apply (f_equal (fun o : option WatchConnect => bool_decide (is_Some o))) in E. by vm_compute in E.
Defined.

(** The server can block for good.  Once a connection's goroutine, holding
    the mutex inside notify, sends to a connection whose queue is full and whose
    loop has returned, or to itself, no later step changes that: the mutex stays
    taken, no watch is added or dropped and no new client is registered.  Both
    situations occur: a client that disconnects before its initialize request is
    handled stays marked as connected (initializeProcess resets Status), and
    after 31 changes of its key the queue that nobody reads is full; and a
    client that watches the key it sets, with 31 replies queued, sends to its
    own full queue. *)
Lemma watch_server_deadlock :
  (forall (B : Bolt) (ρ : RangeOrder) (i j : Z) (s s' : WatchServer),
     reachable ρ s -> wedged i j s -> rtc (step ρ) s s' ->
     wedged i j s' /\ KeyWatchers s' = KeyWatchers s /\ dom (Clients s') = dom (Clients s)) /\
  (exists s : @WatchServer BoltMap, reachable range_id s /\ wedged 2 1 s) /\
  (exists s : @WatchServer BoltMap, reachable range_id s /\ wedged 1 1 s).
Proof.
  splits.
  - intros B ρ i j s s'. apply wedged_forever.
  - exists (after stale_schedule).
    destruct (runs_to_after stale_schedule (is_wedged 2 1)) as [Hr Hw]; [by vm_compute|].
    split; [done|by apply is_wedged_spec].
  - exists (after self_schedule).
    destruct (runs_to_after self_schedule (is_wedged 1 1)) as [Hr Hw]; [by vm_compute|].
    split; [done|by apply is_wedged_spec].
Qed.
