(* ===== verification/WatchDeliver.v ===== *)
(** * Delivery of changes by the watch server, under every schedule

    Follows one request that changes the store (hset, hincrby, del) from the
    moment its handler has run, through any interleaving with the other
    connections, the readers and the writers: what is sent to whom, how many
    actions the handler takes, what it can wait for, and who has been told when
    it is done.  The schedules are the labels of [WatchServer.exec]. *)

From Stdlib Require Import ZArith Lia Ascii String.
From stdpp Require Import base numbers list strings gmap.
From S2P Require Import Prelude GoStd HashSet WatchMessage WatchServer.

Section deliver.
Context {B : Bolt} (ρ : RangeOrder).

(** ** What a schedule sends *)

(** The send a label makes: the sender's goroutine, the queue, the message. *)
Definition emits (l : label) (s : WatchServer) : list (Z * (Z * WatchMessage)) :=
  match l with
  | LAct i => match pc <$> Clients s !! i with
              | Some (PRun (ASend to m :: _)) | Some (PRun (ANotifySend to m :: _)) => [(i, (to, m))]
              | _ => []
              end
  | _ => []
  end.

Fixpoint trace (ls : list label) (s : WatchServer) : list (Z * (Z * WatchMessage)) :=
  match ls with
  | [] => []
  | l :: ls => emits l s ++ match exec ρ l s with Some s' => trace ls s' | None => [] end
  end.

(** What was sent by the goroutine of [i], and to the queue of [j]. *)
Definition sent_by (i : Z) (t : list (Z * (Z * WatchMessage))) : list (Z * WatchMessage) :=
  omap (fun e => if decide (e.1 = i) then Some e.2 else None) t.
Definition sent_to (j : Z) (t : list (Z * (Z * WatchMessage))) : list WatchMessage :=
  omap (fun e => if decide (e.2.1 = j) then Some e.2.2 else None) t.

(** The actions of [i]'s handler in a schedule. *)
Definition is_act (i : Z) (l : label) : bool := match l with LAct j => bool_decide (j = i) | _ => false end.
Definition acts_of (i : Z) (ls : list label) : nat := length (filter (fun l => is_act i l = true) ls).

Lemma run_snoc ls l s : run ρ (ls ++ [l]) s = run ρ ls s ≫= exec ρ l.
Proof. unfold run. by rewrite foldl_app. Qed.

Lemma run_None ls : foldl (fun o l => o ≫= exec ρ l) None ls = None.
Proof. by induction ls. Qed.

Lemma run_cons l ls s : run ρ (l :: ls) s = exec ρ l s ≫= run ρ ls.
Proof. unfold run. simpl. destruct (exec ρ l s); simpl; [done|apply run_None]. Qed.

Lemma trace_snoc l ls : forall s s1, run ρ ls s = Some s1 -> trace (ls ++ [l]) s = trace ls s ++ emits l s1.
Proof.
  induction ls as [|a ls IH]; intros s s1.
  - intros [= <-]. simpl. destruct (exec ρ l s); by rewrite app_nil_r.
  - rewrite run_cons. intros (s2 & E & Hr)%bind_Some. simpl. rewrite E, (IH s2 s1 Hr). by rewrite app_assoc.
Qed.

(** ** What a label does to a connection *)

(** The label is a step of the main goroutine of [j] other than a write. *)
Definition moves (l : label) (j : Z) : bool :=
  match l with LHandle i | LExit i | LAct i => bool_decide (i = j) | _ => false end.

Definition conn_step (l : label) (s : WatchServer) (j : Z) (c c' : WatchConnect) : Prop :=
  (reading c' = true -> reading c = true) /\
  (Status c' = 2 -> Status c = 2 \/ reading c' = false) /\
  wire c' ++ Out c' = wire c ++ Out c ++ sent_to j (emits l s) /\
  (moves l j = false -> pc c' = pc c).

Lemma conn_step_same l s j c : sent_to j (emits l s) = [] -> conn_step l s j c c.
Proof. intros E. unfold conn_step. rewrite E, app_nil_r. splits; try done. by left. Qed.

(** A label that sends nothing and changes one connection. *)
Lemma upd_conn_step l s i f j c :
  emits l s = [] -> Clients s !! j = Some c ->
  (forall c, Clients s !! i = Some c -> conn_step l s i c (f c)) ->
  exists c', Clients (upd_conn s i f) !! j = Some c' /\ conn_step l s j c c'.
Proof.
  intros El Hc Hf. rewrite lookup_upd_conn, Hc. case_decide as E.
  - subst. exists (f c). split; [done|by apply Hf].
  - exists c. split; [done|]. apply conn_step_same. by rewrite El.
Qed.

(** The goroutine of [i] goes on; nothing else of the connections changes. *)
Lemma goto_conn_step s s1 i acts j c c1 :
  Clients s !! j = Some c -> Clients s1 !! j = Some c1 ->
  reading c1 = reading c -> Status c1 = Status c -> pc c1 = pc c ->
  wire c1 ++ Out c1 = wire c ++ Out c ++ sent_to j (emits (LAct i) s) ->
  exists c', Clients (goto s1 i acts) !! j = Some c' /\ conn_step (LAct i) s j c c'.
Proof.
  intros Hc Hc1 Er Es Ep Ew. rewrite lookup_goto, Hc1. eexists. split; [done|].
  unfold at_pc, conn_step. simpl. case_decide as Ej; simpl.
  - subst. splits; [congruence|rewrite Es; by left|done|]. by rewrite bool_decide_eq_true_2.
  - splits; [congruence|rewrite Es; by left|done|done].
Qed.

(** A send and the move of the sender. *)
Lemma send_conn_step s i to m s' acts j c :
  emits (LAct i) s = [(i, (to, m))] -> writeMsgToClient s to m = Some s' -> Clients s !! j = Some c ->
  exists c', Clients (goto s' i acts) !! j = Some c' /\ conn_step (LAct i) s j c c'.
Proof.
  intros El Hw Hc. unfold writeMsgToClient in Hw. apply bind_Some in Hw as (ct & Hct & Hw).
  case_decide; [|done]. injection Hw as <-.
  destruct (decide (j = to)) as [->|Hne].
  - apply (goto_conn_step s _ i acts to c (set_Out c (Out c ++ [m]))); try done.
    + by rewrite lookup_upd_conn, decide_True, Hc by done.
    + rewrite El. simpl. by rewrite decide_True by done.
  - apply (goto_conn_step s _ i acts j c c); try done.
    + by rewrite lookup_upd_conn, decide_False by done.
    + rewrite El. simpl. rewrite decide_False by done. by rewrite app_nil_r.
Qed.

(** An action of [i]'s handler. *)
Lemma act_conn_step s s' i ci a rest j c :
  Clients s !! i = Some ci -> pc ci = PRun (a :: rest) -> run_action ρ s i a rest = Some s' ->
  Clients s !! j = Some c -> exists c', Clients s' !! j = Some c' /\ conn_step (LAct i) s j c c'.
Proof.
  intros Hi Hp Hr Hc.
  assert (El : emits (LAct i) s = match a with ASend to m | ANotifySend to m => [(i, (to, m))] | _ => [] end).
  { simpl. rewrite Hi. simpl. rewrite Hp. by destruct a. }
  assert (G : forall s1 acts, Clients s1 = Clients s -> emits (LAct i) s = [] ->
    exists c', Clients (goto s1 i acts) !! j = Some c' /\ conn_step (LAct i) s j c c').
  { intros s1 acts EC Ee. apply (goto_conn_step s s1 i acts j c c); try done; [congruence|]. by rewrite Ee, app_nil_r. }
  destruct a as [to m| | |keys|k f v|[|x ids] d k f v|to m]; simpl in Hr.
  - apply bind_Some in Hr as (s1 & Hw & [= <-]). by eapply send_conn_step.
  - destruct (Mutex s); [done|]. injection Hr as <-. by apply G.
  - injection Hr as <-. by apply G.
  - injection Hr as <-. by apply G.
  - destruct (KeyWatchers s !! k); injection Hr as <-; by apply G.
  - injection Hr as <-. by apply G.
  - apply bind_Some in Hr as (cx & _ & Hr). case_decide; injection Hr as <-; by apply G.
  - apply bind_Some in Hr as (s1 & Hw & [= <-]). by eapply send_conn_step.
Qed.

(** A request is handled. *)
Lemma handle_conn_step s s' i acts ms m j c :
  dispatch ρ (upd_conn s i (fun c => set_In c ms)) i m = Ret (s', acts) -> Clients s !! j = Some c ->
  exists c', Clients (goto s' i acts) !! j = Some c' /\ conn_step (LHandle i) s j c c'.
Proof.
  intros (_ & _ & _ & f & EC & Hf)%dispatch_frame Hc.
  rewrite lookup_goto, EC, !lookup_upd_conn, Hc. unfold at_pc, conn_step. simpl. case_decide as Ej; simpl.
  - subst. eexists. split; [done|]. simpl. destruct (Hf (set_In c ms)) as (_ & H2 & H3 & H4 & H5).
    rewrite bool_decide_eq_true_2, H2, H3, H4, app_nil_r by done. splits; try done.
    intros E. left. destruct H5 as [H5|H5]; rewrite H5 in E; done.
  - eexists. split; [done|]. rewrite app_nil_r. splits; try done. by left.
Qed.

Lemma exec_conn l s s' j c :
  server_ok s -> exec ρ l s = Some s' -> Clients s !! j = Some c ->
  exists c', Clients s' !! j = Some c' /\ conn_step l s j c c'.
Proof.
  intros Hok He Hc.
  destruct l as [|i|i m|i|i|i|i|i]; simpl in He;
    try (apply bind_Some in He as (ci & Hi & He)); repeat (case_guard; simpl in *; [|done]).
  - injection He as <-. exists c. split; [done|by apply conn_step_same].
  - injection He as <-. exists c. split; [|by apply conn_step_same]. simpl. rewrite lookup_insert_ne; [done|].
    intros ->. destruct (ok_ids s Hok j ltac:(by eexists)) as [_ []]. by destruct_and!.
  - injection He as <-. apply upd_conn_step; [done..|]. intros c1 _. unfold conn_step. simpl. rewrite app_nil_r.
    splits; try done. by left.
  - injection He as <-. apply upd_conn_step; [done..|]. intros c1 _. unfold conn_step. simpl. rewrite app_nil_r.
    splits; try done. by right.
  - destruct (Out ci) as [|m ms] eqn:Eo; [done|]. injection He as <-. apply upd_conn_step; [done..|].
    intros c1 E1. replace c1 with ci by congruence. unfold conn_step. simpl. rewrite app_nil_r, Eo, <- app_assoc.
    splits; try done. by left.
  - destruct (In ci) as [|m ms] eqn:Ei; [done|]. destruct (dispatch _ _ _ _) as [[s1 acts]|e|w] eqn:Ed; [|done|].
    + injection He as <-. by eapply handle_conn_step.
    + injection He as <-. apply upd_conn_step; [done..|]. intros c1 _. unfold conn_step. simpl.
      rewrite bool_decide_eq_true_2, app_nil_r by done. splits; try done. by left.
  - injection He as <-. apply upd_conn_step; [done..|]. intros c1 _. unfold conn_step. simpl.
    rewrite bool_decide_eq_true_2, app_nil_r by done. splits; try done. by left.
  - destruct (pc ci) as [|[|a rest]|] eqn:Ep; try done. by eapply act_conn_step.
Qed.

(** Where a connection comes from. *)
Lemma exec_new l s s' j c' :
  exec ρ l s = Some s' -> Clients s' !! j = Some c' -> is_Some (Clients s !! j) \/ (l = LRegister j /\ c' = new_conn).
Proof.
  intros He Hc'. assert (Hl : l = LRegister j \/ l <> LRegister j).
  { destruct l as [|i|i m|i|i|i|i|i]; try by right. destruct (decide (i = j)) as [->|Hne]; [by left|right; congruence]. }
  destruct Hl as [->|Hne].
  - right. split; [done|]. simpl in He. case_guard; [|done]. injection He as <-. simpl in Hc'. rewrite lookup_insert_eq in Hc'. congruence.
  - left. destruct (Clients s !! j) as [c|] eqn:E; [done|exfalso].
    assert (Hu : forall s i f, Clients s !! j = None -> Clients (upd_conn s i f) !! j = None).
    { intros s1 i f E1. rewrite lookup_upd_conn, E1. by case_decide. }
    assert (Hg : forall s i acts, Clients s !! j = None -> Clients (goto s i acts) !! j = None) by (intros; by apply Hu).
    assert (Hw : forall s to m s', writeMsgToClient s to m = Some s' -> Clients s !! j = None -> Clients s' !! j = None).
    { unfold writeMsgToClient. intros s1 to m s2 (ct & _ & H)%bind_Some E1. case_decide; [|done]. injection H as <-. by apply Hu. }
    assert (Clients s' !! j = None); [|congruence]. clear Hc'.
    destruct l as [|i|i m|i|i|i|i|i]; simpl in He;
      try (apply bind_Some in He as (ci & Hi & He)); repeat (case_guard; simpl in He; [|done]).
    + injection He as <-. done.
    + injection He as <-. simpl. rewrite lookup_insert_ne by congruence. done.
    + injection He as <-. by apply Hu.
    + injection He as <-. by apply Hu.
    + destruct (Out ci); [done|]. injection He as <-. by apply Hu.
    + destruct (In ci) as [|m ms]; [done|]. destruct (dispatch _ _ _ _) as [[s1 acts]|e|w] eqn:Ed; [|done|].
      * injection He as <-. apply dispatch_frame in Ed as (_ & _ & _ & f & EC & _). apply Hg. rewrite EC. by apply Hu, Hu.
      * injection He as <-. by apply Hu.
    + injection He as <-. by apply Hu.
    + destruct (pc ci) as [|[|a rest]|]; try done.
      destruct a as [to m| | |keys|k f v|[|x ids] d k f v|to m]; simpl in He;
        repeat match goal with
          | H : (_ ≫= _) = Some _ |- _ => apply bind_Some in H as (? & ? & H)
          | H : match ?o with Some _ => _ | None => _ end = Some _ |- _ => destruct o; try done
          | H : (if decide _ then _ else _) = Some _ |- _ => case_decide
          end; injection He as <-; eauto.
Qed.

(** ** Where a handler goes on *)

Definition next_acts (s : WatchServer) (a : action) (rest : list action) : list action :=
  match a with
  | ANotify k f v => match KeyWatchers s !! k with
                     | None => rest
                     | Some ids => ANotifyLoop (ρ _ (elements ids)) [] k f v :: rest
                     end
  | ANotifyLoop (j :: ids) d k f v =>
      if decide ((Status <$> Clients s !! j) = Some 2) then ANotifyLoop ids (d ++ [j]) k f v :: rest
      else ANotifySend j (watch_msg k f v) :: ANotifyLoop ids d k f v :: rest
  | _ => rest
  end.
Definition pc_of (acts : list action) : proc := match acts with [] => PIdle | _ => PRun acts end.

Lemma act_next s s' i ci a rest :
  Clients s !! i = Some ci -> run_action ρ s i a rest = Some s' ->
  exists ci', Clients s' !! i = Some ci' /\ pc ci' = pc_of (next_acts s a rest).
Proof.
  intros Hi Hr.
  assert (Hg : forall s1 acts, is_Some (Clients s1 !! i) -> exists c, Clients (goto s1 i acts) !! i = Some c /\ pc c = pc_of acts).
  { intros s1 acts [c1 E]. eexists. by rewrite (goto_pc s1 i acts c1 E). }
  assert (Hw : forall to m s1, writeMsgToClient s to m = Some s1 -> is_Some (Clients s1 !! i)).
  { unfold writeMsgToClient. intros to m s1 (ct & _ & H)%bind_Some. case_decide; [|done]. injection H as <-.
    rewrite lookup_upd_conn, Hi. by case_decide. }
  destruct a as [to m| | |keys|k f v|[|x ids] d k f v|to m]; simpl in Hr |- *.
  - apply bind_Some in Hr as (s1 & H & [= <-]). eauto.
  - destruct (Mutex s); [done|]. injection Hr as <-. apply Hg. by exists ci.
  - injection Hr as <-. apply Hg. by exists ci.
  - injection Hr as <-. apply Hg. by exists ci.
  - destruct (KeyWatchers s !! k); injection Hr as <-; apply Hg; by exists ci.
  - injection Hr as <-. apply Hg. by exists ci.
  - apply bind_Some in Hr as (cx & Hx & Hr). rewrite Hx. simpl.
    destruct (decide (Status cx = 2)) as [E|E]; injection Hr as <-; [rewrite decide_True by congruence|rewrite decide_False by congruence];
      apply Hg; by exists ci.
  - apply bind_Some in Hr as (s1 & H & [= <-]). eauto.
Qed.

(** ** Who is dropped from the watchers *)

(** The connections a running notify has found closed. *)
Definition dropping (acts : list action) : list Z :=
  match acts with
  | ANotifyLoop _ d _ _ _ :: _ => d
  | ANotifySend _ _ :: ANotifyLoop _ d _ _ _ :: _ => d
  | _ => []
  end.

Definition gone (s : WatchServer) (j : Z) : Prop := exists c, Clients s !! j = Some c /\ reading c = false.

Record gone_ok (s : WatchServer) : Prop := {
  g_status : forall j c, Clients s !! j = Some c -> Status c = 2 -> reading c = false;
  g_drop : forall i c acts j, Clients s !! i = Some c -> pc c = PRun acts -> j ∈ dropping acts -> gone s j
}.

Lemma gone_mono l s s' j : server_ok s -> exec ρ l s = Some s' -> gone s j -> gone s' j.
Proof.
  intros Hok He (c & Hc & Hr). destruct (exec_conn l s s' j c Hok He Hc) as (c' & Hc' & H & _). exists c'.
  split; [done|]. destruct (reading c'); [|done]. specialize (H eq_refl). congruence.
Qed.

Lemma dropping_next s i c a rest j :
  server_ok s -> gone_ok s -> Clients s !! i = Some c -> pc c = PRun (a :: rest) ->
  j ∈ dropping (next_acts s a rest) -> gone s j.
Proof.
  intros Hok [Hst Hd] Hc Hp Hj.
  pose proof (ok_shape _ _ _ _ (ok_conns s Hok i c Hc) _ Hp) as Hsh.
  specialize (Hd i c (a :: rest) j Hc Hp). unfold next_acts in Hj.
  inversion Hsh as [i' m'|i' m' x Hx|x Hx|x Hx|i' m' ids d k f v|]; subst; simpl in Hj; try (by apply elem_of_nil in Hj).
  - destruct x; try done; by apply elem_of_nil in Hj.
  - destruct a as [| | |keys|k f v|[|x ids] d k f v|]; try done; simpl in Hj; try (by apply elem_of_nil in Hj).
    + destruct (KeyWatchers s !! k); by apply elem_of_nil in Hj.
    + case_decide as E; simpl in Hj; [|by apply Hd].
      apply elem_of_app in Hj as [Hj|Hj]; [by apply Hd|]. apply list_elem_of_singleton in Hj as ->.
      destruct (Clients s !! x) as [cx|] eqn:Ex; [|done]. injection E as E. exists cx. eauto.
  - by apply Hd.
Qed.

Lemma handle_pc s s' i :
  exec ρ (LHandle i) s = Some s' -> exists c', Clients s' !! i = Some c' /\ forall acts, pc c' = PRun acts -> in_section acts = false.
Proof.
  simpl. intros (ci & Hi & He)%bind_Some. case_guard; simpl in He; [|done].
  destruct (In ci) as [|m ms]; [done|]. destruct (dispatch _ _ _ _) as [[s1 acts]|e|w] eqn:Ed; [|done|]; injection He as <-.
  - apply dispatch_frame in Ed as (_ & _ & Hs & f & EC & _). rewrite lookup_goto, EC, !lookup_upd_conn.
    rewrite !decide_True, Hi by done. simpl. eexists. split; [done|]. unfold at_pc. rewrite decide_True by done. simpl.
    intros acts' E. destruct acts; [done|]. by injection E as <-.
  - rewrite lookup_upd_conn, decide_True, Hi by done. by eexists.
Qed.

Lemma exec_gone_ok l s s' : server_ok s -> gone_ok s -> exec ρ l s = Some s' -> gone_ok s'.
Proof.
  intros Hok Hg He. pose proof Hg as [Hst Hd]. split.
  - intros j c' Hc' E. destruct (exec_new l s s' j c' He Hc') as [[c Hc]|[_ ->]]; [|done].
    destruct (exec_conn l s s' j c Hok He Hc) as (c2 & Hc2 & H1 & H2 & _). replace c2 with c' in * by congruence.
    destruct (H2 E) as [E'|E']; [|done]. specialize (Hst j c Hc E'). destruct (reading c'); [|done].
    specialize (H1 eq_refl). congruence.
  - intros i c' acts j Hc' Hp Hj.
    destruct (exec_new l s s' i c' He Hc') as [[c Hc]|[_ ->]]; [|done].
    apply (gone_mono l s s' j Hok He).
    destruct (moves l i) eqn:Em.
    + destruct l as [|x|x m|x|x|x|x|x]; try done; simpl in Em; apply bool_decide_eq_true in Em as ->.
      * destruct (handle_pc s s' i He) as (c2 & Hc2 & H2). replace c2 with c' in * by congruence.
        specialize (H2 acts Hp). exfalso. destruct acts as [|[] r]; by try apply elem_of_nil in Hj.
      * simpl in He. rewrite Hc in He. simpl in He. case_guard; [|done]. injection He as <-.
        rewrite lookup_upd_conn, decide_True, Hc in Hc' by done. injection Hc' as <-. done.
      * simpl in He. rewrite Hc in He. simpl in He. destruct (pc c) as [|[|a rest]|] eqn:Ep; try done.
        destruct (act_next s s' i c a rest Hc He) as (c2 & Hc2 & H2). replace c2 with c' in * by congruence.
        apply (dropping_next s i c a rest j Hok Hg Hc Ep). rewrite H2 in Hp. unfold pc_of in Hp.
        destruct (next_acts s a rest); [done|]. congruence.
    + destruct (exec_conn l s s' i c Hok He Hc) as (c2 & Hc2 & _ & _ & _ & H4). replace c2 with c' in * by congruence.
      rewrite H4 in Hp by done. by eapply Hd.
Qed.

Definition reads (s : WatchServer) (j : Z) : Prop := exists c, Clients s !! j = Some c /\ reading c = true.

Lemma reads_gone s j : reads s j -> gone s j -> False.
Proof. intros (c & Hc & Hr) (c' & Hc' & Hr'). congruence. Qed.

Lemma reads_before l s s' j : server_ok s -> exec ρ l s = Some s' -> is_Some (Clients s !! j) -> reads s' j -> reads s j.
Proof.
  intros Hok He [c Hc] (c' & Hc' & Hr). destruct (exec_conn l s s' j c Hok He Hc) as (c2 & Hc2 & H & _).
  exists c. split; [done|]. apply H. congruence.
Qed.

Lemma known_after l s s' j : server_ok s -> exec ρ l s = Some s' -> is_Some (Clients s !! j) -> is_Some (Clients s' !! j).
Proof. intros Hok He [c Hc]. destruct (exec_conn l s s' j c Hok He Hc) as (c' & -> & _). done. Qed.

Lemma size_after l s s' : server_ok s -> exec ρ l s = Some s' -> (size (Clients s) <= size (Clients s'))%nat.
Proof.
  intros Hok He. rewrite <- !size_dom. apply subseteq_size. intros j. rewrite !elem_of_dom. by apply (known_after l).
Qed.

Lemma register_keeps i keys : forall kw k j, j ∈ default ∅ (kw !! k) -> j ∈ default ∅ (fold_left (register_key i) keys kw !! k).
Proof.
  induction keys as [|key keys IH]; intros kw k j Hj; simpl; [done|]. apply IH. unfold register_key.
  destruct (decide (key = k)) as [->|Hne]; [rewrite lookup_insert_eq|by rewrite lookup_insert_ne]. simpl. set_solver.
Qed.

Lemma watching_known s k j : server_ok s -> watching s k j -> is_Some (Clients s !! j).
Proof.
  intros Hok Hw. unfold watching in Hw. destruct (KeyWatchers s !! k) as [ids|] eqn:Ek; [|set_solver].
  by eapply (ok_watchers s Hok).
Qed.

(** A watcher that is still connected is never dropped. *)
Lemma watching_kept l s s' k j :
  server_ok s -> gone_ok s -> exec ρ l s = Some s' -> watching s k j -> reads s' j -> watching s' k j.
Proof.
  intros Hok Hg He Hw Hr.
  pose proof (watching_known s k j Hok Hw) as Hk.
  pose proof (reads_before l s s' j Hok He Hk Hr) as Hrs.
  destruct l as [|i|i m|i|i|i|i|i]; simpl in He;
    try (apply bind_Some in He as (ci & Hi & He)); repeat (case_guard; simpl in He; [|done]).
  - by injection He as <-.
  - by injection He as <-.
  - by injection He as <-.
  - by injection He as <-.
  - destruct (Out ci); [done|]. by injection He as <-.
  - destruct (In ci) as [|m ms]; [done|]. destruct (dispatch _ _ _ _) as [[s1 acts]|e|w] eqn:Ed; [|done|]; injection He as <-; [|done].
    apply dispatch_frame in Ed as (EK & _). unfold watching in *. change (KeyWatchers (goto s1 i acts)) with (KeyWatchers s1).
    by rewrite EK.
  - by injection He as <-.
  - destruct (pc ci) as [|[|a rest]|] eqn:Ep; try done.
    assert (Hsend : forall to m s1, writeMsgToClient s to m = Some s1 -> watching s1 k j).
    { unfold writeMsgToClient. intros to m s1 (ct & _ & H)%bind_Some. case_decide; [|done]. by injection H as <-. }
    destruct a as [to m| | |keys|k' f v|[|x ids] d k' f v|to m]; simpl in He.
    + apply bind_Some in He as (s1 & H & [= <-]). by apply Hsend in H.
    + destruct (Mutex s); [done|]. by injection He as <-.
    + by injection He as <-.
    + injection He as <-. unfold watching. simpl. by apply register_keeps.
    + by destruct (KeyWatchers s !! k'); injection He as <-.
    + injection He as <-. unfold watching in *. simpl. rewrite lookup_alter. case_decide as E; [subst|done].
      destruct (KeyWatchers s !! k) as [ids|]; simpl in *; [|done]. apply elem_of_difference. split; [done|].
      rewrite elem_of_list_to_set. intros Hd. apply (reads_gone s j Hrs). by apply (g_drop s Hg i ci _ j Hi Ep).
    + apply bind_Some in He as (cx & _ & He). by case_decide; injection He as <-.
    + apply bind_Some in He as (s1 & H & [= <-]). by apply Hsend in H.
Qed.

(** ** One handler from its reply to Unlock *)

Section handler.
Context (i : Z) (r : WatchMessage) (k f v : string).

Definition report (told : list Z) : list (Z * WatchMessage) := (i, r) :: ((fun j => (j, watch_msg k f v)) <$> told).

(** [W0] are the watchers when the handler started, [W] those seen since; what
    the handler still has to do, what it has sent, and in how many actions. *)
Inductive phase (W0 W : Z -> Prop) (s : WatchServer) : proc -> list (Z * WatchMessage) -> nat -> Prop :=
  | ph_reply : (forall j, W0 j -> reads s j -> watching s k j) ->
      phase W0 W s (PRun (ASend i r :: notify k f v)) [] 0
  | ph_lock : (forall j, W0 j -> reads s j -> watching s k j) ->
      phase W0 W s (PRun (notify k f v)) (report []) 1
  | ph_look : (forall j, W0 j -> reads s j -> watching s k j) ->
      phase W0 W s (PRun [ANotify k f v; AUnlock]) (report []) 2
  | ph_loop told ids d n : NoDup (told ++ d ++ ids) ->
      (forall j, j ∈ told ++ d ++ ids -> W j /\ is_Some (Clients s !! j)) ->
      (forall j, W0 j -> reads s j -> j ∈ told ++ ids) -> (n <= 3 + 2 * length told + length d)%nat ->
      phase W0 W s (PRun [ANotifyLoop ids d k f v; AUnlock]) (report told) n
  | ph_send told x ids d n : NoDup (told ++ d ++ x :: ids) ->
      (forall j, j ∈ told ++ d ++ x :: ids -> W j /\ is_Some (Clients s !! j)) ->
      (forall j, W0 j -> reads s j -> j ∈ told ++ x :: ids) -> (n <= 4 + 2 * length told + length d)%nat ->
      phase W0 W s (PRun [ANotifySend x (watch_msg k f v); ANotifyLoop ids d k f v; AUnlock]) (report told) n
  | ph_unlock told n : NoDup told -> (forall j, j ∈ told -> W j) ->
      (forall j, W0 j -> reads s j -> j ∈ told) -> (n <= 4 + 2 * size (Clients s))%nat ->
      phase W0 W s (PRun [AUnlock]) (report told) n
  | ph_done told n p : (forall acts, p <> PRun acts) -> NoDup told -> (forall j, j ∈ told -> W j) ->
      (forall j, W0 j -> reads s j -> j ∈ told) -> (n <= 5 + 2 * size (Clients s))%nat ->
      phase W0 W s p (report told) n.

Lemma known_length s (l : list Z) : NoDup l -> (forall j, j ∈ l -> is_Some (Clients s !! j)) -> (length l <= size (Clients s))%nat.
Proof using Type.
  intros Hnd Hin. rewrite <- size_dom, <- (size_list_to_set (C := gset Z) l Hnd). apply subseteq_size.
  intros j. rewrite elem_of_list_to_set, elem_of_dom. apply Hin.
Qed.

Definition sends (a : action) : list (Z * WatchMessage) :=
  match a with ASend to m | ANotifySend to m => [(to, m)] | _ => [] end.

(** One action of the handler. *)
Lemma phase_act (W0 W : Z -> Prop) s ci a rest snt n :
  server_ok s -> gone_ok s -> (forall j, watching s k j -> W j) ->
  Clients s !! i = Some ci -> phase W0 W s (PRun (a :: rest)) snt n ->
  phase W0 W s (pc_of (next_acts s a rest)) (snt ++ sends a) (S n).
Proof using Type.
  intros Hok Hg HW Hi Hph. inversion Hph as [H1 E|H1 E|H1 E|told ids d n' H1 H2 H3 H4 E|told x ids d n' H1 H2 H3 H4 E
    |told n' H1 H2 H3 H4 E|told n' p H0]; subst; cbn [sends next_acts]; rewrite ?app_nil_r.
  - by apply ph_lock.
  - by apply ph_look.
  - destruct (KeyWatchers s !! k) as [ids|] eqn:Ek.
    + apply ph_loop with (told := []) (d := []); simpl; [|..|lia].
      * rewrite range_order_perm. apply NoDup_elements.
      * intros j. rewrite elem_of_range_order, elem_of_elements. intros Hj. split; [|by eapply (ok_watchers s Hok)].
        apply HW. unfold watching. by rewrite Ek.
      * intros j Hj Hr. rewrite elem_of_range_order, elem_of_elements. specialize (H1 j Hj Hr).
        unfold watching in H1. by rewrite Ek in H1.
    + apply ph_unlock; [constructor|by intros j ?%elem_of_nil| |lia]. intros j Hj Hr. specialize (H1 j Hj Hr).
      unfold watching in H1. rewrite Ek in H1. set_solver.
  - destruct ids as [|x ids].
    + apply ph_unlock.
      * by apply NoDup_app in H1 as (? & _ & _).
      * intros j Hj. apply H2. set_solver.
      * intros j Hj Hr. rewrite <- (app_nil_r told). by apply H3.
      * rewrite app_nil_r in H1, H2. pose proof (known_length s _ H1 (fun j Hj => proj2 (H2 j Hj))) as Hl.
        rewrite length_app in Hl. lia.
    + case_decide as E.
      * apply ph_loop; [by rewrite <- app_assoc|by rewrite <- app_assoc| |rewrite length_app; simpl; lia].
        intros j Hj Hr. specialize (H3 j Hj Hr). apply elem_of_app in H3 as [H3|H3]; [set_solver|].
        apply elem_of_cons in H3 as [->|H3]; [exfalso|set_solver].
        destruct (Clients s !! x) as [cx|] eqn:Ex; [|done]. injection E as E. apply (reads_gone s x Hr). exists cx.
        split; [done|]. by apply (g_status s Hg x).
      * apply ph_send; try done. lia.
  - replace (report told ++ [(x, watch_msg k f v)]) with (report (told ++ [x])) by (unfold report; by rewrite fmap_app).
    assert (Hp : (told ++ [x]) ++ d ++ ids ≡ₚ told ++ d ++ x :: ids) by solve_Permutation.
    apply ph_loop; [by rewrite Hp| | |rewrite length_app; simpl; lia].
    + intros j. rewrite Hp. apply H2.
    + intros j Hj Hr. rewrite <- app_assoc. by apply H3.
  - by apply ph_done; try done; lia.
  - by destruct (H0 (a :: rest)).
Qed.

Lemma phase_weaken (W0 W W' : Z -> Prop) s p snt n :
  (forall j, W j -> W' j) -> phase W0 W s p snt n -> phase W0 W' s p snt n.
Proof using Type.
  intros HW Hph. assert (HW2 : forall j (P : Prop), W j /\ P -> W' j /\ P) by (intros j P [? ?]; auto).
  inversion Hph; subst; [by apply ph_reply|by apply ph_lock|by apply ph_look|apply ph_loop|apply ph_send|apply ph_unlock|apply ph_done];
    auto.
Qed.

(** What the others do does not disturb it. *)
Lemma phase_mono (W0 W : Z -> Prop) l s s' p snt n :
  server_ok s -> gone_ok s -> exec ρ l s = Some s' -> (forall j, W0 j -> is_Some (Clients s !! j)) ->
  phase W0 W s p snt n -> phase W0 W s' p snt n.
Proof using Type.
  intros Hok Hg He H0 Hph.
  assert (Hr : forall j, W0 j -> reads s' j -> reads s j) by (intros j Hj; apply (reads_before l); auto).
  pose proof (size_after l s s' Hok He) as Hsz.
  assert (Hk : forall j, is_Some (Clients s !! j) -> is_Some (Clients s' !! j)) by (intros j; by apply (known_after l)).
  inversion Hph as [H1|H1|H1|told ids d n' H1 H2 H3 H4 E|told x ids d n' H1 H2 H3 H4 E
    |told n' H1 H2 H3 H4 E|told n' p' H1 H2 H3 H4 H5]; subst.
  - apply ph_reply. intros j Hj Hj'. eapply watching_kept; eauto.
  - apply ph_lock. intros j Hj Hj'. eapply watching_kept; eauto.
  - apply ph_look. intros j Hj Hj'. eapply watching_kept; eauto.
  - apply ph_loop; [done| |auto|done]. intros j Hj. destruct (H2 j Hj). auto.
  - apply ph_send; [done| |auto|done]. intros j Hj. destruct (H2 j Hj). auto.
  - apply ph_unlock; auto. lia.
  - apply ph_done; auto. lia.
Qed.
(** What [i] sends and does in one label. *)
Lemma emits_other l s : moves l i = false -> sent_by i (emits l s) = [] /\ is_act i l = false.
Proof using Type.
  destruct l as [|x|x m|x|x|x|x|x]; try done. simpl. intros Hm. split; [|done]. apply bool_decide_eq_false in Hm.
  destruct (pc <$> Clients s !! x) as [[|[|[] rest]|]|]; try done; simpl; by rewrite decide_False.
Qed.

Lemma emits_act s ci a rest : Clients s !! i = Some ci -> pc ci = PRun (a :: rest) -> sent_by i (emits (LAct i) s) = sends a.
Proof using Type.
  intros Hi Hp. simpl. rewrite Hi. simpl. rewrite Hp. destruct a; try done; simpl; by rewrite decide_True.
Qed.

Lemma acts_snoc ls l : acts_of i (ls ++ [l]) = (acts_of i ls + (if is_act i l then 1 else 0))%nat.
Proof using Type.
  unfold acts_of. rewrite filter_app, length_app. f_equal. by destruct (is_act i l) eqn:E; rewrite ?filter_cons_True, ?filter_cons_False by congruence.
Qed.

(** [j] watches [k] at some moment of the run of [ls] from [s]. *)
Definition seen (ls : list label) (s : WatchServer) (j : Z) : Prop :=
  exists ls1 ls2 s1, ls = ls1 ++ ls2 /\ run ρ ls1 s = Some s1 /\ watching s1 k j.

Lemma seen_snoc ls l s j : seen ls s j -> seen (ls ++ [l]) s j.
Proof using Type. intros (l1 & l2 & s1 & -> & H). exists l1, (l2 ++ [l]), s1. by rewrite <- app_assoc. Qed.

(** The state of the handler after one more label. *)
Lemma phase_exec (W0 W : Z -> Prop) l s s' c snt n :
  server_ok s -> gone_ok s -> exec ρ l s = Some s' -> l <> LHandle i -> (forall j, W0 j -> is_Some (Clients s !! j)) ->
  (forall j, watching s k j -> W j) -> Clients s !! i = Some c -> phase W0 W s (pc c) snt n ->
  exists c', Clients s' !! i = Some c' /\
    phase W0 W s' (pc c') (snt ++ sent_by i (emits l s)) (n + (if is_act i l then 1 else 0)).
Proof using Type.
  intros Hok Hg He Hl H0 HW Hc Hph. destruct (moves l i) eqn:Em.
  - destruct l as [|x|x m|x|x|x|x|x]; try done; simpl in Em; apply bool_decide_eq_true in Em as ->; [done|..].
    + pose proof He as He'. simpl in He'. rewrite Hc in He'. simpl in He'. case_guard as Hid; [|done]. injection He' as <-.
      rewrite lookup_upd_conn, decide_True, Hc by done. eexists. split; [done|]. simpl. rewrite app_nil_r, Nat.add_0_r.
      eapply phase_mono with (W := W) (s := s); try done.
      destruct (pc c) as [|acts|] eqn:Ep; [|by unfold idle in Hid; rewrite Ep in Hid..].
      inversion Hph; subst. by apply ph_done.
    + pose proof He as He'. simpl in He'. rewrite Hc in He'. simpl in He'.
      destruct (pc c) as [|[|a rest]|] eqn:Ep; try done.
      destruct (act_next s s' i c a rest Hc He') as (c' & Hc' & Hp'). exists c'. split; [done|]. rewrite Hp'.
      rewrite (emits_act s c a rest Hc Ep). simpl. rewrite bool_decide_eq_true_2, Nat.add_1_r by done.
      eapply phase_mono with (W := W) (s := s); try done. by eapply phase_act.
  - destruct (exec_conn l s s' i c Hok He Hc) as (c' & Hc' & _ & _ & _ & Hp). exists c'. split; [done|].
    destruct (emits_other l s Em) as [-> ->]. rewrite app_nil_r, Nat.add_0_r, Hp by done.
    by eapply phase_mono with (W := W) (s := s).
Qed.

Lemma phase_run s ci : server_ok s -> gone_ok s -> Clients s !! i = Some ci -> pc ci = PRun (ASend i r :: notify k f v) ->
  forall ls s', run ρ ls s = Some s' -> LHandle i ∉ ls ->
  server_ok s' /\ gone_ok s' /\
  (forall j, watching s k j -> reads s' j -> watching s' k j) /\
  (forall j c, Clients s !! j = Some c -> exists c', Clients s' !! j = Some c' /\
     wire c' ++ Out c' = wire c ++ Out c ++ sent_to j (trace ls s)) /\
  exists ci', Clients s' !! i = Some ci' /\
    phase (watching s k) (seen ls s) s' (pc ci') (sent_by i (trace ls s)) (acts_of i ls).
Proof using Type.
  intros Hok Hg Hi Hp.
  assert (H0 : forall j, watching s k j -> is_Some (Clients s !! j)) by (intros j; by apply watching_known).
  induction ls as [|l ls IH] using rev_ind; intros s' Hr Hno.
  - injection Hr as <-. splits; try done.
    + intros j c Hc. exists c. simpl. by rewrite app_nil_r.
    + exists ci. split; [done|]. rewrite Hp. by apply ph_reply.
  - rewrite run_snoc in Hr. apply bind_Some in Hr as (s1 & Hr & He).
    apply not_elem_of_app in Hno as [Hno Hl]. apply not_elem_of_cons in Hl as [Hl _].
    destruct (IH s1 Hr Hno) as (Hok1 & Hg1 & Hk1 & Hc1 & c1 & Hi1 & Hph1).
    assert (H01 : forall j, watching s k j -> is_Some (Clients s1 !! j)).
    { intros j [c Hc]%H0. destruct (Hc1 j c Hc) as (c' & -> & _). done. }
    splits.
    + eapply step_ok; [done|by eapply exec_step].
    + by eapply exec_gone_ok.
    + intros j Hj Hrd. eapply watching_kept; eauto. apply Hk1; [done|]. eapply reads_before; eauto.
    + intros j c Hc. destruct (Hc1 j c Hc) as (c' & Hc' & E). destruct (exec_conn l s1 s' j c' Hok1 He Hc') as (c2 & Hc2 & _ & _ & E2 & _).
      exists c2. split; [done|]. rewrite E2, app_assoc, E, (trace_snoc l ls s s1 Hr). unfold sent_to. rewrite omap_app.
      by rewrite !app_assoc.
    + rewrite (trace_snoc l ls s s1 Hr), acts_snoc. unfold sent_by at 1. rewrite omap_app.
      apply (phase_exec _ _ _ s1 s' c1); try done.
      * intros j Hj. exists ls, [l], s1. done.
      * eapply phase_weaken; [|done]. apply seen_snoc.
Qed.
(** What a phase says of the messages sent and of the actions taken. *)
Lemma phase_report (W0 W : Z -> Prop) s p snt n : phase W0 W s p snt n ->
  exists told, NoDup told /\ snt `prefix_of` report told /\ (forall j, j ∈ told -> W j) /\
    ((forall acts, p <> PRun acts) -> snt = report told /\ forall j, W0 j -> reads s j -> j ∈ told).
Proof using Type.
  intros Hph. inversion Hph as [H1 E|H1 E|H1 E|told ids d n' H1 H2 H3 H4 E|told x ids d n' H1 H2 H3 H4 E
    |told n' H1 H2 H3 H4 E|told n' p' H1 H2 H3 H4 H5]; subst.
  - exists []. splits; [constructor|by exists (report [])|by intros j ?%elem_of_nil|]. intros H. by edestruct H.
  - exists []. splits; [constructor|done|by intros j ?%elem_of_nil|]. intros H. by edestruct H.
  - exists []. splits; [constructor|done|by intros j ?%elem_of_nil|]. intros H. by edestruct H.
  - exists told. splits; [by apply NoDup_app in H1 as (? & _)|done|intros j Hj; apply H2; set_solver|]. intros H. by edestruct H.
  - exists told. splits; [by apply NoDup_app in H1 as (? & _)|done|intros j Hj; apply H2; set_solver|]. intros H. by edestruct H.
  - exists told. splits; try done; intros H; by edestruct H.
  - exists told. by splits.
Qed.

Lemma phase_bound (W0 W : Z -> Prop) s p snt n : phase W0 W s p snt n -> (n <= 5 + 2 * size (Clients s))%nat.
Proof using Type.
  intros Hph. pose proof (known_length s) as Hl. inversion Hph as [H1 E|H1 E|H1 E|told ids d n' H1 H2 H3 H4 E|told x ids d n' H1 H2 H3 H4 E
    |told n' H1 H2 H3 H4 E|told n' p' H1 H2 H3 H4 H5]; subst; try lia.
  - specialize (Hl _ H1 (fun j Hj => proj2 (H2 j Hj))). rewrite !length_app in Hl. lia.
  - specialize (Hl _ H1 (fun j Hj => proj2 (H2 j Hj))). rewrite !length_app in Hl. simpl in Hl. lia.
Qed.

(** What the handler may have to wait for before its next action. *)
Definition waits_for (s : WatchServer) (acts : list action) : Prop :=
  match acts with
  | ALock :: _ => exists l, l <> i /\ Mutex s = Some l
  | ASend to _ :: _ | ANotifySend to _ :: _ => exists c, Clients s !! to = Some c /\ length (Out c) = chan_cap
  | _ => False
  end.

Lemma send_waits s to m : server_ok s -> is_Some (Clients s !! to) ->
  is_Some (writeMsgToClient s to m) \/ exists c, Clients s !! to = Some c /\ length (Out c) = chan_cap.
Proof using Type.
  intros Hok [c Hc]. destruct (decide (length (Out c) < chan_cap)%nat) as [Hl|Hl].
  - left. by rewrite (send_room s to m c Hc Hl).
  - right. exists c. split; [done|]. pose proof (ok_out _ _ _ _ (ok_conns s Hok to c Hc)). lia.
Qed.

Lemma phase_waits (W0 W : Z -> Prop) s c acts snt n :
  server_ok s -> Clients s !! i = Some c -> pc c = PRun acts -> phase W0 W s (PRun acts) snt n ->
  is_Some (exec ρ (LAct i) s) \/ waits_for s acts.
Proof using Type.
  intros Hok Hc Hp Hph. simpl. rewrite Hc. simpl. rewrite Hp.
  assert (Hi : is_Some (Clients s !! i)) by by exists c.
  assert (Hb : forall (o : option WatchServer) rest, is_Some o -> is_Some (s1 ← o; Some (goto s1 i rest))) by (intros o rest [x ->]; done).
  inversion Hph as [H1 E|H1 E|H1 E|told ids d n' H1 H2 H3 H4 E|told x ids d n' H1 H2 H3 H4 E
    |told n' H1 H2 H3 H4 E|told n' p H0]; subst; cbn [run_action waits_for].
  - destruct (send_waits s i r Hok Hi) as [H|H]; [left; by apply Hb|by right].
  - cbn [notify run_action waits_for]. destruct (Mutex s) as [l|] eqn:EM; [right|by left]. exists l. split; [|done]. intros ->.
    apply (ok_mutex _ _ _ _ (ok_conns s Hok i c Hc)) in EM. unfold holds in EM. by rewrite Hp in EM.
  - left. by destruct (KeyWatchers s !! k).
  - left. destruct ids as [|x ids]; [done|]. destruct (H2 x) as [_ [cx ->]]; [set_solver|]. simpl. by case_decide.
  - destruct (H2 x) as [_ Hx]; [set_solver|].
    destruct (send_waits s x (watch_msg k f v) Hok Hx) as [H|H]; [left; by apply Hb|by right].
  - by left.
  - by destruct (H0 acts).
Qed.

(** Alone, the handler goes on until it is done or has to wait. *)
Lemma phase_alone (W0 : Z -> Prop) m : forall W s c snt n,
  server_ok s -> gone_ok s -> (forall j, W0 j -> is_Some (Clients s !! j)) -> Clients s !! i = Some c ->
  phase W0 W s (pc c) snt n -> (6 + 2 * size (Clients s) <= n + m)%nat ->
  exists m' s' c', run ρ (repeat (LAct i) m') s = Some s' /\ Clients s' !! i = Some c' /\
    match pc c' with PRun acts => waits_for s' acts | _ => True end.
Proof using Type.
  induction m as [|m IH]; intros W s c snt n Hok Hg H0 Hc Hph Hm.
  - exfalso. pose proof (phase_bound _ _ _ _ _ _ Hph). lia.
  - destruct (pc c) as [|acts|] eqn:Ep; [exists 0%nat, s, c; by rewrite Ep| |exists 0%nat, s, c; by rewrite Ep].
    destruct (phase_waits W0 W s c acts snt n Hok Hc Ep Hph) as [[s1 He]|Hw]; [|exists 0%nat, s, c; by rewrite Ep].
    assert (Hph' : phase W0 (fun j => W j \/ watching s k j) s (pc c) snt n).
    { rewrite Ep. eapply phase_weaken; [|done]. by left. }
    destruct (phase_exec W0 _ (LAct i) s s1 c snt n Hok Hg He ltac:(done) H0 (fun j H => or_intror H) Hc Hph') as (c1 & Hc1 & Hph1).
    edestruct IH with (4 := Hc1) (5 := Hph1) as (m' & s' & c' & Hr & H); try done.
    + eapply step_ok; [done|by eapply exec_step].
    + by eapply exec_gone_ok.
    + intros j Hj. eapply known_after; eauto.
    + assert (Hsz : size (Clients s1) = size (Clients s)).
      { rewrite <- !size_dom. f_equal. apply set_eq. intros j. rewrite !elem_of_dom. split; [|by apply (known_after (LAct i))].
        intros [cj Hj]. by destruct (exec_new _ _ _ _ _ He Hj) as [?|[? _]]. }
      rewrite Hsz. simpl. rewrite bool_decide_eq_true_2 by done. lia.
    + exists (S m'), s', c'. split; [|done]. simpl repeat. rewrite run_cons, He. done.
Qed.
End handler.

(** Every step is one of a label, so the schedules are all the runs. *)
Lemma step_exec s s' : step ρ s s' -> exists l, exec ρ l s = Some s'.
Proof.
  destruct 1 as [s|s i Hia EM|s i c m Hc Hrd Hlt|s i c Hc Hrd|s i c m ms Hc Hpc Ho
    |s i c m ms s' acts Hc Hpc Hi Hd|s i c m ms why Hc Hpc Hi Hd|s i c Hc Hpc|s i c a rest s' Hc Hpc Hrun].
  - by exists LAccept.
  - exists (LRegister i). simpl. by rewrite option_guard_True.
  - exists (LRead i m). simpl. rewrite Hc. simpl. by rewrite option_guard_True.
  - exists (LClose i). simpl. rewrite Hc. simpl. by rewrite option_guard_True.
  - exists (LWrite i). simpl. rewrite Hc. simpl. unfold idle. rewrite Hpc, Ho. by rewrite option_guard_True.
  - exists (LHandle i). simpl. rewrite Hc. simpl. unfold idle. rewrite Hpc, Hi, Hd. by rewrite option_guard_True.
  - exists (LHandle i). simpl. rewrite Hc. simpl. unfold idle. rewrite Hpc, Hi, Hd. by rewrite option_guard_True.
  - exists (LExit i). simpl. rewrite Hc. simpl. unfold idle. rewrite Hpc. by rewrite option_guard_True.
  - exists (LAct i). simpl. rewrite Hc. simpl. by rewrite Hpc.
Qed.

Lemma reachable_gone_ok s : reachable ρ s -> gone_ok s.
Proof.
  intros [db Hr]. assert (H0 : gone_ok (NewWatchServer db) /\ server_ok (NewWatchServer db)).
  { split; [|by apply (reachable_ok ρ); exists db]. split; intros *; simpl; by rewrite lookup_empty. }
  revert H0. generalize (NewWatchServer db), Hr. clear Hr. intros s0 Hr [Hg Hok].
  induction Hr as [|s1 s2 s3 Hstep _ IH]; [done|]. apply IH; [|by eapply step_ok].
  destruct (step_exec _ _ Hstep) as [l He]. by eapply exec_gone_ok.
Qed.

Lemma handle_mutation s0 s i c msg ms vals k f v st :
  Clients s0 !! i = Some c -> In c = msg :: ms -> mutation (Set' s0) msg = Some (vals, (k, f, v), st) ->
  exec ρ (LHandle i) s0 = Some s ->
  Set' s = st /\ exists c', Clients s !! i = Some c' /\ pc c' = PRun (ASend i (reply msg vals) :: notify k f v).
Proof.
  intros Hc Hin Hm He. simpl in He. rewrite Hc in He. simpl in He. case_guard; simpl in He; [|done]. rewrite Hin in He.
  rewrite (dispatch_mutation ρ (upd_conn s0 i (fun c => set_In c ms)) i msg vals k f v st Hm) in He. injection He as <-. split; [done|].
  rewrite lookup_goto. simpl. rewrite lookup_alter_eq, Hc. eexists. split; [done|]. unfold at_pc. by rewrite decide_True.
Qed.

(** C6. A request that changes the store (hset, hincrby, del) is delivered under
    every schedule.  The store is changed when connection [i] takes the request;
    after any steps [ls] of the whole server in which [i] takes no other one,
    what was written and queued for a connection has grown by exactly what was
    sent to it; the handler has sent the reply to [i] and then one watch message
    each to [told], connections that watched the key; it has taken at most five
    actions and two for each connection.  While it is running it can take its
    next action unless another connection holds the mutex or the queue it sends
    to is full, and left alone it goes on until it is done or has to wait for one
    of the two.  When it is done the mutex is not its own, and every watcher of the
    key that is still connected has been told, and is still a watcher. *)
Theorem watch_mutation_delivered (s0 s s' : WatchServer) (i : Z) (c0 : WatchConnect) (msg : WatchMessage)
    (ms : list WatchMessage) (vals : list string) (k f v : string) (st : Store) (ls : list label)
    (Hr : reachable ρ s0) (Hc : Clients s0 !! i = Some c0) (Hin : In c0 = msg :: ms)
    (Hm : mutation (Set' s0) msg = Some (vals, (k, f, v), st))
    (Hh : exec ρ (LHandle i) s0 = Some s) (Hls : run ρ ls s = Some s') (Hno : LHandle i ∉ ls) :
  Set' s = st /\
  (forall j c, Clients s !! j = Some c -> exists c', Clients s' !! j = Some c' /\
     wire c' ++ Out c' = wire c ++ Out c ++ sent_to j (trace ls s)) /\
  (acts_of i ls <= 5 + 2 * size (Clients s'))%nat /\
  (forall j, watching s k j -> reads s' j -> watching s' k j) /\
  exists c' told, Clients s' !! i = Some c' /\ NoDup told /\
    sent_by i (trace ls s) `prefix_of` (i, reply msg vals) :: ((fun j => (j, watch_msg k f v)) <$> told) /\
    (forall j, j ∈ told -> exists ls1 ls2 s1, ls = ls1 ++ ls2 /\ run ρ ls1 s = Some s1 /\ watching s1 k j) /\
    (exists n s2 c2, run ρ (repeat (LAct i) n) s' = Some s2 /\ Clients s2 !! i = Some c2 /\
       match pc c2 with PRun acts => waits_for i s2 acts | _ => True end) /\
    match pc c' with
    | PRun acts => is_Some (exec ρ (LAct i) s') \/ waits_for i s' acts
    | _ => Mutex s' <> Some i /\
           sent_by i (trace ls s) = (i, reply msg vals) :: ((fun j => (j, watch_msg k f v)) <$> told) /\
           (forall j, watching s k j -> reads s' j -> j ∈ told)
    end.
Proof.
  destruct (handle_mutation s0 s i c0 msg ms vals k f v st Hc Hin Hm Hh) as (Hst & c & Hi & Hp).
  assert (Hok : server_ok s) by (eapply step_ok; [by apply (reachable_ok ρ)|by eapply exec_step]).
  assert (Hg : gone_ok s) by (eapply exec_gone_ok; [by apply (reachable_ok ρ)|by apply reachable_gone_ok|done]).
  destruct (phase_run i (reply msg vals) k f v s c Hok Hg Hi Hp ls s' Hls Hno) as (Hok' & Hg' & Hk & Hcs & c' & Hc' & Hph).
  splits; [done|done|by eapply phase_bound|done|].
  destruct (phase_report i (reply msg vals) k f v _ _ _ _ _ _ Hph) as (told & Hnd & Hpre & Hseen & Hdone). exists c', told. splits; try done.
  - eapply (phase_alone i (reply msg vals) k f v (watching s k) (6 + 2 * size (Clients s'))); try done; [|lia].
    intros j Hj. destruct (watching_known s k j Hok Hj) as [cj Hcj]. destruct (Hcs j cj Hcj) as (? & -> & _). done.
  - assert (HM : (forall acts, pc c' <> PRun acts) -> Mutex s' <> Some i).
    { intros H HM. apply (ok_mutex _ _ _ _ (ok_conns s' Hok' i c' Hc')) in HM. unfold holds in HM.
      destruct (pc c') as [|acts|]; [done| |done]. by destruct (H acts). }
    destruct (pc c') as [|acts|] eqn:Ep; [| |]; try (split; [by apply HM|by apply Hdone]).
    by eapply phase_waits.
Qed.

End deliver.

(** ** An instance: connection 2 sets "k", which connection 1 watches; before the
    handler of 2 gets the mutex a third client connects. *)
Module DeliverSample.
Definition hset_k : WatchMessage := request "hset" 7 ["k"; "f"; "v"].
Definition before_hset : @WatchServer BoltMap :=
  after (connect 1 ++ serve 1 (request "initialize" 1 ["k"]) 4 ++ [LWrite 1] ++ connect 2 ++ [LRead 2 hset_k]).
Definition handled : @WatchServer BoltMap := default before_hset (exec range_id (LHandle 2) before_hset).
Definition schedule : list label := LAct 2 :: connect 3 ++ repeat (LAct 2) 6 ++ [LWrite 1].
Definition delivered : @WatchServer BoltMap := default before_hset (run range_id schedule handled).
Definition c2 : WatchConnect :=
  {| Status := 0; WatchKeys := []; In := [hset_k]; Out := []; pc := PIdle; reading := true; wire := [] |}.

Lemma runs_default {A} (o : option A) (d : A) : bool_decide (is_Some o) = true -> o = Some (default d o).
Proof. by destruct o. Qed.
End DeliverSample.

Lemma watch_mutation_delivered_witness :
  exists told, 1 ∈ told /\
    sent_by 2 (trace range_id DeliverSample.schedule DeliverSample.handled) =
      (2, reply DeliverSample.hset_k []) :: ((fun j => (j, watch_msg "k" "f" "v")) <$> told).
Proof.
  destruct (watch_mutation_delivered range_id DeliverSample.before_hset DeliverSample.handled DeliverSample.delivered
    2 DeliverSample.c2 DeliverSample.hset_k [] [] "k" "f" "v" (Hset (Set' DeliverSample.before_hset) "k" "f" "v").2
    DeliverSample.schedule) as (_ & _ & _ & _ & c' & told & Hc' & _ & _ & _ & _ & Hd).
  - apply (runs_to_after _ (fun _ => true)). by vm_compute.
  - by vm_compute.
  - reflexivity.
  - reflexivity.
  - apply DeliverSample.runs_default. by vm_compute.
  - apply DeliverSample.runs_default. by vm_compute.
  - unfold DeliverSample.schedule, connect. simpl. repeat (apply not_elem_of_cons; split; [done|]). apply not_elem_of_nil.
  - assert (Hp : (pc <$> Clients DeliverSample.delivered !! 2) = Some PIdle) by (by vm_compute).
    rewrite Hc' in Hp. injection Hp as Hp. rewrite Hp in Hd. destruct Hd as (_ & Hs & Ht). exists told. split; [|done].
    apply Ht.
    + unfold watching. apply (bool_decide_unpack _). by vm_compute.
    + assert (Hrd : (reading <$> Clients DeliverSample.delivered !! 1) = Some true) by (by vm_compute).
      unfold reads. destruct (Clients DeliverSample.delivered !! 1) as [c1|]; [|done]. exists c1. split; [done|by injection Hrd].
Defined.
