(* ===== verification/RpcCoder.v ===== *)
(** * The RPC wire format: rpc/coder.go, rpc/pool.go

    A request or a response is two frames, a header and a body; a frame is a
    4-byte big-endian length and that many bytes.  Protobuf and JSON are a
    parameter (class [Proto]) with their documented round trips ([ProtoLaws]).
    The buffer of a frame comes from the byte pool (BytesCache.v) and is
    overwritten as a whole, so its old contents do not appear here. *)

From Stdlib Require Import ZArith Lia Ascii String.
From stdpp Require Import base numbers list strings gmap countable.
From S2P Require Import Prelude GoStd.

(** ** Messages of header.proto and the structures of go_server.go *)

Module NodeRpcInfo.
Record t := { ServiceName : string; NodeName : string }.
#[global] Instance t_eq_dec : EqDecision t.
Proof. solve_decision. Defined.
#[global] Program Instance t_countable : Countable t :=
  inj_countable' (fun n => (ServiceName n, NodeName n)) (fun p => {| ServiceName := p.1; NodeName := p.2 |}) _.
Next Obligation. by intros []. Qed.
End NodeRpcInfo.

Module Context.
Record t := {
  GateName : string; Remote : string; Id : Z; Token : string; Uid : Z;
  Nodes : list NodeRpcInfo.t; CallId : Z; Game : string;
  Kvs : gmap string string; Ps : gmap string Z
}.
#[global] Instance t_eq_dec : EqDecision t.
Proof. solve_decision. Defined.
#[global] Program Instance t_countable : Countable t :=
  inj_countable'
    (fun c => (GateName c, Remote c, Id c, Token c, Uid c, Nodes c, CallId c, Game c, Kvs c, Ps c))
    (fun '(a, b, c, d, e, f, g, h, i, j) => {| GateName := a; Remote := b; Id := c; Token := d; Uid := e;
       Nodes := f; CallId := g; Game := h; Kvs := i; Ps := j |}) _.
Next Obligation. by intros []. Qed.

Definition ok (c : t) : Prop := in_u 64 (Id c) /\ in_u 64 (Uid c) /\ in_u 64 (CallId c) /\ map_Forall (fun _ z => in_s 64 z) (Ps c).
#[global] Instance ok_dec c : Decision (ok c).
Proof. unfold ok. apply _. Defined.
End Context.

Module ReqHeader.
Record t := { Method : string; Seq : Z; Ctx : option Context.t; NoResp : bool; Raw : Z }.
#[global] Instance t_eq_dec : EqDecision t.
Proof. solve_decision. Defined.
#[global] Program Instance t_countable : Countable t :=
  inj_countable' (fun h => (Method h, Seq h, Ctx h, NoResp h, Raw h))
    (fun '(a, b, c, d, e) => {| Method := a; Seq := b; Ctx := c; NoResp := d; Raw := e |}) _.
Next Obligation. by intros []. Qed.
Definition ok (h : t) : Prop := in_u 64 (Seq h) /\ in_s 32 (Raw h) /\ (forall c, Ctx h = Some c -> Context.ok c).
End ReqHeader.

Module RspHeader.
Record t := { Method : string; Seq : Z; Error : string; Ret : Z; Ctx : option Context.t; NoResp : bool; Raw : Z }.
#[global] Instance t_eq_dec : EqDecision t.
Proof. solve_decision. Defined.
#[global] Program Instance t_countable : Countable t :=
  inj_countable' (fun h => (Method h, Seq h, Error h, Ret h, Ctx h, NoResp h, Raw h))
    (fun '(a, b, c, d, e, f, g) => {| Method := a; Seq := b; Error := c; Ret := d; Ctx := e; NoResp := f; Raw := g |}) _.
Next Obligation. by intros []. Qed.
Definition ok (h : t) : Prop :=
  in_u 64 (Seq h) /\ in_u 32 (Ret h) /\ in_s 32 (Raw h) /\ (forall c, Ctx h = Some c -> Context.ok c).
End RspHeader.

Module Request.
Record t := { ServiceMethod : string; Seq : Z; NoResp : bool; Conn : option Context.t; Raw : Z }.
End Request.

Module Response.
Record t := { ServiceMethod : string; Seq : Z; Error : string; Ret : Z; Raw : Z }.
End Response.

(** ** Protobuf, JSON and the Go types of bodies *)

Class Proto := {
  GoType : Type;                              (* reflect.Type of a body *)
  Value : Type;                               (* a value of such a type *)
  type_of : Value -> GoType;
  type_name : GoType -> string;               (* %T *)
  is_proto : GoType -> bool;                  (* implements proto.Message *)
  Marshal : Value -> go bytes;                (* proto.Marshal *)
  Unmarshal : GoType -> bytes -> go Value;    (* proto.Unmarshal into a new value *)
  json_Marshal : Value -> go bytes;
  json_Unmarshal : GoType -> bytes -> go Value;
  Marshal_req : ReqHeader.t -> go bytes;
  Unmarshal_req : bytes -> go ReqHeader.t;
  Marshal_rsp : RspHeader.t -> go bytes;
  Unmarshal_rsp : bytes -> go RspHeader.t
}.

(** What is marshalled can be read back, and the libraries do not panic. *)
Class ProtoLaws (P : Proto) : Prop := {
  unmarshal_marshal v b : Marshal v = Ret b -> Unmarshal (type_of v) b = Ret v;
  unmarshal_json v b : json_Marshal v = Ret b -> json_Unmarshal (type_of v) b = Ret v;
  unmarshal_req h b : ReqHeader.ok h -> Marshal_req h = Ret b -> Unmarshal_req b = Ret h;
  unmarshal_rsp h b : RspHeader.ok h -> Marshal_rsp h = Ret b -> Unmarshal_rsp b = Ret h;
  marshal_no_panic v e : Marshal v <> Panic e;
  json_no_panic v e : json_Marshal v <> Panic e;
  marshal_req_no_panic h e : Marshal_req h <> Panic e;
  marshal_rsp_no_panic h e : Marshal_rsp h <> Panic e
}.

(** ** Frames *)

Definition tooBig : Z := Z.shiftl 1 30.
Definition errBadCount : go_error := ErrMsg "invalid message length".

Definition writeFrame (w : bytes) (buf : bytes) : go bytes :=
  let l := Z.of_nat (length buf) in
  if tooBig <=? l then Err errBadCount
  else let w := w ++ be_put 4 (u32 l) in Ret (w ++ buf).

Definition readFrame (r : bytes) : go (bytes * bytes) :=
  '(header, r) ← ReadFull r 4;
  let l := be_get header in
  if tooBig <=? l then Err errBadCount
  else ReadFull r (Z.to_nat l).

Section coder.
Context {P : Proto}.

Definition encode (w : bytes) (raw : Z) (m : Value) : go bytes :=
  if is_proto (type_of m) then
    if raw =? 2 then buf ← json_Marshal m; writeFrame w buf
    else buf ← Marshal m; writeFrame w buf
  else Err (ErrMsg (String.append (type_name (type_of m)) " does not implement proto.Message")).

Definition encode_req (w : bytes) (h : ReqHeader.t) : go bytes := buf ← Marshal_req h; writeFrame w buf.
Definition encode_rsp (w : bytes) (h : RspHeader.t) : go bytes := buf ← Marshal_rsp h; writeFrame w buf.

(** [m] is the type of the value to fill, [None] for nil. *)
Definition decode (r : bytes) (raw : Z) (m : option GoType) : go (option Value * bytes) :=
  '(buff, r) ← readFrame r;
  match m with
  | None => Ret (None, r)
  | Some t =>
      if raw =? 2 then v ← json_Unmarshal t buff; Ret (Some v, r)
      else if is_proto t then v ← Unmarshal t buff; Ret (Some v, r)
      else Panic "interface conversion: not a proto.Message"
  end.

Definition decode_req (r : bytes) : go (ReqHeader.t * bytes) :=
  '(buff, r) ← readFrame r; h ← Unmarshal_req buff; Ret (h, r).
Definition decode_rsp (r : bytes) : go (RspHeader.t * bytes) :=
  '(buff, r) ← readFrame r; h ← Unmarshal_rsp buff; Ret (h, r).

(** ** The client codec: what is written to the connection in one Write *)

(** The fields of a context that are sent: all but [Nodes]. *)
Definition copy_context (c : Context.t) : Context.t :=
  {| Context.GateName := Context.GateName c; Context.Remote := Context.Remote c; Context.Id := Context.Id c;
     Context.Token := Context.Token c; Context.Uid := Context.Uid c; Context.Nodes := [];
     Context.CallId := Context.CallId c; Context.Game := Context.Game c;
     Context.Kvs := Context.Kvs c; Context.Ps := Context.Ps c |}.

Definition WriteRequest (r : Request.t) (body : Value) : go bytes :=
  let req := {| ReqHeader.Method := Request.ServiceMethod r; ReqHeader.Seq := Request.Seq r;
                ReqHeader.Ctx := copy_context <$> Request.Conn r;
                ReqHeader.NoResp := Request.NoResp r; ReqHeader.Raw := i32 (Request.Raw r) |} in
  buff ← encode_req [] req;
  encode buff 0 body.

Definition WriteByteRequest (r : Request.t) (buf : bytes) : go bytes :=
  let req := {| ReqHeader.Method := Request.ServiceMethod r; ReqHeader.Seq := Request.Seq r;
                ReqHeader.Ctx := copy_context <$> Request.Conn r;
                ReqHeader.NoResp := false; ReqHeader.Raw := i32 (Request.Raw r) |} in
  buff ← encode_req [] req;
  writeFrame buff buf.

Definition ReadResponseHeader (r : bytes) : go (Response.t * bytes) :=
  '(resp, r) ← decode_rsp r;
  Ret ({| Response.ServiceMethod := RspHeader.Method resp; Response.Seq := RspHeader.Seq resp;
          Response.Error := RspHeader.Error resp; Response.Ret := u16 (RspHeader.Ret resp);
          Response.Raw := 0 |}, r).

Definition ReadResponseBody (r : bytes) (raw : Z) (body : option GoType) : go (option Value * bytes) :=
  decode r raw body.

Definition ReadByteResponseBody (r : bytes) : go (bytes * bytes) := readFrame r.

(** ** The server codec *)

Definition WriteResponse (resp : Response.t) (body : Value) : go bytes :=
  let cresp := {| RspHeader.Method := Response.ServiceMethod resp; RspHeader.Seq := Response.Seq resp;
                  RspHeader.Error := Response.Error resp; RspHeader.Ret := u32 (Response.Ret resp);
                  RspHeader.Ctx := None; RspHeader.NoResp := false; RspHeader.Raw := i32 (Response.Raw resp) |} in
  buff ← encode_rsp [] cresp;
  encode buff (RspHeader.Raw cresp) body.

Definition ReadRequestHeader (r : bytes) : go (Request.t * bytes) :=
  '(req, r) ← decode_req r;
  Ret ({| Request.ServiceMethod := ReqHeader.Method req; Request.Seq := ReqHeader.Seq req;
          Request.NoResp := ReqHeader.NoResp req; Request.Conn := copy_context <$> ReqHeader.Ctx req;
          Request.Raw := ReqHeader.Raw req |}, r).

Definition ReadRequestBody (r : bytes) (raw : Z) (body : option GoType) : go (option Value * bytes) :=
  decode r raw body.

(** ** Lemmas *)

Lemma tooBig_val : tooBig = 1073741824.
Proof. done. Qed.

Definition frame (buf : bytes) : bytes := be_put 4 (Z.of_nat (length buf)) ++ buf.

Lemma writeFrame_ret w buf w' :
  writeFrame w buf = Ret w' -> w' = w ++ frame buf /\ Z.of_nat (length buf) < tooBig.
Proof.
  unfold writeFrame, frame. destruct (Z.leb_spec tooBig (Z.of_nat (length buf))) as [|Hlt]; [done|].
  intros [= <-]. rewrite wrapu_small, <- app_assoc; [done|]. rewrite tooBig_val in Hlt. unfold in_u. lia.
Qed.

Lemma readFrame_frame buf r :
  Z.of_nat (length buf) < tooBig -> readFrame (frame buf ++ r) = Ret (buf, r).
Proof.
  intros Hlt. unfold readFrame, frame. rewrite <- app_assoc.
  rewrite (ReadFull_app_n (be_put 4 _)) by (by rewrite length_be_put). cbn [mbind go_bind].
  rewrite be_get_put, Z.mod_small by (rewrite tooBig_val in Hlt; lia).
  destruct (Z.leb_spec tooBig (Z.of_nat (length buf))); [lia|]. rewrite Nat2Z.id. apply ReadFull_app.
Qed.

(** A frame cut short. *)
Lemma readFrame_truncated buf p :
  Z.of_nat (length buf) < tooBig -> p `prefix_of` frame buf -> p <> frame buf ->
  readFrame p = Err EOF \/ readFrame p = Err ErrUnexpectedEOF.
Proof.
  intros Hlt [q Hq] Hne.
  assert (Hlen : (length p < 4 + length buf)%nat).
  { assert (Hl : length (frame buf) = (4 + length buf)%nat) by (unfold frame; rewrite length_app, length_be_put; lia).
    rewrite Hq, length_app in Hl. destruct q; [rewrite app_nil_r in Hq; congruence|]. simpl in Hl. lia. }
  unfold readFrame. destruct (decide (length p < 4)%nat) as [H4|H4].
  { rewrite ReadFull_short by done. cbn [mbind go_bind]. case_decide; auto. }
  assert (Hp : exists p', p = be_put 4 (Z.of_nat (length buf)) ++ p').
  { exists (drop 4 p). rewrite <- (take_drop 4 p) at 1. f_equal.
    pose proof (f_equal (take 4) Hq) as Ht. unfold frame in Ht.
    rewrite take_app_le in Ht by (rewrite length_be_put; lia).
    rewrite take_ge in Ht by (rewrite length_be_put; lia).
    rewrite take_app_le in Ht by lia. done. }
  destruct Hp as [p' ->].
  rewrite (ReadFull_app_n (be_put 4 _)) by (by rewrite length_be_put). cbn [mbind go_bind].
  rewrite be_get_put, Z.mod_small by (rewrite tooBig_val in Hlt; lia).
  destruct (Z.leb_spec tooBig (Z.of_nat (length buf))); [lia|]. rewrite Nat2Z.id.
  rewrite length_app, length_be_put in Hlen. rewrite ReadFull_short by lia. case_decide; auto.
Qed.

Lemma readFrame_no_panic r e : readFrame r <> Panic e.
Proof.
  assert (H : forall r n e, ReadFull r n <> Panic e).
  { intros r' n e'. unfold ReadFull. case_decide; [done|]. by destruct r'. }
  unfold readFrame. destruct (ReadFull r 4) as [[h r']|e'|e'] eqn:E; cbn [mbind go_bind]; [|done|by apply H in E].
  case_match; [done|apply H].
Qed.

Lemma readFrame_shorter r b r' : readFrame r = Ret (b, r') -> (length r' < length r)%nat.
Proof.
  unfold readFrame. destruct (ReadFull r 4) as [[h r1]| |] eqn:E; cbn [mbind go_bind]; try done.
  case_match; [done|]. intros H2. apply ReadFull_ret in E as [-> Hh]. apply ReadFull_ret in H2 as [-> _].
  rewrite !length_app. lia.
Qed.

Lemma encode_ret w raw m w' :
  encode w raw m = Ret w' ->
  is_proto (type_of m) = true /\
  exists buf, (if raw =? 2 then json_Marshal m else Marshal m) = Ret buf /\
    w' = w ++ frame buf /\ Z.of_nat (length buf) < tooBig.
Proof.
  unfold encode. destruct (is_proto (type_of m)); [|done]. intros H. split; [done|].
  destruct (raw =? 2).
  - destruct (json_Marshal m) as [buf| |] eqn:E; try done. exists buf.
    apply writeFrame_ret in H. tauto.
  - destruct (Marshal m) as [buf| |] eqn:E; try done. exists buf.
    apply writeFrame_ret in H. tauto.
Qed.

Lemma encode_req_ret w h w' : encode_req w h = Ret w' ->
  exists buf, Marshal_req h = Ret buf /\ w' = w ++ frame buf /\ Z.of_nat (length buf) < tooBig.
Proof.
  unfold encode_req. destruct (Marshal_req h) as [buf| |] eqn:E; try done. intros H.
  exists buf. apply writeFrame_ret in H. tauto.
Qed.

Lemma encode_rsp_ret w h w' : encode_rsp w h = Ret w' ->
  exists buf, Marshal_rsp h = Ret buf /\ w' = w ++ frame buf /\ Z.of_nat (length buf) < tooBig.
Proof.
  unfold encode_rsp. destruct (Marshal_rsp h) as [buf| |] eqn:E; try done. intros H.
  exists buf. apply writeFrame_ret in H. tauto.
Qed.

Lemma decode_nil buf r raw :
  Z.of_nat (length buf) < tooBig -> decode (frame buf ++ r) raw None = Ret (None, r).
Proof. intros H. unfold decode. by rewrite readFrame_frame. Qed.

Context {L : ProtoLaws P}.

(** A body written with the encoding [raw] is read back with it. *)
Lemma decode_encode w raw m w' r :
  encode w raw m = Ret w' ->
  exists b, w' = w ++ b /\ decode (b ++ r) raw (Some (type_of m)) = Ret (Some m, r) /\
    decode (b ++ r) raw None = Ret (None, r).
Proof.
  intros (Hp & buf & Hm & -> & Hl)%encode_ret. exists (frame buf). split; [done|].
  split; [|by apply decode_nil]. unfold decode. rewrite readFrame_frame by done. cbn [mbind go_bind].
  rewrite Hp. destruct (raw =? 2).
  - by rewrite (unmarshal_json m buf Hm).
  - by rewrite (unmarshal_marshal m buf Hm).
Qed.

Lemma context_ok_copy c : Context.ok c -> Context.ok (copy_context c).
Proof. done. Qed.

Lemma copy_context_idem c : copy_context (copy_context c) = copy_context c.
Proof. done. Qed.

Definition request_ok (r : Request.t) : Prop :=
  in_u 64 (Request.Seq r) /\ in_s 32 (Request.Raw r) /\ from_option Context.ok True (Request.Conn r).
#[global] Instance request_ok_dec r : Decision (request_ok r).
Proof. unfold request_ok. destruct (Request.Conn r); simpl; apply _. Defined.

Definition response_ok (r : Response.t) : Prop :=
  in_u 64 (Response.Seq r) /\ in_u 16 (Response.Ret r) /\ in_s 32 (Response.Raw r).
#[global] Instance response_ok_dec r : Decision (response_ok r).
Proof. unfold response_ok. apply _. Defined.

(** What the server sees of a request. *)
Definition on_wire (r : Request.t) (noResp : bool) : Request.t :=
  {| Request.ServiceMethod := Request.ServiceMethod r; Request.Seq := Request.Seq r;
     Request.NoResp := noResp; Request.Conn := copy_context <$> Request.Conn r; Request.Raw := Request.Raw r |}.

Lemma read_request_header r noResp w bs r' :
  request_ok r ->
  encode_req w {| ReqHeader.Method := Request.ServiceMethod r; ReqHeader.Seq := Request.Seq r;
                  ReqHeader.Ctx := copy_context <$> Request.Conn r;
                  ReqHeader.NoResp := noResp; ReqHeader.Raw := i32 (Request.Raw r) |} = Ret bs ->
  exists b, bs = w ++ b /\ ReadRequestHeader (b ++ r') = Ret (on_wire r noResp, r').
Proof.
  intros (Hs & Hr & Hc) (buf & Hm & -> & Hl)%encode_req_ret. exists (frame buf). split; [done|].
  unfold ReadRequestHeader, decode_req. rewrite readFrame_frame by done. cbn [mbind go_bind].
  rewrite (unmarshal_req _ buf) with (2 := Hm).
  - cbn [mbind go_bind]. unfold on_wire; simpl. rewrite wraps_small by (done || lia).
    by destruct (Request.Conn r) as [c|].
  - split; [done|]. split; [simpl; by rewrite wraps_small by (done || lia)|].
    simpl. intros c. destruct (Request.Conn r) as [c'|]; [|done]. simpl. intros [= <-]. by apply context_ok_copy.
Qed.

(** C22. A request the client writes is read back by the server.  WriteRequest:
    the header with every field but the context's node table, then the same
    body, whatever follows on the stream; a discarded body leaves the stream at
    the next request.  WriteByteRequest: the same with the raw bytes as the
    body, except that the server sees NoResp as false whatever the client
    asked for. *)
Theorem rpc_request_roundtrip (r : Request.t) (body : Value) (buf bs rest : bytes) (Hr : request_ok r) :
  (WriteRequest r body = Ret bs -> exists mid,
     ReadRequestHeader (bs ++ rest) = Ret (on_wire r (Request.NoResp r), mid) /\
     ReadRequestBody mid 0 (Some (type_of body)) = Ret (Some body, rest) /\
     ReadRequestBody mid 0 None = Ret (None, rest)) /\
  (WriteByteRequest r buf = Ret bs -> exists mid,
     ReadRequestHeader (bs ++ rest) = Ret (on_wire r false, mid) /\ readFrame mid = Ret (buf, rest)).
Proof.
  split.
  - unfold WriteRequest. destruct (encode_req [] _) as [w| |] eqn:E; cbn [mbind go_bind]; try done.
    intros Hb. destruct (decode_encode w 0 body bs rest Hb) as (b & -> & Hd & Hn).
    destruct (read_request_header r _ [] w (b ++ rest) Hr E) as (h & -> & Hh).
    exists (b ++ rest). rewrite app_nil_l, <- app_assoc. done.
  - unfold WriteByteRequest. destruct (encode_req [] _) as [w| |] eqn:E; cbn [mbind go_bind]; try done.
    intros [-> Hl]%writeFrame_ret.
    destruct (read_request_header r _ [] w (frame buf ++ rest) Hr E) as (h & -> & Hh).
    exists (frame buf ++ rest). rewrite app_nil_l, <- app_assoc, readFrame_frame by done. done.
Qed.

(** Reading a response back, for the claim below and for the client. *)
Lemma read_response (r : Response.t) (body : Value) (bs rest : bytes)
    (Hr : response_ok r) (Hw : WriteResponse r body = Ret bs) :
  exists mid,
    ReadResponseHeader (bs ++ rest) =
      Ret ({| Response.ServiceMethod := Response.ServiceMethod r; Response.Seq := Response.Seq r;
              Response.Error := Response.Error r; Response.Ret := Response.Ret r; Response.Raw := 0 |}, mid) /\
    ReadResponseBody mid (Response.Raw r) (Some (type_of body)) = Ret (Some body, rest) /\
    (forall raw, ReadResponseBody mid raw None = Ret (None, rest)) /\
    (exists buf, (if Response.Raw r =? 2 then json_Marshal body else Marshal body) = Ret buf /\
       ReadByteResponseBody mid = Ret (buf, rest)).
Proof.
  destruct Hr as (Hs & Ht & Hraw).
  assert (E32 : u32 (Response.Ret r) = Response.Ret r) by (apply wrapu_small; unfold in_u in *; lia).
  assert (Ei32 : i32 (Response.Raw r) = Response.Raw r) by (apply wraps_small; (done || lia)).
  unfold WriteResponse in Hw. destruct (encode_rsp [] _) as [w| |] eqn:E; cbn [mbind go_bind] in Hw; try done.
  cbn [RspHeader.Raw] in Hw. rewrite Ei32 in Hw.
  apply encode_rsp_ret in E as (hb & Hm & -> & Hl). rewrite app_nil_l in Hw.
  pose proof Hw as Hw'. apply encode_ret in Hw' as (Hp & buf & Hbm & -> & Hbl).
  destruct (decode_encode (frame hb) _ body _ rest Hw) as (b & Hb & Hd & Hn).
  apply app_inv_head in Hb as <-.
  exists (frame buf ++ rest). rewrite <- app_assoc. splits.
  - unfold ReadResponseHeader, decode_rsp. rewrite readFrame_frame by done. cbn [mbind go_bind].
    rewrite (unmarshal_rsp _ hb) with (2 := Hm).
    + cbn [mbind go_bind]. simpl. rewrite E32, wrapu_small by done. done.
    + split; [done|]. simpl. rewrite E32, Ei32. splits; try done. unfold in_u in *. lia.
  - exact Hd.
  - intros raw. by apply decode_nil.
  - exists buf. split; [done|]. by apply readFrame_frame.
Qed.

(** C23. A response the server writes is read back by the client: the header
    (method, sequence number, error and return code; the body's encoding is not
    copied) and then the same body, decoded as JSON when the request was a JSON
    call and as protobuf otherwise. *)
Theorem rpc_response_roundtrip (r : Response.t) (body : Value) (bs rest : bytes)
    (Hr : response_ok r) (Hw : WriteResponse r body = Ret bs) :
  exists mid,
    ReadResponseHeader (bs ++ rest) =
      Ret ({| Response.ServiceMethod := Response.ServiceMethod r; Response.Seq := Response.Seq r;
              Response.Error := Response.Error r; Response.Ret := Response.Ret r; Response.Raw := 0 |}, mid) /\
    ReadResponseBody mid (Response.Raw r) (Some (type_of body)) = Ret (Some body, rest) /\
    (forall raw, ReadResponseBody mid raw None = Ret (None, rest)) /\
    (exists buf, (if Response.Raw r =? 2 then json_Marshal body else Marshal body) = Ret buf /\
       ReadByteResponseBody mid = Ret (buf, rest)).
Proof. by apply read_response. Qed.

End coder.

(** ** A concrete codec

    Any countable type can be written as the binary digits of its code: an
    instance of the interface, for the examples. *)

Section pack.
Context {A : Type} `{Countable A}.

Fixpoint digits (p : positive) : bytes :=
  match p with xH => [] | xO p => "0"%char :: digits p | xI p => "1"%char :: digits p end.
Fixpoint undigits (b : bytes) : positive :=
  match b with [] => xH | c :: b => if decide (c = "0"%char) then xO (undigits b) else xI (undigits b) end.

Definition pack (x : A) : go bytes := Ret (digits (countable.encode x)).
Definition unpack (b : bytes) : go A :=
  match countable.decode (undigits b) with Some x => Ret x | None => Err (ErrMsg "cannot parse") end.

Lemma undigits_digits p : undigits (digits p) = p.
Proof. induction p as [p IH|p IH|]; simpl; by rewrite ?IH. Qed.

Lemma unpack_pack x b : pack x = Ret b -> unpack b = Ret x.
Proof. intros [= <-]. unfold unpack. by rewrite undigits_digits, countable.decode_encode. Qed.
End pack.

(** Messages that are one string, a plain type and NullMessage. *)
Inductive sample_type := TText | TPlain | TNull.
Inductive sample_value := VText (s : string) | VPlain (z : Z) | VNull.

Definition sample_unmarshal (t : sample_type) (b : bytes) : go sample_value :=
  match t with
  | TText => s ← unpack b; Ret (VText s)
  | TPlain => z ← unpack b; Ret (VPlain z)
  | TNull => Ret VNull
  end.
Definition sample_marshal (v : sample_value) : go bytes :=
  match v with VText s => pack s | VPlain z => pack z | VNull => Ret [] end.

#[global] Instance SampleProto : Proto := {
  GoType := sample_type;
  Value := sample_value;
  type_of v := match v with VText _ => TText | VPlain _ => TPlain | VNull => TNull end;
  type_name t := match t with TText => "*pb.Text" | TPlain => "int64" | TNull => "*rpc.NullMessage" end;
  is_proto t := match t with TPlain => false | _ => true end;
  Marshal := sample_marshal;
  Unmarshal := sample_unmarshal;
  json_Marshal v := b ← sample_marshal v; Ret ("{"%char :: b);
  json_Unmarshal t b := match b with _ :: b => sample_unmarshal t b | [] => Err (ErrMsg "unexpected end of JSON input") end;
  Marshal_req := pack;
  Unmarshal_req := unpack;
  Marshal_rsp := pack;
  Unmarshal_rsp := unpack
}.

Lemma sample_roundtrip v b : sample_marshal v = Ret b -> sample_unmarshal (type_of v) b = Ret v.
Proof.
  destruct v as [s|z|]; cbn [sample_marshal sample_unmarshal type_of SampleProto]; [..|done];
    intros Hp; by rewrite (unpack_pack _ _ Hp).
Qed.

#[global] Instance SampleProtoLaws : ProtoLaws SampleProto.
Proof.
  split; simpl; try done.
  - apply sample_roundtrip.
  - intros v b Hb. destruct (sample_marshal v) as [b'| |] eqn:E; try done. injection Hb as <-.
    by apply sample_roundtrip.
  - intros h b _. apply unpack_pack.
  - intros h b _. apply unpack_pack.
  - intros []; done.
  - intros []; done.
Qed.

Definition sample_request : Request.t :=
  {| Request.ServiceMethod := "Db.Get"; Request.Seq := 7; Request.NoResp := true; Request.Conn := None; Request.Raw := 0 |}.
Definition sample_response : Response.t :=
  {| Response.ServiceMethod := "Db.Get"; Response.Seq := 7; Response.Error := ""; Response.Ret := 3; Response.Raw := 2 |}.

Definition written (x : go bytes) : bytes := match x with Ret b => b | _ => [] end.

Lemma rpc_request_roundtrip_witness :
  exists mid, ReadRequestHeader (written (WriteByteRequest sample_request ["x"%char])) =
    Ret (on_wire sample_request false, mid).
Proof.
  destruct (rpc_request_roundtrip (P := SampleProto) sample_request (VText "hi") ["x"%char]
              (written (WriteByteRequest sample_request ["x"%char])) []) as [_ H].
  - apply (bool_decide_unpack _). by vm_compute.
  - destruct H as (mid & H & _); [by vm_compute|]. rewrite app_nil_r in H. by exists mid.
Defined.

Lemma rpc_response_roundtrip_witness :
  exists mid, ReadResponseBody (P := SampleProto) mid 2 (Some TText) = Ret (Some (VText "hi"), []).
Proof.
  destruct (rpc_response_roundtrip (P := SampleProto) sample_response (VText "hi")
              (written (WriteResponse (P := SampleProto) sample_response (VText "hi"))) []) as (mid & _ & H & _).
  - apply (bool_decide_unpack _). by vm_compute.
  - by vm_compute.
  - exists mid. exact H.
Defined.
