(* ===== verification/RpcServer.v ===== *)
(** * The RPC server: rpc/go_server.go

    Registration of services by reflection, the decoding of requests, the call
    of the method and the response; local calls (RawCall, InternalCall); the
    free lists of requests and responses.  A method is a function of the
    context, the argument and the fresh reply; it returns or panics.  Protobuf
    and JSON are the parameters of RpcCoder.v. *)

From Stdlib Require Import ZArith Lia Ascii String.
From stdpp Require Import base numbers list strings gmap.
From S2P Require Import Prelude GoStd RpcCoder.

(** ** Types seen by reflection *)

Inductive kind := KInterface | KMap | KSlice | KOther.

Inductive RType :=
  | TPtr (t : RType)
  | TLeaf (k : kind) (name pkgPath : string) (elem : option RType).

Definition is_ptr (t : RType) : bool := match t with TPtr _ => true | _ => false end.
Definition is_interface (t : RType) : bool := match t with TLeaf KInterface _ _ _ => true | _ => false end.

(** [t.Elem()]: panics when the type has none. *)
Definition Elem (t : RType) : go RType :=
  match t with
  | TPtr e => Ret e
  | TLeaf _ _ _ (Some e) => Ret e
  | TLeaf _ _ _ None => Panic "reflect: Elem of invalid type"
  end.

Section rpc_server.
Context {P : Proto}.
Context (gotype : RType -> GoType)               (* the Go type of the values of a reflect.Type *)
        (assignable : Value -> RType -> bool)    (* reflect's check of the arguments of Call *)
        (zero : RType -> Value)                  (* reflect.New: a pointer to the zero value of the type *)
        (empty : RType -> Value)                 (* the same, with an empty map or slice in it *)
        (deref : Value -> Value)                 (* argv.Elem() *)
        (NullMessage : Value)                    (* &NullMessage{} *)
        (protojson_Unmarshal : GoType -> bytes -> go Value)
        (partial : GoType -> bytes -> Value)     (* what a failed Unmarshal leaves in its target *)
        (upper_nonascii : string -> bool).       (* unicode.IsUpper of a first rune beyond ASCII *)

Inductive outcome :=
  | Returns (ret : Z) (err : option string) (reply : Value)
  | Panics.

Record methodType := {
  ArgType : RType;
  ReplyType : RType;
  func : option Context.t -> Value -> Value -> outcome;
  numCalls : Z
}.

Record service := { name : string; method : gmap string methodType }.

Record Server := { serviceMap : gmap string service }.

Definition NewServer : Server := {| serviceMap := ∅ |}.

(** ** Registration *)

Definition isExported (nm : string) : bool :=
  match nm with
  | EmptyString => false
  | String c _ =>
      if byte_val c <? 128 then (65 <=? byte_val c) && (byte_val c <=? 90) else upper_nonascii nm
  end.

Fixpoint isExportedOrBuiltinType (t : RType) : bool :=
  match t with
  | TPtr t => isExportedOrBuiltinType t
  | TLeaf _ nm pkg _ => isExported nm || String.eqb pkg ""
  end.

(** A method as reflect describes it; [Ins] includes the receiver. *)
Record Method := {
  mname : string; PkgPath : string; Ins : list RType; Outs : list RType;
  body : option Context.t -> Value -> Value -> outcome
}.

Definition typeOfError : RType := TLeaf KInterface "error" "" None.
Definition typeOfUint16 : RType := TLeaf KOther "uint16" "" None.

Fixpoint rtype_eqb (a b : RType) : bool :=
  match a, b with
  | TPtr a, TPtr b => rtype_eqb a b
  | TLeaf k n p e, TLeaf k' n' p' e' =>
      match k, k' with
      | KInterface, KInterface | KMap, KMap | KSlice, KSlice | KOther, KOther => true
      | _, _ => false
      end && String.eqb n n' && String.eqb p p' &&
      match e, e' with Some a, Some b => rtype_eqb a b | None, None => true | _, _ => false end
  | _, _ => false
  end.

(** The methodType of one method, [None] where the loop continues. *)
Definition suitableMethod (m : Method) : option methodType :=
  if negb (String.eqb (PkgPath m) "") then None else
  match Ins m with
  | [_; _; argType; replyType] =>
      if negb (isExportedOrBuiltinType argType) then None
      else if negb (is_ptr replyType || is_interface replyType) then None
      else if negb (isExportedOrBuiltinType replyType) then None
      else match Outs m with
           | [out0; out1] =>
               if negb (rtype_eqb out1 typeOfError) then None
               else if negb (rtype_eqb out0 typeOfUint16) then None
               else Some {| ArgType := argType; ReplyType := replyType; func := body m; numCalls := 0 |}
           | _ => None
           end
  | _ => None
  end.

Definition suitableMethods (ms : list Method) : gmap string methodType :=
  fold_left (fun acc m => match suitableMethod m with
                          | Some mt => <[mname m := mt]> acc
                          | None => acc
                          end) ms ∅.

(** The receiver: its type's name and string, and the method sets of its type
    and of the pointer to it. *)
Record Receiver := { typeName : string; typeString : string; methods : list Method; ptrMethods : list Method }.

Definition register (server : Server) (rcvr : Receiver) (nm : string) (useName : bool) : go Server :=
  let sname := if useName then nm else typeName rcvr in
  if String.eqb sname "" then
    Err (ErrMsg (String.append "rpc.Register: no service name for type " (typeString rcvr)))
  else if negb (isExported sname) && negb useName then
    Err (ErrMsg (String.append "rpc.Register: type " (String.append sname " is not exported")))
  else
    let ms := suitableMethods (methods rcvr) in
    if decide (ms = ∅) then
      let what := if decide (suitableMethods (ptrMethods rcvr) = ∅)
                  then " has no exported methods of suitable type"
                  else " has no exported methods of suitable type (hint: pass a pointer to value of that type)" in
      Err (ErrMsg (String.append "rpc.Register: type " (String.append sname what)))
    else match serviceMap server !! sname with
         | Some _ => Err (ErrMsg (String.append "rpc: service already defined: " sname))
         | None => Ret {| serviceMap := <[sname := {| name := sname; method := ms |}]> (serviceMap server) |}
         end.

Definition Register (server : Server) (rcvr : Receiver) : go Server := register server rcvr "" false.
Definition RegisterName (server : Server) (nm : string) (rcvr : Receiver) : go Server := register server rcvr nm true.

(** ** Calls *)

Definition splitServiceMethod (serviceMethod : string) : string * string :=
  match LastIndex "." serviceMethod with
  | None => ("", "")
  | Some p => p
  end.

Definition ill_formed (sm : string) : go_error :=
  ErrMsg (String.append "rpc: service/method request ill-formed: " sm).

(** mtype.numCalls++ of a uint. *)
Definition count_call (server : Server) (sname mname : string) : Server :=
  {| serviceMap := alter (fun svc => {| name := name svc;
       method := alter (fun mt => {| ArgType := ArgType mt; ReplyType := ReplyType mt; func := func mt;
                                     numCalls := u64 (numCalls mt + 1) |}) mname (method svc) |})
       sname (serviceMap server) |}.

(** function.Call: the types of the arguments are checked first; a panic of the
    method goes through. *)
Definition Call (mt : methodType) (conn : option Context.t) (argv replyv : Value) : go (Z * option string * Value) :=
  if negb (assignable argv (ArgType mt)) || negb (assignable replyv (ReplyType mt))
  then Panic "reflect: Call using value as a different type"
  else match func mt conn argv replyv with
       | Returns ret err reply => Ret (ret, err, reply)
       | Panics => Panic "method"
       end.

Definition lookup_method (server : Server) (serviceMethod pre : string) : go (string * string * methodType) :=
  let '(serviceName, methodName) := splitServiceMethod serviceMethod in
  if String.eqb serviceName "" || String.eqb methodName "" then Err (ill_formed serviceMethod)
  else match serviceMap server !! serviceName with
       | None => Err (ErrMsg (String.append "rpc: can't find service " serviceName))
       | Some svc =>
           match method svc !! methodName with
           | None => Err (ErrMsg (String.append pre (String.append ": can't find method " methodName)))
           | Some mt => Ret (serviceName, methodName, mt)
           end
       end.

(** RawCall: a local call with an encoded request.  The error of Unmarshal is
    ignored: the method gets what was decoded until then. *)
Definition RawCall (server : Server) (conn : option Context.t) (serviceMethod : string) (reqBuff : bytes) (js : bool)
    : go (Z * bytes * Server) :=
  '(sn, mn, mt) ← lookup_method server serviceMethod "rpc1";
  argElem ← Elem (ArgType mt);
  replyElem ← Elem (ReplyType mt);
  let t := gotype (TPtr argElem) in
  if negb (is_proto t) then Err (ErrMsg "does not implement proto.Message") else
  let argv := match (if js then protojson_Unmarshal t reqBuff else Unmarshal t reqBuff) with
              | Ret v => v
              | _ => partial t reqBuff
              end in
  let server := count_call server sn mn in
  '(ret, err, reply) ← Call mt conn argv (zero replyElem);
  match err with
  | Some e => Err (ErrMsg e)
  | None =>
      if is_proto (type_of reply) then
        buf ← (if js then json_Marshal reply else Marshal reply);
        Ret (ret, buf, server)
      else Err (ErrMsg "does not implement proto.Message")
  end.

(** InternalCall: a local call with decoded messages; the reply is filled in
    place. *)
Definition InternalCall (server : Server) (conn : option Context.t) (serviceMethod : string)
    (req : Value) (rsp : option Value) : go (Z * Value * Server) :=
  '(sn, mn, mt) ← lookup_method server serviceMethod "rpc2";
  let rsp := default NullMessage rsp in
  let server := count_call server sn mn in
  '(ret, err, reply) ← Call mt conn req rsp;
  match err with
  | Some e => Err (ErrMsg e)
  | None => Ret (ret, reply, server)
  end.

(** ** Serving a connection *)

(** sendResponse: the response and the body passed to WriteResponse. *)
Definition sendResponse (req : Request.t) (reply : Value) (ret : Z) (errmsg : string) : Response.t * Value :=
  let e := negb (String.eqb errmsg "") in
  ({| Response.ServiceMethod := Request.ServiceMethod req; Response.Seq := Request.Seq req;
      Response.Error := errmsg; Response.Ret := ret; Response.Raw := Request.Raw req |},
   if e then NullMessage else reply).

Definition err_text (e : go_error) : string :=
  match e with EOF => "EOF" | ErrUnexpectedEOF => "unexpected EOF" | ErrMsg s => s end.

(** The reader after an attempt to read a frame, successful or not. *)
Definition after_frame (r : bytes) : bytes :=
  match ReadFull r 4 with
  | Ret (h, r1) =>
      if tooBig <=? be_get h then r1
      else match ReadFull r1 (Z.to_nat (be_get h)) with Ret (_, r2) => r2 | _ => [] end
  | _ => []
  end.

(** A request read, with what has to be done for it. *)
Inductive job :=
  | JBad (req : Request.t) (err : go_error)
  | JCall (mt : methodType) (req : Request.t) (argv : Value) (replyv : option Value).

Definition readRequestHeader (server : Server) (req : Request.t) : go methodType :=
  match LastIndex "." (Request.ServiceMethod req) with
  | None => Err (ill_formed (Request.ServiceMethod req))
  | Some (serviceName, methodName) =>
      match serviceMap server !! serviceName with
      | None => Err (ErrMsg (String.append "rpc: can't find service " (Request.ServiceMethod req)))
      | Some svc =>
          match method svc !! methodName with
          | None => Err (ErrMsg (String.append "rpc3: can't find method " (Request.ServiceMethod req)))
          | Some mt => Ret mt
          end
      end
  end.

(** reflect.New of the reply, with MakeMap and MakeSlice. *)
Definition new_reply (e : RType) : Value :=
  match e with TLeaf KMap _ _ _ | TLeaf KSlice _ _ _ => empty e | _ => zero e end.

(** readRequest: an error means that the loop stops (keepReading is false); a
    bad request (keepReading is true) is a job too. *)
Definition readRequest (server : Server) (r : bytes) : go (job * bytes) :=
  '(req, r) ← ReadRequestHeader r;
  match readRequestHeader server req with
  | Err e => (* discard body *)
      Ret (JBad req e, after_frame r)
  | Panic w => Panic w
  | Ret mt =>
      let argElem := match ArgType mt with TPtr e => e | t => t end in
      match ReadRequestBody r (i32 (Request.Raw req)) (Some (gotype (TPtr argElem))) with
      | Panic w => Panic w
      | Err e => Ret (JBad req e, after_frame r)
      | Ret (v, r) =>
          let argv := default NullMessage v in
          let argv := if is_ptr (ArgType mt) then argv else deref argv in
          replyv ← (if is_interface (ReplyType mt) then Ret None
                    else e ← Elem (ReplyType mt); Ret (Some (new_reply e)));
          Ret (JCall mt req argv replyv, r)
      end
  end.

(** service.call: the response, if one is sent; the method's panic is caught. *)
Definition call (mt : methodType) (req : Request.t) (argv : Value) (replyv : option Value) : option (Response.t * Value) :=
  let replyv := default NullMessage replyv in
  let '(ret, errmsg, reply) :=
    match Call mt (Request.Conn req) argv replyv with
    | Ret (ret, Some e, reply) => (ret, e, reply)
    | Ret (ret, None, reply) => (ret, "", reply)
    | _ => (1, "server exception", replyv)
    end in
  if Request.NoResp req then None else Some (sendResponse req reply ret errmsg).

Definition answer (j : job) : option (Response.t * Value) :=
  match j with
  | JBad req e => if Request.NoResp req then None else Some (sendResponse req NullMessage 0 (err_text e))
  | JCall mt req argv replyv => call mt req argv replyv
  end.

(** ServeCodec: the requests of a stream until it ends; each one is answered in
    a goroutine of its own.  [None]: out of fuel. *)
Fixpoint ServeCodec (fuel : nat) (server : Server) (r : bytes) : option (go (list job)) :=
  match fuel with
  | O => None
  | S fuel =>
      match readRequest server r with
      | Ret (j, r) =>
          match ServeCodec fuel server r with
          | Some (Ret js) => Some (Ret (j :: js))
          | o => o
          end
      | Err _ => Some (Ret [])
      | Panic w => Some (Panic w)
      end
  end.

(** ServeRequest: one request; the error it returns, if any. *)
Definition ServeRequest (server : Server) (r : bytes) : go (option (Response.t * Value) * option go_error * bytes) :=
  match readRequest server r with
  | Ret (JBad req e, r) => Ret (answer (JBad req e), Some e, r)
  | Ret (j, r) => Ret (answer j, None, r)
  | Err e => Err e
  | Panic w => Panic w
  end.

(** ** What a client may rely on *)

(** The methods of a server that register accepts and that the codec can
    serve: the argument is a protobuf message, the reply a pointer or an
    interface. *)
Definition servable (server : Server) : Prop :=
  forall sn svc mn mt, serviceMap server !! sn = Some svc -> method svc !! mn = Some mt ->
    is_proto (gotype (TPtr (match ArgType mt with TPtr e => e | t => t end))) = true /\
    (is_ptr (ReplyType mt) || is_interface (ReplyType mt)) = true.

(** The answer to a request whose body is [payload]. *)
Definition expected (server : Server) (req : Request.t) (payload : bytes) : option (Response.t * Value) :=
  if Request.NoResp req then None else Some
  match readRequestHeader server req with
  | Ret mt =>
      let t := gotype (TPtr (match ArgType mt with TPtr e => e | t => t end)) in
      match (if i32 (Request.Raw req) =? 2 then json_Unmarshal t payload else Unmarshal t payload) with
      | Ret v =>
          let v := if is_ptr (ArgType mt) then v else deref v in
          let fresh := match ReplyType mt with TPtr e => new_reply e | _ => NullMessage end in
          match Call mt (Request.Conn req) v fresh with
          | Ret (ret, err, reply) => sendResponse req reply ret (default "" err)
          | _ => sendResponse req fresh 1 "server exception"
          end
      | Err e => sendResponse req NullMessage 0 (err_text e)
      | Panic _ => sendResponse req NullMessage 0 ""
      end
  | Err e => sendResponse req NullMessage 0 (err_text e)
  | Panic _ => sendResponse req NullMessage 0 ""
  end.

Definition decode_panics : Prop :=
  (forall t b w, Unmarshal t b <> Panic w) /\ (forall t b w, json_Unmarshal t b <> Panic w) /\
  (forall b w, Unmarshal_req b <> Panic w).

Lemma after_frame_le r : (length (after_frame r) <= length r)%nat.
Proof.
  unfold after_frame. destruct (ReadFull r 4) as [[h r1]| |] eqn:E; [|simpl; lia..].
  apply ReadFull_ret in E as [-> _]. rewrite length_app. case_match; [lia|].
  destruct (ReadFull r1 _) as [[b r2]| |] eqn:E2; [|simpl; lia..].
  apply ReadFull_ret in E2 as [-> _]. rewrite length_app. lia.
Qed.

Lemma after_frame_frame b r : Z.of_nat (length b) < tooBig -> after_frame (frame b ++ r) = r.
Proof.
  intros Hl. pose proof (readFrame_frame b r Hl) as Hr. unfold readFrame in Hr. unfold after_frame.
  destruct (ReadFull (frame b ++ r) 4) as [[h r1]| |]; cbn [mbind go_bind] in Hr; try done.
  case_match; [done|]. by rewrite Hr.
Qed.

Lemma decode_shorter r raw t v r' : decode r raw t = Ret (v, r') -> (length r' < length r)%nat.
Proof.
  unfold decode. destruct (readFrame r) as [[b r1]| |] eqn:E; cbn [mbind go_bind]; try done.
  apply readFrame_shorter in E. destruct t as [t|]; [|by intros [= _ <-]].
  destruct (raw =? 2).
  - destruct (json_Unmarshal t b); cbn [mbind go_bind]; try done. by intros [= _ <-].
  - destruct (is_proto t); [|done]. destruct (Unmarshal t b); cbn [mbind go_bind]; try done. by intros [= _ <-].
Qed.

Lemma read_header_shorter r h r' : ReadRequestHeader r = Ret (h, r') -> (length r' < length r)%nat.
Proof.
  unfold ReadRequestHeader, decode_req.
  destruct (readFrame r) as [[b r1]| |] eqn:E; cbn [mbind go_bind]; try done.
  apply readFrame_shorter in E. destruct (Unmarshal_req b); cbn [mbind go_bind]; try done.
  by intros [= _ <-].
Qed.

Lemma readRequest_shorter server r j r' : readRequest server r = Ret (j, r') -> (length r' < length r)%nat.
Proof.
  unfold readRequest. destruct (ReadRequestHeader r) as [[req r1]| |] eqn:E; cbn [mbind go_bind]; try done.
  apply read_header_shorter in E. pose proof (after_frame_le r1).
  destruct (readRequestHeader server req) as [mt| |]; [|intros [= _ <-]; lia|done].
  destruct (ReadRequestBody _ _ _) as [[v r2]| |] eqn:E2; [|intros [= _ <-]; lia|done].
  apply decode_shorter in E2. intros Hr.
  destruct (if is_interface (ReplyType mt) then _ else _) as [rv| |]; cbn [mbind go_bind] in Hr; try done.
  injection Hr as _ <-. lia.
Qed.

Lemma ServeCodec_total server n : forall r, (length r < n)%nat -> ServeCodec n server r <> None.
Proof.
  induction n as [|n IH]; intros r Hr; [lia|]. cbn [ServeCodec].
  destruct (readRequest server r) as [[j r']| |] eqn:E; [|done..].
  apply readRequest_shorter in E. specialize (IH r' ltac:(lia)).
  destruct (ServeCodec n server r') as [[]|]; done.
Qed.

(** [bs] is a request for [req] with body [payload] on the wire. *)
Definition is_item (req : Request.t) (payload bs : bytes) : Prop :=
  (forall x, ReadRequestHeader (bs ++ x) = Ret (req, frame payload ++ x)) /\ Z.of_nat (length payload) < tooBig.

Lemma readRequest_item server req payload bs x :
  servable server -> decode_panics -> is_item req payload bs ->
  exists j, readRequest server (bs ++ x) = Ret (j, x) /\ answer j = expected server req payload.
Proof using Type.
  intros Hsv (Hp1 & Hp2 & _) [Hh Hl]. unfold readRequest. rewrite Hh. cbn [mbind go_bind].
  destruct (readRequestHeader server req) as [mt|e|w] eqn:E.
  - assert (Hmt : is_proto (gotype (TPtr (match ArgType mt with TPtr e => e | t => t end))) = true /\
      (is_ptr (ReplyType mt) || is_interface (ReplyType mt)) = true).
    { unfold readRequestHeader in E. destruct (LastIndex _ _) as [[sn mn]|]; [|done].
      destruct (serviceMap server !! sn) as [svc|] eqn:Es; [|done].
      destruct (method svc !! mn) as [mt'|] eqn:Em; [|done]. injection E as <-. by eapply Hsv. }
    destruct Hmt as [Hpr Hrt]. set (t := gotype _) in *.
    unfold ReadRequestBody, decode. rewrite readFrame_frame by done. cbn [mbind go_bind].
    rewrite Hpr, after_frame_frame by done. unfold expected. rewrite E. fold t.
    assert (Hreply : exists rv, (if is_interface (ReplyType mt) then Ret None
        else e ← Elem (ReplyType mt); Ret (Some (new_reply e))) = Ret rv /\
        default NullMessage rv = match ReplyType mt with TPtr e => new_reply e | _ => NullMessage end).
    { destruct (ReplyType mt) as [e|[]]; simpl in *; eauto; done. }
    destruct Hreply as (rv & Erv & Edef).
    assert (Hgoal : forall o : go Value, (forall w, o <> Panic w) ->
      exists j, match (v ← o; Ret (Some v, x)) with
        | Ret (v, r) =>
            replyv ← (if is_interface (ReplyType mt) then Ret None else e ← Elem (ReplyType mt); Ret (Some (new_reply e)));
            Ret (JCall mt req (if is_ptr (ArgType mt) then default NullMessage v else deref (default NullMessage v)) replyv, r)
        | Err e => Ret (JBad req e, x)
        | Panic w => Panic w
        end = Ret (j, x) /\ answer j = (if Request.NoResp req then None else Some
          match o with
          | Ret v => match Call mt (Request.Conn req) (if is_ptr (ArgType mt) then v else deref v)
                       (match ReplyType mt with TPtr e => new_reply e | _ => NullMessage end) with
              | Ret (ret, err, reply) => sendResponse req reply ret (default "" err)
              | _ => sendResponse req (match ReplyType mt with TPtr e => new_reply e | _ => NullMessage end) 1 "server exception"
              end
          | Err e => sendResponse req NullMessage 0 (err_text e)
          | Panic _ => sendResponse req NullMessage 0 ""
          end)).
    { intros [v|e|w] Ho; cbn [mbind go_bind]; [|by eexists|by destruct (Ho w)].
      rewrite Erv. cbn [mbind go_bind default]. eexists. split; [done|]. cbn [answer]. unfold call. rewrite Edef.
      destruct (Call _ _ _ _) as [[[ret [err|]] reply]| |]; by destruct (Request.NoResp req). }
    destruct (i32 (Request.Raw req) =? 2); apply Hgoal; eauto.
  - exists (JBad req e). rewrite after_frame_frame by done. split; [done|]. simpl. unfold expected. by rewrite E.
  - unfold readRequestHeader in E. repeat case_match; done.
Qed.

Lemma serve_items (server : Server) (items : list (Request.t * bytes * bytes)) :
  servable server -> decode_panics -> Forall (fun '(req, payload, bs) => is_item req payload bs) items ->
  exists js, ServeCodec (S (length (concat items.*2))) server (concat items.*2) = Some (Ret js) /\
    answer <$> js = (fun '(req, payload, _) => expected server req payload) <$> items.
Proof using Type.
  intros Hsv Hdp Hit.
  assert (H : forall n, (length (concat items.*2) < n)%nat ->
    exists js, ServeCodec n server (concat items.*2) = Some (Ret js) /\
      answer <$> js = (fun '(req, payload, _) => expected server req payload) <$> items);
    [|apply H; lia].
  induction Hit as [|[[req payload] bs] items Hi _ IH]; intros n Hn.
  - destruct n; [simpl in Hn; lia|]. exists []. done.
  - destruct n as [|n]; [lia|]. cbn [fmap list_fmap concat snd] in *. cbn [ServeCodec].
    destruct (readRequest_item server req payload bs (concat items.*2) Hsv Hdp Hi) as (j & Hj & Ha).
    rewrite Hj. apply readRequest_shorter in Hj.
    destruct (IH n) as (js & Hjs & Has); [lia|]. rewrite Hjs. exists (j :: js). split; [done|].
    cbn [fmap list_fmap]. by rewrite Ha, Has.
Qed.

(** An answer belongs to its request; an error comes with the empty message. *)
Definition answers_to (req : Request.t) (a : option (Response.t * Value)) : Prop :=
  match a with
  | None => Request.NoResp req = true
  | Some (resp, body) =>
      Request.NoResp req = false /\ Response.Seq resp = Request.Seq req /\ Response.Raw resp = Request.Raw req /\
      Response.ServiceMethod resp = Request.ServiceMethod req /\ (Response.Error resp <> "" -> body = NullMessage)
  end.

Lemma sendResponse_answers_to req reply ret e : Request.NoResp req = false -> answers_to req (Some (sendResponse req reply ret e)).
Proof using Type.
  intros Hn. unfold sendResponse. simpl. splits; try done. intros He. by destruct (String.eqb_spec e "").
Qed.

Lemma expected_answers_to server req payload : answers_to req (expected server req payload).
Proof using Type.
  unfold expected. destruct (Request.NoResp req) eqn:Hn; [done|].
  repeat case_match; by apply sendResponse_answers_to.
Qed.

(** C10. The server reads any stream to its end without running out, and a
    stream of well-formed requests, however many of them are bad (unknown
    service or method, undecodable body) or make their method fail or panic,
    gives one job per request in their order, each answered as [expected]
    says: with the method's return code and reply, or its error text, or
    "server exception" when it panics, or not at all when the client wants no
    response; the response carries the sequence number, method and encoding of its
    request. *)
Theorem rpc_server_serves_stream (server : Server) (items : list (Request.t * bytes * bytes))
    (Hsv : servable server) (Hdp : decode_panics)
    (Hit : Forall (fun '(req, payload, bs) => is_item req payload bs) items) :
  (forall r, ServeCodec (S (length r)) server r <> None) /\
  exists js, ServeCodec (S (length (concat items.*2))) server (concat items.*2) = Some (Ret js) /\
    answer <$> js = (fun '(req, payload, _) => expected server req payload) <$> items /\
    Forall2 (fun '(req, _, _) j => answers_to req (answer j)) items js.
Proof using Type.
  split; [intros r; apply ServeCodec_total; lia|].
  destruct (serve_items server items Hsv Hdp Hit) as (js & E & Ha). exists js. split; [done|]. split; [done|].
  clear -Ha. revert js Ha. induction items as [|[[req payload] bs] items IH]; intros [|j js] Ha; try done.
  cbn [fmap list_fmap] in Ha. injection Ha as Hj Ha. constructor; [|by apply IH]. rewrite Hj. apply expected_answers_to.
Qed.

Context {L : ProtoLaws P}.

Lemma WriteRequest_item r b bs :
  request_ok r -> WriteRequest r b = Ret bs ->
  exists payload, Marshal b = Ret payload /\ is_item (on_wire r (Request.NoResp r)) payload bs.
Proof using L.
  intros Hr. unfold WriteRequest. destruct (encode_req [] _) as [w| |] eqn:E; cbn [mbind go_bind]; try done.
  intros (_ & payload & Hm & -> & Hl)%encode_ret. exists payload. split; [done|]. split; [|done].
  intros x. destruct (read_request_header r _ [] w (frame payload ++ x) Hr E) as (h & -> & Hh).
  by rewrite app_nil_l, <- app_assoc.
Qed.

Lemma WriteByteRequest_item r buf bs :
  request_ok r -> WriteByteRequest r buf = Ret bs -> is_item (on_wire r false) buf bs.
Proof using L.
  intros Hr. unfold WriteByteRequest. destruct (encode_req [] _) as [w| |] eqn:E; cbn [mbind go_bind]; try done.
  intros [-> Hl]%writeFrame_ret. split; [|done].
  intros x. destruct (read_request_header r _ [] w (frame buf ++ x) Hr E) as (h & -> & Hh).
  by rewrite app_nil_l, <- app_assoc.
Qed.

(** ** Registration *)

Lemma suitableMethods_fold (ms : list Method) : forall (acc : gmap string methodType) mn mt,
  NoDup (mname <$> ms) ->
  fold_left (fun acc m => match suitableMethod m with Some mt => <[mname m := mt]> acc | None => acc end) ms acc !! mn
    = Some mt <->
  (exists m, m ∈ ms /\ mname m = mn /\ suitableMethod m = Some mt) \/
  ((forall m, m ∈ ms -> mname m = mn -> suitableMethod m = None) /\ acc !! mn = Some mt).
Proof using Type.
  induction ms as [|m ms IH]; intros acc mn mt Hnd; simpl.
  { split; [intros H; right; split; [intros m Hm; by apply elem_of_nil in Hm|done]|].
    intros [(m & Hm & _)|[_ H]]; [by apply elem_of_nil in Hm|done]. }
  apply NoDup_cons in Hnd as [Hm Hnd]. rewrite IH by done.
  assert (Hfresh : forall m', m' ∈ ms -> mname m' <> mname m).
  { intros m' Hin E. apply Hm. rewrite <- E. by apply list_elem_of_fmap_2. }
  setoid_rewrite elem_of_cons.
  destruct (suitableMethod m) as [mt0|] eqn:Es.
  - split.
    + intros [(m' & Hin & E & H)|[Hno Hacc]]; [left; eauto|].
      destruct (decide (mname m = mn)) as [<-|Hne].
      * rewrite lookup_insert_eq in Hacc. left. exists m. split; [by left|]. split; [done|congruence].
      * rewrite lookup_insert_ne in Hacc by done. right. split; [|done]. intros m' [->|Hin] E; [done|eauto].
    + intros [(m' & [->|Hin] & E & H)|[Hno Hacc]].
      * right. split; [intros m' Hin E'; by destruct (Hfresh m' Hin); congruence|].
        rewrite <- E, lookup_insert_eq. congruence.
      * left. eauto.
      * right. split; [eauto|]. rewrite lookup_insert_ne; [done|].
        intros <-. specialize (Hno m (or_introl eq_refl) eq_refl). congruence.
  - split.
    + intros [(m' & Hin & E & H)|[Hno Hacc]]; [left; eauto|]. right. split; [|done].
      intros m' [->|Hin] E; [done|eauto].
    + intros [(m' & [->|Hin] & E & H)|[Hno Hacc]]; [congruence|left; eauto|right; split; eauto].
Qed.

(** What makes a method one that can be offered: a name or type is public when it
    begins with a capital letter, or the type has no package. *)
Definition starts_upper (nm : string) : Prop :=
  exists c rest, nm = String c rest /\
    (65 <= byte_val c <= 90 \/ (128 <= byte_val c /\ upper_nonascii nm = true)).

Inductive public : RType -> Prop :=
  | public_ptr t : public t -> public (TPtr t)
  | public_named k nm pkg e : starts_upper nm -> public (TLeaf k nm pkg e)
  | public_builtin k nm e : public (TLeaf k nm "" e).

Record suitable (m : Method) (arg reply : RType) : Prop := {
  su_exported : PkgPath m = "";
  su_ins : exists rcv ctx, Ins m = [rcv; ctx; arg; reply];
  su_arg : public arg;
  su_reply : public reply;
  su_pointer : (exists t, reply = TPtr t) \/ exists nm pkg e, reply = TLeaf KInterface nm pkg e;
  su_outs : Outs m = [TLeaf KOther "uint16" "" None; TLeaf KInterface "error" "" None]
}.

Lemma isExported_iff nm : isExported nm = true <-> starts_upper nm.
Proof using Type.
  clear. unfold starts_upper. destruct nm as [|c rest]; [split; [done|by intros (? & ? & ? & _)]|]. cbn [isExported].
  split.
  - intros H. exists c, rest. split; [done|]. destruct (Z.ltb_spec (byte_val c) 128); [left|by right].
    apply andb_true_iff in H as [H1%Z.leb_le H2%Z.leb_le]. lia.
  - intros (c' & rest' & [= <- <-] & H). destruct (Z.ltb_spec (byte_val c) 128).
    + apply andb_true_iff. rewrite !Z.leb_le. lia.
    + destruct H as [|[_ H]]; [lia|done].
Qed.

Lemma public_iff t : isExportedOrBuiltinType t = true <-> public t.
Proof using Type.
  clear. induction t as [t IH|k nm pkg e]; cbn [isExportedOrBuiltinType].
  - rewrite IH. split; [by constructor|by inversion 1].
  - rewrite orb_true_iff, isExported_iff, String.eqb_eq. split; [intros [H| ->]; by constructor|]. inversion 1; auto.
Qed.

Lemma rtype_eqb_eq : forall a b, rtype_eqb a b = true -> a = b.
Proof using Type.
  clear. fix IH 1. intros [a|k n p e] [b|k' n' p' e']; cbn [rtype_eqb]; try done.
  - intros H. f_equal. by apply IH.
  - intros [[[H1 ->%String.eqb_eq]%andb_true_iff ->%String.eqb_eq]%andb_true_iff H]%andb_true_iff.
    assert (k = k') as -> by (by destruct k, k'). destruct e as [e|], e' as [e'|]; try done. do 2 f_equal. by apply IH.
Qed.

(** The checks of the loop decide it. *)
Lemma suitableMethod_iff m mt :
  suitableMethod m = Some mt <->
  suitable m (ArgType mt) (ReplyType mt) /\ func mt = body m /\ numCalls mt = 0.
Proof using Type.
  clear. split.
  - unfold suitableMethod. destruct (String.eqb_spec (PkgPath m) ""); [|done]. cbn [negb].
    destruct (Ins m) as [|a [|b [|c [|d [|]]]]] eqn:Ei; try done.
    destruct (isExportedOrBuiltinType c) eqn:Ec; [|done]. cbn [negb].
    destruct (is_ptr d || is_interface d) eqn:Ed; [|done]. cbn [negb].
    destruct (isExportedOrBuiltinType d) eqn:Er; [|done]. cbn [negb].
    destruct (Outs m) as [|o0 [|o1 [|]]] eqn:Eo; try done.
    destruct (rtype_eqb o1 typeOfError) eqn:E1; [|done]. destruct (rtype_eqb o0 typeOfUint16) eqn:E0; [|done].
    cbn [negb]. intros [= <-]. split; [|done]. split; cbn; try done; [by do 2 eexists|by apply public_iff..| |].
    + destruct d as [t|[] nm pkg el]; try done; [left; by eexists|right; by do 3 eexists].
    + apply rtype_eqb_eq in E0, E1. rewrite Eo. by subst.
  - destruct mt as [arg reply f k]. cbn. intros ([Hp (rcv & ctx & Hi) Ha%public_iff Hr%public_iff Hk Ho] & -> & ->).
    unfold suitableMethod. rewrite Hp, Hi, Ho, Ha, Hr. cbn.
    destruct Hk as [[t ->]|(nm & pkg & e & ->)]; done.
Qed.

(** Whether a list of methods has one. *)
Definition has_suitable (ms : list Method) : Prop := exists m arg reply, m ∈ ms /\ suitable m arg reply.

Lemma suitableMethods_lookup ms mn mt : NoDup (mname <$> ms) -> suitableMethods ms !! mn = Some mt <->
  exists m, m ∈ ms /\ mname m = mn /\ suitable m (ArgType mt) (ReplyType mt) /\ func mt = body m /\ numCalls mt = 0.
Proof using Type.
  clear. intros Hnd. unfold suitableMethods. rewrite suitableMethods_fold, lookup_empty by done.
  setoid_rewrite suitableMethod_iff. naive_solver.
Qed.

Lemma suitableMethods_empty ms : NoDup (mname <$> ms) -> suitableMethods ms <> ∅ <-> has_suitable ms.
Proof using Type.
  clear. intros Hnd. split.
  - intros (mn & mt & H)%map_choose. apply suitableMethods_lookup in H as (m & Hm & _ & Hs & _); [|done]. by exists m, (ArgType mt), (ReplyType mt).
  - intros (m & arg & reply & Hm & Hs) E.
    assert (H : suitableMethods ms !! mname m = Some {| ArgType := arg; ReplyType := reply; func := body m; numCalls := 0 |}).
    { apply suitableMethods_lookup; [done|]. by exists m. }
    by rewrite E, lookup_empty in H.
Qed.

(** C36. What a registration does, in every case.  The service's name is the one given
    or that of the receiver's type.  Without a name, with a type that is not public, with no
    suitable method (and then a hint when the pointer would have one) and with a name
    that is taken it gives the error that says so.  Otherwise it adds one service under
    the name, whose methods are exactly the suitable ones of the receiver, not called
    yet: exported, with the receiver, a context, an argument and a reply of public types,
    the reply a pointer or an interface, and the results uint16 and error.  Nothing else
    changes, and the service can be served when the arguments are protobuf messages. *)
Theorem rpc_register (server : Server) (rcvr : Receiver) (nm : string) (useName : bool)
    (Hnd : NoDup (mname <$> methods rcvr)) (Hnd' : NoDup (mname <$> ptrMethods rcvr)) :
  let sname := if useName then nm else typeName rcvr in
  let why := fun text => register server rcvr nm useName = Err (ErrMsg (String.append "rpc.Register: " text)) in
  (sname = "" -> why (String.append "no service name for type " (typeString rcvr))) /\
  (sname <> "" -> useName = false -> ~ starts_upper sname -> why (String.append "type " (String.append sname " is not exported"))) /\
  (sname <> "" -> useName = true \/ starts_upper sname ->
     (~ has_suitable (methods rcvr) -> ~ has_suitable (ptrMethods rcvr) ->
        why (String.append "type " (String.append sname " has no exported methods of suitable type"))) /\
     (~ has_suitable (methods rcvr) -> has_suitable (ptrMethods rcvr) ->
        why (String.append "type " (String.append sname " has no exported methods of suitable type (hint: pass a pointer to value of that type)"))) /\
     (has_suitable (methods rcvr) -> is_Some (serviceMap server !! sname) ->
        register server rcvr nm useName = Err (ErrMsg (String.append "rpc: service already defined: " sname))) /\
     (has_suitable (methods rcvr) -> serviceMap server !! sname = None -> exists svc,
        register server rcvr nm useName = Ret {| serviceMap := <[sname := svc]> (serviceMap server) |} /\ name svc = sname /\
        (forall mn mt, method svc !! mn = Some mt <->
           exists m, m ∈ methods rcvr /\ mname m = mn /\ suitable m (ArgType mt) (ReplyType mt) /\ func mt = body m /\ numCalls mt = 0) /\
        (servable server ->
         (forall m arg reply, m ∈ methods rcvr -> suitable m arg reply ->
            is_proto (gotype (TPtr (match arg with TPtr e => e | t => t end))) = true) ->
         servable {| serviceMap := <[sname := svc]> (serviceMap server) |}))).
Proof using Type.
  clear assignable zero empty deref NullMessage protojson_Unmarshal partial.
  cbn zeta. unfold register. set (sname := if useName then nm else typeName rcvr).
  assert (Hdec : forall ms, NoDup (mname <$> ms) -> (~ has_suitable ms -> suitableMethods ms = ∅) /\ (has_suitable ms -> suitableMethods ms <> ∅)).
  { intros ms H. rewrite <- suitableMethods_empty by done. split; [|done]. destruct (decide (suitableMethods ms = ∅)); tauto. }
  destruct (Hdec _ Hnd) as [Hno Hyes], (Hdec _ Hnd') as [Hno' Hyes']. clear Hdec.
  split; [by intros ->|]. split.
  - intros Hne -> Hup. destruct (String.eqb_spec sname ""); [done|]. rewrite <- isExported_iff in Hup.
    by destruct (isExported sname).
  - intros Hne Hexp. destruct (String.eqb_spec sname ""); [done|].
    replace (negb (isExported sname) && negb useName) with false; [|destruct Hexp as [->|H%isExported_iff]; [by rewrite andb_false_r|by rewrite H]].
    splits.
    + intros H1%Hno H2%Hno'. by rewrite !decide_True.
    + intros H1%Hno H2%Hyes'. by rewrite decide_True, decide_False.
    + intros H1%Hyes [svc Hsvc]. by rewrite decide_False, Hsvc.
    + intros H1%Hyes H2. rewrite decide_False, H2 by done. eexists. split; [done|]. cbn [name method]. split; [done|].
      split; [intros mn mt; by apply suitableMethods_lookup|].
      intros Hsv Hproto sn svc mn mt. cbn [serviceMap]. destruct (decide (sn = sname)) as [->|Hn].
      * rewrite lookup_insert_eq. intros [= <-]. cbn [method]. intros (m & Hm & _ & Hs & _)%suitableMethods_lookup; [|done].
        pose proof (Hproto m _ _ Hm Hs) as Hx. split; [by destruct (ArgType mt)|]. destruct (su_pointer _ _ _ Hs) as [[t ->]|(a & b & c & ->)]; done.
      * rewrite lookup_insert_ne by done. apply Hsv.
Qed.

(** ** Counting calls *)

(** service.call counts the method of a request that has one. *)
Definition counted (server : Server) (j : job) : Server :=
  match j with
  | JBad _ _ => server
  | JCall _ req _ _ => let '(sn, mn) := splitServiceMethod (Request.ServiceMethod req) in count_call server sn mn
  end.

Definition calls_of (sn mn : string) (js : list job) : nat :=
  length (List.filter (fun j => match j with JBad _ _ => false | JCall _ req _ _ => bool_decide (splitServiceMethod (Request.ServiceMethod req) = (sn, mn)) end) js).

Definition NumCalls (server : Server) (sn mn : string) : option Z :=
  svc ← serviceMap server !! sn; numCalls <$> method svc !! mn.

Lemma NumCalls_count server sn mn sn' mn' : NumCalls (count_call server sn' mn') sn mn =
  (fun k => if decide ((sn', mn') = (sn, mn)) then u64 (k + 1) else k) <$> NumCalls server sn mn.
Proof using Type.
  clear. unfold NumCalls, count_call. cbn [serviceMap]. rewrite lookup_alter.
  destruct (serviceMap server !! sn) as [svc|] eqn:E; [|by destruct (decide (sn' = sn)) as [->|]; rewrite ?E].
  destruct (decide (sn' = sn)) as [->|Hs].
  - rewrite E. cbn. rewrite lookup_alter. destruct (decide (mn' = mn)) as [->|Hm], (method svc !! mn); cbn; repeat case_decide; congruence.
  - cbn. destruct (method svc !! mn); cbn; repeat case_decide; congruence.
Qed.

(** After the jobs of a stream every method has been counted once for each call of it. *)
Lemma calls_counted sn mn js : forall server k, NumCalls server sn mn = Some k -> in_u 64 k ->
  NumCalls (fold_left counted js server) sn mn = Some (u64 (k + Z.of_nat (calls_of sn mn js))).
Proof using Type.
  clear. induction js as [|j js IH]; intros server k E Hk.
  { cbn. rewrite Z.add_0_r. by rewrite wrapu_small. }
  cbn [fold_left]. unfold calls_of in *. cbn [List.filter]. destruct j as [req e|mt req argv replyv]; [by apply IH|]. cbn [counted].
  destruct (splitServiceMethod (Request.ServiceMethod req)) as [sn' mn'].
  pose proof (NumCalls_count server sn mn sn' mn') as Hc. rewrite E in Hc. cbn in Hc. case_decide as Hd.
  - rewrite bool_decide_true by done. rewrite (IH _ _ Hc) by (apply wrapu_range; lia). cbn [length]. f_equal.
    rewrite Nat2Z.inj_succ. unfold u64, wrapu. rewrite Zplus_mod_idemp_l. f_equal. lia.
  - rewrite bool_decide_false by done. by apply IH.
Qed.

(** ** Local calls *)

(** A method that a local call finds is found for a request too. *)
Lemma lookup_header server req pre sn mn mt :
  lookup_method server (Request.ServiceMethod req) pre = Ret (sn, mn, mt) -> readRequestHeader server req = Ret mt.
Proof using Type.
  unfold lookup_method, splitServiceMethod, readRequestHeader. destruct (LastIndex "." (Request.ServiceMethod req)) as [[s m]|]; [|done].
  destruct (String.eqb s "" || String.eqb m ""); [done|]. destruct (serviceMap server !! s) as [svc|]; [|done].
  destruct (method svc !! m); [|done]. congruence.
Qed.

(** A local call with an encoded request (RawCall) that succeeds gives what
    the same request gets over a connection: the return code and the encoding
    of the reply.  But when the request does not decode, the connection is
    answered with the decoding error, whereas RawCall ignores it and calls the
    method with whatever was decoded. *)
Lemma rpc_rawcall_agrees (server : Server) (req : Request.t) (buf : bytes) (sn mn en ep : string) (mt : methodType)
    (a : RType) (el : option RType)
    (Hlk : lookup_method server (Request.ServiceMethod req) "rpc1" = Ret (sn, mn, mt))
    (Ha : ArgType mt = TPtr a) (Hrt : ReplyType mt = TPtr (TLeaf KOther en ep el))
    (Hp : is_proto (gotype (TPtr a)) = true) (Hraw : i32 (Request.Raw req) <> 2) (Hnr : Request.NoResp req = false) :
  (forall v ret rb server', Unmarshal (gotype (TPtr a)) buf = Ret v ->
     RawCall server (Request.Conn req) (Request.ServiceMethod req) buf false = Ret (ret, rb, server') ->
     exists resp reply, expected server req buf = Some (resp, reply) /\
       Response.Ret resp = ret /\ Response.Error resp = "" /\ Marshal reply = Ret rb) /\
  (forall e, Unmarshal (gotype (TPtr a)) buf = Err e -> e <> ErrMsg "" ->
     (exists resp, expected server req buf = Some (resp, NullMessage) /\ Response.Error resp = err_text e) /\
     forall ret reply rb,
       Call mt (Request.Conn req) (partial (gotype (TPtr a)) buf) (zero (TLeaf KOther en ep el)) = Ret (ret, None, reply) ->
       is_proto (type_of reply) = true -> Marshal reply = Ret rb ->
       RawCall server (Request.Conn req) (Request.ServiceMethod req) buf false = Ret (ret, rb, count_call server sn mn)).
Proof using Type.
  pose proof (lookup_header server req "rpc1" sn mn mt Hlk) as Hh.
  apply Z.eqb_neq in Hraw. unfold RawCall, expected. rewrite Hlk, Hnr, Hh, Hraw.
  cbn [mbind go_bind]. rewrite Ha, Hrt. cbn [mbind go_bind Elem negb is_ptr new_reply].
  rewrite Hp. cbn [negb]. split.
  - intros v ret rb server' Hu. rewrite Hu.
    destruct (Call _ _ _ _) as [[[r [e|]] reply]| |]; cbn [mbind go_bind]; try done.
    destruct (is_proto (type_of reply)); [|done].
    destruct (Marshal reply) as [b| |] eqn:Em; cbn [mbind go_bind]; try done. intros [= <- <- <-].
    do 2 eexists. splits; [reflexivity|done..].
  - intros e Hu He. rewrite Hu. split.
    + unfold sendResponse. destruct (String.eqb_spec (err_text e) ""); [by destruct e as [| |[]]|].
      by eexists.
    + intros ret reply rb Hc Hpr Hm. rewrite Hc. cbn [mbind go_bind]. by rewrite Hpr, Hm.
Qed.

End rpc_server.

(** ** The free lists of requests and responses *)

Module FreeList.
Section free_list.
Context {A : Type} (zero : A).

(** Objects by address, the free ones as a list linked through [next], and the
    addresses handed out and not given back. *)
Record pool := { objs : list A; free : list nat; used : list nat }.

Definition new_pool : pool := {| objs := []; free := []; used := [] |}.

Definition get (s : pool) : nat * pool :=
  match free s with
  | [] => (length (objs s), {| objs := objs s ++ [zero]; free := []; used := length (objs s) :: used s |})
  | p :: rest => (p, {| objs := <[p := zero]> (objs s); free := rest; used := p :: used s |})
  end.

Definition put (s : pool) (p : nat) : pool :=
  {| objs := objs s; free := p :: free s; used := list_difference (used s) [p] |}.

Definition set (s : pool) (p : nat) (x : A) : pool :=
  {| objs := <[p := x]> (objs s); free := free s; used := used s |}.

(** A server takes an object, fills one it has, and gives one back. *)
Inductive step : pool -> pool -> Prop :=
  | step_get s : step s (get s).2
  | step_set s p x : p ∈ used s -> step s (set s p x)
  | step_put s p : p ∈ used s -> step s (put s p).

Record ok (s : pool) : Prop := {
  ok_free : NoDup (free s);
  ok_used : NoDup (used s);
  ok_disj : forall p, p ∈ free s -> p ∉ used s;
  ok_range : forall p, p ∈ free s \/ p ∈ used s -> (p < length (objs s))%nat
}.

Lemma pool_get_ok s : ok s -> ok (get s).2 /\ (get s).1 ∉ used s /\ objs (get s).2 !! (get s).1 = Some zero /\
  forall p, p ∈ used s -> objs (get s).2 !! p = objs s !! p.
Proof.
  intros [Hf Hu Hd Hr]. unfold get. destruct (free s) as [|p rest] eqn:E; simpl.
  - assert (Hnew : length (objs s) ∉ used s) by (intros Hin; specialize (Hr _ (or_intror Hin)); lia).
    split; [split; simpl|splits].
    + constructor.
    + by apply NoDup_cons.
    + intros p Hp. by apply elem_of_nil in Hp.
    + intros p [Hp|Hp]; [by apply elem_of_nil in Hp|]. rewrite length_app; simpl.
      apply elem_of_cons in Hp as [->|Hp]; [lia|]. specialize (Hr p (or_intror Hp)). lia.
    + done.
    + by rewrite lookup_app_r, Nat.sub_diag by lia.
    + intros p Hp. specialize (Hr p (or_intror Hp)). by rewrite lookup_app_l by lia.
  - apply NoDup_cons in Hf as [Hp Hf].
    assert (Hpu : p ∉ used s) by (apply Hd; set_solver).
    assert (Hpr : (p < length (objs s))%nat) by (apply Hr; set_solver).
    split; [split; simpl|splits].
    + done.
    + by apply NoDup_cons.
    + intros q Hq. rewrite elem_of_cons. intros [->|Hin]; [done|]. by apply (Hd q); [set_solver|].
    + intros q Hq. rewrite length_insert. apply Hr. set_solver.
    + done.
    + by rewrite list_lookup_insert_eq.
    + intros q Hq. apply list_lookup_insert_ne. by intros ->.
Qed.

Lemma pool_step_ok s s' : step s s' -> ok s -> ok s'.
Proof.
  intros [s0|s0 p x Hp|s0 p Hp] Hok.
  - by apply pool_get_ok.
  - destruct Hok as [Hf Hu Hd Hr]. split; simpl; try done. intros q. rewrite length_insert. apply Hr.
  - destruct Hok as [Hf Hu Hd Hr].
    assert (Hrem : forall q, q ∈ list_difference (used s0) [p] <-> q ∈ used s0 /\ q <> p).
    { intros q. rewrite list_elem_of_difference, list_elem_of_singleton. done. }
    split; simpl.
    + apply NoDup_cons. split; [|done]. intros Hin. by apply (Hd p).
    + by apply NoDup_list_difference.
    + intros q. rewrite elem_of_cons, Hrem. intros [->|Hq] [Hin Hne]; [done|]. by apply (Hd q).
    + intros q. rewrite elem_of_cons, Hrem. intros [[->|Hq]|[Hq _]]; apply Hr; auto.
Qed.

Lemma pool_steps_ok s : rtc step new_pool s -> ok s.
Proof.
  assert (H0 : ok new_pool).
  { split; simpl; try (by constructor); intros p; rewrite !elem_of_nil; tauto. }
  intros Hr. induction Hr as [|a b c Hs _ IH]; [done|]. by apply IH, (pool_step_ok a).
Qed.
End free_list.
End FreeList.

Definition zero_request : Request.t :=
  {| Request.ServiceMethod := ""; Request.Seq := 0; Request.NoResp := false; Request.Conn := None; Request.Raw := 0 |}.
Definition zero_response : Response.t :=
  {| Response.ServiceMethod := ""; Response.Seq := 0; Response.Error := ""; Response.Ret := 0; Response.Raw := 0 |}.

Definition getRequest (s : FreeList.pool) : nat * FreeList.pool := FreeList.get zero_request s.
Definition freeRequest (s : @FreeList.pool Request.t) (p : nat) : FreeList.pool := FreeList.put s p.
Definition getResponse (s : FreeList.pool) : nat * FreeList.pool := FreeList.get zero_response s.
Definition freeResponse (s : @FreeList.pool Response.t) (p : nat) : FreeList.pool := FreeList.put s p.

(** The request RpcCallBack is called with: read when its goroutine runs. *)
Definition callback_request (s : @FreeList.pool Request.t) (p : nat) : option Request.t := FreeList.objs s !! p.

(** Over any sequence of getRequest, fillings and freeRequest, a request
    handed out is zeroed, is not one that is still in use and leaves those in
    use as they are.  But call submits RpcCallBack to another goroutine and
    frees the request first: the callback can then report the context and
    method of a later request. *)
Lemma rpc_request_pool :
  (forall s, rtc (FreeList.step zero_request) FreeList.new_pool s ->
     let '(p, s') := getRequest s in
     p ∉ FreeList.used s /\ FreeList.objs s' !! p = Some zero_request /\
     (forall q, q ∈ FreeList.used s -> FreeList.objs s' !! q = FreeList.objs s !! q)) /\
  (forall a b : Request.t, exists p s1 s2 s3,
     s1 = FreeList.set (getRequest FreeList.new_pool).2 p a /\ p = (getRequest FreeList.new_pool).1 /\
     s2 = freeRequest s1 p /\                                          (* the call of [a] has returned *)
     s3 = FreeList.set (getRequest s2).2 (getRequest s2).1 b /\        (* [b] arrives *)
     callback_request s1 p = Some a /\ callback_request s3 p = Some b).
Proof.
  split.
  - intros s Hs%FreeList.pool_steps_ok. pose proof (FreeList.pool_get_ok zero_request s Hs) as (_ & H1 & H2 & H3).
    unfold getRequest. by destruct (FreeList.get zero_request s).
  - intros a b. do 4 eexists. splits; reflexivity.
Qed.

(** ** An example server *)

Module Sample.
Definition text : RType := TLeaf KOther "Text" "pb" None.
Definition context : RType := TPtr (TLeaf KOther "Context" "rpc" None).

Definition gotype (t : RType) : @GoType SampleProto :=
  match t with
  | TPtr (TLeaf KOther n _ _) => if String.eqb n "Text" then TText else if String.eqb n "NullMessage" then TNull else TPlain
  | _ => TPlain
  end.
Definition assignable (v : @Value SampleProto) (t : RType) : bool :=
  match type_of v, gotype t with TText, TText | TNull, TNull | TPlain, TPlain => true | _, _ => false end.
Definition zero (t : RType) : @Value SampleProto :=
  match gotype (TPtr t) with TText => VText "" | TNull => VNull | TPlain => VPlain 0 end.
Definition deref (v : @Value SampleProto) : @Value SampleProto := v.
Definition upper (s : string) : bool := false.

(** Get panics on "", fails on "missing" and greets the rest. *)
Definition Get (ctx : option Context.t) (arg reply : @Value SampleProto) : outcome :=
  match arg with
  | VText s =>
      if String.eqb s "" then Panics
      else if String.eqb s "missing" then Returns 2 (Some "not found") reply
      else Returns 0 None (VText (String.append "hello " s))
  | _ => Returns 1 (Some "bad argument") reply
  end.

Definition db : Receiver :=
  {| typeName := "Db"; typeString := "*main.Db";
     methods := [ {| mname := "Get"; PkgPath := ""; Ins := [TPtr (TLeaf KOther "Db" "main" None); context; TPtr text; TPtr text];
                     Outs := [typeOfUint16; typeOfError]; body := Get |};
                  {| mname := "Helper"; PkgPath := ""; Ins := [TPtr (TLeaf KOther "Db" "main" None)]; Outs := []; body := Get |} ];
     ptrMethods := [] |}.

Definition server : Server :=
  match Register upper NewServer db with Ret s => s | _ => NewServer end.

Definition msg (s : string) : @Value SampleProto := VText s.

Definition get_method : methodType :=
  match lookup_method server "Db.Get" "rpc1" with
  | Ret (_, _, mt) => mt
  | _ => {| ArgType := text; ReplyType := text; func := Get; numCalls := 0 |}
  end.

Lemma get_found : lookup_method server "Db.Get" "rpc1" = Ret ("Db", "Get", get_method).
Proof.
  assert (H : match lookup_method server "Db.Get" "rpc1" with
              | Ret (a, b, _) => String.eqb a "Db" && String.eqb b "Get" | _ => false end = true)
    by (vm_compute; reflexivity).
  unfold get_method. destruct (lookup_method server "Db.Get" "rpc1") as [[[a b] mt]| |]; [|done..].
  apply andb_true_iff in H as [->%String.eqb_eq ->%String.eqb_eq]. done.
Qed.

Lemma rawcall : RawCall gotype assignable zero (fun t b => Unmarshal t b) (fun t b => VNull) server None "Db.Get"
    (written (Marshal (msg "x"))) false
  = Ret (0, written (Marshal (msg "hello x")), count_call server "Db" "Get").
Proof.
  unfold RawCall. rewrite get_found. cbn [mbind go_bind].
  change (ArgType get_method) with (TPtr text). change (ReplyType get_method) with (TPtr text).
  cbn [mbind go_bind Elem].
  assert (Hc : Call assignable get_method None (msg "x") (zero text) = Ret (0, None, msg "hello x")) by reflexivity.
  change (if false then _ else _) with (Unmarshal (gotype (TPtr text)) (written (Marshal (msg "x")))).
  replace (Unmarshal _ _) with (Ret (msg "x")) by (vm_compute; reflexivity).
  cbn [is_proto]. rewrite Hc. reflexivity.
Qed.

Lemma registered : register upper NewServer db "" false = Ret server.
Proof.
  assert (H : match register upper NewServer db "" false with Ret _ => true | _ => false end = true)
    by (vm_compute; reflexivity).
  unfold server, Register. by destruct (register upper NewServer db "" false).
Qed.

Lemma decodes : @decode_panics SampleProto.
Proof.
  unfold decode_panics. splits.
  - intros [] b w; cbn; [..|done]; unfold unpack; by case_match.
  - intros t [|c b] w; [done|]. destruct t; cbn; [..|done]; unfold unpack; by case_match.
  - intros b w. cbn. unfold unpack. by case_match.
Qed.

Lemma server_servable : servable gotype server.
Proof.
  intros sn svc mn mt Hs Hm.
  assert (Hall : map_Forall (fun _ svc => map_Forall (fun _ mt =>
     is_proto (gotype (TPtr (match ArgType mt with TPtr e => e | t => t end))) = true /\
     (is_ptr (ReplyType mt) || is_interface (ReplyType mt)) = true) (method svc)) (serviceMap server)).
  { apply (bool_decide_unpack _). vm_compute. exact I. }
  exact (Hall sn svc Hs mn mt Hm).
Qed.

Definition request (m : string) : Request.t :=
  {| Request.ServiceMethod := m; Request.Seq := 0; Request.NoResp := false; Request.Conn := None; Request.Raw := 0 |}.
Definition item (m s : string) : Request.t * bytes * bytes :=
  (request m, written (Marshal (Proto := SampleProto) (VText s)), written (WriteRequest (P := SampleProto) (request m) (VText s))).

Lemma item_ok m s :
  Z.of_nat (length (written (Marshal (Proto := SampleProto) (VText s)))) < tooBig ->
  WriteRequest (P := SampleProto) (request m) (VText s) = Ret (item m s).2 ->
  is_item (item m s).1.1 (item m s).1.2 (item m s).2.
Proof.
  intros Hl Hw.
  assert (Hr : request_ok (request m)) by (apply (bool_decide_unpack _); vm_compute; exact I).
  destruct (WriteRequest_item (P := SampleProto) (request m) (VText s) _ Hr Hw) as (b & Hb & Hi).
  cbn in Hb. injection Hb as <-. exact Hi.
Qed.
End Sample.

Lemma rpc_server_serves_stream_witness :
  exists js, ServeCodec Sample.gotype Sample.zero Sample.zero Sample.deref VNull
      (S (length (Sample.item "Db.Get" "x").2)) Sample.server (Sample.item "Db.Get" "x").2 = Some (Ret js) /\
    answer Sample.assignable VNull <$> js =
      [Some (sendResponse VNull (Sample.request "Db.Get") (VText "hello x") 0 "")].
Proof.
  destruct (rpc_server_serves_stream Sample.gotype Sample.assignable Sample.zero Sample.zero Sample.deref VNull
    Sample.server [Sample.item "Db.Get" "x"]) as [_ (js & Hjs & Ha & _)].
  - apply Sample.server_servable.
  - apply Sample.decodes.
  - apply Forall_singleton. apply Sample.item_ok; by vm_compute.
  - exists js. cbn [fmap list_fmap concat snd] in Hjs. rewrite app_nil_r in Hjs. split; [exact Hjs|].
    rewrite Ha. by vm_compute.
Defined.

Lemma rpc_register_witness :
  exists svc, Register Sample.upper NewServer Sample.db = Ret {| serviceMap := <["Db" := svc]> ∅ |} /\
    exists mt, method svc !! "Get" = Some mt.
Proof.
  destruct (rpc_register Sample.gotype Sample.upper (P := SampleProto) NewServer Sample.db "" false) as (_ & _ & H).
  - apply (bool_decide_unpack _). by vm_compute.
  - apply (bool_decide_unpack _). by vm_compute.
  - destruct H as (_ & _ & _ & H); [discriminate|right; do 2 eexists; split; [reflexivity|left; vm_compute; split; discriminate]|].
    assert (Hs : suitable Sample.upper {| mname := "Get"; PkgPath := ""; Ins := [TPtr (TLeaf KOther "Db" "main" None); Sample.context; TPtr Sample.text; TPtr Sample.text];
                     Outs := [typeOfUint16; typeOfError]; body := Sample.Get |} (TPtr Sample.text) (TPtr Sample.text)).
    { assert (Hp : public Sample.upper (TPtr Sample.text)) by (by apply public_iff).
      split; [reflexivity|do 2 eexists; reflexivity|exact Hp|exact Hp|left; eexists; reflexivity|reflexivity]. }
    destruct H as (svc & E & _ & Hm & _).
    + do 3 eexists. split; [left|exact Hs].
    + reflexivity.
    + exists svc. split; [exact E|]. exists {| ArgType := TPtr Sample.text; ReplyType := TPtr Sample.text; func := Sample.Get; numCalls := 0 |}.
      apply Hm. eexists. split; [left|]. split; [reflexivity|]. split; [exact Hs|]. split; reflexivity.
Defined.

Lemma rpc_rawcall_agrees_witness :
  exists resp reply, expected Sample.gotype Sample.assignable Sample.zero Sample.zero Sample.deref VNull Sample.server
      (Sample.request "Db.Get") (written (Marshal (Sample.msg "x"))) = Some (resp, reply) /\
    Response.Ret resp = 0 /\ Marshal reply = Marshal (Sample.msg "hello x").
Proof.
  destruct (rpc_rawcall_agrees Sample.gotype Sample.assignable Sample.zero Sample.zero Sample.deref VNull
    (fun t b => Unmarshal t b) (fun t b => VNull) Sample.server (Sample.request "Db.Get") (written (Marshal (Sample.msg "x")))
    "Db" "Get" "Text" "pb" Sample.get_method Sample.text None) as [H _].
  - exact Sample.get_found.
  - vm_compute. reflexivity.
  - vm_compute. reflexivity.
  - vm_compute. reflexivity.
  - vm_compute. congruence.
  - reflexivity.
  - destruct (H (Sample.msg "x") 0 (written (Marshal (Sample.msg "hello x"))) (count_call Sample.server "Db" "Get"))
      as (resp & reply & He & Hr & _ & Hm); [vm_compute; reflexivity|exact Sample.rawcall|].
    exists resp, reply. split; [exact He|]. split; [exact Hr|]. rewrite Hm. vm_compute. reflexivity.
Defined.
