(* ===== verification/RpcClient.v ===== *)
(** * The RPC client: rpc/go_client.go

    Calls are registered under a sequence number, written, and completed by the
    goroutine that reads responses; Close and the end of the connection complete
    the rest.  The calls live at addresses, since the caller, the pending table
    and the Done channel share them. *)

From Stdlib Require Import ZArith Lia Ascii String.
From stdpp Require Import base numbers list strings gmap.
From S2P Require Import Prelude GoStd RpcCoder RpcServer.

Section rpc_client.
Context {P : Proto}.

(** Args and Reply of a call: messages, or bytes for raw and JSON calls. *)
Inductive payload := PVal (v : Value) | PBytes (b : bytes).

Record CallInfo := {
  ServiceMethod : string;
  Args : payload;
  ReplyTo : option GoType;      (* the type of the reply to fill, if any *)
  Reply : option payload;       (* what was filled in *)
  Error : option go_error;
  Done : nat;                   (* how often done() was called *)
  Raw : Z;
  Retv : Z;                     (* Ret *)
  Conn : option Context.t;
  NoResp : bool
}.

Record Client := {
  seq : Z;
  pending : gmap Z nat;
  closing : bool;
  shutdown : bool;
  Name : string;
  CloseCallback : bool;                      (* whether one is set *)
  TimeoutSec : Z;
  calls : list CallInfo;                     (* the calls made, by address *)
  callbacks : list (string * go_error)       (* calls of CloseCallback *)
}.

Definition ErrShutdown : go_error := ErrMsg "connection is shut down".

Definition set_calls c v := {| seq := seq c; pending := pending c; closing := closing c; shutdown := shutdown c;
  Name := Name c; CloseCallback := CloseCallback c; TimeoutSec := TimeoutSec c; calls := v; callbacks := callbacks c |}.
Definition set_pending c v := {| seq := seq c; pending := v; closing := closing c; shutdown := shutdown c;
  Name := Name c; CloseCallback := CloseCallback c; TimeoutSec := TimeoutSec c; calls := calls c; callbacks := callbacks c |}.

Definition NewClientWithCodec : Client :=
  {| seq := 0; pending := ∅; closing := false; shutdown := false; Name := ""; CloseCallback := false;
     TimeoutSec := 300; calls := []; callbacks := [] |}.

Definition WithName (name : string) (c : Client) : Client :=
  {| seq := seq c; pending := pending c; closing := closing c; shutdown := shutdown c; Name := name;
     CloseCallback := true; TimeoutSec := TimeoutSec c; calls := calls c; callbacks := callbacks c |}.
Definition WithTimeout (t : Z) (c : Client) : Client :=
  {| seq := seq c; pending := pending c; closing := closing c; shutdown := shutdown c; Name := Name c;
     CloseCallback := CloseCallback c; TimeoutSec := t; calls := calls c; callbacks := callbacks c |}.

(** Dial: the options are applied in order. *)
Definition Dial (options : list (Client -> Client)) : Client :=
  fold_left (fun c o => o c) options NewClientWithCodec.

(** call.Error = e; call.done() *)
Definition fail (e : go_error) (c : CallInfo) : CallInfo :=
  {| ServiceMethod := ServiceMethod c; Args := Args c; ReplyTo := ReplyTo c; Reply := Reply c; Error := Some e;
     Done := S (Done c); Raw := Raw c; Retv := Retv c; Conn := Conn c; NoResp := NoResp c |}.

(** call.Ret, call.Reply and call.Error set by a response, then done(). *)
Definition complete (ret : Z) (reply : option payload) (e : option go_error) (c : CallInfo) : CallInfo :=
  {| ServiceMethod := ServiceMethod c; Args := Args c; ReplyTo := ReplyTo c; Reply := reply; Error := e;
     Done := S (Done c); Raw := Raw c; Retv := ret; Conn := Conn c; NoResp := NoResp c |}.

(** ** send *)

(** A new call object. *)
Definition new_call (conn : option Context.t) (sm : string) (args : payload) (replyTo : option GoType)
    (raw : Z) (noResp : bool) : CallInfo :=
  {| ServiceMethod := sm; Args := args; ReplyTo := replyTo; Reply := None; Error := None; Done := 0;
     Raw := raw; Retv := 0; Conn := conn; NoResp := noResp |}.

(** The first critical section of send: [None] when the connection is closed. *)
Definition send_register (c : Client) (call : CallInfo) : Client * option (Z * nat) :=
  let p := length (calls c) in
  if shutdown c || closing c then (set_calls c (calls c ++ [fail ErrShutdown call]), None)
  else
    let s := seq c in
    ({| seq := u64 (s + 1);
        pending := if NoResp call then pending c else <[s := p]> (pending c);
        closing := closing c; shutdown := shutdown c; Name := Name c; CloseCallback := CloseCallback c;
        TimeoutSec := TimeoutSec c; calls := calls c ++ [call]; callbacks := callbacks c |}, Some (s, p)).

Definition the_request (call : CallInfo) (s : Z) : Request.t :=
  {| Request.ServiceMethod := ServiceMethod call; Request.Seq := s; Request.NoResp := NoResp call;
     Request.Conn := Conn call; Request.Raw := Raw call |}.

(** The bytes of the request. *)
Definition send_write (call : CallInfo) (s : Z) : go bytes :=
  let request := the_request call s in
  if Raw call =? 0 then
    match Args call with
    | PVal v => WriteRequest request v
    | PBytes _ => Err (ErrMsg "[]uint8 does not implement proto.Message")
    end
  else
    match Args call with
    | PBytes b => WriteByteRequest request b
    | PVal _ => Panic "interface conversion: not []byte"
    end.

(** The write failed: the call is completed with the error, if it is still
    pending. *)
Definition send_failed (c : Client) (call : CallInfo) (s : Z) (e : go_error) : Client :=
  if NoResp call then c else
  match pending c !! s with
  | Some p => set_calls (set_pending c (delete s (pending c))) (alter (fail e) p (calls c))
  | None => c
  end.

(** ** input *)

Definition err_prefix (pre : string) (e : go_error) : go_error := ErrMsg (String.append pre (err_text e)).

(** One response, its header already read; the error ends the loop. *)
Definition input_response (c : Client) (response : Response.t) (r : bytes) : Client * go bytes :=
  let s := Response.Seq response in
  let call := pending c !! s in
  let c := set_pending c (delete s (pending c)) in
  match call with
  | None =>
      (c, match ReadResponseBody r (i32 (Response.Raw response)) None with
          | Ret (_, r) => Ret r
          | Err e => Err (err_prefix "reading error body: " e)
          | Panic w => Panic w
          end)
  | Some p =>
      if negb (String.eqb (Response.Error response) "") then
        (set_calls c (alter (fail (ErrMsg (Response.Error response))) p (calls c)),
         match ReadResponseBody r 0 None with
         | Ret (_, r) => Ret r
         | Err e => Err (err_prefix "reading error body: " e)
         | Panic w => Panic w
         end)
      else
        match calls c !! p with
        | None => (c, Ret r)
        | Some call =>
            let done reply e := set_calls c (alter (complete (Response.Ret response) reply e) p (calls c)) in
            if Raw call =? 0 then
              match ReadResponseBody r (i32 (Raw call)) (ReplyTo call) with
              | Ret (v, r) => (done (PVal <$> v) None, Ret r)
              | Err e => (done None (Some (err_prefix "reading body " e)), Err e)
              | Panic w => (c, Panic w)
              end
            else
              match ReadByteResponseBody r with
              | Ret (b, r) => (done (Some (PBytes b)) None, Ret r)
              | Err e => (done (Some (PBytes [])) (Some (err_prefix "reading body " e)), Err e)
              | Panic w => (c, Panic w)
              end
        end
  end.

(** Terminate pending calls. *)
Definition input_end (c : Client) (err : go_error) : Client :=
  let closing' := closing c in
  let err := match err with EOF => if closing' then ErrShutdown else ErrUnexpectedEOF | e => e end in
  let ps := (map_to_list (pending c)).*2 in
  {| seq := seq c; pending := pending c; closing := closing'; shutdown := true; Name := Name c;
     CloseCallback := CloseCallback c; TimeoutSec := TimeoutSec c;
     calls := fold_right (alter (fail err)) (calls c) ps;
     callbacks := if (negb (bool_decide (err = EOF)) && closing') && CloseCallback c
                  then callbacks c ++ [(Name c, err)] else callbacks c |}.

(** The loop on the bytes of the connection; [None]: out of fuel. *)
Fixpoint input (fuel : nat) (c : Client) (r : bytes) : option (Client * go bytes) :=
  match fuel with
  | O => None
  | S fuel =>
      match ReadResponseHeader r with
      | Ret (response, r) =>
          match input_response c response r with
          | (c, Ret r) => input fuel c r
          | (c, Err e) => Some (input_end c e, Err e)
          | (c, Panic w) => Some (c, Panic w)
          end
      | Err e => Some (input_end c e, Err e)
      | Panic w => Some (c, Panic w)
      end
  end.

(** ** The other operations *)

Definition Close (c : Client) : option go_error * Client :=
  if closing c then (Some ErrShutdown, c)
  else (None, {| seq := seq c; pending := pending c; closing := true; shutdown := shutdown c; Name := Name c;
                 CloseCallback := CloseCallback c; TimeoutSec := TimeoutSec c; calls := calls c;
                 callbacks := callbacks c |}).

Definition IsClose (c : Client) : bool := shutdown c || closing c.

(** The calls that Go, Call, Send, RawGo, RawCall, RawSend, JsonCall and JsonSend
    make. *)
Definition Go conn sm (args : Value) (reply : option GoType) noResp := new_call conn sm (PVal args) reply 0 noResp.
Definition Send conn sm (args : Value) := Go conn sm args None true.
Definition RawGo conn sm (args : bytes) noResp raw := new_call conn sm (PBytes args) None raw noResp.
Definition RawSend conn sm args := RawGo conn sm args true 1.
Definition JsonSend conn sm args := RawGo conn sm args true 2.

(** What Call, RawCall and JsonCall return once the call is complete, or after
    the timeout. *)
Definition timeout_error (what sm : string) : go_error :=
  ErrMsg (String.append "methon[" (String.append sm (String.append "] " what))).

Definition Call_result (call : CallInfo) (timeout : bool) : Z * option go_error :=
  if timeout then (1, Some (timeout_error "RawCall timeout" (ServiceMethod call)))
  else (Retv call, Error call).

Definition RawCall_result (what : string) (call : CallInfo) (timeout : bool) : go (Z * bytes * option go_error) :=
  if timeout then Ret (1, [], Some (timeout_error what (ServiceMethod call)))
  else match Error call with
       | Some e => Ret (Retv call, [], Some e)
       | None => match Reply call with
                 | Some (PBytes b) => Ret (Retv call, b, None)
                 | _ => Panic "interface conversion: not []byte"
                 end
       end.

(** ** Runs of a client *)

Definition fresh_call (call : CallInfo) : Prop := Done call = 0%nat /\ Error call = None.

Inductive cstep : Client -> Client -> Prop :=
  | cstep_send c call : fresh_call call -> cstep c (send_register c call).1
  | cstep_failed c call s e : NoResp call = false -> cstep c (send_failed c call s e)
  | cstep_response c resp r : shutdown c = false -> (forall w, (input_response c resp r).2 <> Panic w) ->
      cstep c (input_response c resp r).1
  | cstep_end c e : shutdown c = false -> cstep c (input_end c e)
  | cstep_close c : cstep c (Close c).2.

Lemma lookup_alter_all (f : CallInfo -> CallInfo) (ps : list nat) (l : list CallInfo) (p : nat) :
  NoDup ps -> fold_right (alter f) l ps !! p = (if decide (p ∈ ps) then f <$> l !! p else l !! p).
Proof.
  induction ps as [|q ps IH]; intros Hnd; cbn [fold_right].
  { by rewrite decide_False by (by intros ?%elem_of_nil). }
  apply NoDup_cons in Hnd as [Hq Hnd]. specialize (IH Hnd).
  destruct (decide (p = q)) as [->|Hne].
  - rewrite list_lookup_alter_eq, IH, decide_False by done. by rewrite decide_True by set_solver.
  - rewrite list_lookup_alter_ne, IH by done. by repeat case_decide; set_solver.
Qed.

Record client_ok (c : Client) : Prop := {
  ok_seq : 0 <= seq c <= Z.of_nat (length (calls c));
  ok_pending : forall s p, pending c !! s = Some p -> 0 <= s < seq c /\
    exists call, calls c !! p = Some call /\ NoResp call = false /\ (shutdown c = false -> Done call = 0%nat);
  ok_inj : forall s s' p, pending c !! s = Some p -> pending c !! s' = Some p -> s = s';
  ok_done : forall p call, calls c !! p = Some call -> NoResp call = false ->
    (1 <= Done call)%nat \/ (shutdown c = false /\ exists s, pending c !! s = Some p);
  ok_once : forall p call, calls c !! p = Some call -> (Done call <= 1)%nat \/
    (shutdown c = true /\ (Done call <= 2)%nat /\ forall s, pending c !! s <> Some p);
  ok_waiting : forall s p call, pending c !! s = Some p -> calls c !! p = Some call -> (Done call <= 1)%nat;
  ok_callbacks : callbacks c <> [] -> closing c = true
}.

Definition bounded (c : Client) : Prop := Z.of_nat (length (calls c)) < 2 ^ 64.

(** A pending call is taken out of the table and completed. *)
Lemma completed_ok c s p f :
  client_ok c -> pending c !! s = Some p ->
  (forall call, Done (f call) = S (Done call) /\ NoResp (f call) = NoResp call) ->
  client_ok (set_calls (set_pending c (delete s (pending c))) (alter f p (calls c))).
Proof.
  intros [H1 H2 H3 H4 H5 H6 H7] Hp Hf.
  assert (Hother : forall s' p', delete s (pending c) !! s' = Some p' -> pending c !! s' = Some p' /\ p' <> p).
  { intros s' p' [Hne Hl]%lookup_delete_Some. split; [done|]. intros ->. apply Hne. by eapply H3. }
  assert (Hlk : forall q, alter f p (calls c) !! q = (if decide (q = p) then f <$> calls c !! q else calls c !! q)).
  { intros q. case_decide as E; [subst; apply list_lookup_alter_eq|by apply list_lookup_alter_ne]. }
  split; cbn [seq pending calls shutdown closing callbacks set_calls set_pending].
  - by rewrite length_alter.
  - intros s' p' [Hl Hne]%Hother. destruct (H2 s' p' Hl) as (Hs & call & Hc & Hn & Hd).
    split; [done|]. exists call. by rewrite Hlk, decide_False.
  - intros s1 s2 q [Ha _]%Hother [Hb _]%Hother. by eapply H3.
  - intros q call Hq Hn. rewrite Hlk in Hq. case_decide as E.
    + left. destruct (calls c !! q) as [call0|]; [|done]. simpl in Hq. injection Hq as <-.
      destruct (Hf call0) as [-> _]. lia.
    + destruct (H4 q call Hq Hn) as [?|(Hs & s' & Hs')]; [by left|right]. split; [done|]. exists s'.
      apply lookup_delete_Some. split; [|done]. intros <-. congruence.
  - intros q call Hq. rewrite Hlk in Hq. case_decide as E.
    + destruct (calls c !! q) as [call0|] eqn:Ec; [|done]. simpl in Hq. injection Hq as <-. subst q.
      destruct (Hf call0) as [-> _]. destruct (shutdown c) eqn:Esd.
      * right. split; [done|]. pose proof (H6 s p call0 Hp Ec). split; [lia|]. intros s' [_ ?]%Hother. done.
      * destruct (H2 s p Hp) as (_ & call1 & Hc1 & _ & Hd). specialize (Hd eq_refl).
        replace call1 with call0 in Hd by congruence. left. lia.
    + destruct (H5 q call Hq) as [?|(Hs & Hd & Hno)]; [by left|right]. splits; try done.
      intros s' [Hl _]%Hother. by apply (Hno s').
  - intros s' q call [Hl Hne]%Hother Hq. rewrite Hlk, decide_False in Hq by done. by eapply H6.
  - done.
Qed.

Lemma drop_absent_ok c s : client_ok c -> pending c !! s = None -> client_ok (set_pending c (delete s (pending c))).
Proof. intros Hok Hp. rewrite delete_id by done. by destruct c. Qed.

Lemma input_response_ok c resp r :
  client_ok c -> (forall w, (input_response c resp r).2 <> Panic w) -> client_ok (input_response c resp r).1.
Proof.
  intros Hok. unfold input_response. destruct (pending c !! Response.Seq resp) as [p|] eqn:Ep.
  2:{ intros _. by apply drop_absent_ok. }
  case_match; [intros _; by apply (completed_ok c (Response.Seq resp) p)|].
  destruct (ok_pending c Hok _ _ Ep) as (_ & call & Hc & _).
  change (calls (set_pending _ _)) with (calls c). rewrite Hc.
  assert (Hcomp : forall ret reply e, client_ok (set_calls (set_pending c (delete (Response.Seq resp) (pending c)))
    (alter (complete ret reply e) p (calls c)))) by (intros; by apply completed_ok).
  case_match.
  - destruct (ReadResponseBody _ _ _) as [[v r']|e|w]; try (intros _; apply Hcomp).
    intros Hw. by destruct (Hw w).
  - destruct (ReadByteResponseBody _) as [[v r']|e|w]; try (intros _; apply Hcomp).
    intros Hw. by destruct (Hw w).
Qed.

Lemma send_register_ok c call :
  fresh_call call -> bounded (send_register c call).1 -> client_ok c -> client_ok (send_register c call).1.
Proof.
  intros [Hd0 _] Hb [H1 H2 H3 H4 H5 H6 H7]. unfold send_register, bounded in *.
  destruct (shutdown c || closing c) eqn:Esc; cbn [fst set_calls calls] in *.
  - assert (Hold : forall p call', calls c !! p = Some call' -> (calls c ++ [fail ErrShutdown call]) !! p = Some call')
      by (intros; by apply lookup_app_l_Some).
    split; cbn [seq pending calls shutdown closing callbacks set_calls set_pending].
    + rewrite length_app. simpl. lia.
    + intros s p Hp. destruct (H2 s p Hp) as (Hs & call' & Hc & Hr). split; [done|]. exists call'. eauto.
    + done.
    + intros p call' [Hc|(_ & Hc)]%lookup_app_Some Hn; [by apply (H4 p)|].
      apply list_lookup_singleton_Some in Hc as [_ <-]. left. simpl. lia.
    + intros p call' [Hc|(_ & Hc)]%lookup_app_Some; [by apply (H5 p)|].
      apply list_lookup_singleton_Some in Hc as [_ <-]. left. simpl. lia.
    + intros s p call' Hp [Hc|(Hl & Hc)]%lookup_app_Some; [by eapply H6|].
      destruct (H2 s p Hp) as (_ & call1 & Hc1 & _). apply lookup_lt_Some in Hc1. lia.
    + done.
  - apply orb_false_iff in Esc as [Esd Ecl]. rewrite length_app in Hb. simpl in Hb.
    assert (Eseq : u64 (seq c + 1) = seq c + 1) by (apply wrapu_small; unfold in_u; lia).
    assert (Hnew : forall s, pending c !! s <> Some (length (calls c))).
    { intros s Hs. destruct (H2 _ _ Hs) as (_ & call1 & Hc1 & _). apply lookup_lt_Some in Hc1. lia. }
    assert (Hpend : forall s p, (if NoResp call then pending c else <[seq c := length (calls c)]> (pending c)) !! s = Some p ->
      (s = seq c /\ p = length (calls c) /\ NoResp call = false) \/ pending c !! s = Some p).
    { intros s p. destruct (NoResp call); [by right|].
      intros [[<- <-]|[Hne Hp]]%lookup_insert_Some; [left|right]; done. }
    split; cbn [seq pending calls shutdown closing callbacks set_calls set_pending]; rewrite ?Eseq.
    + rewrite length_app. simpl. lia.
    + intros s p [(-> & -> & Hn)|Hp]%Hpend.
      * split; [lia|]. exists call. split; [|done]. by rewrite lookup_app_r, Nat.sub_diag by lia.
      * destruct (H2 s p Hp) as (Hs & call' & Hc & Hr). split; [lia|]. exists call'. split; [|done].
        by apply lookup_app_l_Some.
    + intros s s' p [(-> & -> & _)|Hp]%Hpend [(-> & Hp' & _)|Hp']%Hpend.
      * done.
      * by apply Hnew in Hp'.
      * subst. by apply Hnew in Hp.
      * by eapply H3.
    + intros p call' [Hc|(Hl & Hc)]%lookup_app_Some Hn.
      * destruct (H4 p call' Hc Hn) as [?|(_ & s & Hs)]; [by left|right]. split; [done|]. exists s.
        destruct (NoResp call); [done|]. apply lookup_insert_Some. right. split; [|done].
        intros <-. destruct (H2 _ _ Hs) as [? _]. lia.
      * apply list_lookup_singleton_Some in Hc as [Hz <-]. right. split; [done|]. exists (seq c).
        rewrite Hn, lookup_insert_eq. f_equal. lia.
    + intros p call' [Hc|(_ & Hc)]%lookup_app_Some.
      * destruct (H5 p call' Hc) as [?|[? _]]; [by left|congruence].
      * apply list_lookup_singleton_Some in Hc as [_ <-]. left. lia.
    + intros s p call' Hp [Hc|(_ & Hc)]%lookup_app_Some.
      * destruct (H5 p call' Hc) as [?|[? _]]; [done|congruence].
      * apply list_lookup_singleton_Some in Hc as [_ <-]. lia.
    + done.
Qed.

Lemma input_end_ok c e : client_ok c -> shutdown c = false -> client_ok (input_end c e).
Proof.
  intros [H1 H2 H3 H4 H5 H6 H7] Esd. unfold input_end.
  set (err := match e with EOF => _ | e => e end).
  set (ps := (map_to_list (pending c)).*2).
  assert (Hps : forall p, p ∈ ps <-> exists s, pending c !! s = Some p).
  { intros p. unfold ps. rewrite list_elem_of_fmap. split.
    - intros ([s q] & -> & Hin%elem_of_map_to_list). by exists s.
    - intros [s Hs]. exists (s, p). split; [done|]. by apply elem_of_map_to_list. }
  assert (Hnd : NoDup ps).
  { apply NoDup_fmap_2_strong; [|apply NoDup_map_to_list].
    intros [s p] [s' p'] Ha%elem_of_map_to_list Hb%elem_of_map_to_list Hpp. simpl in Hpp. subst p'.
    f_equal. by eapply H3. }
  assert (Hlk : forall q, fold_right (alter (fail err)) (calls c) ps !! q =
    if decide (q ∈ ps) then fail err <$> calls c !! q else calls c !! q) by (intros; by apply lookup_alter_all).
  split; cbn [seq pending calls shutdown closing callbacks set_calls set_pending].
  - replace (length (fold_right _ _ _)) with (length (calls c)); [done|].
    generalize ps. intros l. induction l; simpl; [done|]. by rewrite length_alter.
  - intros s p Hp. destruct (H2 s p Hp) as (Hs & call & Hc & Hn & Hd). split; [done|].
    exists (fail err call). rewrite Hlk, decide_True, Hc by (apply Hps; eauto). done.
  - done.
  - intros p call Hp Hn. left. rewrite Hlk in Hp. case_decide as Ein.
    + destruct (calls c !! p) as [call0|]; [|done]. simpl in Hp. injection Hp as <-. simpl. lia.
    + destruct (H4 p call Hp Hn) as [?|(_ & s & Hs)]; [done|]. destruct Ein. apply Hps. eauto.
  - intros p call Hp. left. rewrite Hlk in Hp. case_decide as Ein.
    + destruct (calls c !! p) as [call0|] eqn:Ec; [|done]. simpl in Hp. injection Hp as <-. simpl.
      apply Hps in Ein as [s Hs]. destruct (H2 s p Hs) as (_ & call1 & Hc1 & _ & Hd). specialize (Hd Esd).
      replace call1 with call0 in Hd by congruence. lia.
    + destruct (H5 p call Hp) as [?|[? _]]; [done|congruence].
  - intros s p call Hs Hp. rewrite Hlk, decide_True in Hp by (apply Hps; eauto).
    destruct (calls c !! p) as [call0|] eqn:Ec; [|done]. simpl in Hp. injection Hp as <-. simpl.
    destruct (H2 s p Hs) as (_ & call1 & Hc1 & _ & Hd). specialize (Hd Esd).
    replace call1 with call0 in Hd by congruence. lia.
  - destruct (closing c) eqn:Ecl; [done|]. rewrite andb_false_r. intros Hc. by apply H7 in Hc.
Qed.

Lemma cstep_calls c c' : cstep c c' -> (length (calls c) <= length (calls c'))%nat.
Proof.
  assert (Hfold : forall f ps (l : list CallInfo), length (fold_right (alter f) l ps) = length l)
    by (intros f ps l; induction ps; simpl; [done|by rewrite length_alter]).
  intros [c0 call _|c0 call s e _|c0 resp r _ _|c0 e _|c0].
  - unfold send_register. case_match; simpl; rewrite length_app; lia.
  - unfold send_failed. repeat case_match; simpl; rewrite ?length_alter; lia.
  - unfold input_response. repeat case_match; simpl; rewrite ?length_alter; simpl; lia.
  - unfold input_end; simpl. by rewrite Hfold.
  - unfold Close. by destruct (closing c0).
Qed.

Lemma cstep_ok c c' : cstep c c' -> bounded c' -> client_ok c -> client_ok c'.
Proof.
  intros [c0 call Hf|c0 call s e Hn|c0 resp r Hs Hw|c0 e Hs|c0] Hb Hok.
  - by apply send_register_ok.
  - unfold send_failed. rewrite Hn. destruct (pending c0 !! s) as [p|] eqn:Ep; [|done]. by apply completed_ok.
  - by apply input_response_ok.
  - by apply input_end_ok.
  - unfold Close. destruct (closing c0) eqn:Ec; [done|]. by destruct Hok; split.
Qed.

Lemma csteps_ok c c' : rtc cstep c c' -> bounded c' -> client_ok c -> client_ok c'.
Proof.
  intros Hr. induction Hr as [|c c1 c' Hs Hr IH]; [done|]. intros Hb Hok. apply IH; [done|].
  eapply cstep_ok; [done| |done]. unfold bounded in *.
  assert (Hle : (length (calls c1) <= length (calls c'))%nat); [|lia].
  clear -Hr. induction Hr as [|x y z Hs _ IH]; [done|]. apply cstep_calls in Hs. lia.
Qed.

Lemma new_client_ok options : (forall o, o ∈ options -> (exists n, o = WithName n) \/ exists t, o = WithTimeout t) ->
  client_ok (Dial options).
Proof.
  intros Ho.
  assert (H : client_ok NewClientWithCodec).
  { split; simpl; intros; rewrite ?lookup_empty, ?lookup_nil in *; done || lia. }
  unfold Dial. revert H. generalize NewClientWithCodec. induction options as [|o options IH]; intros c Hc; [done|].
  simpl. apply IH; [set_solver|]. destruct (Ho o) as [[n ->]|[t ->]]; [set_solver|..]; by destruct Hc; split.
Qed.

(** C11. Over any run of a client (calls, failed writes, responses, the end of
    the connection, Close, in any order; fewer than 2^64 calls), a call that
    wants a response is never lost: it has been completed, or it is pending on
    a connection that is still up.  While the connection is up a call is
    completed at most once; when the connection has ended every such call has
    been completed. *)
Theorem rpc_client_completes (options : list (Client -> Client)) (c : Client)
    (Ho : forall o, o ∈ options -> (exists n, o = WithName n) \/ exists t, o = WithTimeout t)
    (Hr : rtc cstep (Dial options) c) (Hb : bounded c) :
  (forall p call, calls c !! p = Some call -> NoResp call = false ->
     (1 <= Done call)%nat \/ (shutdown c = false /\ exists s, pending c !! s = Some p)) /\
  (shutdown c = false -> forall p call, calls c !! p = Some call -> (Done call <= 1)%nat) /\
  (shutdown c = false -> forall s p call, pending c !! s = Some p -> calls c !! p = Some call -> Done call = 0%nat) /\
  (shutdown c = true -> forall p call, calls c !! p = Some call -> NoResp call = false -> (1 <= Done call <= 2)%nat).
Proof.
  pose proof (csteps_ok _ _ Hr Hb (new_client_ok options Ho)) as [H1 H2 H3 H4 H5 H6 H7]. splits.
  - done.
  - intros Hs p call Hp. destruct (H5 p call Hp) as [?|[? _]]; [done|congruence].
  - intros Hs s p call Hp Hc. destruct (H2 s p Hp) as (_ & call' & Hc' & _ & Hd). specialize (Hd Hs). congruence.
  - intros Hs p call Hp Hn. destruct (H4 p call Hp Hn) as [?|[? _]]; [|congruence].
    destruct (H5 p call Hp) as [?|(_ & ? & _)]; lia.
Qed.

(** CloseCallback is called only after the user has closed the client: when
    the server goes away first, nothing is reported, whatever the error. *)
Lemma rpc_client_close_callback (name : string) (c : Client)
    (Hr : rtc cstep (Dial [WithName name]) c) (Hb : bounded c) (Hopen : closing c = false) :
  callbacks c = [] /\ (forall e, callbacks (input_end c e) = [] /\ shutdown (input_end c e) = true).
Proof.
  assert (Hok : client_ok c).
  { eapply csteps_ok; [done|done|]. apply new_client_ok. intros o ->%list_elem_of_singleton. left. by exists name. }
  destruct Hok as [_ _ _ _ _ _ H7].
  assert (E : callbacks c = []) by (destruct (callbacks c); [done|]; rewrite H7 in Hopen; done).
  split; [done|]. intros e. split; [|done]. unfold input_end; simpl. by rewrite Hopen, andb_false_r.
Qed.

(** ** Delivery of responses *)

Definition marshalled (raw : Z) (v : Value) : bytes := written (if raw =? 2 then json_Marshal v else Marshal v).

(** What a response makes of its call. *)
Definition finish (a : Response.t * Value) (call : CallInfo) : CallInfo :=
  if negb (String.eqb (Response.Error a.1) "") then fail (ErrMsg (Response.Error a.1)) call
  else complete (Response.Ret a.1)
         (if Raw call =? 0 then (match ReplyTo call with Some _ => Some (PVal a.2) | None => None end)
          else Some (PBytes (marshalled (Raw call) a.2))) None call.

Definition deliver (c : Client) (a : Response.t * Value) : Client :=
  let s := Response.Seq a.1 in
  match pending c !! s with
  | Some p => set_calls (set_pending c (delete s (pending c))) (alter (finish a) p (calls c))
  | None => set_pending c (delete s (pending c))
  end.

(** The response has the encoding and the type the call waits for. *)
Definition fits (a : Response.t * Value) (call : CallInfo) : Prop :=
  Raw call = Response.Raw a.1 /\
  (Response.Error a.1 = "" -> Raw call = 0 -> ReplyTo call = None \/ ReplyTo call = Some (type_of a.2)).

Definition fits_pending (c : Client) (a : Response.t * Value) : Prop :=
  forall p, pending c !! Response.Seq a.1 = Some p -> exists call, calls c !! p = Some call /\ fits a call.

Context {L : ProtoLaws P}.

Lemma response_delivers c a bs rest :
  response_ok a.1 -> WriteResponse a.1 a.2 = Ret bs -> fits_pending c a ->
  exists response mid, ReadResponseHeader (bs ++ rest) = Ret (response, mid) /\ input_response c response mid = (deliver c a, Ret rest).
Proof.
  intros Hok Hw Hfit. destruct a as [resp body]. cbn [fst snd] in *.
  destruct (read_response resp body bs rest Hok Hw) as (mid & Hh & Hb & Hn & buf & Hm & Hby).
  do 2 eexists. split; [exact Hh|]. unfold input_response, deliver. cbn [Response.Seq Response.Error Response.Ret Response.Raw fst].
  destruct (pending c !! Response.Seq resp) as [p|] eqn:Ep; [|by rewrite Hn].
  destruct (Hfit p Ep) as (call & Hc & Hraw & Hty). cbn [fst snd] in *.
  unfold finish; cbn [fst snd].
  destruct (String.eqb_spec (Response.Error resp) "") as [Ee|Ee]; cbn [negb]; [|by rewrite Hn].
  change (calls (set_pending _ _)) with (calls c). rewrite Hc.
  assert (Halter : forall f g : CallInfo -> CallInfo, f call = g call -> alter f p (calls c) = alter g p (calls c)).
  { intros f g E. apply list_eq. intros q. destruct (decide (q = p)) as [->|Hne].
    - by rewrite !list_lookup_alter_eq, Hc; simpl; rewrite E.
    - by rewrite !list_lookup_alter_ne by done. }
  destruct (Z.eqb_spec (Raw call) 0) as [E0|E0].
  - rewrite E0. change (i32 0) with 0. destruct (Hty Ee E0) as [Hr|Hr]; rewrite Hr.
    + rewrite Hn. f_equal. f_equal. apply Halter. cbn beta. by rewrite E0, Hr.
    + rewrite <- Hraw, E0 in Hb. rewrite Hb. f_equal. f_equal. apply Halter. cbn beta.
      by rewrite E0, Hr.
  - rewrite Hby. f_equal. f_equal. apply Halter. cbn beta.
    destruct (Z.eqb_spec (Raw call) 0); [done|]. unfold marshalled. by rewrite Hraw, Hm.
Qed.

Lemma input_delivers c a bs rest n :
  response_ok a.1 -> WriteResponse a.1 a.2 = Ret bs -> fits_pending c a ->
  input (S n) c (bs ++ rest) = input n (deliver c a) rest.
Proof.
  intros Hok Hw Hfit. destruct (response_delivers c a bs rest Hok Hw Hfit) as (response & mid & Hh & Hd).
  cbn [input]. by rewrite Hh, Hd.
Qed.

Lemma finish_fits a b call : fits b call -> fits b (finish a call).
Proof. unfold fits, finish. case_match; simpl; tauto. Qed.

Lemma deliver_fits c a b : fits_pending c b -> fits_pending (deliver c a) b.
Proof.
  unfold fits_pending, deliver. intros Hb p. destruct (pending c !! Response.Seq a.1) as [q|] eqn:Eq;
    cbn [pending calls set_pending set_calls]; intros [_ Hp]%lookup_delete_Some;
    destruct (Hb p Hp) as (call & Hc & Hf); [|eauto].
  destruct (decide (p = q)) as [->|Hne].
  - rewrite list_lookup_alter_eq, Hc. eexists. split; [done|]. by apply finish_fits.
  - rewrite list_lookup_alter_ne by done. eauto.
Qed.

Lemma input_delivers_all answers bss : forall c n,
  Forall2 (fun a bs => WriteResponse a.1 a.2 = Ret bs) answers bss ->
  Forall (fun a => response_ok a.1 /\ fits_pending c a) answers ->
  input (length answers + n) c (concat bss) = input n (fold_left deliver answers c) [].
Proof.
  intros c n H. revert c. induction H as [|a bs answers bss Hw _ IH]; intros c Hall; [done|].
  apply Forall_cons in Hall as [[Hok Hf] Hall]. cbn [length concat plus fold_left].
  rewrite (input_delivers c a bs) by done. apply IH.
  eapply Forall_impl; [exact Hall|]. intros b [Hb1 Hb2]. split; [done|]. by apply deliver_fits.
Qed.

(** The calls after a batch of responses with distinct sequence numbers. *)
Lemma deliver_all_calls answers : forall c,
  NoDup ((fun a => Response.Seq a.1) <$> answers) ->
  (forall s s' p, pending c !! s = Some p -> pending c !! s' = Some p -> s = s') ->
  (forall p, (forall s, pending c !! s <> Some p) -> calls (fold_left deliver answers c) !! p = calls c !! p) /\
  (forall s p, pending c !! s = Some p ->
     (forall a, a ∈ answers -> Response.Seq a.1 = s -> calls (fold_left deliver answers c) !! p = finish a <$> calls c !! p) /\
     ((forall a, a ∈ answers -> Response.Seq a.1 <> s) -> calls (fold_left deliver answers c) !! p = calls c !! p)).
Proof.
  induction answers as [|a answers IH]; intros c Hnd Hinj; cbn [fold_left].
  { split; [done|]. intros s p Hp. split; [|done]. intros a Ha. by apply elem_of_nil in Ha. }
  cbn [fmap list_fmap] in Hnd. apply NoDup_cons in Hnd as [Ha Hnd].
  assert (Hpend : pending (deliver c a) = delete (Response.Seq a.1) (pending c)) by (unfold deliver; by case_match).
  assert (Hcalls : forall p, pending c !! Response.Seq a.1 <> Some p -> calls (deliver c a) !! p = calls c !! p).
  { intros p Hp. unfold deliver. destruct (pending c !! Response.Seq a.1) as [q|]; [|done].
    cbn [calls set_calls]. apply list_lookup_alter_ne. congruence. }
  assert (Hthis : forall p, pending c !! Response.Seq a.1 = Some p -> calls (deliver c a) !! p = finish a <$> calls c !! p).
  { intros p Hp. unfold deliver. rewrite Hp. cbn [calls set_calls]. apply list_lookup_alter_eq. }
  destruct (IH (deliver c a) Hnd) as [IH1 IH2].
  { intros s s' p. rewrite Hpend. intros [_ H1]%lookup_delete_Some [_ H2]%lookup_delete_Some. by eapply Hinj. }
  split.
  - intros p Hp. rewrite IH1, Hcalls; [done|done|]. intros s. rewrite Hpend.
    intros [_ Hs]%lookup_delete_Some. by apply (Hp s).
  - intros s p Hp. destruct (decide (s = Response.Seq a.1)) as [->|Hne].
    + assert (Hgone : forall s, pending (deliver c a) !! s <> Some p).
      { intros s. rewrite Hpend. intros [Hs Hl]%lookup_delete_Some. apply Hs. by eapply Hinj. }
      split.
      * intros b [->|Hb]%elem_of_cons Hs; [by rewrite IH1, Hthis|].
        destruct Ha. apply list_elem_of_fmap. by exists b.
      * intros Hno. destruct (Hno a); [by left|done].
    + assert (Hp' : pending (deliver c a) !! s = Some p) by (rewrite Hpend; by apply lookup_delete_Some).
      assert (Hkeep : calls (deliver c a) !! p = calls c !! p).
      { apply Hcalls. intros Hs. apply Hne. by eapply Hinj. }
      destruct (IH2 s p Hp') as [IH3 IH4]. rewrite Hkeep in *. split.
      * intros b [->|Hb]%elem_of_cons Hs; [done|]. by apply IH3.
      * intros Hno. apply IH4. intros b Hb. apply Hno. by right.
Qed.

(** A batch of calls on a new client. *)
Definition send_all (cs : list CallInfo) : Client :=
  fold_left (fun c call => (send_register c call).1) cs NewClientWithCodec.

Lemma send_all_state cs :
  Z.of_nat (length cs) < 2 ^ 64 ->
  let c := send_all cs in
  seq c = Z.of_nat (length cs) /\ calls c = cs /\ shutdown c = false /\ closing c = false /\
  (forall s p, pending c !! s = Some p <-> s = Z.of_nat p /\ exists call, cs !! p = Some call /\ NoResp call = false).
Proof.
  induction cs as [|call cs IH] using rev_ind; intros Hlen; cbn zeta.
  { splits; try done. intros s p. unfold send_all; simpl. rewrite lookup_empty.
    split; [done|]. intros (_ & call & Hc & _). by rewrite lookup_nil in Hc. }
  rewrite length_app in Hlen. simpl in Hlen. destruct IH as (E1 & E2 & E3 & E4 & Hp); [lia|].
  unfold send_all. rewrite fold_left_app. cbn [fold_left]. fold (send_all cs). unfold send_register.
  rewrite E3, E4, E2. cbn [orb fst seq pending calls shutdown closing]. splits.
  - rewrite E1, length_app. simpl. rewrite wrapu_small; [lia|]. unfold in_u. lia.
  - done.
  - done.
  - done.
  - intros s p. destruct (decide (p = length cs)) as [->|Hne].
    + assert (Hno : forall s, pending (send_all cs) !! s <> Some (length cs)).
      { intros s' (_ & x & Hx & _)%Hp. apply lookup_lt_Some in Hx. lia. }
      rewrite lookup_app_r, Nat.sub_diag by lia. destruct (NoResp call) eqn:En.
      * split; [intros H; by apply Hno in H|]. intros (_ & x & [= <-] & Hx). congruence.
      * rewrite lookup_insert_Some. split.
        -- intros [[<- _]|[_ H]]; [split; [lia|eauto]|by apply Hno in H].
        -- intros (-> & _). left. split; [lia|done].
    + assert (Happ : forall x, (cs ++ [call]) !! p = Some x <-> cs !! p = Some x).
      { intros x. rewrite lookup_app_Some. split; [|by left]. intros [?|[Hl Hx]]; [done|].
        apply list_lookup_singleton_Some in Hx as [? _]. lia. }
      setoid_rewrite Happ. rewrite <- Hp. destruct (NoResp call); [done|]. rewrite lookup_insert_Some.
      split; [intros [[_ ?]|[_ ?]]; congruence|]. intros Hs. right. split; [|done].
      apply Hp in Hs as (-> & _). lia.
Qed.

(** ** A batch of calls through the server *)

Context (gotype : RType -> GoType) (assignable : Value -> RType -> bool) (zero empty : RType -> Value)
        (deref : Value -> Value) (NullMessage : Value).

Notation expected := (expected gotype assignable zero empty deref NullMessage).

(** The body of the request of a call, and the request as the server sees it. *)
Definition call_payload (call : CallInfo) : bytes :=
  match Args call with PVal v => written (Marshal v) | PBytes b => b end.
Definition seen (call : CallInfo) (i : nat) : Request.t :=
  on_wire (the_request call (Z.of_nat i)) (NoResp call && (Raw call =? 0)).

(** The answers the server gives to the batch, with the encodings the client
    expects. *)
Definition batch_answer (server : Server) (call : CallInfo) (i : nat) : option (Response.t * Value) :=
  expected server (seen call i) (call_payload call).

Record call_ok (server : Server) (i : nat) (call : CallInfo) (bs : bytes) : Prop := {
  call_fresh : fresh_call call;
  call_request : request_ok (the_request call (Z.of_nat i));
  call_written : send_write call (Z.of_nat i) = Ret bs;
  call_answer : forall a, batch_answer server call i = Some a ->
    in_u 16 (Response.Ret a.1) /\
    (Response.Error a.1 = "" -> Raw call = 0 -> ReplyTo call = None \/ ReplyTo call = Some (type_of a.2))
}.

Lemma call_item server i call bs :
  call_ok server i call bs -> is_item (seen call i) (call_payload call) bs.
Proof.
  intros [_ Hr Hw _]. unfold send_write in Hw. unfold seen, call_payload.
  destruct (Raw call =? 0).
  - destruct (Args call) as [v|]; [|done]. destruct (WriteRequest_item _ _ _ Hr Hw) as (b & -> & Hi).
    rewrite andb_true_r. exact Hi.
  - destruct (Args call) as [|b]; [done|]. rewrite andb_false_r. by apply WriteByteRequest_item.
Qed.

Lemma expected_header server req b a :
  expected server req b = Some a ->
  Request.NoResp req = false /\ Response.Seq a.1 = Request.Seq req /\ Response.Raw a.1 = Request.Raw req.
Proof.
  unfold RpcServer.expected. destruct (Request.NoResp req); [done|]. intros [= <-].
  repeat case_match; done.
Qed.

(** The answers to the batch: one for each call the server sees as wanting one. *)
Definition batch_answers (server : Server) (cs : list CallInfo) : list (Response.t * Value) :=
  omap id (imap (fun i call => batch_answer server call i) cs).

Lemma elem_of_batch_answers server cs a :
  a ∈ batch_answers server cs <-> exists i call, cs !! i = Some call /\ batch_answer server call i = Some a.
Proof.
  unfold batch_answers. rewrite list_elem_of_omap. setoid_rewrite elem_of_lookup_imap. naive_solver.
Qed.

Lemma batch_answer_header server call i a :
  batch_answer server call i = Some a ->
  Response.Seq a.1 = Z.of_nat i /\ Response.Raw a.1 = Raw call /\ NoResp call && (Raw call =? 0) = false.
Proof. intros (H1 & H2 & H3)%expected_header. done. Qed.

Lemma batch_answers_NoDup server cs : NoDup ((fun a => Response.Seq a.1) <$> batch_answers server cs).
Proof.
  induction cs as [|call cs IH] using rev_ind; [constructor|].
  unfold batch_answers in *. rewrite imap_app, omap_app, fmap_app. apply NoDup_app. split; [done|]. split.
  - intros s (a & -> & Ha)%list_elem_of_fmap. rewrite list_elem_of_fmap. intros (b & Hs & Hb).
    apply (elem_of_batch_answers server cs a) in Ha as (i & call1 & Hi & (Ea & _)%batch_answer_header).
    cbn [imap omap list_omap] in Hb. rewrite Nat.add_0_r in Hb. unfold id in Hb.
    destruct (batch_answer server call (length cs)) as [b'|] eqn:Eb; [|by apply elem_of_nil in Hb].
    apply list_elem_of_singleton in Hb as ->. apply batch_answer_header in Eb as (Eb & _).
    apply lookup_lt_Some in Hi. lia.
  - cbn [imap omap list_omap]. case_match; cbn; [apply NoDup_singleton|constructor].
Qed.

Lemma zip_with_pair_snd {A B C} (f : A -> C) (l : list A) (k : list B) :
  length l = length k -> (zip_with (fun x y => (f x, y)) l k).*2 = k.
Proof. revert k; induction l as [|x l IH]; intros [|y k]; simpl; try done. intros [= E]. by rewrite IH. Qed.

Lemma zip_with_pair_fst {A B C D E} (f : A -> C * E) (g : C * E -> D) (l : list A) (k : list B) :
  length l = length k ->
  (fun '(c, e, _) => g (c, e)) <$> zip_with (fun x y => (f x, y)) l k = g ∘ f <$> l.
Proof.
  revert k; induction l as [|x l IH]; intros [|y k]; try done. intros [= Hl]. cbn [zip_with fmap list_fmap].
  rewrite <- IH with (k := k) by done. simpl. by destruct (f x).
Qed.

(** C3. Any batch of calls made on a new client (protobuf, raw and JSON, with and
    without response), written to the connection, served by the server and
    answered in any order, ends with every call that wanted a response holding
    exactly what its own method returned: the return code and the reply in the
    encoding of the call, or the error.  Replies the server sends although the
    caller wanted none are read and dropped. *)
Theorem rpc_end_to_end (server : Server) (cs : list CallInfo) (bss : list bytes)
    (answers : list (Response.t * Value)) (rbs : list bytes)
    (Hsv : servable gotype server) (Hdp : decode_panics) (Hlen : Z.of_nat (length cs) < 2 ^ 64)
    (Hcs : Forall2 (fun ic bs => call_ok server ic.1 ic.2 bs) (imap pair cs) bss)
    (Hperm : answers ≡ₚ batch_answers server cs)
    (Hrbs : Forall2 (fun a bs => WriteResponse a.1 a.2 = Ret bs) answers rbs) :
  (exists js, ServeCodec gotype zero empty deref NullMessage (S (length (concat bss))) server (concat bss) = Some (Ret js) /\
     answer assignable NullMessage <$> js = imap (fun i call => batch_answer server call i) cs) /\
  exists c', (forall n, input (length answers + n) (send_all cs) (concat rbs) = input n c' []) /\
    forall i call, cs !! i = Some call -> NoResp call = false ->
      exists a, batch_answer server call i = Some a /\ calls c' !! i = Some (finish a call).
Proof.
  assert (Hcall : forall i call, cs !! i = Some call -> exists bs, call_ok server i call bs).
  { intros i call Hi. assert (Hl : imap pair cs !! i = Some (i, call)) by (by rewrite list_lookup_imap, Hi).
    destruct (Forall2_lookup_l _ _ _ _ _ Hcs Hl) as (bs & _ & Hok). by exists bs. }
  split.
  - set (items := zip_with (fun ic bs => ((fun ic => (seen ic.2 ic.1, call_payload ic.2)) ic, bs)) (imap pair cs) bss).
    assert (Elen : length (imap pair cs) = length bss) by (by apply Forall2_length in Hcs).
    assert (E2 : items.*2 = bss).
    { by apply zip_with_pair_snd. }
    destruct (serve_items gotype assignable zero empty deref NullMessage server items Hsv Hdp) as (js & Hjs & Ha).
    { unfold items. clear -Hcs L. induction Hcs as [|[i call] bs ics bss Hok _ IH]; constructor; [|done].
      by apply (call_item server). }
    rewrite E2 in Hjs. exists js. split; [done|]. rewrite Ha. unfold items.
    rewrite (zip_with_pair_fst _ (fun p => expected server p.1 p.2)) by done.
    rewrite fmap_imap. by apply imap_ext.
  - destruct (send_all_state cs Hlen) as (_ & E2 & _ & _ & Hp).
    exists (fold_left deliver answers (send_all cs)).
    destruct (deliver_all_calls answers (send_all cs)) as [_ Hdel].
    { rewrite Hperm. apply batch_answers_NoDup. }
    { intros s s' p (-> & _)%Hp (-> & _)%Hp. done. }
    split.
    + intros n. apply input_delivers_all; [done|]. rewrite Hperm. apply Forall_forall.
      intros a (i & call & Hi & Ha)%elem_of_batch_answers.
      destruct (Hcall i call Hi) as (bs & [_ (Hr1 & Hr2 & _) _ Hans]).
      destruct (batch_answer_header _ _ _ _ Ha) as (Es & Er & _). destruct (Hans a Ha) as [H16 Hty].
      split; [split; [by rewrite Es|split; [done|by rewrite Er]]|].
      intros p. rewrite Es. intros (Ep & call' & Hc' & _)%Hp. apply Nat2Z.inj in Ep as <-.
      rewrite E2. exists call'. split; [done|]. replace call' with call by congruence. by split.
    + intros i call Hi Hn.
      assert (Ha : exists a, batch_answer server call i = Some a).
      { unfold batch_answer, RpcServer.expected, seen, on_wire. cbn [Request.NoResp]. rewrite Hn. by eexists. }
      destruct Ha as [a Ha]. exists a. split; [done|].
      destruct (Hdel (Z.of_nat i) i) as [Hd _]; [apply Hp; eauto|]. rewrite (Hd a), E2, Hi; [done|..].
      * rewrite Hperm. apply elem_of_batch_answers. eauto.
      * by apply batch_answer_header in Ha as (? & _).
Qed.

End rpc_client.

(** ** Examples *)

Module ClientSample.
Import RpcServer.Sample.

Definition hello : @CallInfo SampleProto := Go None "Db.Get" (msg "x") (Some TText) false.
Definition quiet : @CallInfo SampleProto := RawSend None "Db.Get" (written (Marshal (msg "y"))).
Definition calls_made : list CallInfo := [hello; quiet].
Definition requests : list bytes := [written (send_write hello 0); written (send_write quiet 1)].
Definition answers : list (Response.t * @Value SampleProto) :=
  batch_answers gotype assignable zero zero deref VNull server calls_made.
Definition replies : list bytes := (fun a => written (WriteResponse a.1 a.2)) <$> answers.

Lemma reply_ok i call a :
  (forall b, batch_answer gotype assignable zero zero deref VNull server call i = Some b ->
     in_u 16 (Response.Ret b.1) /\ ReplyTo call = Some (type_of b.2)) ->
  batch_answer gotype assignable zero zero deref VNull server call i = Some a ->
  in_u 16 (Response.Ret a.1) /\
  (Response.Error a.1 = "" -> Raw call = 0 -> ReplyTo call = None \/ ReplyTo call = Some (type_of a.2)).
Proof. intros H Ha. destruct (H a Ha). split; [done|]. intros _ _. by right. Qed.

Lemma hello_ok : call_ok gotype assignable zero zero deref VNull server 0 hello (written (send_write hello 0)).
Proof.
  split.
  - done.
  - apply (bool_decide_unpack _). vm_compute. exact I.
  - vm_compute. reflexivity.
  - intros a Ha. vm_compute in Ha. injection Ha as <-. split; [done|]. intros _ _. by right.
Qed.

Lemma quiet_ok : call_ok gotype assignable zero zero deref VNull server 1 quiet (written (send_write quiet 1)).
Proof.
  split.
  - done.
  - apply (bool_decide_unpack _). vm_compute. exact I.
  - vm_compute. reflexivity.
  - intros a Ha. vm_compute in Ha. injection Ha as <-. split; [done|]. intros _ _. by left.
Qed.
End ClientSample.

Lemma rpc_end_to_end_witness :
  exists c', (forall n, input (2 + n) (send_all ClientSample.calls_made) (concat ClientSample.replies) = input n c' []) /\
    exists call, calls c' !! 0%nat = Some call /\ Reply call = Some (PVal (Sample.msg "hello x")) /\ Done call = 1%nat.
Proof.
  destruct (rpc_end_to_end Sample.gotype Sample.assignable Sample.zero Sample.zero Sample.deref VNull
    Sample.server ClientSample.calls_made ClientSample.requests ClientSample.answers ClientSample.replies)
    as [_ (c' & Hin & Hc)].
  - apply Sample.server_servable.
  - apply Sample.decodes.
  - vm_compute. reflexivity.
  - constructor; [apply ClientSample.hello_ok|]. constructor; [apply ClientSample.quiet_ok|constructor].
  - reflexivity.
  - repeat constructor; vm_compute; reflexivity.
  - exists c'. split; [exact Hin|].
    destruct (Hc 0%nat ClientSample.hello eq_refl eq_refl) as (a & Ha & Hcall).
    vm_compute in Ha. injection Ha as <-. eexists. split; [exact Hcall|]. split; reflexivity.
Defined.

Lemma rpc_client_completes_witness :
  exists call, calls (P := SampleProto) (input_end (send_all [ClientSample.hello]) EOF) !! 0%nat = Some call /\
    (1 <= Done call <= 2)%nat.
Proof.
  destruct (rpc_client_completes (P := SampleProto) [] (input_end (send_all [ClientSample.hello]) EOF)) as (_ & _ & _ & H).
  - intros o Ho. by apply elem_of_nil in Ho.
  - eapply rtc_l; [by apply (cstep_send _ ClientSample.hello)|]. eapply rtc_l; [by apply (cstep_end _ EOF)|].
    apply rtc_refl.
  - vm_compute. reflexivity.
  - eexists. split; [reflexivity|]. apply (H eq_refl 0%nat _ eq_refl eq_refl).
Defined.

Lemma rpc_client_close_callback_witness :
  callbacks (input_end (Dial (P := SampleProto) [WithName "node1"]) EOF) = [].
Proof.
  destruct (rpc_client_close_callback (P := SampleProto) "node1" (Dial [WithName "node1"])) as [_ H].
  - apply rtc_refl.
  - vm_compute. reflexivity.
  - reflexivity.
  - apply H.
Defined.
