(* ===== verification/Timer.v ===== *)
(** * Timers: util/timer/timer.go, cache.go, common.go, time_zone.go

    Timers wait in three containers by distance: those due within 5 ticks,
    within 25 ticks, and later.  Every tick the due timers of the first are run;
    every fourth tick the second is split, every fifth of those the third.  The
    goroutines are steps; a tick is [T] nanoseconds.  Times are int64
    nanoseconds, which reach to the year 2262, and are not wrapped here; the
    products of [checkTime], which do overflow, are. *)

From Stdlib Require Import ZArith Lia Ascii String.
From stdpp Require Import base numbers list strings gmap sorting.
From S2P Require Import Prelude GoStd.

(** ** common.go *)

Definition MicroTimeUnit : Z := 1000.
Definition MilliTimeUnit : Z := 1000 * MicroTimeUnit.
Definition SecondTimeUnit : Z := 1000 * MilliTimeUnit.
Definition MinuteTimeUnit : Z := 60 * SecondTimeUnit.
Definition HourTimeUnit : Z := 60 * MinuteTimeUnit.
Definition DayTimeUnit : Z := 24 * HourTimeUnit.

Record TimerFunc := { next : Z; interval : Z; times : Z; id : nat (* function and msg *) }.

Definition TimeSplit (rows : list TimerFunc) (timestamp : Z) : list TimerFunc * list TimerFunc :=
  fold_left (fun acc row => if next row <=? timestamp then (acc.1 ++ [row], acc.2) else (acc.1, acc.2 ++ [row])) rows ([], []).

Lemma TimeSplit_filter rows t :
  TimeSplit rows t = (filter (fun r => next r <= t) rows, filter (fun r => ~ next r <= t) rows).
Proof.
  unfold TimeSplit.
  assert (H : forall a b, fold_left (fun acc row => if next row <=? t then (acc.1 ++ [row], acc.2) else (acc.1, acc.2 ++ [row])) rows (a, b)
    = (a ++ filter (fun r => next r <= t) rows, b ++ filter (fun r => ~ next r <= t) rows)); [|apply H].
  induction rows as [|r rows IH]; intros a b; cbn [fold_left].
  - by rewrite !app_nil_r.
  - destruct (Z.leb_spec (next r) t).
    + rewrite IH. simpl. rewrite filter_cons_True, filter_cons_False by lia. by rewrite <- app_assoc.
    + rewrite IH. simpl. rewrite filter_cons_False, filter_cons_True by lia. by rewrite <- app_assoc.
Qed.

(** ** cache.go *)

Definition basicNumber : Z := 100 * MilliTimeUnit.
Definition first_cutNo : Z := 5 * basicNumber.
Definition second_cutNo : Z := 25 * basicNumber.

Section timer.
Context (level : Z) (Hlevel : 0 < level).

(** The ticker's period. *)
Definition T : Z := basicNumber * level.

Record wheel := {
  first : list TimerFunc; second : list TimerFunc; third : list TimerFunc;
  count2 : Z; count3 : Z;                     (* second.count, third.count *)
  checking2 : bool; checking3 : bool;         (* go checkSecondCache(), go checkThirdCache() *)
  last : Z;                                   (* the time of the last tick *)
  running : list TimerFunc;                   (* go run(row) *)
  putting : list TimerFunc;                   (* go putInto(data) *)
  log : list (nat * Z);                       (* the runs: timer, time it was due *)
  created : gmap nat TimerFunc
}.

Definition new_wheel (t : Z) : wheel :=
  {| first := []; second := []; third := []; count2 := 0; count3 := 0; checking2 := false; checking3 := false;
     last := t; running := []; putting := []; log := []; created := ∅ |}.

Definition set_caches s a b c := {| first := a; second := b; third := c; count2 := count2 s; count3 := count3 s;
  checking2 := checking2 s; checking3 := checking3 s; last := last s; running := running s; putting := putting s;
  log := log s; created := created s |}.
Definition set_flags s c2 c3 k2 k3 := {| first := first s; second := second s; third := third s; count2 := c2; count3 := c3;
  checking2 := k2; checking3 := k3; last := last s; running := running s; putting := putting s;
  log := log s; created := created s |}.
Definition set_jobs s r p l := {| first := first s; second := second s; third := third s; count2 := count2 s; count3 := count3 s;
  checking2 := checking2 s; checking3 := checking3 s; last := last s; running := r; putting := p;
  log := l; created := created s |}.
Definition set_last s t := {| first := first s; second := second s; third := third s; count2 := count2 s; count3 := count3 s;
  checking2 := checking2 s; checking3 := checking3 s; last := t; running := running s; putting := putting s;
  log := log s; created := created s |}.
Definition set_created s v := {| first := first s; second := second s; third := third s; count2 := count2 s; count3 := count3 s;
  checking2 := checking2 s; checking3 := checking3 s; last := last s; running := running s; putting := putting s;
  log := log s; created := v |}.

Definition putInto (s : wheel) (now : Z) (data : TimerFunc) : wheel :=
  if next data <=? now + first_cutNo * level then set_caches s (first s ++ [data]) (second s) (third s)
  else if now + second_cutNo * level <? next data then set_caches s (first s) (second s) (third s ++ [data])
  else set_caches s (first s) (second s ++ [data]) (third s).

(** One round of the ticker's loop. *)
Definition tick (s : wheel) (now : Z) : wheel :=
  let c := count2 s + 1 in
  let s := if 4 <=? c then set_flags s 0 (count3 s) true (checking3 s) else set_flags s c (count3 s) (checking2 s) (checking3 s) in
  let '(mins, maxs) := TimeSplit (first s) now in
  let s := set_last (set_caches s maxs (second s) (third s)) now in
  set_jobs s (running s ++ mins) (putting s) (log s).

Definition checkSecondCache (s : wheel) (now : Z) : wheel :=
  let c := count3 s + 1 in
  let s := if 5 <=? c then set_flags s (count2 s) 0 false true else set_flags s (count2 s) c false (checking3 s) in
  let '(mins, maxs) := TimeSplit (second s) (now + first_cutNo * level) in
  set_caches s (first s ++ mins) maxs (third s).

Definition checkThirdCache (s : wheel) (now : Z) : wheel :=
  let s := set_flags s (count2 s) (count3 s) (checking2 s) false in
  let '(mins, maxs) := TimeSplit (third s) (now + second_cutNo * level) in
  set_caches s (first s) (second s ++ mins) maxs.

(** run: the timer to put back, if any, and whether the function is called. *)
Definition run (data : TimerFunc) : option TimerFunc * bool :=
  if times data =? 0 then (None, false)
  else if times data =? 1 then (None, true)
  else if times data =? -1
  then (Some {| next := next data + interval data; interval := interval data; times := times data; id := id data |}, true)
  else (Some {| next := next data + interval data; interval := interval data; times := times data - 1; id := id data |}, true).

Definition run_step (s : wheel) (data : TimerFunc) (others : list TimerFunc) : wheel :=
  let '(again, called) := run data in
  set_jobs s others (putting s ++ match again with Some d => [d] | None => [] end)
    (if called then log s ++ [(id data, next data)] else log s).

(** ** timer.go: the entry points *)

(** NewTimer once checkTime has succeeded: the timer to put into the wheel, if
    any, and whether the function is called at once. *)
Definition arm_timer (nxt itv tms : Z) (runNow : bool) (i : nat) : go (option TimerFunc * bool) :=
  let tms := if tms <? 0 then -1 else tms in
  if tms =? 0 then Err (ErrMsg "ticker run times can not be zero")
  else if runNow then
    if tms =? 1 then Ret (None, true)
    else if tms =? -1 then Ret (Some {| next := nxt; interval := itv; times := tms; id := i |}, true)
    else Ret (Some {| next := nxt; interval := itv; times := tms - 1; id := i |}, true)
  else Ret (Some {| next := nxt; interval := itv; times := tms; id := i |}, false).

(** A timer that is new to the wheel, put into it at time [t]. *)
Definition put_new (s : wheel) (t : Z) (d : TimerFunc) : wheel :=
  putInto (set_created s (<[id d := d]> (created s))) t d.

(** [now] and [t]: the two calls of time.Now. *)
Definition NewRunDuration (s : wheel) (now t duration tms : Z) (i : nat) : wheel :=
  if tms =? 0 then s
  else put_new s t {| next := now + duration; interval := duration; times := if tms <? 0 then -1 else tms; id := i |}.

Definition NewRunTime (s : wheel) (t timestamp : Z) (i : nat) : wheel :=
  put_new s t {| next := timestamp; interval := 0; times := 1; id := i |}.

(** ** Steps: ticks come every [T]; the goroutines started by a tick have
    finished before the next one *)
Inductive step : wheel -> wheel -> Prop :=
  | step_new s t d : last s <= t < last s + T -> created s !! id d = None -> times d = -1 \/ 0 < times d ->
      step s (put_new s t d)
  | step_tick s : checking2 s = false -> checking3 s = false -> step s (tick s (last s + T))
  | step_second s t : checking2 s = true -> last s <= t < last s + T -> step s (checkSecondCache s t)
  | step_third s t : checking3 s = true -> last s <= t < last s + T -> step s (checkThirdCache s t)
  | step_run s d l1 l2 : running s = l1 ++ d :: l2 -> step s (run_step s d (l1 ++ l2))
  | step_put s t d l1 l2 : putting s = l1 ++ d :: l2 -> last s <= t < last s + T ->
      step s (putInto (set_jobs s (running s) (l1 ++ l2) (log s)) t d).

Definition reachable (s : wheel) : Prop := exists t, rtc step (new_wheel t) s.

(** ** On time *)

(** Ticks since the second and the third container were split. *)
Definition age2 (s : wheel) : Z := if checking2 s then 4 else count2 s.
Definition age3 (s : wheel) : Z := 4 * (if checking3 s then 5 else count3 s) + age2 s.

Record on_time (s : wheel) : Prop := {
  ot_count2 : 0 <= count2 s <= 3 /\ (checking2 s = true -> count2 s = 0);
  ot_count3 : 0 <= count3 s <= 4 /\ (checking3 s = true -> count3 s = 0 /\ checking2 s = false /\ count2 s = 0);
  ot_second : Forall (fun d => last s + (5 - age2 s) * T < next d) (second s);
  ot_third : Forall (fun d => last s + (25 - age3 s) * T < next d) (third s);
  ot_running : Forall (fun d => next d <= last s) (running s)
}.

Lemma T_pos : 0 < T.
Proof. unfold T, basicNumber, MilliTimeUnit, MicroTimeUnit. lia. Qed.

Lemma cut1 : first_cutNo * level = 5 * T.
Proof. unfold first_cutNo, T. lia. Qed.
Lemma cut2 : second_cutNo * level = 25 * T.
Proof. unfold second_cutNo, T. lia. Qed.

Lemma putInto_on_time s t d : on_time s -> last s <= t < last s + T -> on_time (putInto s t d).
Proof using Hlevel.
  intros [H1 H2 H3 H4 H5] Ht. pose proof T_pos. unfold putInto. rewrite cut1, cut2.
  assert (Ha2 : 0 <= age2 s) by (unfold age2; destruct (checking2 s); lia).
  assert (Ha3 : 0 <= age3 s) by (unfold age3; destruct (checking3 s); lia).
  destruct (Z.leb_spec (next d) (t + 5 * T)); [by split|].
  destruct (Z.ltb_spec (t + 25 * T) (next d)); split; try done;
    (apply Forall_app; split; [done|apply Forall_singleton]).
  - change (age3 _) with (age3 s). cbn [last set_caches]. nia.
  - change (age2 _) with (age2 s). cbn [last set_caches]. nia.
Qed.

Lemma tick_on_time s : on_time s -> checking2 s = false -> checking3 s = false ->
  on_time (tick s (last s + T)) /\
  Forall (fun d => last s + T < next d) (first (tick s (last s + T)) ++ second (tick s (last s + T)) ++ third (tick s (last s + T))).
Proof using Hlevel.
  intros [[H1 H1'] [H2 H2'] H3 H4 H5] Hk2 Hk3. pose proof T_pos. unfold tick.
  set (s1 := if 4 <=? count2 s + 1 then _ else _).
  assert (E : first s1 = first s /\ second s1 = second s /\ third s1 = third s /\ running s1 = running s /\ checking3 s1 = false
    /\ count3 s1 = count3 s /\ age2 s1 = age2 s + 1 /\ age3 s1 = age3 s + 1 /\ 0 <= count2 s1 <= 3 /\ (checking2 s1 = true -> count2 s1 = 0)).
  { unfold s1, age3, age2. destruct (Z.leb_spec 4 (count2 s + 1)); cbn; rewrite ?Hk2, ?Hk3; cbn; splits; try done; lia. }
  destruct E as (E1 & E2 & E3 & E4 & E5 & E6 & E7 & E8 & E9 & E10). rewrite TimeSplit_filter, E1.
  set (s2 := set_jobs _ _ _ _).
  assert (A2 : age2 s2 = age2 s + 1) by (exact E7). assert (A3 : age3 s2 = age3 s + 1) by (exact E8).
  assert (Hs2 : age2 s <= 3) by (unfold age2; rewrite Hk2; lia).
  assert (Hs3 : age3 s <= 19) by (unfold age3; rewrite Hk3; lia).
  assert (B2 : Forall (fun d => last s + T + (5 - (age2 s + 1)) * T < next d) (second s)).
  { eapply Forall_impl; [exact H3|]. intros d. cbn. lia. }
  assert (B3 : Forall (fun d => last s + T + (25 - (age3 s + 1)) * T < next d) (third s)).
  { eapply Forall_impl; [exact H4|]. intros d. cbn. lia. }
  split.
  - split.
    + done.
    + change (count3 s2) with (count3 s1). change (checking3 s2) with (checking3 s1). rewrite E6, E5. done.
    + change (second s2) with (second s1). rewrite E2, A2. exact B2.
    + change (third s2) with (third s1). rewrite E3, A3. exact B3.
    + change (running s2) with (running s1 ++ filter (fun r => next r <= last s + T) (first s)).
      change (last s2) with (last s + T). rewrite E4. apply Forall_app. split.
      * eapply Forall_impl; [exact H5|]. cbn. intros d Hd. lia.
      * apply Forall_forall. intros d [Hd _]%list_elem_of_filter. done.
  - change (first s2) with (filter (fun r => ~ next r <= last s + T) (first s)).
    change (second s2) with (second s1). change (third s2) with (third s1). rewrite E2, E3.
    rewrite !Forall_app. splits.
    + apply Forall_forall. intros d [Hd _]%list_elem_of_filter. lia.
    + eapply Forall_impl; [exact B2|]. cbn. intros d Hd. nia.
    + eapply Forall_impl; [exact B3|]. cbn. intros d Hd. nia.
Qed.

Lemma second_on_time s t : on_time s -> checking2 s = true -> last s <= t -> on_time (checkSecondCache s t).
Proof using Hlevel.
  intros [[H1 H1'] [H2 H2'] H3 H4 H5] Hk2 Ht. pose proof T_pos. specialize (H1' Hk2).
  assert (Hk3 : checking3 s = false) by (destruct (checking3 s); [destruct H2' as (_ & ? & _); [done|congruence]|done]).
  unfold checkSecondCache. rewrite TimeSplit_filter, cut1.
  set (s1 := if 5 <=? count3 s + 1 then _ else _).
  assert (E : second s1 = second s /\ third s1 = third s /\ running s1 = running s /\ last s1 = last s /\ checking2 s1 = false /\
    count2 s1 = 0 /\ age2 s1 = 0 /\ age3 s1 = age3 s /\ 0 <= count3 s1 <= 4 /\ (checking3 s1 = true -> count3 s1 = 0)).
  { unfold s1, age3, age2. destruct (Z.leb_spec 5 (count3 s + 1)); cbn; rewrite ?Hk2, ?Hk3; cbn; splits; try done; lia. }
  destruct E as (E1 & E2 & E3 & E4 & E5 & E6 & E7 & E8 & E9 & E10). set (s2 := set_caches _ _ _ _).
  assert (A2 : age2 s2 = 0) by (exact E7). assert (A3 : age3 s2 = age3 s) by (exact E8).
  change (last s2) with (last s1). split.
  - change (count2 s2) with (count2 s1). change (checking2 s2) with (checking2 s1). rewrite E6, E5. split; [lia|done].
  - change (count3 s2) with (count3 s1). change (checking3 s2) with (checking3 s1). change (checking2 s2) with (checking2 s1).
    change (count2 s2) with (count2 s1). split; [done|]. intros Hc. rewrite E5, E6. auto.
  - change (last s2) with (last s1). rewrite A2, E4. cbn [second s2 set_caches]. rewrite E1. apply Forall_forall.
    intros d [Hd _]%list_elem_of_filter. nia.
  - change (last s2) with (last s1). change (third s2) with (third s1). rewrite A3, E4, E2. exact H4.
  - change (last s2) with (last s1). change (running s2) with (running s1). by rewrite E3, E4.
Qed.

Lemma third_on_time s t : on_time s -> checking3 s = true -> last s <= t -> on_time (checkThirdCache s t).
Proof using Hlevel.
  intros [H1 [H2 H2'] H3 H4 H5] Hk3 Ht. pose proof T_pos. destruct (H2' Hk3) as (Hc3 & Hk2 & Hc2).
  unfold checkThirdCache. rewrite TimeSplit_filter, cut2. cbn [third set_flags first second].
  assert (A2 : age2 s = 0) by (unfold age2; by rewrite Hk2). assert (A3 : age3 s = 20) by (unfold age3; rewrite Hk3, A2; lia).
  rewrite A2 in H3. rewrite A3 in H4. set (s2 := set_caches _ _ _ _).
  assert (B2 : age2 s2 = 0) by (exact A2).
  assert (B3 : age3 s2 = 0) by (unfold age3; cbn; rewrite Hc3; change (age2 s2) with (age2 s); lia).
  split; try done.
  - rewrite B2. cbn [second s2 set_caches last set_flags]. apply Forall_app. split; [exact H3|].
    apply Forall_forall. intros d [_ Hd]%list_elem_of_filter. rewrite Forall_forall in H4. specialize (H4 d Hd). cbn in H4. lia.
  - rewrite B3. cbn [third s2 set_caches last set_flags]. apply Forall_forall.
    intros d [Hd _]%list_elem_of_filter. cbn in Hd. nia.
Qed.

Lemma step_on_time s s' : step s s' -> on_time s -> on_time s'.
Proof using Hlevel.
  intros [s0 t d Ht Hc Hn|s0 Hk2 Hk3|s0 t Hk Ht|s0 t Hk Ht|s0 d l1 l2 Hr|s0 t d l1 l2 Hp Ht] Hok.
  - apply putInto_on_time; [|done]. destruct Hok. by split.
  - by apply tick_on_time.
  - apply second_on_time; [done..|lia].
  - apply third_on_time; [done..|lia].
  - unfold run_step. destruct (run d). destruct Hok as [H1 H2 H3 H4 H5]. split; try done.
    cbn [running set_jobs last]. rewrite Hr in H5. apply Forall_app in H5 as [Ha Hb].
    apply Forall_cons in Hb as [_ Hb]. by apply Forall_app.
  - apply putInto_on_time; [|done]. destruct Hok. by split.
Qed.

Lemma reachable_on_time s : reachable s -> on_time s.
Proof using Hlevel.
  intros [t Hr]. assert (H0 : on_time (new_wheel t)).
  { split; cbn; try constructor; try done; lia. }
  induction Hr as [|a b c Hs _ IH]; [done|]. by apply IH, (step_on_time a).
Qed.

(** ** Every timer runs as often and at the times it asked for *)

Definition live (s : wheel) : list TimerFunc := first s ++ second s ++ third s ++ running s ++ putting s.
Definition runs (s : wheel) (i : nat) : list Z := (filter (fun e => e.1 = i) (log s)).*2.

(** The first [k] times at which [d] is due. *)
Definition due (d : TimerFunc) (k : Z) : list Z := (fun j => next d + j * interval d) <$> seqZ 0 k.

(** [d] is what is left of [d0] after its runs. *)
Definition rest_of (d0 : TimerFunc) (rs : list Z) (d : TimerFunc) : Prop :=
  exists k, 0 <= k /\ rs = due d0 k /\ interval d = interval d0 /\ next d = next d0 + k * interval d0 /\
    ((times d0 = -1 /\ times d = -1) \/ (0 < times d0 /\ times d = times d0 - k /\ 0 < times d)).

Record sched (s : wheel) : Prop := {
  sc_nodup : NoDup (id <$> live s);
  sc_live : forall d, d ∈ live s -> exists d0, created s !! id d = Some d0 /\ rest_of d0 (runs s (id d)) d;
  sc_created : forall i d0, created s !! i = Some d0 ->
    (exists d, d ∈ live s /\ id d = i) \/ (0 < times d0 /\ runs s i = due d0 (times d0));
  sc_new : forall i, created s !! i = None -> runs s i = []
}.

Lemma sched_perm s s' : live s' ≡ₚ live s -> log s' = log s -> created s' = created s -> sched s -> sched s'.
Proof.
  intros Hp El Ec [H1 H2 H3 H4]. unfold runs in *. split; unfold runs.
  - by rewrite Hp.
  - intros d. rewrite Hp, Ec, El. apply H2.
  - intros i d0. rewrite Ec, El. setoid_rewrite Hp. apply H3.
  - intros i. rewrite Ec, El. apply H4.
Qed.

Lemma putInto_live s t d : live (putInto s t d) ≡ₚ d :: live s.
Proof.
  unfold putInto, live. repeat case_match; cbn [first second third running putting set_caches].
  all: solve_Permutation.
Qed.

Lemma putInto_rest s t d : log (putInto s t d) = log s /\ created (putInto s t d) = created s.
Proof. unfold putInto. by repeat case_match. Qed.

Lemma tick_live s t : live (tick s t) ≡ₚ live s /\ log (tick s t) = log s /\ created (tick s t) = created s.
Proof.
  unfold tick. set (s1 := if 4 <=? count2 s + 1 then _ else _).
  assert (E : live s1 = live s /\ log s1 = log s /\ created s1 = created s) by (unfold s1; by case_match).
  destruct E as (E1 & E2 & E3). rewrite TimeSplit_filter. splits; try done. rewrite <- E1.
  unfold live. cbn [first second third running putting set_jobs set_last set_caches].
  rewrite <- (filter_app_complement (fun r => next r <= t) (first s1)) at 3. solve_Permutation.
Qed.

Lemma second_live s t : live (checkSecondCache s t) ≡ₚ live s /\ log (checkSecondCache s t) = log s /\
  created (checkSecondCache s t) = created s.
Proof.
  unfold checkSecondCache. set (s1 := if 5 <=? count3 s + 1 then _ else _).
  assert (E : live s1 = live s /\ log s1 = log s /\ created s1 = created s) by (unfold s1; by case_match).
  destruct E as (E1 & E2 & E3). rewrite TimeSplit_filter. splits; try done. rewrite <- E1.
  unfold live. cbn [first second third running putting set_caches].
  rewrite <- (filter_app_complement (fun r => next r <= t + first_cutNo * level) (second s1)) at 3. solve_Permutation.
Qed.

Lemma third_live s t : live (checkThirdCache s t) ≡ₚ live s /\ log (checkThirdCache s t) = log s /\
  created (checkThirdCache s t) = created s.
Proof.
  unfold checkThirdCache. rewrite TimeSplit_filter. splits; try done.
  unfold live. cbn [first second third running putting set_caches set_flags].
  rewrite <- (filter_app_complement (fun r => next r <= t + second_cutNo * level) (third s)) at 3. solve_Permutation.
Qed.

Lemma due_snoc d k : 0 <= k -> due d (k + 1) = due d k ++ [next d + k * interval d].
Proof.
  intros Hk. unfold due. rewrite seqZ_app by lia. rewrite fmap_app. f_equal.
Qed.

Lemma runs_other s i j t l : log l = log s ++ [(i, t)] -> j <> i -> runs l j = runs s j.
Proof.
  intros E Hne. unfold runs. rewrite E, filter_app, fmap_app.
  rewrite filter_cons_False by (cbn; congruence). by rewrite filter_nil, app_nil_r.
Qed.

Lemma runs_same s i t l : log l = log s ++ [(i, t)] -> runs l i = runs s i ++ [t].
Proof.
  intros E. unfold runs. rewrite E, filter_app, fmap_app. by rewrite filter_cons_True, filter_nil.
Qed.

(** One run of a live timer. *)
Lemma run_sched s d l1 l2 : sched s -> running s = l1 ++ d :: l2 -> sched (run_step s d (l1 ++ l2)).
Proof.
  intros [H1 H2 H3 H4] Hr.
  set (others := first s ++ second s ++ third s ++ l1 ++ l2 ++ putting s).
  assert (Hlive : live s ≡ₚ d :: others) by (unfold live, others; rewrite Hr; solve_Permutation).
  rewrite Hlive in H1. cbn [fmap list_fmap] in H1. apply NoDup_cons in H1 as [Hd Hnd].
  destruct (H2 d) as (d0 & Hc & k & Hk & Hruns & Hitv & Hnext & Htimes); [rewrite Hlive; by left|].
  unfold run_step. destruct (run d) as [again called] eqn:Erun.
  assert (Hcalled : called = true /\ ((again = None /\ times d = 1) \/
    exists d', again = Some d' /\ id d' = id d /\ interval d' = interval d /\ next d' = next d + interval d /\
      ((times d = -1 /\ times d' = -1) \/ (1 < times d /\ times d' = times d - 1)))).
  { unfold run in Erun. destruct (Z.eqb_spec (times d) 0); [lia|].
    destruct (Z.eqb_spec (times d) 1); [injection Erun as <- <-; auto|].
    destruct (Z.eqb_spec (times d) (-1)); injection Erun as <- <-; split; try done; right; eexists; cbn [id interval next times]; splits; try done.
    - by left.
    - right. cbn [times]. lia. }
  destruct Hcalled as [-> Hagain]. set (s' := set_jobs _ _ _ _).
  assert (El : log s' = log s ++ [(id d, next d)]) by done.
  assert (Hlive' : live s' ≡ₚ match again with Some d' => d' :: others | None => others end).
  { unfold live, others. cbn [first second third running putting s' set_jobs].
    destruct again; rewrite ?app_nil_r; solve_Permutation. }
  assert (Hoth : forall x, x ∈ others -> id x <> id d).
  { intros x Hx E. apply Hd. rewrite <- E. by apply list_elem_of_fmap_2. }
  assert (Hsame : runs s' (id d) = due d0 (k + 1)).
  { rewrite (runs_same s _ _ s' El), Hruns, due_snoc by done. by rewrite Hnext. }
  assert (Hothlive : forall x, x ∈ others -> exists d0, created s' !! id x = Some d0 /\ rest_of d0 (runs s' (id x)) x).
  { intros x Hx. destruct (H2 x) as (y & Hy & Hrest); [rewrite Hlive; by right|]. exists y. split; [done|].
    rewrite (runs_other s (id d) _ _ s' El); [done|]. by apply Hoth. }
  split.
  - rewrite Hlive'. destruct again as [d'|]; [|done]. destruct Hagain as [[? _]|(x & [= <-] & Eid & _)]; [done|].
    cbn [fmap list_fmap]. rewrite Eid. by apply NoDup_cons.
  - intros x. rewrite Hlive'. destruct again as [d'|]; [|apply Hothlive].
    intros [->|Hx]%elem_of_cons; [|by apply Hothlive].
    destruct Hagain as [[? _]|(y & [= <-] & Eid & Eitv & Enx & Etm)]; [done|].
    rewrite Eid. exists d0. split; [done|]. exists (k + 1). rewrite Hsame, Eitv, Enx, Hnext, Hitv. splits; [lia|done|done|lia|lia].
  - intros i x Hi. destruct (decide (i = id d)) as [->|Hne].
    + assert (x = d0) as -> by (cbn in Hi; congruence). destruct Hagain as [[-> Ht]|(d' & -> & Eid & _)].
      * right. split; [lia|]. rewrite Hsame. f_equal. lia.
      * left. exists d'. split; [rewrite Hlive'; by left|done].
    + destruct (H3 i x Hi) as [(y & Hy & <-)|[Hp Hrs]].
      * left. exists y. split; [|done]. rewrite Hlive in Hy. apply elem_of_cons in Hy as [->|Hy]; [done|].
        rewrite Hlive'. destruct again; [by right|done].
      * right. split; [done|]. by rewrite (runs_other s (id d) _ _ s' El).
  - intros i Hi. rewrite (runs_other s (id d) _ _ s' El); [by apply H4|]. intros ->. cbn in Hi. congruence.
Qed.

Lemma new_sched s t d : sched s -> created s !! id d = None -> times d = -1 \/ 0 < times d ->
  sched (putInto (set_created s (<[id d := d]> (created s))) t d).
Proof.
  intros [H1 H2 H3 H4] Hn Ht. set (s0 := set_created s _).
  destruct (putInto_rest s0 t d) as [El Ec]. pose proof (putInto_live s0 t d) as Hlive.
  change (live s0) with (live s) in Hlive. change (log s0) with (log s) in El.
  change (created s0) with (<[id d := d]> (created s)) in Ec. set (s' := putInto s0 t d) in *.
  assert (Hruns : forall i, runs s' i = runs s i) by (intros i; unfold runs; by rewrite El).
  assert (Hfresh : forall x, x ∈ live s -> id x <> id d).
  { intros x Hx E. destruct (H2 x Hx) as (y & Hy & _). congruence. }
  split.
  - rewrite Hlive. cbn [fmap list_fmap]. apply NoDup_cons. split; [|done].
    intros (x & E & Hx)%list_elem_of_fmap. by apply (Hfresh x Hx).
  - intros x. rewrite Hlive, Ec, Hruns. intros [->|Hx]%elem_of_cons.
    + exists d. rewrite lookup_insert_eq. split; [done|]. exists 0. rewrite (H4 (id d) Hn). splits; [lia|done|done|lia|lia].
    + rewrite lookup_insert_ne by (by apply not_eq_sym, Hfresh). by apply H2.
  - intros i d0. rewrite Ec, Hruns. setoid_rewrite Hlive. destruct (decide (i = id d)) as [->|Hne].
    + intros _. left. exists d. split; [by left|done].
    + rewrite lookup_insert_ne by done. intros Hi. destruct (H3 i d0 Hi) as [(x & Hx & E)|?]; [left|by right].
      exists x. split; [by right|done].
  - intros i. rewrite Ec, Hruns. intros [Hi _]%lookup_insert_None. by apply H4.
Qed.

Lemma step_sched s s' : step s s' -> sched s -> sched s'.
Proof.
  intros [s0 t d Ht Hc Hn|s0 Hk2 Hk3|s0 t Hk Ht|s0 t Hk Ht|s0 d l1 l2 Hr|s0 t d l1 l2 Hp Ht] Hok.
  - by apply new_sched.
  - destruct (tick_live s0 (last s0 + T)) as (? & ? & ?). by apply (sched_perm s0).
  - destruct (second_live s0 t) as (? & ? & ?). by apply (sched_perm s0).
  - destruct (third_live s0 t) as (? & ? & ?). by apply (sched_perm s0).
  - by apply run_sched.
  - set (s1 := set_jobs s0 _ _ _). destruct (putInto_rest s1 t d) as [El Ec].
    apply (sched_perm s0); [|by rewrite El|by rewrite Ec|done]. rewrite putInto_live.
    unfold live. cbn [first second third running putting s1 set_jobs]. rewrite Hp. solve_Permutation.
Qed.

Lemma reachable_sched s : reachable s -> sched s.
Proof.
  intros [t Hr]. assert (H0 : sched (new_wheel t)).
  { split; cbn; [constructor|intros d Hd; by apply elem_of_nil in Hd|intros i d0; by rewrite lookup_empty|done]. }
  induction Hr as [|a b c Hs _ IH]; [done|]. by apply IH, (step_sched a).
Qed.

(** C17. No timer is late: at every tick, whatever was put in between and however
    the goroutines interleave before the next tick, every waiting timer that is
    due is handed to run, since those in the second and third container are
    moved forward early enough; and none is handed over before it is due. *)
Theorem timer_on_time (s : wheel) (Hr : reachable s) (Hk2 : checking2 s = false) (Hk3 : checking3 s = false) :
  let s' := tick s (last s + T) in
  (forall d, d ∈ first s' ++ second s' ++ third s' -> last s' < next d) /\
  (forall d, d ∈ running s' -> next d <= last s').
Proof using Hlevel.
  cbn zeta. destruct (tick_on_time s (reachable_on_time s Hr) Hk2 Hk3) as [Hok Hall]. split.
  - apply Forall_forall. unfold tick in *. by repeat case_match.
  - apply Forall_forall. apply Hok.
Qed.

(** C18. Every timer runs as it asked: the runs of a timer, in their order, are at
    next, next + interval, next + 2 interval and so on; a timer with a number of
    runs is in the wheel exactly once with the remaining number until it has
    had all of them, and a timer without end stays; none is lost, duplicated or
    run too often. *)
Theorem timer_runs_as_asked (s : wheel) (i : nat) (d0 : TimerFunc) (Hr : reachable s) (Hc : created s !! i = Some d0) :
  NoDup (id <$> live s) /\
  ((exists d k, d ∈ live s /\ id d = i /\ 0 <= k /\ runs s i = due d0 k /\ next d = next d0 + k * interval d0 /\
      interval d = interval d0 /\
      ((times d0 = -1 /\ times d = -1) \/ (0 < times d0 /\ times d = times d0 - k /\ 0 < times d))) \/
   (0 < times d0 /\ runs s i = due d0 (times d0) /\ forall d, d ∈ live s -> id d <> i)).
Proof using Type.
  destruct (reachable_sched s Hr) as [H1 H2 H3 H4]. split; [done|].
  destruct (decide (i ∈ id <$> live s)) as [(d & -> & Hd)%list_elem_of_fmap|Hno].
  - left. destruct (H2 d Hd) as (d1 & Hd1 & k & Hk & Hrs & Hitv & Hnx & Ht).
    assert (d1 = d0) as -> by congruence. by exists d, k.
  - right. destruct (H3 i d0 Hc) as [(d & Hd & <-)|[Ht Hrs]].
    + destruct Hno. by apply list_elem_of_fmap_2.
    + splits; [done|done|]. intros d Hd <-. apply Hno. by apply list_elem_of_fmap_2.
Qed.

End timer.

(** ** timer.go: checkTime; time_zone.go *)

Record zone := { timeZoneStatus : bool; timeZoneJetLag : Z }.

(** [sys] is the offset of the local zone in seconds. *)
Definition GetJetLag (z : zone) (sys : Z) : Z := if timeZoneStatus z then timeZoneJetLag z else sys.

Definition GetTimeNowZone (z : zone) (sys now : Z) : Z := now + GetJetLag z sys * SecondTimeUnit.

(** SetTimeZone: the error and the new zone, which may be changed also when
    there is an error. *)
Definition SetTimeZone (z : zone) (v : string) : option string * zone :=
  match v with
  | EmptyString => (Some "Time Zone string is null", z)
  | String c rest =>
      if negb (Ascii.eqb c "+" || Ascii.eqb c "-") then (Some "Time Zone string first byte not ['-' or '+']", z)
      else
        let z := if String.eqb v "+00:00" then {| timeZoneStatus := true; timeZoneJetLag := timeZoneJetLag z |} else z in
        match Split ":" rest with
        | [a; b] =>
            let '(h, e1) := ParseUint 64 a in
            match e1 with
            | Some _ => (Some "Parse Time Zone hour error: ", z)
            | None =>
                if 23 <? h then (Some "Time Zone hour more than 23", z)
                else
                  let '(m, e2) := ParseUint 64 b in
                  match e2 with
                  | Some _ => (Some "Parse Time Zone minter error: ", z)
                  | None =>
                      if 59 <? m then (Some "Time Zone minter more than 59", z)
                      else (None, {| timeZoneStatus := true;
                                     timeZoneJetLag := if Ascii.eqb c "+" then h * 3600 + m * 60 else - (h * 3600 + m * 60) |})
                  end
            end
        | _ => (Some "Time Zone string format wrong", z)
        end
  end.

(** Two digits below [lim], as time.Parse reads them. *)
Definition two_digits (lim : Z) (s : string) : option Z :=
  match s with
  | String a (String b "") =>
      match digit_val a, digit_val b with
      | Some x, Some y => let v := x * 10 + y in if v <? lim then Some v else None
      | _, _ => None
      end
  | _ => None
  end.

(** The seconds that a stamp ss, mm:ss or hh:mm:ss stands for. *)
Definition clock_seconds (stamp : string) : option Z :=
  match Split ":" stamp with
  | [s] => two_digits 60 s
  | [m; s] => m ← two_digits 60 m; s ← two_digits 60 s; Some (m * 60 + s)
  | [h; m; s] => h ← two_digits 24 h; m ← two_digits 60 m; s ← two_digits 60 s; Some (h * 3600 + m * 60 + s)
  | _ => None
  end.

(** for next <= now { next += step }; [None]: out of fuel. *)
Fixpoint advance (fuel : nat) (next now step : Z) : option Z :=
  match fuel with
  | O => None
  | S fuel => if next <=? now then advance fuel (i64 (next + step)) now step else Some next
  end.

Definition init_last (s : string) : option (string * ascii) :=
  match rev (to_bytes s) with
  | [] => None
  | c :: l => Some (of_bytes (rev l), c)
  end.

Definition unit_of (c : ascii) : option Z :=
  if Ascii.eqb c "s" || Ascii.eqb c "S" then Some SecondTimeUnit
  else if Ascii.eqb c "m" || Ascii.eqb c "M" then Some MinuteTimeUnit
  else if Ascii.eqb c "h" || Ascii.eqb c "H" then Some HourTimeUnit
  else if Ascii.eqb c "d" || Ascii.eqb c "D" then Some DayTimeUnit
  else None.

(** next and interval before the loop, with the error of the parse.  [now] is in
    seconds; a clock stamp replaces the end of the local time, which is then
    read as if it were UTC. *)
Definition stamp_time (z : zone) (sys now : Z) (stamp : string) : go (Z * Z * option string) :=
  match init_last stamp with
  | None => Panic "slice bounds out of range"
  | Some (pre, c) =>
      match unit_of c with
      | Some u => let '(temp, e) := Atoi pre in
                  Ret (now, i64 (temp * u), match e with Some _ => Some "parse" | None => None end)
      | None =>
          match digit_val c with
          | None => Ret (now, 0, Some "Can't parst stamp value, please check it")
          | Some _ =>
              let local := now + sys in
              let bad itv nxt := Ret (nxt, itv, Some "parse") in
              match String.length stamp with
              | 2%nat => match clock_seconds stamp with
                         | Some s => Ret (local - local mod 60 + s - 60, MinuteTimeUnit, None)
                         | None => bad MinuteTimeUnit 0
                         end
              | 5%nat => match clock_seconds stamp with
                         | Some s => Ret (local - local mod 3600 + s - Z.rem (GetJetLag z sys) 3600 - 3600, HourTimeUnit, None)
                         | None => bad HourTimeUnit 0
                         end
              | 8%nat => match clock_seconds stamp with
                         | Some s => Ret (local - local mod 86400 + s - GetJetLag z sys - 86400, DayTimeUnit, None)
                         | None => bad DayTimeUnit 0
                         end
              | _ => Ret (now, 0, Some "Can't parst time, please check it")
              end
          end
      end
  end.

(** checkTime: next (ns), interval (ns) and the error; [None]: out of fuel. *)
Definition checkTime (fuel : nat) (z : zone) (sys now : Z) (stamp : string) : option (go (Z * Z * option string)) :=
  match stamp_time z sys now stamp with
  | Ret (nxt, itv, e) =>
      match e with
      | None => if 0 <? itv then
                  match advance fuel nxt now (Z.quot itv SecondTimeUnit) with
                  | Some n => Some (Ret (i64 (n * SecondTimeUnit), itv, None))
                  | None => None
                  end
                else Some (Ret (i64 (nxt * SecondTimeUnit), itv, None))
      | Some _ => Some (Ret (i64 (nxt * SecondTimeUnit), itv, e))
      end
  | Err e => Some (Err e)
  | Panic w => Some (Panic w)
  end.

(** [clock] is time.Now in seconds when the stamp is read, [t] when the timer is
    put into the wheel. *)
Definition NewTimer (level : Z) (fuel : nat) (z : zone) (sys clock t : Z) (s : wheel) (stamp : string) (tms : Z)
    (runNow : bool) (i : nat) : option (go (wheel * bool)) :=
  match checkTime fuel z sys clock stamp with
  | Some (Ret (nxt, itv, None)) =>
      Some (match arm_timer nxt itv tms runNow i with
            | Ret (Some d, called) => Ret (put_new level s t d, called)
            | Ret (None, called) => Ret (s, called)
            | Err e => Err e
            | Panic w => Panic w
            end)
  | Some (Ret (_, _, Some e)) => Some (Err (ErrMsg e))
  | Some (Err e) => Some (Err e)
  | Some (Panic w) => Some (Panic w)
  | None => None
  end.

(** Whatever it is called with, a new timer is a step of the wheel or none. *)
Lemma arm_timer_times nxt itv tms r i d called :
  arm_timer nxt itv tms r i = Ret (Some d, called) -> id d = i /\ (times d = -1 \/ 0 < times d).
Proof. unfold arm_timer. repeat case_match; intros E; simplify_eq; simpl; split; try done; lia. Qed.

Lemma NewTimer_step level fuel z sys clock t s stamp tms r i s' called :
  last s <= t < last s + T level -> created s !! i = None ->
  NewTimer level fuel z sys clock t s stamp tms r i = Some (Ret (s', called)) -> s' = s \/ step level s s'.
Proof.
  intros Ht Hi. unfold NewTimer. destruct (checkTime _ _ _ _ _) as [[[[nxt itv] [e|]]|e|w]|]; try done.
  destruct (arm_timer _ _ _ _ _) as [[[d|] c]|e|w] eqn:E; intros [= <- <-]; [|by left].
  right. destruct (arm_timer_times _ _ _ _ _ _ _ E) as [<- Hd]. by constructor.
Qed.

(** The loop ends at the first time after [now] on the grid of [step]. *)
Lemma advance_spec fuel : forall nx now step,
  0 < step -> - 2 ^ 62 <= nx -> now + step < 2 ^ 63 -> nx <= now + step -> now - nx < Z.of_nat fuel * step ->
  (0 < fuel)%nat -> exists n, advance (S fuel) nx now step = Some n /\ now < n <= now + step /\ (n - nx) mod step = 0.
Proof.
  induction fuel as [|fuel IH]; intros nx now step Hs Hlo Hhi Hle Hf Hp; [lia|].
  cbn [advance]. destruct (Z.leb_spec nx now) as [Hn|Hn].
  - rewrite wraps_small by (unfold in_s; lia). destruct fuel as [|fuel].
    + cbn [advance]. destruct (Z.leb_spec (nx + step) now); [lia|]. exists (nx + step). splits; [done|lia|lia|].
      replace (nx + step - nx) with step by lia. by apply Z.mod_same; lia.
    + destruct (IH (nx + step) now step) as (n & Ha & Hr & Hm); [lia..|]. exists n. splits; [exact Ha|lia|lia|].
      replace (n - nx) with (n - (nx + step) + 1 * step) by lia. by rewrite Z.mod_add by lia.
  - exists nx. splits; [done|lia|lia|]. by rewrite Z.sub_diag, Z.mod_0_l by lia.
Qed.

Lemma advance_stuck fuel : forall nx now, nx <= now -> in_s 64 nx -> advance fuel nx now 0 = None.
Proof.
  induction fuel as [|fuel IH]; intros nx now Hle Hr; [done|]. cbn [advance].
  destruct (Z.leb_spec nx now); [|lia]. rewrite Z.add_0_r, wraps_small by (done || lia). by apply IH.
Qed.

Lemma init_last_snoc s c : init_last (s +:+ String c "") = Some (s, c).
Proof.
  unfold init_last. rewrite to_bytes_app. simpl. rewrite rev_app_distr. simpl. rewrite rev_involutive.
  by rewrite String.string_of_list_ascii_of_string.
Qed.

(** A stamp whose product with the unit wraps around to 65536 ns. *)
Definition overflow_stamp : string := "202163959358895d".

Lemma unit_of_multiple c u : unit_of c = Some u -> exists k, u = k * SecondTimeUnit /\ 0 < k.
Proof.
  unfold unit_of. repeat case_match; intros [= <-];
    [exists 1|exists 60|exists 3600|exists 86400]; unfold DayTimeUnit, HourTimeUnit, MinuteTimeUnit; lia.
Qed.

Lemma second_val : SecondTimeUnit = 1000000000.
Proof. done. Qed.

Lemma checkTime_loop fuel z sys now stamp nx itv :
  stamp_time z sys now stamp = Ret (nx, itv, None) -> 0 < itv ->
  checkTime fuel z sys now stamp =
    match advance fuel nx now (Z.quot itv SecondTimeUnit) with
    | Some n => Some (Ret (i64 (n * SecondTimeUnit), itv, None))
    | None => None
    end.
Proof. intros E H. unfold checkTime. rewrite E. by destruct (Z.ltb_spec 0 itv); [|lia]. Qed.

Lemma digit_val_range c x : digit_val c = Some x -> 0 <= x <= 9.
Proof. destruct c as [[] [] [] [] [] [] [] []]; vm_compute; intros [= <-]; done. Qed.

Lemma digit_not_unit c x : digit_val c = Some x -> unit_of c = None.
Proof. destruct c as [[] [] [] [] [] [] [] []]; vm_compute; intros [= <-]; done. Qed.

Lemma clock2 ss s : String.length ss = 2%nat -> clock_seconds ss = Some s ->
  exists a b y, ss = String a (String b "") /\ digit_val b = Some y /\ 0 <= s < 60.
Proof.
  destruct ss as [|a [|b []]]; try done. intros _ Hs. unfold clock_seconds in Hs. exists a, b.
  assert (Hd : forall t, two_digits 60 t = Some s -> t = String a (String b "") ->
    exists y, String a (String b "") = String a (String b "") /\ digit_val b = Some y /\ 0 <= s < 60).
  { intros t Ht ->. unfold two_digits in Ht. destruct (digit_val a) as [x|] eqn:Ea; [|done].
    destruct (digit_val b) as [y|] eqn:Eb; [|done]. destruct (Z.ltb_spec (x * 10 + y) 60); [|done]. injection Ht as <-.
    apply digit_val_range in Ea, Eb. exists y. splits; try done; lia. }
  destruct (decide (all_bytes (fun c => c <> ":"%char) (String a (String b "")))) as [Hno|Hyes].
  - rewrite Split_none in Hs by done. by eapply Hd.
  - exfalso. apply Hyes. clear Hd Hyes. unfold all_bytes. simpl in Hs |- *.
    destruct (decide (a = ":"%char)), (decide (b = ":"%char)); subst; simpl in Hs; try done; repeat constructor; done.
Qed.

(** checkTime.  N units from now: the interval is N units and the first run is
    one interval from now, whenever the product fits in an int64.  A day count
    that overflows to less than a second makes the loop run forever.  A stamp of
    seconds gives, at offset 0, the next minute's second; but east of Greenwich
    the local offset is never taken back, and the first run is late by it. *)
Lemma timer_check_time (z : zone) (sys now : Z) (Hnow : 0 <= now < 2 ^ 32) :
  (forall N c u, unit_of c = Some u -> 1 <= N -> N * u < 2 ^ 62 ->
     checkTime 2 z sys now (Itoa N +:+ String c "") =
       Some (Ret ((now + Z.quot (N * u) SecondTimeUnit) * SecondTimeUnit, N * u, None))) /\
  (forall fuel, checkTime fuel z sys now overflow_stamp = None) /\
  (forall ss s, String.length ss = 2%nat -> clock_seconds ss = Some s ->
     (exists n, checkTime 4 z 0 now ss = Some (Ret (n * SecondTimeUnit, MinuteTimeUnit, None)) /\
        now < n <= now + 60 /\ n mod 60 = s mod 60) /\
     (180 <= sys < 2 ^ 31 -> exists n, checkTime 2 z sys now ss = Some (Ret (n * SecondTimeUnit, MinuteTimeUnit, None)) /\
        now + sys - 119 <= n)).
Proof.
  splits.
  - intros N c u Hu HN Hlt. destruct (unit_of_multiple c u Hu) as (k & -> & Hk).
    assert (Hq : Z.quot (N * (k * SecondTimeUnit)) SecondTimeUnit = N * k).
    { rewrite Z.mul_assoc. apply Z.quot_mul. by rewrite second_val. }
    rewrite Hq. unfold checkTime, stamp_time. rewrite init_last_snoc, Hu.
    assert (HN64 : in_s 64 N) by (unfold in_s; rewrite second_val in Hlt; nia).
    rewrite (Atoi_Itoa N HN64). rewrite wraps_small by (unfold in_s; rewrite ?second_val in *; nia).
    destruct (Z.ltb_spec 0 (N * (k * SecondTimeUnit))); [|rewrite second_val in *; nia]. rewrite Hq.
    destruct (advance_spec 1 now now (N * k)) as (n & Ha & Hr & Hm); try lia; try (rewrite second_val in Hlt; nia).
    rewrite Ha. assert (n = now + N * k) as ->.
    { apply Z.mod_divide in Hm as [q Hq']; [|lia]. assert (q = 1) by nia. lia. }
    rewrite wraps_small by (unfold in_s; rewrite second_val in *; nia). done.
  - intros fuel.
    assert (E : stamp_time z sys now overflow_stamp = Ret (now, 65536, None)).
    { unfold stamp_time. change overflow_stamp with ("202163959358895" +:+ String "d" ""). rewrite init_last_snoc.
      change (unit_of "d") with (Some DayTimeUnit). by vm_compute. }
    rewrite (checkTime_loop _ _ _ _ _ _ _ E) by done. change (Z.quot 65536 SecondTimeUnit) with 0.
    rewrite advance_stuck; [done|lia|unfold in_s; lia].
  - intros ss s Hlen Hs. destruct (clock2 ss s Hlen Hs) as (a & b & y & -> & Hb & Hs60).
    assert (Est : forall o, stamp_time z o now (String a (String b "")) =
      Ret (now + o - (now + o) mod 60 + s - 60, MinuteTimeUnit, None)).
    { intros o. unfold stamp_time. change (String a (String b "")) with (String a "" +:+ String b "") at 1.
      rewrite init_last_snoc, (digit_not_unit b y Hb), Hb. cbn [String.length]. by rewrite Hs. }
    split.
    + rewrite (checkTime_loop _ _ _ _ _ _ _ (Est 0)) by done. change (Z.quot MinuteTimeUnit SecondTimeUnit) with 60.
      rewrite Z.add_0_r. pose proof (Z.mod_pos_bound now 60 ltac:(lia)).
      destruct (advance_spec 3 (now - now mod 60 + s - 60) now 60) as (n & Ha & Hr & Hm); try lia.
      rewrite Ha. exists n. rewrite wraps_small by (unfold in_s; rewrite ?second_val; lia). splits; [done|lia|lia|].
      apply Z.mod_divide in Hm as [q Hq]; [|lia].
      replace n with (s + (q + now / 60 - 1) * 60) by (pose proof (Z.div_mod now 60); lia). by rewrite Z.mod_add by lia.
    + intros Hsys. rewrite (checkTime_loop _ _ _ _ _ _ _ (Est sys)) by done.
      pose proof (Z.mod_pos_bound (now + sys) 60 ltac:(lia)).
      cbn [advance]. destruct (Z.leb_spec (now + sys - (now + sys) mod 60 + s - 60) now); [lia|].
      exists (now + sys - (now + sys) mod 60 + s - 60). split; [|lia].
      rewrite wraps_small; [done|lia|]. unfold in_s. rewrite second_val. lia.
Qed.

(** ** Examples *)

Module TimerSample.
Definition every : TimerFunc := {| next := 700000000; interval := 500000000; times := 2; id := 1 |}.
Definition start : wheel := new_wheel 0.
Definition armed : wheel := put_new 5 start 0 every.

Lemma armed_reachable : reachable 5 armed.
Proof.
  exists 0. apply rtc_once. apply step_new; [|done|by right]. vm_compute. done.
Qed.
End TimerSample.

Lemma timer_on_time_witness :
  let s' := tick TimerSample.armed (last TimerSample.armed + T 5) in
  Forall (fun d => last s' < next d) (first s' ++ second s' ++ third s').
Proof.
  destruct (timer_on_time 5 ltac:(lia) TimerSample.armed) as [H _].
  - exact TimerSample.armed_reachable.
  - reflexivity.
  - reflexivity.
  - apply Forall_forall. exact H.
Defined.

Lemma timer_runs_as_asked_witness : NoDup (id <$> live TimerSample.armed).
Proof.
  destruct (timer_runs_as_asked 5 TimerSample.armed 1 TimerSample.every) as [H _].
  - exact TimerSample.armed_reachable.
  - reflexivity.
  - exact H.
Defined.

Lemma timer_check_time_witness :
  checkTime 2 {| timeZoneStatus := false; timeZoneJetLag := 0 |} 28800 1700000000 "90s" =
    Some (Ret (1700000090 * SecondTimeUnit, 90 * SecondTimeUnit, None)).
Proof.
  destruct (timer_check_time {| timeZoneStatus := false; timeZoneJetLag := 0 |} 28800 1700000000) as [H _].
  - lia.
  - apply (H 90 "s"%char SecondTimeUnit); [reflexivity|lia|vm_compute; reflexivity].
Defined.
