(* ===== verification/IdGen.v ===== *)
(** * The id generator: util/id_gen.go

    An id packs the millisecond, the generator, the module and a counter into
    a uint64.  A call reads the clock and then takes the mutex: goroutines are
    interleaved between the two. *)

From Stdlib Require Import ZArith Lia String.
From stdpp Require Import base numbers list strings sets relations.
From S2P Require Import Prelude.

Record IDGen := { Time : Z; GenID : Z; Index : Z }.

Definition NewIDGen (id : Z) : IDGen := {| Time := 0; GenID := id; Index := 0 |}.

(** The id of the counter [index] at millisecond [t]. *)
Definition make_id (t gen moduleID index : Z) : Z :=
  Z.lor (Z.lor (Z.lor (u64 (Z.shiftl (Z.land t 0x1FFFFFFFFFF) 20)) (u64 (Z.shiftl (Z.land gen 0xFF) 16)))
    (u64 (Z.shiftl (Z.land moduleID 0xFF) 12))) (Z.land index 0xFFF).

(** What NewID does with the mutex: [now] is the millisecond it read before.  The
    state changes also when the call panics. *)
Definition NewID (gen : IDGen) (now moduleID : Z) : go Z * IDGen :=
  let gen := if now =? Time gen then gen else {| Time := now; GenID := GenID gen; Index := 0 |} in
  let gen := {| Time := Time gen; GenID := GenID gen; Index := u64 (Index gen + 1) |} in
  if Z.land (Index gen) 0xFFF =? 0 then (Panic "id generate error", gen)
  else (Ret (make_id (Time gen) (GenID gen) moduleID (Index gen)), gen).

Definition GetTimeFromId (id : Z) : Z := Z.land (Z.shiftr id 20) 0x1FFFFFFFFFF / 1000.

(** ** Goroutines that share a generator *)

(** A finished call: the millisecond it read, its module, its result ([None]: panic). *)
Record issued := { read_ms : Z; module_id : Z; got : option Z }.

Record world := {
  gen_state : IDGen;
  clock : Z;                    (* nanoseconds *)
  waiting : list (Z * Z);       (* calls between line 28 and Lock: millisecond and module *)
  log : list issued             (* the calls that returned, in the order of the mutex *)
}.

Definition start (gen : Z) : world := {| gen_state := NewIDGen gen; clock := 0; waiting := []; log := [] |}.

Definition advance (w : world) (nano : Z) : world :=
  {| gen_state := gen_state w; clock := nano; waiting := waiting w; log := log w |}.
Definition enter (w : world) (moduleID : Z) : world :=
  {| gen_state := gen_state w; clock := clock w; waiting := waiting w ++ [(clock w / 1000000, moduleID)]; log := log w |}.
Definition locked (w : world) (now moduleID : Z) (rest : list (Z * Z)) : world :=
  let '(r, gen) := NewID (gen_state w) now moduleID in
  {| gen_state := gen; clock := clock w; waiting := rest;
     log := log w ++ [{| read_ms := now; module_id := moduleID; got := match r with Ret id => Some id | _ => None end |}] |}.

(** [overlap]: may a call read the clock while another has not returned? *)
Inductive step (overlap : bool) : world -> world -> Prop :=
  | step_clock w nano : clock w <= nano -> step overlap w (advance w nano)
  | step_enter w m : 0 <= m < 16 -> overlap = true \/ waiting w = [] -> step overlap w (enter w m)
  | step_locked w l1 now m l2 : waiting w = l1 ++ (now, m) :: l2 -> step overlap w (locked w now m (l1 ++ l2)).

(** The mutex was taken in the order of the clock readings. *)
Definition in_order (l : list issued) : Prop :=
  forall p q e e', (p < q)%nat -> l !! p = Some e -> l !! q = Some e' -> read_ms e <= read_ms e'.

Definition of_ms (t : Z) (l : list issued) : list issued := filter (fun e => read_ms e = t) l.

(** ** The fields *)

Lemma land_low x w : 0 <= w -> 0 <= x < 2 ^ w -> Z.land x (Z.ones w) = x.
Proof. intros Hw Hx. rewrite Z.land_ones by done. by apply Z.mod_small. Qed.

Lemma make_id_sum t gen m i :
  0 <= t < 2 ^ 41 -> 0 <= gen < 16 -> 0 <= m < 16 -> 0 <= i < 4096 ->
  make_id t gen m i = ((t * 16 + gen) * 16 + m) * 4096 + i.
Proof.
  intros Ht Hg Hm Hi. unfold make_id.
  change 0x1FFFFFFFFFF with (Z.ones 41). change 0xFF with (Z.ones 8). change 0xFFF with (Z.ones 12).
  rewrite !land_low by lia. rewrite !wrapu_small by (unfold in_u; rewrite Z.shiftl_mul_pow2 by lia; lia).
  replace (Z.shiftl t 20) with (Z.shiftl (Z.shiftl t 4) 16) by (by rewrite Z.shiftl_shiftl by lia).
  rewrite <- Z.shiftl_lor. rewrite (lor_shiftl_add t gen 4) by lia.
  replace (Z.shiftl (t * 2 ^ 4 + gen) 16) with (Z.shiftl (Z.shiftl (t * 2 ^ 4 + gen) 4) 12) by (by rewrite Z.shiftl_shiftl by lia).
  rewrite <- Z.shiftl_lor. rewrite (lor_shiftl_add _ m 4) by lia.
  rewrite (lor_shiftl_add _ i 12) by lia. lia.
Qed.

Lemma make_id_inj t m i t' m' i' gen :
  0 <= t < 2 ^ 41 -> 0 <= t' < 2 ^ 41 -> 0 <= gen < 16 -> 0 <= m < 16 -> 0 <= m' < 16 -> 0 <= i < 4096 -> 0 <= i' < 4096 ->
  make_id t gen m i = make_id t' gen m' i' -> t = t' /\ m = m' /\ i = i'.
Proof. intros Ht Ht' Hg Hm Hm' Hi Hi'. rewrite !make_id_sum by done. lia. Qed.

Lemma make_id_time t gen m i :
  0 <= t < 2 ^ 41 -> 0 <= gen < 16 -> 0 <= m < 16 -> 0 <= i < 4096 -> GetTimeFromId (make_id t gen m i) = t / 1000.
Proof.
  intros Ht Hg Hm Hi. unfold GetTimeFromId. rewrite make_id_sum by done.
  rewrite Z.shiftr_div_pow2 by lia. change 0x1FFFFFFFFFF with (Z.ones 41).
  replace ((((t * 16 + gen) * 16 + m) * 4096 + i) / 2 ^ 20) with t; [by rewrite land_low by lia|].
  apply (Z.div_unique_pos _ _ _ ((gen * 16 + m) * 4096 + i)); lia.
Qed.

(** ** Runs *)

(** What is known of every run: the calls read a time that has been, with small modules. *)
Record world_ok (gen : Z) (w : world) : Prop := {
  ok_gen : GenID (gen_state w) = gen;
  ok_clock : 0 <= clock w;
  ok_waiting : forall now m, (now, m) ∈ waiting w -> 0 <= now <= clock w / 1000000 /\ 0 <= m < 16;
  ok_log : forall e, e ∈ log w -> 0 <= read_ms e <= clock w / 1000000 /\ 0 <= module_id e < 16
}.

Lemma NewID_gen gen now m : GenID (NewID gen now m).2 = GenID gen.
Proof. unfold NewID. repeat case_match; done. Qed.

Lemma step_world_ok gen overlap w w' : world_ok gen w -> step overlap w w' -> world_ok gen w'.
Proof.
  intros Hok Hs. destruct Hs as [w0 nano Hn|w0 m Hm _|w0 l1 now m l2 E]; destruct Hok as [Hg Hc Hw Hl].
  - assert (clock w0 / 1000000 <= nano / 1000000) by (apply Z.div_le_mono; lia).
    split; cbn; [done|lia|..].
    + intros now m H'. destruct (Hw now m H'). lia.
    + intros e H'. destruct (Hl e H'). lia.
  - split; cbn; try done. intros now m' [?|[= -> ->]%list_elem_of_singleton]%elem_of_app; [by apply Hw|].
    pose proof (Z.div_pos (clock w0) 1000000). lia.
  - assert (Hm : 0 <= now <= clock w0 / 1000000 /\ 0 <= m < 16) by (apply Hw; rewrite E; set_solver).
    pose proof (NewID_gen (gen_state w0) now m) as Hg'.
    unfold locked. destruct (NewID _ _ _) as [r g]. cbn in Hg'. split; cbn; try done; [congruence|..].
    + intros now' m' H'. apply Hw. rewrite E. set_solver.
    + intros e [?| ->%list_elem_of_singleton]%elem_of_app; [by apply Hl|done].
Qed.

Lemma run_world_ok gen overlap w : rtc (step overlap) (start gen) w -> world_ok gen w.
Proof.
  revert w. apply rtc_ind_r; [|intros; by eapply step_world_ok].
  split; cbn; [done|lia|..]; [intros ? ? H'%elem_of_nil|intros ? H'%elem_of_nil]; done.
Qed.

(** Calls that do not overlap take the mutex in the order of their readings. *)
Lemma solo_in_order gen w : rtc (step false) (start gen) w ->
  in_order (log w) /\ (length (waiting w) <= 1)%nat /\
  forall now m e, (now, m) ∈ waiting w -> e ∈ log w -> read_ms e <= now.
Proof.
  revert w. apply (rtc_ind_r (fun w => in_order (log w) /\ (length (waiting w) <= 1)%nat /\
    forall now m e, (now, m) ∈ waiting w -> e ∈ log w -> read_ms e <= now) (start gen)).
  { splits; cbn; [intros p q e e' _ E; done|lia|]. intros now m e H%elem_of_nil. done. }
  intros w w' Hrun Hs (Ho & Hlen & Hle). pose proof (run_world_ok _ _ _ Hrun) as Hok.
  destruct Hs as [w nano Hn|w m Hm [?|E]|w l1 now m l2 E]; [splits; done|done|splits; cbn; [done|by rewrite E; cbn|]|].
  - intros now m' e. rewrite E. intros [= -> ->]%list_elem_of_singleton He. by apply (ok_log _ _ Hok).
  - rewrite E, length_app in Hlen. cbn in Hlen. destruct l1; [|cbn in Hlen; lia]. destruct l2; [|cbn in Hlen; lia].
    unfold locked. destruct (NewID _ _ _) as [r g]. splits; cbn; [|lia|by intros ? ? ? ?%elem_of_nil].
    intros p q e e' Hpq Hp Hq. apply lookup_snoc_Some in Hq as [[Hq Hq']|[Hq Hq']].
    + rewrite lookup_app_l in Hp by lia. by apply (Ho p q).
    + subst. rewrite lookup_app_l in Hp by lia. cbn. apply (Hle now m); [rewrite E; set_solver|by eapply list_elem_of_lookup_2].
Qed.

(** ** Ids of calls in order *)

(** The id of the [p]-th call: its millisecond and its number among those of it. *)
Definition expected (gen : Z) (l : list issued) (p : nat) (e : issued) : Prop :=
  got e = Some (make_id (read_ms e) gen (module_id e) (1 + Z.of_nat (length (of_ms (read_ms e) (take p l))))).

Lemma of_ms_snoc t l e : of_ms t (l ++ [e]) = of_ms t l ++ (if decide (read_ms e = t) then [e] else []).
Proof. unfold of_ms. rewrite filter_app. done. Qed.

Lemma in_order_snoc l e : in_order (l ++ [e]) -> in_order l /\ forall e', e' ∈ l -> read_ms e' <= read_ms e.
Proof.
  intros H. split.
  - intros p q x y Hpq Hp Hq. apply (H p q); [done|by apply lookup_app_l_Some..].
  - intros x [p Hp]%list_elem_of_lookup_1. apply (H p (length l)); [by apply lookup_lt_Some in Hp|by apply lookup_app_l_Some|].
    by rewrite lookup_app_r, Nat.sub_diag.
Qed.

(** The generator counts the calls of its millisecond. *)
Record counting (g : IDGen) (l : list issued) : Prop := {
  cnt_index : Index g = Z.of_nat (length (of_ms (Time g) l));
  cnt_last : forall e, e ∈ l -> read_ms e <= Time g;
  cnt_time : Time g = 0 \/ exists e, e ∈ l /\ read_ms e = Time g
}.

Lemma NewID_counts g l now m :
  counting g l -> 0 <= now -> (forall e, e ∈ l -> read_ms e <= now) -> Z.of_nat (length (of_ms now l)) + 1 < 4096 ->
  (NewID g now m).1 = Ret (make_id now (GenID g) m (1 + Z.of_nat (length (of_ms now l)))) /\
  Time (NewID g now m).2 = now /\ Index (NewID g now m).2 = Z.of_nat (length (of_ms now l)) + 1.
Proof.
  intros [Hi Hl Ht] Hnow Hle Hn. unfold NewID.
  set (g1 := if now =? Time g then g else _).
  assert (E : Time g1 = now /\ GenID g1 = GenID g /\ Index g1 = Z.of_nat (length (of_ms now l))).
  { unfold g1. destruct (Z.eqb_spec now (Time g)) as [->|Hne]; [done|]. cbn. splits; [done..|].
    assert (Hlt : Time g < now) by (destruct Ht as [Ht|(e & He & Ht)]; [|pose proof (Hle e He)]; lia).
    destruct (of_ms now l) as [|e l'] eqn:E; [done|]. assert (He : e ∈ of_ms now l) by (rewrite E; left).
    apply list_elem_of_filter in He as [En He]. pose proof (Hl e He). lia. }
  destruct E as (E1 & E2 & E3). rewrite E3, wrapu_small by (unfold in_u; lia).
  cbn [Index Time GenID]. change 0xFFF with (Z.ones 12). rewrite land_low by lia.
  destruct (Z.eqb_spec (Z.of_nat (length (of_ms now l)) + 1) 0); [lia|]. cbn. rewrite E1, E2. splits; [|done..].
  f_equal. f_equal. lia.
Qed.

Lemma run_expected gen overlap w :
  rtc (step overlap) (start gen) w -> in_order (log w) ->
  (forall t, Z.of_nat (length (of_ms t (log w))) < 4096) ->
  counting (gen_state w) (log w) /\ forall p e, log w !! p = Some e -> expected gen (log w) p e.
Proof.
  revert w. apply (rtc_ind_r (fun w => in_order (log w) -> (forall t, Z.of_nat (length (of_ms t (log w))) < 4096) ->
    counting (gen_state w) (log w) /\ forall p e, log w !! p = Some e -> expected gen (log w) p e) (start gen)).
  { intros _ _. split; [|done]. split; cbn; [done|by intros ? ?%elem_of_nil|by left]. }
  intros w w' Hrun Hs IH. pose proof (run_world_ok _ _ _ Hrun) as Hok.
  destruct Hs as [w nano Hn|w m Hm _|w l1 now m l2 E]; [exact IH|exact IH|].
  assert (Hm : 0 <= now <= clock w / 1000000 /\ 0 <= m < 16) by (apply (ok_waiting _ _ Hok); rewrite E; set_solver).
  unfold locked. destruct (NewID (gen_state w) now m) as [r g] eqn:En. cbn [gen_state log].
  intros [Ho Hle]%in_order_snoc Hn. cbn [read_ms] in Hle.
  assert (Hlt : forall t, (length (of_ms t (log w)) <= length (of_ms t (log w ++ [{| read_ms := now; module_id := m;
      got := match r with Ret id => Some id | _ => None end |}])))%nat).
  { intros t. rewrite of_ms_snoc, length_app. lia. }
  destruct IH as [Hcnt Hexp]; [done|intros t; eapply Z.le_lt_trans; [apply inj_le, Hlt|apply Hn]|].
  pose proof (Hn now) as Hnow. rewrite of_ms_snoc, length_app, decide_True in Hnow by done. cbn in Hnow.
  destruct (NewID_counts (gen_state w) (log w) now m) as (E1 & E2 & E3); [done|lia|done|lia|].
  rewrite En in E1, E2, E3. cbn in E1, E2, E3. rewrite (ok_gen _ _ Hok) in E1. subst r. split.
  - split.
    + rewrite E2, E3, of_ms_snoc, length_app, decide_True by done. cbn. lia.
    + rewrite E2. intros e [He| ->%list_elem_of_singleton]%elem_of_app; [by apply Hle|done].
    + right. rewrite E2. eexists. split; [apply elem_of_app; right; by apply list_elem_of_singleton|done].
  - intros p e [[Hp Hp']|[-> Hp]]%lookup_snoc_Some; unfold expected.
    + rewrite take_app_le by lia. by apply Hexp.
    + subst e. cbn. rewrite take_app_length. done.
Qed.

Lemma of_ms_lt l p q e : (p < q)%nat -> l !! p = Some e ->
  (length (of_ms (read_ms e) (take p l)) < length (of_ms (read_ms e) (take q l)))%nat.
Proof.
  intros Hpq Hp. assert (Hle : take q l = take (S p) l ++ take (q - S p) (drop (S p) l)).
  { rewrite take_take_drop. f_equal. lia. }
  unfold of_ms in *. rewrite Hle, (take_S_r _ _ _ Hp), !filter_app, !length_app. cbn. rewrite decide_True by done. cbn. lia.
Qed.

Lemma expected_inj gen l p q e e' :
  0 <= gen < 16 -> (forall t, Z.of_nat (length (of_ms t l)) < 4096) ->
  (forall x, x ∈ l -> 0 <= read_ms x < 2 ^ 41 /\ 0 <= module_id x < 16) ->
  l !! p = Some e -> l !! q = Some e' -> expected gen l p e -> expected gen l q e' -> got e = got e' -> p = q.
Proof.
  intros Hg Hn Hl Hp Hq E E' Eq. unfold expected in *. rewrite E, E' in Eq. injection Eq as Eq.
  destruct (Hl e), (Hl e'); [by eapply list_elem_of_lookup_2..|].
  pose proof (of_ms_lt l p (length l) e) as Hb. pose proof (of_ms_lt l q (length l) e') as Hb'.
  rewrite (take_ge l (length l)) in Hb, Hb' by done.
  pose proof (Hn (read_ms e)). pose proof (Hn (read_ms e')).
  specialize (Hb (lookup_lt_Some _ _ _ Hp) Hp). specialize (Hb' (lookup_lt_Some _ _ _ Hq) Hq).
  apply make_id_inj in Eq as (Et & _ & Ei); [|lia..].
  pose proof (of_ms_lt l p q e). pose proof (of_ms_lt l q p e').
  destruct (Nat.lt_trichotomy p q) as [?|[?|?]]; [|done|]; rewrite Et in *; intuition lia.
Qed.

Lemma NewID_first gen t m :
  t <> Time gen \/ Index gen = 0 ->
  NewID gen t m = (Ret (make_id t (GenID gen) m 1), {| Time := t; GenID := GenID gen; Index := 1 |}).
Proof.
  intros H. unfold NewID. destruct (Z.eqb_spec t (Time gen)) as [->|]; [|done].
  destruct H as [?|H]; [done|]. by rewrite H.
Qed.

(** Two calls that read one after the other and take the mutex the other way round,
    after a third: the first id again. *)
Lemma race gen m t : 0 <= m < 16 -> 0 < t ->
  exists w, rtc (step true) (start gen) w /\
    got <$> log w = [Some (make_id t gen m 1); Some (make_id (t + 1) gen m 1); Some (make_id t gen m 1)].
Proof.
  intros Hm Ht. set (n1 := t * 1000000). set (n2 := (t + 1) * 1000000).
  assert (D1 : n1 / 1000000 = t) by (unfold n1; by rewrite Z.div_mul by lia).
  assert (D2 : n2 / 1000000 = t + 1) by (unfold n2; by rewrite Z.div_mul by lia).
  set (w1 := enter (enter (advance (start gen) n1) m) m).
  set (w2 := locked w1 t m [(t, m)]).
  assert (E2 : w2 = {| gen_state := {| Time := t; GenID := gen; Index := 1 |}; clock := n1; waiting := [(t, m)];
    log := [{| read_ms := t; module_id := m; got := Some (make_id t gen m 1) |}] |}).
  { unfold w2, locked. cbn [gen_state w1 enter advance start]. rewrite NewID_first by (left; cbn; lia). done. }
  set (w3 := enter (advance w2 n2) m). set (w4 := locked w3 (t + 1) m [(t, m)]).
  assert (E4 : w4 = {| gen_state := {| Time := t + 1; GenID := gen; Index := 1 |}; clock := n2; waiting := [(t, m)];
    log := [{| read_ms := t; module_id := m; got := Some (make_id t gen m 1) |};
            {| read_ms := t + 1; module_id := m; got := Some (make_id (t + 1) gen m 1) |}] |}).
  { unfold w4, locked, w3, enter, advance. rewrite E2. cbn [gen_state clock waiting log]. rewrite NewID_first by (left; cbn; lia). done. }
  exists (locked w4 t m []). split.
  - eapply rtc_l; [apply (step_clock _ _ n1); cbn; lia|]. eapply rtc_l; [apply (step_enter _ _ m); auto|].
    eapply rtc_l; [apply (step_enter _ _ m); auto|].
    apply (rtc_l _ _ w2); [apply (step_locked _ w1 [] t m [(t, m)]); cbn; by rewrite D1|].
    eapply rtc_l; [apply (step_clock _ _ n2); rewrite E2; cbn; lia|]. apply (rtc_l _ _ w3); [apply (step_enter _ _ m); auto|].
    apply (rtc_l _ _ w4); [apply (step_locked _ w3 [(t, m)] (t + 1) m []); unfold w3, enter, advance; rewrite E2; cbn; by rewrite D2|].
    apply rtc_once. apply (step_locked _ w4 [] t m []). by rewrite E4.
  - unfold locked. rewrite E4. cbn [gen_state]. rewrite NewID_first by (left; cbn; lia). done.
Qed.

(** C38. Goroutines share a generator with an id below 16 for modules below 16; each
    call reads the clock, which does not go back, and then takes the mutex.  In every
    run in which the mutex is taken in the order of the readings, with fewer than 4096
    calls in a millisecond, no call panics, all ids are different and each gives back
    the second its call read.  Calls that do not overlap are in that order.  Otherwise
    ids repeat: when a call that read earlier gets the mutex later; after the 4096th call
    of a millisecond, which panics, the next one gives the first id again; and generator
    16 gives the ids of generator 0 a millisecond later, because the fields overlap. *)
Theorem idgen_unique (gen : Z) (w : world) (Hg : 0 <= gen < 16) (Hrun : rtc (step true) (start gen) w)
    (Hclock : clock w / 1000000 < 2 ^ 41) (Hrate : forall t, Z.of_nat (length (of_ms t (log w))) < 4096) :
  (in_order (log w) ->
     NoDup (got <$> log w) /\
     forall e, e ∈ log w -> exists id, got e = Some id /\ GetTimeFromId id = read_ms e / 1000) /\
  (forall w', rtc (step false) (start gen) w' -> in_order (log w')) /\
  forall m t, 0 <= m < 16 -> 0 < t < 2 ^ 40 ->
    (exists w', rtc (step true) (start gen) w' /\ ~ NoDup (got <$> log w')) /\
    (let full := {| Time := t; GenID := gen; Index := 4095 |} in
     (NewID full t m).1 = Panic "id generate error" /\
     (NewID (NewID full t m).2 t m).1 = Ret (make_id t gen m 1)) /\
    make_id (2 * t) 16 m 1 = make_id (2 * t + 1) 0 m 1.
Proof.
  pose proof (run_world_ok _ _ _ Hrun) as Hok.
  assert (Hl : forall e, e ∈ log w -> 0 <= read_ms e < 2 ^ 41 /\ 0 <= module_id e < 16).
  { intros e He. destruct (ok_log _ _ Hok e He). lia. }
  split; [|split; [intros w' Hw; by apply solo_in_order in Hw as (? & _)|]].
  - intros Ho. destruct (run_expected gen true w Hrun Ho Hrate) as [_ Hexp]. split.
    + apply NoDup_alt. intros p q x. rewrite !list_lookup_fmap.
      destruct (log w !! p) as [e|] eqn:Ep, (log w !! q) as [e'|] eqn:Eq; cbn; try done. intros [= E] [= E'].
      apply (expected_inj gen (log w) p q e e'); auto; congruence.
    + intros e He. pose proof He as [p Hp]%list_elem_of_lookup_1. eexists. split; [exact (Hexp p e Hp)|].
      pose proof (of_ms_lt (log w) p (length (log w)) e (lookup_lt_Some _ _ _ Hp) Hp) as Hb.
      rewrite (take_ge (log w) (length (log w))) in Hb by lia.
      pose proof (Hrate (read_ms e)). destruct (Hl e He). apply make_id_time; lia.
  - intros m t Hm Ht. cbn zeta. splits.
    + destruct (race gen m t) as (w' & Hw & E); [lia..|]. exists w'. split; [done|]. rewrite E.
      intros [Hn _]%NoDup_cons. apply Hn. right. left.
    + unfold NewID. cbn [Time]. by rewrite Z.eqb_refl.
    + unfold NewID. cbn [Time]. rewrite Z.eqb_refl. cbn [snd fst Time GenID Index].
      change (Z.land (u64 (4095 + 1)) 0xFFF =? 0) with true. cbn [snd Time GenID Index]. rewrite Z.eqb_refl. cbn [Time GenID Index].
      change (Z.land (u64 (u64 (4095 + 1) + 1)) 0xFFF =? 0) with false. done.
    + unfold make_id. f_equal. f_equal.
      change 0x1FFFFFFFFFF with (Z.ones 41). rewrite !land_low by lia.
      rewrite !wrapu_small by (unfold in_u; rewrite Z.shiftl_mul_pow2 by lia; lia).
      change (u64 (Z.shiftl (Z.land 16 0xFF) 16)) with (Z.shiftl 1 20).
      change (u64 (Z.shiftl (Z.land 0 0xFF) 16)) with 0. rewrite Z.lor_0_r, <- Z.shiftl_lor. f_equal.
      replace (2 * t) with (Z.shiftl t 1) at 1 by (rewrite Z.shiftl_mul_pow2 by lia; lia).
      rewrite (lor_shiftl_add t 1 1) by lia.
      rewrite wrapu_small by (unfold in_u; rewrite Z.shiftl_mul_pow2 by lia; lia). f_equal. lia.
Qed.

(** Two calls in the same millisecond of 2023. *)
Definition two_calls : world :=
  let w := enter (advance (start 3) 1700000000000000000) 1 in
  let w := enter (locked w 1700000000000 1 []) 2 in
  locked w 1700000000000 2 [].

Lemma idgen_unique_witness : NoDup (got <$> log two_calls).
Proof.
  apply (idgen_unique 3 two_calls).
  - lia.
  - unfold two_calls. cbn zeta.
    eapply rtc_l; [apply (step_clock _ _ 1700000000000000000); vm_compute; discriminate|].
    eapply rtc_l; [apply (step_enter _ _ 1); auto; lia|].
    eapply rtc_l; [by apply (step_locked _ _ [] 1700000000000 1 [])|].
    eapply rtc_l; [apply (step_enter _ _ 2); auto; lia|].
    apply rtc_once. by apply (step_locked _ _ [] 1700000000000 2 []).
  - vm_compute. reflexivity.
  - intros t. apply (Z.le_lt_trans _ 2); [|done]. unfold of_ms. pose proof (length_filter (fun e => read_ms e = t) (log two_calls)) as H.
    change (length (log two_calls)) with 2%nat in H. lia.
  - intros p q e e' Hpq Hp Hq. destruct q as [|[|q]]; [lia| |by destruct q]. destruct p as [|p]; [|lia].
    vm_compute in Hp, Hq. injection Hp as <-. injection Hq as <-. vm_compute. discriminate.
Defined.
