(* ===== verification/Rand.v ===== *)
(** * Random numbers: util/rand.go

    math/rand is a source of draws: the [k]th draw of 64 and of 31 bits are
    arguments, and a function returns the number of draws used.  The rejection
    loops take fuel; [None] is out of fuel. *)

From Stdlib Require Import ZArith Lia Ascii String.
From stdpp Require Import base numbers list strings.
From S2P Require Import Prelude GoStd.

Section rand.
Context (draw64 draw31 : nat -> Z).
Context (Hdraw64 : forall k, in_u 64 (draw64 k)) (Hdraw31 : forall k, in_u 31 (draw31 k)).

(** A computation that draws. *)
Definition R (A : Type) : Type := nat -> option (go (A * nat)).

Definition Uint64 (k : nat) : Z * nat := (draw64 k, S k).
Definition Int31 (k : nat) : Z * nat := (draw31 k, S k).
Definition Int63 (k : nat) : Z * nat := let '(v, k) := Uint64 k in (Z.shiftr v 1, k).

(** for v > max { v = draw() } *)
Fixpoint reject (fuel : nat) (draw : nat -> Z * nat) (max v : Z) (k : nat) : option (Z * nat) :=
  match fuel with
  | O => None
  | S fuel => if max <? v then let '(v, k) := draw k in reject fuel draw max v k else Some (v, k)
  end.

(** The bound of the rejection loop of Int31n and Int63n; [w] is 31 or 63. *)
Definition bound (w n : Z) : Z := 2 ^ w - 1 - (2 ^ w) mod n.

Definition uniform (w : Z) (draw : nat -> Z * nat) (what : string) (fuel : nat) (n : Z) : R Z := fun k =>
  if n <=? 0 then Some (Panic what)
  else if Z.land n (n - 1) =? 0 then let '(v, k) := draw k in Some (Ret (Z.land v (n - 1), k))
  else
    let '(v, k) := draw k in
    match reject fuel draw (bound w n) v k with
    | Some (v, k) => Some (Ret (Z.rem v n, k))
    | None => None
    end.

Definition Int31n := uniform 31 Int31 "invalid argument to Int31n".
Definition Int63n := uniform 63 Int63 "invalid argument to Int63n".

Definition Intn (fuel : nat) (n : Z) : R Z := fun k =>
  if n =? 0 then Some (Panic "invalid argument to int")
  else if n <=? 2 ^ 31 - 1 then Int31n fuel (i32 n) k
  else Int63n fuel n k.

Definition RandomUint32 (fuel : nat) (mn mx : Z) : R Z := fun k =>
  match Intn fuel (u32 (mx - mn + 1)) k with
  | Some (Ret (v, k)) => Some (Ret (u32 (u32 v + mn), k))
  | o => o
  end.

Definition RandomInt32 (fuel : nat) (mn mx : Z) : R Z := fun k =>
  match Intn fuel (i32 (mx - mn + 1)) k with
  | Some (Ret (v, k)) => Some (Ret (i32 (i32 v + mn), k))
  | o => o
  end.

Definition randomStr : string := "0123456789abcdefghijklmnopqrstuvwxyzABCDEFGHIJKLMNOPQRSTUVWXYZ".

Fixpoint random_chars (fuel n : nat) (k : nat) : option (go (list ascii * nat)) :=
  match n with
  | O => Some (Ret ([], k))
  | S n =>
      match Intn fuel (Z.of_nat (String.length randomStr)) k with
      | Some (Ret (i, k)) =>
          match to_bytes randomStr !! Z.to_nat i with
          | Some c => match random_chars fuel n k with
                      | Some (Ret (l, k)) => Some (Ret (c :: l, k))
                      | o => o
                      end
          | None => Some (Panic "index out of range")
          end
      | Some (Err e) => Some (Err e)
      | Some (Panic w) => Some (Panic w)
      | None => None
      end
  end.
Definition GetRandomString (fuel n : nat) (k : nat) : option (go (string * nat)) :=
  match random_chars fuel n k with
  | Some (Ret (l, k)) => Some (Ret (of_bytes l, k))
  | Some (Err e) => Some (Err e)
  | Some (Panic w) => Some (Panic w)
  | None => None
  end.

(** x[r], x[j] = x[j], x[r] *)
Definition swap {A} (x : list A) (r j : nat) : list A :=
  match x !! r, x !! j with
  | Some a, Some b => <[j := a]> (<[r := b]> x)
  | _, _ => x
  end.

(** The inner loop of ShuffleUint32Array and ShuffleInt32Array, from [j] down. *)
Fixpoint shuffle_round {A} (fuel : nat) (x : list A) (j : nat) (k : nat) : option (go (list A * nat)) :=
  match Intn fuel (Z.of_nat (S j)) k with
  | Some (Ret (r, k)) =>
      let x := swap x (Z.to_nat r) j in
      match j with O => Some (Ret (x, k)) | S j => shuffle_round fuel x j k end
  | Some (Err e) => Some (Err e)
  | Some (Panic w) => Some (Panic w)
  | None => None
  end.

Fixpoint Shuffle {A} (fuel : nat) (x : list A) (n : nat) (k : nat) : option (go (list A * nat)) :=
  match n with
  | O => Some (Ret (x, k))
  | S n =>
      match x with
      | [] => Shuffle fuel x n k
      | _ => match shuffle_round fuel x (length x - 1) k with
             | Some (Ret (x, k)) => Shuffle fuel x n k
             | o => o
             end
      end
  end.

(** ** RandLessWight: weights where a small value is preferred *)

Definition max_weight (ws : list Z) : Z := fold_left (fun m w => if m <? w then w else m) ws 0.
Definition raise (mx : Z) : Z := if mx <? 10 then u64 (mx + 10) else u64 (mx + mx / 5).
Definition reweigh (ws : list Z) : list Z := (fun w => u64 (raise (max_weight ws) - w)) <$> ws.
Definition total_weight (ws : list Z) : Z := fold_left (fun t w => u64 (t + w)) ws 0.

Fixpoint pick (ws : list Z) (i : nat) (r : Z) : nat :=
  match ws with
  | [] => 0
  | w :: ws => if r <? w then i else pick ws (S i) (u64 (r - w))
  end.

(** The index, and the argument, which is overwritten. *)
Definition RandLessWight (ws : list Z) (k : nat) : go (nat * list Z * nat) :=
  match ws with
  | [] => Panic "invalid argument to RandLessWight"
  | [w] => Ret (0%nat, ws, k)
  | _ =>
      let ws' := reweigh ws in
      let total := total_weight ws' in
      let '(v, k) := Uint64 k in
      if total =? 0 then Panic "integer divide by zero"
      else Ret (pick ws' 0 (v mod total), ws', k)
  end.

Definition RandLessWight32 (ws : list Z) (k : nat) : go (nat * list Z * nat) := RandLessWight ws k.

(** ** Bounds and uniformity *)

Lemma Int63_range k : in_u 63 (Int63 k).1.
Proof using Hdraw64.
  unfold Int63; simpl. rewrite Z.shiftr_div_pow2 by lia. specialize (Hdraw64 k). unfold in_u in *.
  split; [apply Z.div_pos; lia|]. apply Z.div_lt_upper_bound; lia.
Qed.

(** The accepted draws are a whole number of blocks of [n]. *)
Lemma bound_blocks w n : 0 < w -> 0 < n < 2 ^ w -> exists q, 0 < q /\ bound w n + 1 = q * n /\ 2 ^ w < 2 * (bound w n + 1).
Proof.
  intros Hw Hn. exists (2 ^ w / n). unfold bound.
  pose proof (Z.div_mod (2 ^ w) n ltac:(lia)). pose proof (Z.mod_pos_bound (2 ^ w) n ltac:(lia)).
  assert (1 <= 2 ^ w / n) by (apply Z.div_le_lower_bound; lia). splits; nia.
Qed.

Lemma reject_spec fuel : forall draw mx v k v' k',
  reject fuel draw mx v k = Some (v', k') -> v' <= mx /\ (v' = v \/ exists j, v' = (draw j).1).
Proof.
  induction fuel as [|fuel IH]; intros draw mx v k v' k'; cbn [reject]; [done|].
  destruct (Z.ltb_spec mx v).
  - destruct (draw k) as [v1 k1] eqn:E. intros Hr. apply IH in Hr as [Hle [->|Hj]]; split; try done; right; [|done].
    exists k. by rewrite E.
  - intros [= <- <-]. split; [done|by left].
Qed.

Lemma land_pow2 n : 0 < n -> Z.land n (n - 1) = 0 -> n = 2 ^ Z.log2 n.
Proof.
  intros Hn E. destruct (Z.eq_dec n (2 ^ Z.log2 n)) as [|Hne]; [done|exfalso].
  destruct (Z.log2_spec n Hn) as [Hl Hh]. set (k := Z.log2 n) in *.
  assert (Hk : 0 <= k) by apply Z.log2_nonneg.
  assert (Hb : Z.testbit (Z.land n (n - 1)) k = true).
  { rewrite Z.land_spec. assert (Hlog : Z.log2 (n - 1) = k) by (apply Z.log2_unique; lia).
    unfold k at 1. rewrite Z.bit_log2 by lia. rewrite <- Hlog at 1. by rewrite Z.bit_log2 by lia. }
  by rewrite E, Z.bits_0 in Hb.
Qed.

(** The draws that are used. *)
Definition accept (w n v : Z) : bool := (Z.land n (n - 1) =? 0) || (v <=? bound w n).
Definition limit (w n : Z) : Z := if Z.land n (n - 1) =? 0 then 2 ^ w else bound w n + 1.

Lemma accept_limit w n v : in_u w v -> accept w n v = true <-> v < limit w n.
Proof. intros [_ Hv]. unfold accept, limit. destruct (Z.land n (n - 1) =? 0); simpl; [tauto|lia]. Qed.

Lemma limit_blocks w n : 0 < w -> 0 < n < 2 ^ w -> exists q, 0 < q /\ limit w n = q * n /\ 2 ^ w < 2 * limit w n /\ limit w n <= 2 ^ w.
Proof.
  intros Hw Hn. unfold limit. destruct (Z.eqb_spec (Z.land n (n - 1)) 0) as [E|E].
  - apply land_pow2 in E; [|lia]. set (k := Z.log2 n) in *. exists (2 ^ (w - k)).
    assert (0 <= k) by apply Z.log2_nonneg.
    assert (k < w) by (apply (Z.pow_lt_mono_r_iff 2); lia). replace (2 ^ (w - k) * n) with (2 ^ (w - k) * 2 ^ k) by lia. rewrite <- Z.pow_add_r by lia.
    replace (w - k + k) with w by lia. assert (0 < 2 ^ (w - k)) by (apply Z.pow_pos_nonneg; lia). splits; try done; lia.
  - destruct (bound_blocks w n Hw Hn) as (q & Hq & Hb & Hh). exists q. splits; try done.
    unfold bound. pose proof (Z.mod_pos_bound (2 ^ w) n ltac:(lia)). lia.
Qed.

Lemma uniform_ret w draw what fuel n k v k' :
  0 < n -> (forall j, 0 <= (draw j).1) -> uniform w draw what fuel n k = Some (Ret (v, k')) ->
  exists j, v = (draw j).1 mod n /\ accept w n (draw j).1 = true.
Proof.
  intros Hn Hd. unfold uniform, accept. destruct (Z.leb_spec n 0); [lia|].
  destruct (Z.eqb_spec (Z.land n (n - 1)) 0) as [E|E].
  - destruct (draw k) as [d k1] eqn:Ed. intros [= <- <-]. exists k. rewrite Ed. split; [|done]. cbn [fst].
    apply land_pow2 in E; [|done]. rewrite E. replace (2 ^ Z.log2 n - 1) with (Z.ones (Z.log2 n)) by (rewrite Z.ones_equiv; lia).
    by rewrite Z.land_ones by apply Z.log2_nonneg.
  - destruct (draw k) as [d k1] eqn:Ed. destruct (reject _ _ _ _ _) as [[v1 k2]|] eqn:Er; [|done]. intros [= <- <-].
    apply reject_spec in Er as [Hle Hj].
    assert (Hx : exists j, v1 = (draw j).1) by (destruct Hj as [->|?]; [exists k; by rewrite Ed|done]).
    destruct Hx as [j ->]. exists j. split; [apply Z.rem_mod_nonneg; [apply Hd|lia]|]. simpl. lia.
Qed.

Lemma reject_some fuel : forall draw mx v k j,
  (forall i, (draw i).2 = S i) -> v <= mx \/ ((k <= j < k + fuel)%nat /\ (draw j).1 <= mx) ->
  reject (S fuel) draw mx v k <> None.
Proof.
  induction fuel as [|fuel IH]; intros draw mx v k j Hs Hj; cbn [reject].
  - destruct (Z.ltb_spec mx v); [|done]. exfalso. lia.
  - destruct (Z.ltb_spec mx v) as [Hlt|]; [|done]. pose proof (Hs k) as Hk. destruct (draw k) as [v1 k1] eqn:Ed. simpl in Hk. subst k1.
    destruct Hj as [?|[Hr Hle]]; [lia|]. apply (IH draw mx v1 (S k) j Hs).
    destruct (decide (j = k)) as [->|]; [left; by rewrite Ed in Hle|right; split; [lia|done]].
Qed.

Lemma uniform_spec (w n : Z) (draw : nat -> Z * nat) (what : string)
    (Hw : (w = 31 /\ draw = Int31) \/ (w = 63 /\ draw = Int63)) (Hn : 0 < n < 2 ^ w) :
  (forall fuel k v k', uniform w draw what fuel n k = Some (Ret (v, k')) ->
     0 <= v < n /\ exists j, v = (draw j).1 mod n /\ accept w n (draw j).1 = true) /\
  (exists q, 0 < q /\ 2 ^ w < 2 * (q * n) /\ forall r v, 0 <= r < n ->
     (in_u w v /\ accept w n v = true /\ v mod n = r) <-> exists j, 0 <= j < q /\ v = j * n + r) /\
  (forall fuel k j, (k <= j <= k + fuel)%nat -> accept w n (draw j).1 = true ->
     exists v k', uniform w draw what (S fuel) n k = Some (Ret (v, k'))).
Proof using Hdraw64 Hdraw31.
  assert (Hw0 : 0 < w) by lia.
  assert (Hdr : forall j, in_u w (draw j).1) by (destruct Hw as [[-> ->]|[-> ->]]; [apply Hdraw31|apply Int63_range]).
  assert (Hdn : forall j, (draw j).2 = S j) by (destruct Hw as [[-> ->]|[-> ->]]; done).
  splits.
  - intros fuel k v k' Hu. destruct (uniform_ret w draw what fuel n k v k') as (j & -> & Ha); [lia|apply Hdr|done|].
    split; [apply Z.mod_pos_bound; lia|by exists j].
  - destruct (limit_blocks w n Hw0 Hn) as (q & Hq & El & Hh & Hle). exists q. splits; [done|by rewrite <- El|].
    intros r v Hr. split.
    + intros (Hv & Ha & <-). apply accept_limit in Ha; [|done]. exists (v / n). rewrite El in Ha.
      pose proof (Z.div_mod v n ltac:(lia)). split; [|lia].
      split; [apply Z.div_pos; [apply Hv|lia]|apply Z.div_lt_upper_bound; lia].
    + intros (j & Hj & ->). assert (Hv : in_u w (j * n + r)) by (unfold in_u; nia).
      splits; [done|apply accept_limit; [done|nia]|]. rewrite Z.add_comm, Z.mod_add, Z.mod_small by lia. done.
  - intros fuel k j Hj Ha. unfold uniform. destruct (Z.leb_spec n 0); [lia|].
    unfold accept in Ha. destruct (Z.land n (n - 1) =? 0); [destruct (draw k); by eauto|]. simpl in Ha.
    pose proof (Hdn k) as Hk. destruct (draw k) as [d k1] eqn:Ed. simpl in Hk. subst k1.
    destruct (reject (S fuel) draw (bound w n) d (S k)) as [[v k']|] eqn:Er; [by eauto|].
    exfalso. eapply reject_some; [exact Hdn| |exact Er]. instantiate (1 := j).
    destruct (decide (j = k)) as [->|]; [left; rewrite Ed in Ha; simpl in Ha; lia|right; split; lia].
Qed.

(** Int31n and Int63n for a positive [n] within range: a result is a draw
    modulo [n] and lies in [0, n); of the draws that are used, which are more
    than half of all, the same number leads to each result; and the loop ends
    as soon as one of the draws to come can be used. *)
Lemma rand_uniform (w n : Z) (draw : nat -> Z * nat) (what : string)
    (Hw : (w = 31 /\ draw = Int31) \/ (w = 63 /\ draw = Int63)) (Hn : 0 < n < 2 ^ w) :
  (forall fuel k v k', uniform w draw what fuel n k = Some (Ret (v, k')) ->
     0 <= v < n /\ exists j, v = (draw j).1 mod n /\ accept w n (draw j).1 = true) /\
  (exists q, 0 < q /\ 2 ^ w < 2 * (q * n) /\ forall r v, 0 <= r < n ->
     (in_u w v /\ accept w n v = true /\ v mod n = r) <-> exists j, 0 <= j < q /\ v = j * n + r) /\
  (forall fuel k j, (k <= j <= k + fuel)%nat -> accept w n (draw j).1 = true ->
     exists v k', uniform w draw what (S fuel) n k = Some (Ret (v, k'))).
Proof using Hdraw64 Hdraw31. by apply uniform_spec. Qed.

(** ** What is built on them, for a source in which every [F + 1] draws in a row
    hold one with its top bit clear *)

Section fair.
Context (F : nat).
Context (Hfair : forall k, exists j, (k <= j <= k + F)%nat /\ draw31 j < 2 ^ 30).
Context (Hfair64 : forall k, exists j, (k <= j <= k + F)%nat /\ draw64 j < 2 ^ 63).

Lemma low_accepted w n v : 0 < w -> 0 < n < 2 ^ w -> in_u w v -> v < 2 ^ (w - 1) -> accept w n v = true.
Proof using Type.
  intros Hw Hn Hv Hlt. apply accept_limit; [done|]. destruct (limit_blocks w n Hw Hn) as (q & _ & _ & Hh & _).
  replace w with (w - 1 + 1) in Hh at 1 by lia. rewrite Z.pow_add_r in Hh by lia. lia.
Qed.

Lemma Intn_spec n k : 0 < n < 2 ^ 63 -> exists v k', Intn (S F) n k = Some (Ret (v, k')) /\ 0 <= v < n.
Proof using Hdraw64 Hdraw31 Hfair Hfair64.
  intros Hn. unfold Intn. destruct (Z.eqb_spec n 0); [lia|]. destruct (Z.leb_spec n (2 ^ 31 - 1)).
  - rewrite wraps_small by (unfold in_s; lia).
    destruct (uniform_spec 31 n Int31 "invalid argument to Int31n") as (H1 & _ & H3); [by left|lia|].
    destruct (Hfair k) as (j & Hj & Hlow). destruct (H3 F k j Hj) as (v & k' & Hu).
    { apply low_accepted; [lia..|apply Hdraw31|done]. }
    exists v, k'. split; [exact Hu|]. apply (H1 _ _ _ _ Hu).
  - destruct (uniform_spec 63 n Int63 "invalid argument to Int63n") as (H1 & _ & H3); [by right|lia|].
    destruct (Hfair64 k) as (j & Hj & Hlow). destruct (H3 F k j Hj) as (v & k' & Hu).
    { apply low_accepted; [lia..|apply Int63_range|]. unfold Int63. simpl. rewrite Z.shiftr_div_pow2 by lia.
      apply Z.div_lt_upper_bound; lia. }
    exists v, k'. split; [exact Hu|]. apply (H1 _ _ _ _ Hu).
Qed.

Lemma RandomUint32_spec mn mx k : in_u 32 mn -> in_u 32 mx -> mn <= mx -> mx - mn < 2 ^ 32 - 1 ->
  exists v k', RandomUint32 (S F) mn mx k = Some (Ret (v, k')) /\ mn <= v <= mx.
Proof using Hdraw64 Hdraw31 Hfair Hfair64.
  intros Ha Hb Hle Hd. unfold in_u in *. unfold RandomUint32. rewrite wrapu_small by (unfold in_u; lia).
  destruct (Intn_spec (mx - mn + 1) k) as (v & k' & -> & Hv); [lia|].
  rewrite !wrapu_small by (unfold in_u; rewrite ?wrapu_small; unfold in_u; lia). exists (v + mn), k'. split; [done|lia].
Qed.

Lemma RandomInt32_spec mn mx k : in_s 32 mn -> in_s 32 mx -> mn <= mx ->
  (mx - mn < 2 ^ 31 - 1 -> exists v k', RandomInt32 (S F) mn mx k = Some (Ret (v, k')) /\ mn <= v <= mx) /\
  (2 ^ 31 - 1 <= mx - mn -> exists w, RandomInt32 (S F) mn mx k = Some (Panic w)).
Proof using Hdraw64 Hdraw31 Hfair Hfair64.
  intros Ha Hb Hle. unfold in_s in *. unfold RandomInt32. split.
  - intros Hd. rewrite wraps_small by (unfold in_s; lia).
    destruct (Intn_spec (mx - mn + 1) k) as (v & k' & -> & Hv); [lia|].
    rewrite (wraps_small 32 v) by (unfold in_s; lia). rewrite wraps_small by (unfold in_s; lia).
    exists (v + mn), k'. split; [done|lia].
  - intros Hd. set (x := mx - mn + 1).
    assert (Hx : wraps 32 x = x - 2 ^ 32).
    { unfold wraps. assert (x <= 2 ^ 32) by (unfold x; lia). assert (2 ^ 31 <= x) by (unfold x; lia).
      destruct (decide (x = 2 ^ 32)) as [->|]; [done|]. rewrite Z.mod_small by lia.
      destruct (Z.ltb_spec x (2 ^ (32 - 1))); lia. }
    rewrite Hx. unfold Intn. destruct (Z.eqb_spec (x - 2 ^ 32) 0); [by eexists|].
    destruct (Z.leb_spec (x - 2 ^ 32) (2 ^ 31 - 1)); [|unfold x in *; lia].
    rewrite wraps_small by (unfold in_s, x in *; lia). unfold Int31n, uniform.
    destruct (Z.leb_spec (x - 2 ^ 32) 0); [by eexists|unfold x in *; lia].
Qed.

Lemma swap_perm {A} (x : list A) r j : swap x r j ≡ₚ x.
Proof using Type. unfold swap. repeat case_match; [|done..]. by apply Permutation_insert_swap. Qed.

Lemma shuffle_round_spec {A} j : forall (x : list A) k,
  Z.of_nat (S j) < 2 ^ 63 -> exists y k', shuffle_round (S F) x j k = Some (Ret (y, k')) /\ y ≡ₚ x.
Proof using Hdraw64 Hdraw31 Hfair Hfair64.
  induction j as [|j IH]; intros x k Hj; cbn [shuffle_round];
    match goal with |- context [Intn _ ?n k] => destruct (Intn_spec n k) as (v & k' & -> & _); [lia|] end.
  - eexists _, _. split; [done|apply swap_perm].
  - destruct (IH (swap x (Z.to_nat v) (S j)) k') as (y & k2 & -> & Hp); [lia|].
    eexists _, _. split; [done|]. by rewrite Hp, swap_perm.
Qed.

Lemma Shuffle_spec {A} n : forall (x : list A) k, Z.of_nat (length x) < 2 ^ 63 ->
  exists y k', Shuffle (S F) x n k = Some (Ret (y, k')) /\ y ≡ₚ x.
Proof using Hdraw64 Hdraw31 Hfair Hfair64.
  induction n as [|n IH]; intros x k Hl; cbn [Shuffle]; [by eauto|].
  destruct x as [|a x]; [by apply IH|].
  destruct (shuffle_round_spec (length (a :: x) - 1) (a :: x) k) as (y & k' & -> & Hp); [simpl in *; lia|].
  destruct (IH y k') as (z & k2 & -> & Hp2); [by rewrite Hp|]. eexists _, _. split; [done|]. by rewrite Hp2.
Qed.

Lemma random_chars_spec n : forall k, exists l k', random_chars (S F) n k = Some (Ret (l, k')) /\ length l = n /\
  Forall (fun c => c ∈ to_bytes randomStr) l.
Proof using Hdraw64 Hdraw31 Hfair Hfair64.
  induction n as [|n IH]; intros k; cbn [random_chars]; [by eexists _, _|].
  destruct (Intn_spec (Z.of_nat (String.length randomStr)) k) as (v & k' & -> & Hv); [done|].
  destruct (lookup_lt_is_Some_2 (to_bytes randomStr) (Z.to_nat v)) as [c Hc].
  { change (length (to_bytes randomStr)) with (String.length randomStr). lia. }
  rewrite Hc. destruct (IH k') as (l & k2 & -> & Hl & Hf). eexists _, _. splits; [done|simpl; lia|].
  constructor; [by eapply list_elem_of_lookup_2|done].
Qed.
End fair.

(** ** Weighted choice *)

Definition sum (ws : list Z) : Z := fold_right Z.add 0 ws.

Lemma sum_nonneg ws : Forall (fun w => 0 <= w) ws -> 0 <= sum ws.
Proof. induction 1; simpl; lia. Qed.

Lemma total_sum ws : forall t, 0 <= t -> Forall (fun w => 0 <= w) ws -> t + sum ws < 2 ^ 64 ->
  fold_left (fun t w => u64 (t + w)) ws t = t + sum ws.
Proof.
  induction ws as [|w ws IH]; intros t Ht Hw Hs; simpl in *; [lia|].
  apply Forall_cons in Hw as [Hw0 Hw]. pose proof (sum_nonneg ws Hw).
  rewrite wrapu_small by (unfold in_u; lia). rewrite IH by (done || lia). lia.
Qed.

Lemma pick_spec ws : forall i r, Forall (fun w => 0 <= w) ws -> 0 <= r < sum ws -> sum ws < 2 ^ 64 ->
  exists j w, pick ws i r = (i + j)%nat /\ ws !! j = Some w /\ sum (take j ws) <= r < sum (take j ws) + w.
Proof.
  induction ws as [|w ws IH]; intros i r Hw Hr Hs; simpl in Hr; [lia|].
  apply Forall_cons in Hw as [Hw0 Hw]. pose proof (sum_nonneg ws Hw). simpl in Hs. cbn [pick].
  destruct (Z.ltb_spec r w).
  - exists 0%nat, w. splits; [lia|done|simpl; lia|simpl; lia].
  - rewrite wrapu_small by (unfold in_u; lia). destruct (IH (S i) (r - w) Hw) as (j & w' & Hp & Hl & Hb); [lia..|].
    exists (S j), w'. splits; [rewrite Hp; lia|done|simpl; lia|simpl; lia].
Qed.

Lemma max_weight_acc ws : forall m, m <= fold_left (fun m w => if m <? w then w else m) ws m /\
  (forall w, w ∈ ws -> w <= fold_left (fun m w => if m <? w then w else m) ws m) /\
  (forall M, m <= M -> Forall (fun w => w <= M) ws -> fold_left (fun m w => if m <? w then w else m) ws m <= M).
Proof.
  induction ws as [|w ws IH]; intros m; cbn [fold_left].
  { splits; [lia|intros w H; by apply elem_of_nil in H|done]. }
  destruct (IH (if m <? w then w else m)) as (H1 & H2 & H3). splits.
  - destruct (Z.ltb_spec m w); lia.
  - intros x [->|Hx]%elem_of_cons; [|by apply H2]. destruct (Z.ltb_spec m w); lia.
  - intros M Hm [Hw Hws]%Forall_cons. apply H3; [|done]. destruct (Z.ltb_spec m w); lia.
Qed.

(** With weights up to [M], far from the 64-bit limit, the choice is the index
    in whose share of the new weights the draw falls, and the new weights are
    positive and larger for smaller old ones. *)
Lemma RandLessWight_spec ws M k :
  (2 <= length ws)%nat -> Forall (fun w => 0 <= w <= M) ws -> (2 * M + 10) * Z.of_nat (length ws) < 2 ^ 64 ->
  exists j w', RandLessWight ws k = Ret (j, reweigh ws, S k) /\ reweigh ws !! j = Some w' /\
    (forall i w, ws !! i = Some w -> reweigh ws !! i = Some (raise (max_weight ws) - w) /\ 0 < raise (max_weight ws) - w) /\
    sum (take j (reweigh ws)) <= draw64 k mod sum (reweigh ws) < sum (take j (reweigh ws)) + w' /\ 0 < sum (reweigh ws).
Proof using Type.
  intros Hlen Hws Hsmall.
  destruct (max_weight_acc ws 0) as (Hm0 & Hmax & HM). set (mx := max_weight ws).
  change (fold_left (fun m w => if m <? w then w else m) ws 0) with mx in *.
  assert (HMle : 0 <= mx <= M).
  { split; [done|]. apply HM; [|eapply Forall_impl; [done|]; intros w Hw; apply Hw].
    destruct ws as [|w0 ?]; [simpl in Hlen; lia|]. apply Forall_cons in Hws as [? _]. lia. }
  assert (H64 : 2 * M + 10 < 2 ^ 64) by nia.
  assert (Hraise : raise mx = (if mx <? 10 then mx + 10 else mx + mx / 5) /\ mx < raise mx <= 2 * M + 10).
  { unfold raise. pose proof (Z.div_pos mx 5 ltac:(lia) ltac:(lia)).
    assert (mx / 5 <= mx) by (apply Z.div_le_upper_bound; lia).
    assert (10 <= mx -> 2 <= mx / 5) by (intros; apply Z.div_le_lower_bound; lia).
    destruct (Z.ltb_spec mx 10); rewrite wrapu_small by (unfold in_u; lia); split; try done; lia. }
  destruct Hraise as [_ Hraise].
  assert (Helt : forall i w, ws !! i = Some w -> reweigh ws !! i = Some (raise mx - w) /\ 0 < raise mx - w).
  { intros i w Hi. unfold reweigh. fold mx. rewrite list_lookup_fmap, Hi. simpl.
    assert (Hw : w ∈ ws) by (by eapply list_elem_of_lookup_2). specialize (Hmax w Hw).
    rewrite Forall_forall in Hws. specialize (Hws w Hw). rewrite wrapu_small by (unfold in_u; lia). split; [done|lia]. }
  assert (Hpos : Forall (fun w => 0 < w <= 2 * M + 10) (reweigh ws)).
  { apply Forall_lookup. intros i x Hx. unfold reweigh in Hx. rewrite list_lookup_fmap in Hx.
    destruct (ws !! i) as [w|] eqn:Hi; [|done]. simpl in Hx. injection Hx as <-.
    destruct (Helt i w Hi) as [E Hp]. unfold reweigh in E. rewrite list_lookup_fmap, Hi in E. simpl in E. injection E as E.
    fold mx in E |- *. rewrite E. apply Forall_lookup_1 with (i := i) (x := w) in Hws; [|done]. lia. }
  assert (Hsum : 0 < sum (reweigh ws) <= (2 * M + 10) * Z.of_nat (length ws)).
  { assert (El : length (reweigh ws) = length ws) by apply length_fmap. rewrite <- El in Hlen |- *. clear -Hpos Hlen.
    revert Hlen. generalize (reweigh ws) Hpos. clear. intros l Hl.
    assert (H : 0 <= sum l <= (2 * M + 10) * Z.of_nat (length l)).
    { induction Hl as [|x l Hx _ IH]; simpl length; simpl sum; lia. }
    intros Hlen. split; [|lia]. destruct Hl as [|x l Hx Hl]; [simpl in Hlen; lia|]. simpl.
    assert (0 <= sum l) by (apply sum_nonneg; eapply Forall_impl; [exact Hl|]; simpl; lia). lia. }
  assert (Hnn : Forall (fun w => 0 <= w) (reweigh ws)) by (eapply Forall_impl; [exact Hpos|]; simpl; lia).
  assert (Et : total_weight (reweigh ws) = sum (reweigh ws)).
  { unfold total_weight. rewrite total_sum by (done || lia). lia. }
  destruct (pick_spec (reweigh ws) 0 (draw64 k mod sum (reweigh ws)) Hnn) as (j & w' & Hp & Hl & Hb);
    [apply Z.mod_pos_bound; lia|lia|].
  exists j, w'. splits; try done; try lia.
  destruct ws as [|w0 [|w1 ws]]; [simpl in Hlen; lia..|]. cbn [RandLessWight Uint64]. rewrite Et.
  destruct (Z.eqb_spec (sum (reweigh (w0 :: w1 :: ws))) 0); [lia|]. by rewrite Hp.
Qed.

(** With a source in which every [F + 1] draws in a row hold one with its top
    bit clear, what is built on Intn returns.  RandomUint32 and RandomInt32 give
    a number between their bounds; RandomUint32 over all 2^32 values, and
    RandomInt32 over 2^31 - 1 or more, panic instead because the size of the
    range wraps.  The shuffles permute, GetRandomString gives [n] characters of
    its alphabet, and RandLessWight gives the index in whose share of the new
    weights the draw falls: weights that are positive and larger for smaller
    arguments. *)
Lemma rand_derived (F : nat)
    (Hfair : forall k, exists j, (k <= j <= k + F)%nat /\ draw31 j < 2 ^ 30)
    (Hfair64 : forall k, exists j, (k <= j <= k + F)%nat /\ draw64 j < 2 ^ 63) (k : nat) :
  (forall mn mx, in_u 32 mn -> in_u 32 mx -> mn <= mx ->
     (mx - mn < 2 ^ 32 - 1 -> exists v k', RandomUint32 (S F) mn mx k = Some (Ret (v, k')) /\ mn <= v <= mx) /\
     (mx - mn = 2 ^ 32 - 1 -> RandomUint32 (S F) mn mx k = Some (Panic "invalid argument to int"))) /\
  (forall mn mx, in_s 32 mn -> in_s 32 mx -> mn <= mx ->
     (mx - mn < 2 ^ 31 - 1 -> exists v k', RandomInt32 (S F) mn mx k = Some (Ret (v, k')) /\ mn <= v <= mx) /\
     (2 ^ 31 - 1 <= mx - mn -> exists w, RandomInt32 (S F) mn mx k = Some (Panic w))) /\
  (forall A (x : list A) n, Z.of_nat (length x) < 2 ^ 63 ->
     exists y k', Shuffle (S F) x n k = Some (Ret (y, k')) /\ y ≡ₚ x) /\
  (forall n, exists s k', GetRandomString (S F) n k = Some (Ret (s, k')) /\ String.length s = n /\
     all_bytes (fun c => c ∈ to_bytes randomStr) s) /\
  (forall ws M, (2 <= length ws)%nat -> Forall (fun w => 0 <= w <= M) ws ->
     (2 * M + 10) * Z.of_nat (length ws) < 2 ^ 64 ->
     exists j w', RandLessWight ws k = Ret (j, reweigh ws, S k) /\ reweigh ws !! j = Some w' /\
       (forall i w, ws !! i = Some w ->
          reweigh ws !! i = Some (raise (max_weight ws) - w) /\ 0 < raise (max_weight ws) - w) /\
       sum (take j (reweigh ws)) <= draw64 k mod sum (reweigh ws) < sum (take j (reweigh ws)) + w' /\
       0 < sum (reweigh ws)).
Proof using Hdraw64 Hdraw31.
  split; [|split; [|split; [|split]]].
  - intros mn mx Ha Hb Hle. split; [by apply RandomUint32_spec|]. intros E. unfold RandomUint32.
    replace (mx - mn + 1) with (2 ^ 32) by lia. done.
  - intros mn mx Ha Hb Hle. by apply RandomInt32_spec.
  - intros A x n Hl. by apply Shuffle_spec.
  - intros n. unfold GetRandomString. destruct (random_chars_spec F Hfair Hfair64 n k) as (l & k' & -> & Hl & Hf).
    exists (of_bytes l), k'. splits; [done| |].
    + rewrite <- Hl. clear. induction l; simpl; by f_equal.
    + unfold all_bytes. by rewrite String.list_ascii_of_string_of_list_ascii.
  - intros ws M. apply RandLessWight_spec.
Qed.

End rand.

Lemma rand_derived_witness :
  exists y k', Shuffle (fun _ => 25) (fun _ => 25) 1 [1; 2; 3] 2 0%nat = Some (Ret (y, k')) /\ y ≡ₚ [1; 2; 3].
Proof.
  destruct (rand_derived (fun _ => 25) (fun _ => 25) ltac:(intros; unfold in_u; lia) ltac:(intros; unfold in_u; lia)
    0 ltac:(intros k; exists k; lia) ltac:(intros k; exists k; lia) 0) as (_ & _ & H & _).
  apply (H Z [1; 2; 3] 2%nat). reflexivity.
Defined.

Lemma rand_uniform_witness :
  exists v k', Int31n (fun _ => 25) 2 10 0%nat = Some (Ret (v, k')) /\ 0 <= v < 10.
Proof.
  destruct (rand_uniform (fun _ => 25) (fun _ => 25) ltac:(intros; unfold in_u; lia) ltac:(intros; unfold in_u; lia)
    31 10 (Int31 (fun _ => 25)) "invalid argument to Int31n") as (H1 & _ & H3).
  - left. done.
  - lia.
  - destruct (H3 1%nat 0%nat 0%nat) as (v & k' & Hu); [lia|reflexivity|].
    exists v, k'. split; [exact Hu|]. apply (H1 2%nat 0%nat v k' Hu).
Defined.
