(* ===== verification/WatchClient.v ===== *)
(** * The watch client: watch/client.go

    First the calls as a user of the package sees them, on top of
    SendAndRecvMessage; then SendAndRecvMessage itself, the reader and the
    callback loop as a step relation, with the server at the other end of the
    connection; then the calls composed with the wire format and the server's
    handlers, which is what the class [WatchApi] promises to watch_config. *)

From Stdlib Require Import ZArith Lia Ascii String.
From stdpp Require Import base numbers list strings gmap.
From S2P Require Import Prelude GoStd HashSet WatchMessage WatchServer.

(** ** The calls *)

(** What SendAndRecvMessage returns: an error of the write, nil when readChan
    timed out, or the reply. *)
Inductive rsp :=
  | RErr (e : go_error)
  | RTimeout
  | RMsg (m : WatchMessage).

Record client := { isClose : bool; SeqNo : Z }.

Section calls.
Context {S : Type} (SendAndRecv : WatchMessage -> S -> rsp * S).

(** atomic.AddInt32(&wc.Seq, 1) and the call. *)
Definition request (wc : client) (s : S) (cmd : string) (values : list string) : rsp * client * S :=
  let seq := i32 (SeqNo wc + 1) in
  let '(r, s) := SendAndRecv {| Cmd := cmd; Seq := seq; Values := values |} s in
  (r, {| isClose := isClose wc; SeqNo := seq |}, s).

Definition nil_deref : string := "invalid memory address or nil pointer dereference".

(** msg.Values; msg is nil after a timeout. *)
Definition rsp_values (r : rsp) (dflt : list string) : go (list string) :=
  match r with
  | RErr _ => Ret dflt
  | RTimeout => Panic nil_deref
  | RMsg m => Ret (Values m)
  end.

(** msg.Values[0] *)
Definition rsp_first (r : rsp) (dflt : string) : go string :=
  match r with
  | RErr _ => Ret dflt
  | RTimeout => Panic nil_deref
  | RMsg m => go_index (Values m) 0
  end.

Definition RawCall (wc : client) (s : S) (param : list string) : go (list string) * client * S :=
  match param with
  | [] => (Panic "index out of range", wc, s)
  | cmd :: values =>
      let '(r, wc, s) := request wc s cmd values in (rsp_values r [], wc, s)
  end.

Definition initialize (wc : client) (s : S) (keys : list string) : client * S :=
  if isClose wc then (wc, s) else let '(_, wc, s) := request wc s "initialize" keys in (wc, s).

Definition heartbeat (wc : client) (s : S) : client * S :=
  if isClose wc then (wc, s) else let '(_, wc, s) := request wc s "heartbeat" [] in (wc, s).

Definition Hget (wc : client) (s : S) (key field : string) : go string * client * S :=
  if isClose wc then (Ret "", wc, s)
  else let '(r, wc, s) := request wc s "hget" [key; field] in (rsp_first r "", wc, s).

Definition Hgetall (wc : client) (s : S) (key : string) : go (list string) * client * S :=
  if isClose wc then (Ret [], wc, s)
  else let '(r, wc, s) := request wc s "hgetall" [key] in (rsp_values r [], wc, s).

Definition Hset (wc : client) (s : S) (key field value : string) : client * S :=
  if isClose wc then (wc, s)
  else let '(_, wc, s) := request wc s "hset" [key; field; value] in (wc, s).

Definition KeyPrefix (wc : client) (s : S) (prefix : string) : go (list string) * client * S :=
  if isClose wc then (Ret [], wc, s)
  else let '(r, wc, s) := request wc s "key_prefix" [prefix] in (rsp_values r [], wc, s).

Definition Del (wc : client) (s : S) (key : string) : client * S :=
  if isClose wc then (wc, s)
  else let '(_, wc, s) := request wc s "del" [key] in (wc, s).

Definition Hincrby (wc : client) (s : S) (key field : string) (add : Z) : go Z * client * S :=
  if isClose wc then (Ret 0, wc, s)
  else
    let '(r, wc, s) := request wc s "hincrby" [key; field; Itoa add] in
    (match r with
     | RErr _ => Ret 0
     | RTimeout => Panic nil_deref
     | RMsg m => v ← go_index (Values m) 0; Ret (Atoi v).1
     end, wc, s).
End calls.

(** The message of WatchChan, as Watch returns it. *)
Definition Watch (m : WatchMessage) : go (string * string * string) :=
  key ← go_index (Values m) 0;
  k ← go_index (Values m) 1;
  v ← go_index (Values m) 2;
  Ret (key, k, v).

(** RegisterCallback: the keys of the next initialize and the callbacks. *)
Definition RegisterCallback (keys : list string) (cbs : gmap string nat) (key : string) (call : nat)
    : list string * gmap string nat :=
  (keys ++ [key], <[key := call]> cbs).

(** One round of the callback loop of Start: the callback and its arguments, if
    one is registered; [None] when the loop returns. *)
Definition watch_round (cbs : gmap string nat) (m : WatchMessage) : go (option (option (nat * string * string))) :=
  '(key, k, v) ← Watch m;
  if decide (key = "") then Ret None
  else Ret (Some (match cbs !! key with Some f => Some (f, k, v) | None => None end)).

(** ** SendAndRecvMessage, the reader and the callback loop *)

Section machine.
Context {S : Type} (serve : WatchMessage -> S -> option WatchMessage * S).
Context (Hserve : forall m st r st', serve m st = (Some r, st') -> Seq r = Seq m).

Inductive stage :=
  | CSending                  (* registered, not yet written *)
  | CWaiting                  (* in readChan *)
  | CReturned (r : rsp).

(** One call of SendAndRecvMessage with its channel [c]; the channel is closed
    when the call has returned. *)
Record call := { req : WatchMessage; at_stage : stage; buf : list WatchMessage }.

Inductive reader_state :=
  | RRead                                       (* in ReadWatchMessage *)
  | RSend (c : nat) (m : WatchMessage)          (* c <- msg, the channel of call [c] *)
  | RWatch (m : WatchMessage)                   (* wc.WatchChan <- msg *)
  | RStopped                                    (* returned; Reconnect is scheduled *)
  | RPanicked.                                  (* panicked and recovered *)

(** [watchers] are the callback loops, one for each Start (the loop of an earlier
    one never ends and reads the same WatchChan), each with the call its running
    callback waits for.  [Werr] says that bufio's Writer holds an error: it keeps
    it, and every later write returns it.  [up] and [down] are the messages on the
    connection, tagged with the call they belong to; the tags and [served], the
    requests the server has handled with its replies ([None]: of other clients),
    are only for the statements. *)
Record machine := {
  closed : bool;
  calls : list call;
  MessageChan : gmap Z nat;
  WatchChan : list WatchMessage;
  watchers : list (option nat);
  reader : reader_state;
  Werr : bool;
  up : list nat;
  down : list (option nat * WatchMessage);
  srv : S;
  served : list (option nat * WatchMessage * option WatchMessage)
}.

Definition with_calls s cs mc := {| closed := closed s; calls := cs; MessageChan := mc; WatchChan := WatchChan s;
  watchers := watchers s; reader := reader s; Werr := Werr s; up := up s; down := down s; srv := srv s; served := served s |}.
Definition with_reader s r d := {| closed := closed s; calls := calls s; MessageChan := MessageChan s; WatchChan := WatchChan s;
  watchers := watchers s; reader := r; Werr := Werr s; up := up s; down := d; srv := srv s; served := served s |}.
Definition with_watch s wch w := {| closed := closed s; calls := calls s; MessageChan := MessageChan s; WatchChan := wch;
  watchers := w; reader := reader s; Werr := Werr s; up := up s; down := down s; srv := srv s; served := served s |}.
Definition with_server s u d st l := {| closed := closed s; calls := calls s; MessageChan := MessageChan s; WatchChan := WatchChan s;
  watchers := watchers s; reader := reader s; Werr := Werr s; up := u; down := d; srv := st; served := l |}.
Definition with_conn s cl r := {| closed := cl; calls := calls s; MessageChan := MessageChan s; WatchChan := WatchChan s;
  watchers := watchers s; reader := r; Werr := Werr s; up := []; down := []; srv := srv s; served := served s |}.
Definition with_writer s e := {| closed := closed s; calls := calls s; MessageChan := MessageChan s; WatchChan := WatchChan s;
  watchers := watchers s; reader := reader s; Werr := e; up := up s; down := down s; srv := srv s; served := served s |}.

Definition started (st : S) : machine :=
  {| closed := false; calls := []; MessageChan := ∅; WatchChan := []; watchers := [None]; reader := RRead;
     Werr := false; up := []; down := []; srv := st; served := [] |}.

(** The [n]th call takes the next sequence number and registers its channel. *)
Definition seq_of (n : nat) : Z := i32 (Z.of_nat n + 1).
Definition start_call (s : machine) (cmd : string) (values : list string) : machine :=
  let n := length (calls s) in
  let m := {| Cmd := cmd; Seq := seq_of n; Values := values |} in
  with_calls s (calls s ++ [{| req := m; at_stage := CSending; buf := [] |}]) (<[Seq m := n]> (MessageChan s)).

Definition set_stage (g : stage) (c : call) : call := {| req := req c; at_stage := g; buf := buf c |}.
Definition set_buf (l : list WatchMessage) (c : call) : call := {| req := req c; at_stage := at_stage c; buf := l |}.

(** The write succeeded and the bytes went out. *)
Definition send_call (s : machine) (n : nat) : machine :=
  let s := with_calls s (alter (set_stage CWaiting) n (calls s)) (MessageChan s) in
  with_server s (up s ++ [n]) (down s) (srv s) (served s).

(** The write succeeded in the buffer and the flush failed: WriteWatchMessage
    drops Flush's error, so the call waits for the reply to a request that is lost. *)
Definition lose_call (s : machine) (n : nat) : machine :=
  with_writer (with_calls s (alter (set_stage CWaiting) n (calls s)) (MessageChan s)) true.

(** The call returns: its deferred function deletes and closes the channel. *)
Definition end_call (s : machine) (n : nat) (c : call) (r : rsp) : machine :=
  with_calls s (alter (fun c => set_buf [] (set_stage (CReturned r) c)) n (calls s)) (delete (Seq (req c)) (MessageChan s)).

(** The reader's dispatch of a message. *)
Definition reader_dispatch (s : machine) (m : WatchMessage) : reader_state :=
  match MessageChan s !! Seq m with
  | Some c => RSend c m
  | None => if decide (Cmd m = "watch") then RWatch m else RRead
  end.

(** c <- msg on the channel of call [c], which has capacity 1; [None]: blocked. *)
Definition reader_send (s : machine) (n : nat) (c : call) (m : WatchMessage) : option machine :=
  match at_stage c with
  | CReturned _ => Some (with_conn s true RPanicked)          (* send on closed channel *)
  | _ => match buf c with
         | [] => Some (with_reader (with_calls s (alter (set_buf [m]) n (calls s)) (MessageChan s)) RRead (down s))
         | _ => None
         end
  end.

Definition alive (s : machine) : bool := match reader s with RStopped | RPanicked => false | _ => true end.
Definition returned (s : machine) (n : nat) : bool :=
  match calls s !! n with
  | Some c => match at_stage c with CReturned _ => true | _ => false end
  | None => false
  end.

(** The server handles a message: [tag] says whose. *)
Definition handle (s : machine) (tag : option nat) (m : WatchMessage) (u : list nat) : machine :=
  let '(r, st) := serve m (srv s) in
  with_server s u
    (down s ++ match tag, r with Some n, Some r => [(Some n, r)] | _, _ => [] end) st (served s ++ [(tag, m, r)]).

(** Reconnect on a new connection: a new Reader and Writer, and Start, which
    adds a callback loop and calls initialize. *)
Definition reconnect (s : machine) (keys : list string) : machine :=
  let s := with_writer (with_conn s false RRead) false in
  start_call (with_watch s (WatchChan s) (watchers s ++ [None])) "initialize" keys.

Inductive step : machine -> machine -> Prop :=
  (* a caller; all but RawCall have seen isClose = false just before *)
  | cstep_start s cmd values : step s (start_call s cmd values)
  | cstep_send s n c : calls s !! n = Some c -> at_stage c = CSending -> alive s = true -> Werr s = false -> step s (send_call s n)
  | cstep_send_lost s n c : calls s !! n = Some c -> at_stage c = CSending -> Werr s = false -> step s (lose_call s n)
  | cstep_send_error s n c e : calls s !! n = Some c -> at_stage c = CSending ->
      step s (with_writer (end_call s n c (RErr e)) true)
  (* readChan *)
  | cstep_recv s n c m : calls s !! n = Some c -> at_stage c = CWaiting -> buf c = [m] -> step s (end_call s n c (RMsg m))
  | cstep_timeout s n c : calls s !! n = Some c -> at_stage c = CWaiting -> step s (end_call s n c RTimeout)
  (* the reader *)
  | cstep_read s tag m ms : reader s = RRead -> down s = (tag, m) :: ms -> step s (with_reader s (reader_dispatch s m) ms)
  | cstep_deliver s n c m s' : reader s = RSend n m -> calls s !! n = Some c -> reader_send s n c m = Some s' -> step s s'
  | cstep_deliver_watch s m : reader s = RWatch m -> WatchChan s = [] ->
      step s (with_reader (with_watch s [m] (watchers s)) RRead (down s))
  | cstep_eof s : reader s = RRead -> step s (with_conn s true RStopped)
  | cstep_reconnect s keys : reader s = RStopped -> step s (reconnect s keys)
  (* a callback loop: it takes a message, and its callback makes any number of calls *)
  | cstep_watch s i m ms : watchers s !! i = Some None -> WatchChan s = m :: ms -> step s (with_watch s ms (watchers s))
  | cstep_watch_call s i m ms cmd values : watchers s !! i = Some None -> WatchChan s = m :: ms ->
      step s (start_call (with_watch s ms (<[i := Some (length (calls s))]> (watchers s))) cmd values)
  | cstep_watch_more s i n cmd values : watchers s !! i = Some (Some n) -> returned s n = true ->
      step s (start_call (with_watch s (WatchChan s) (<[i := Some (length (calls s))]> (watchers s))) cmd values)
  | cstep_watch_done s i n : watchers s !! i = Some (Some n) -> returned s n = true ->
      step s (with_watch s (WatchChan s) (<[i := None]> (watchers s)))
  (* the server: a request of this client, of another one, a watch message *)
  | cstep_serve s n c ns : up s = n :: ns -> calls s !! n = Some c -> step s (handle s (Some n) (req c) ns)
  | cstep_other s m : step s (handle s None m (up s))
  | cstep_push s k f v : step s (with_server s (up s) (down s ++ [(None, watch_msg k f v)]) (srv s) (served s)).

Definition reachable (st : S) (s : machine) : Prop := rtc step (started st) s.

(** *** Every call gets the reply to its own request *)

(** The sequential run of the server that [served] records. *)
Fixpoint replay (ms : list WatchMessage) (st : S) : list (option WatchMessage) * S :=
  match ms with
  | [] => ([], st)
  | m :: ms => let '(r, st) := serve m st in let '(rs, st) := replay ms st in (r :: rs, st)
  end.

Lemma replay_snoc ms m st rs st' :
  replay ms st = (rs, st') -> replay (ms ++ [m]) st = (rs ++ [(serve m st').1], (serve m st').2).
Proof using Type.
  revert st rs. induction ms as [|a ms IH]; intros st rs; simpl.
  - intros [= <- <-]. by destruct (serve m st).
  - destruct (serve a st) as [r st1]. destruct (replay ms st1) as [rs1 st2] eqn:E. intros [= <- <-].
    by rewrite (IH _ _ E).
Qed.

(** The calls that have been served, and those with a reply on the way. *)
Definition own (s : machine) : list nat := omap (fun e => e.1.1) (served s).
Definition hand (s : machine) : list nat := match reader s with RSend n _ => [n] | _ => [] end.
Definition flight (s : machine) : list nat := omap fst (down s) ++ hand s.

Definition answered (s : machine) (n : nat) (m : WatchMessage) : Prop :=
  exists c, calls s !! n = Some c /\ (Some n, req c, Some m) ∈ served s.

Record inv (st0 : S) (s : machine) : Prop := {
  i_req n c : calls s !! n = Some c -> Seq (req c) = seq_of n;
  i_chan q n : MessageChan s !! q = Some n -> exists c, calls s !! n = Some c /\ Seq (req c) = q;
  i_sent n : n ∈ up s ++ own s -> exists c, calls s !! n = Some c /\ at_stage c <> CSending;
  i_down tag m : (tag, m) ∈ down s -> match tag with Some n => answered s n m | None => Seq m = 0 end;
  i_hand n m : reader s = RSend n m -> answered s n m;
  i_buf n c : calls s !! n = Some c -> (length (buf c) <= 1)%nat /\ forall m, m ∈ buf c -> answered s n m;
  i_ret n c m : calls s !! n = Some c -> at_stage c = CReturned (RMsg m) -> answered s n m;
  i_once : NoDup (up s ++ own s);
  i_flight : NoDup (flight s);
  i_empty n c : n ∈ flight s -> calls s !! n = Some c -> buf c = [];
  i_log : replay (served s).*1.*2 st0 = ((served s).*2, srv s)
}.

(** The calls of [s] are those of [s'], at the same or a later stage. *)
Definition calls_le (s s' : machine) : Prop :=
  forall n c, calls s !! n = Some c -> exists c', calls s' !! n = Some c' /\ req c' = req c /\
    (at_stage c <> CSending -> at_stage c' <> CSending).

Lemma calls_le_refl s s' : calls s' = calls s -> calls_le s s'.
Proof using Type. intros E n c Hc. exists c. by rewrite E. Qed.

Lemma answered_mono s s' n m :
  calls_le s s' -> (forall e, e ∈ served s -> e ∈ served s') -> answered s n m -> answered s' n m.
Proof using Type. intros Hc Hs (c & Hn & He). destruct (Hc n c Hn) as (c' & Hn' & Er & _). exists c'. rewrite Er. auto. Qed.

Lemma answered_own s n m : answered s n m -> n ∈ own s.
Proof using Type. intros (c & _ & He). apply list_elem_of_omap. by exists (Some n, req c, Some m). Qed.

Lemma flight_own st0 s n : inv st0 s -> n ∈ flight s -> n ∈ own s.
Proof using Type.
  intros Hi [Hn|Hn]%elem_of_app.
  - apply list_elem_of_omap in Hn as ([tag m] & Hin & E). simpl in E. subst tag.
    eapply answered_own. exact (i_down _ _ Hi _ _ Hin).
  - unfold hand in Hn. destruct (reader s) eqn:E; try by apply elem_of_nil in Hn.
    apply list_elem_of_singleton in Hn as ->. eapply answered_own. by apply (i_hand _ _ Hi).
Qed.
(** A reply carries the sequence number of its request. *)
Lemma replay_seq ms st rs st' : replay ms st = (rs, st') ->
  Forall2 (fun m r => match r with Some r => Seq r = Seq m | None => True end) ms rs.
Proof using Hserve.
  revert st rs. induction ms as [|m ms IH]; intros st rs; simpl; [intros [= <- <-]; constructor|].
  destruct (serve m st) as [r st1] eqn:Em. destruct (replay ms st1) as [rs1 st2] eqn:E. intros [= <- <-].
  constructor; [|by eapply IH]. destruct r; [by eapply Hserve|done].
Qed.

Lemma i_answer_seq st0 s n c m : inv st0 s -> calls s !! n = Some c ->
  (Some n, req c, Some m) ∈ served s -> Seq m = Seq (req c).
Proof using Hserve.
  intros Hi Hc Hin. pose proof (replay_seq _ _ _ _ (i_log _ _ Hi)) as HF.
  apply list_elem_of_lookup in Hin as [i Hin].
  apply (Forall2_lookup_lr _ _ _ i (req c) (Some m)) in HF; [done|by rewrite !list_lookup_fmap, Hin..].
Qed.

(** What a step of the client may change. *)
Lemma inv_client st0 s s' :
  inv st0 s -> calls_le s s' -> served s' = served s -> srv s' = srv s ->
  (forall n c, calls s' !! n = Some c -> Seq (req c) = seq_of n /\ (length (buf c) <= 1)%nat /\
     (forall m, m ∈ buf c -> answered s n m) /\ (forall m, at_stage c = CReturned (RMsg m) -> answered s n m) /\
     (n ∈ flight s' -> buf c = [])) ->
  (forall q n, MessageChan s' !! q = Some n -> exists c, calls s' !! n = Some c /\ Seq (req c) = q) ->
  (forall n, n ∈ up s' -> exists c, calls s' !! n = Some c /\ at_stage c <> CSending) ->
  NoDup (up s' ++ own s) -> (forall e, e ∈ down s' -> e ∈ down s) ->
  (forall n m, reader s' = RSend n m -> answered s n m) -> NoDup (flight s') ->
  inv st0 s'.
Proof using Type.
  intros Hi Hle Es Est Hc Hch Hup Hnd Hd Hh Hf.
  assert (Hown : own s' = own s) by (unfold own; by rewrite Es).
  assert (Ha : forall n m, answered s n m -> answered s' n m).
  { intros n m. apply answered_mono; [done|]. by rewrite Es. }
  split.
  - intros n c E. by destruct (Hc n c E).
  - done.
  - intros n [Hn|Hn]%elem_of_app; [by apply Hup|]. rewrite Hown in Hn.
    destruct (i_sent _ _ Hi n) as (c & E & Hs); [apply elem_of_app; by right|].
    destruct (Hle n c E) as (c' & E' & _ & Hs'). exists c'. auto.
  - intros tag m Hin. pose proof (i_down _ _ Hi tag m (Hd _ Hin)) as H. destruct tag; auto.
  - intros n m E. apply Ha. by apply Hh.
  - intros n c E. destruct (Hc n c E) as (_ & Hl & Hb & _ & _). split; [done|]. intros m Hm. apply Ha. by apply Hb.
  - intros n c m E Hr. destruct (Hc n c E) as (_ & _ & _ & Hm & _). apply Ha. by apply Hm.
  - by rewrite Hown.
  - done.
  - intros n c Hn E. by destruct (Hc n c E) as (_ & _ & _ & _ & He); apply He.
  - rewrite Es, Est. apply (i_log _ _ Hi).
Qed.

(** What the invariant says of one call. *)
Lemma inv_call st0 s n c : inv st0 s -> calls s !! n = Some c ->
  Seq (req c) = seq_of n /\ (length (buf c) <= 1)%nat /\ (forall m, m ∈ buf c -> answered s n m) /\
  (forall m, at_stage c = CReturned (RMsg m) -> answered s n m) /\ (n ∈ flight s -> buf c = []).
Proof using Type.
  intros Hi E. destruct (i_buf _ _ Hi n c E) as [Hl Hb]. splits; [by eapply i_req|done|done| |].
  - intros m. by apply (i_ret _ _ Hi).
  - intros Hn. by eapply i_empty.
Qed.

Lemma inv_sent st0 s n : inv st0 s -> n ∈ up s -> exists c, calls s !! n = Some c /\ at_stage c <> CSending.
Proof using Type. intros Hi Hn. apply (i_sent _ _ Hi), elem_of_app. by left. Qed.

(** A step that changes neither the calls nor what is on its way to them. *)
Lemma inv_quiet st0 s s' :
  inv st0 s -> calls s' = calls s -> MessageChan s' = MessageChan s -> served s' = served s -> srv s' = srv s ->
  (up s' = up s \/ up s' = []) -> (forall e, e ∈ down s' -> e ∈ down s) ->
  (forall n m, reader s' = RSend n m -> answered s n m) -> NoDup (flight s') ->
  (forall n, n ∈ flight s' -> n ∈ flight s) -> inv st0 s'.
Proof using Type.
  intros Hi Ec Em Es Est Eu Hd Hh Hf Hsub. apply (inv_client st0 s); try done.
  - by apply calls_le_refl.
  - intros n c E. rewrite Ec in E. destruct (inv_call _ _ _ _ Hi E) as (H1 & H2 & H3 & H4 & H5). splits; auto.
  - intros q n. rewrite Em, Ec. apply (i_chan _ _ Hi).
  - intros n Hn. rewrite Ec. destruct Eu as [Eu|Eu]; rewrite Eu in Hn; [by apply (inv_sent st0)|by apply elem_of_nil in Hn].
  - pose proof (i_once _ _ Hi) as Ho. destruct Eu as [-> | ->]; [done|]. simpl. by apply NoDup_app in Ho as (_ & _ & ?).
Qed.

Lemma inv_start st0 s cmd values : inv st0 s -> inv st0 (start_call s cmd values).
Proof using Type.
  intros Hi. unfold start_call. set (m := {| Cmd := cmd |}). set (c0 := {| req := m |}).
  assert (Hle : calls_le s (with_calls s (calls s ++ [c0]) (<[Seq m := length (calls s)]> (MessageChan s)))).
  { intros n c E. exists c. simpl. by rewrite (lookup_app_l_Some _ _ _ _ E). }
  apply (inv_client st0 s); try done.
  - intros n c E. simpl in E. apply lookup_app_Some in E as [E|[Hn E]].
    + exact (inv_call st0 s n c Hi E).
    + apply list_lookup_singleton_Some in E as [En <-]. assert (n = length (calls s)) as -> by lia.
      splits; [done|simpl; lia| |done|done]. intros x Hx. by apply elem_of_nil in Hx.
  - intros q n. simpl. intros [[<- <-]|[_ E]]%lookup_insert_Some.
    + exists c0. split; [by apply list_lookup_middle|done].
    + destruct (i_chan _ _ Hi q n E) as (c & Hn & <-). exists c. by rewrite (lookup_app_l_Some _ _ _ _ Hn).
  - intros n Hn. destruct (inv_sent _ _ _ Hi Hn) as (c & E & Hs). destruct (Hle n c E) as (c' & E' & _ & Hs'). exists c'. auto.
  - apply (i_once _ _ Hi).
  - apply (i_hand _ _ Hi).
  - apply (i_flight _ _ Hi).
Qed.

Lemma calls_le_alter s s' f n :
  calls s' = alter f n (calls s) ->
  (forall c, req (f c) = req c /\ (at_stage c <> CSending -> at_stage (f c) <> CSending)) -> calls_le s s'.
Proof using Type.
  intros E Hf k c Hk. rewrite E. destruct (decide (k = n)) as [->|Hne].
  - exists (f c). rewrite list_lookup_alter_eq, Hk. simpl. split; [done|apply Hf].
  - exists c. by rewrite list_lookup_alter_ne.
Qed.
Lemma inv_end st0 s n c r :
  inv st0 s -> calls s !! n = Some c -> (forall m, r = RMsg m -> answered s n m) -> inv st0 (end_call s n c r).
Proof using Type.
  intros Hi Hn Hr. unfold end_call. set (f := fun c0 : call => set_buf [] (set_stage (CReturned r) c0)).
  set (s' := with_calls _ _ _).
  assert (Hle : calls_le s s') by (by apply (calls_le_alter _ _ f n)).
  apply (inv_client st0 s); try done.
  - intros k ck E. simpl in E. destruct (decide (k = n)) as [->|Hne].
    + rewrite list_lookup_alter_eq, Hn in E. simpl in E. injection E as <-. simpl.
      splits; [by apply (i_req _ _ Hi)|lia|by intros m ?%elem_of_nil|by intros m [= ->]; apply Hr|done].
    + rewrite list_lookup_alter_ne in E by done. exact (inv_call st0 s k ck Hi E).
  - intros q k. simpl. intros [_ E]%lookup_delete_Some. destruct (i_chan _ _ Hi q k E) as (ck & Hk & <-).
    destruct (Hle k ck Hk) as (c' & Hk' & Er & _). exists c'. by rewrite Er.
  - intros k Hk. destruct (inv_sent _ _ _ Hi Hk) as (ck & E & Hs). destruct (Hle k ck E) as (c' & E' & _ & Hs'). exists c'. auto.
  - apply (i_once _ _ Hi).
  - apply (i_hand _ _ Hi).
  - apply (i_flight _ _ Hi).
Qed.

Lemma inv_send st0 s n c :
  inv st0 s -> calls s !! n = Some c -> at_stage c = CSending -> inv st0 (send_call s n).
Proof using Type.
  intros Hi Hn Hg. unfold send_call. set (s' := with_server _ _ _ _ _).
  assert (Hle : calls_le s s') by (by apply (calls_le_alter _ _ (set_stage CWaiting) n)).
  assert (Hnot : n ∉ up s ++ own s).
  { intros Hin. destruct (i_sent _ _ Hi n Hin) as (c' & E & Hs). congruence. }
  apply (inv_client st0 s); try done.
  - intros k ck E. simpl in E. destruct (decide (k = n)) as [->|Hne].
    + rewrite list_lookup_alter_eq, Hn in E. simpl in E. injection E as <-. simpl.
      destruct (inv_call st0 s n c Hi Hn) as (H1 & H2 & H3 & _ & H5). splits; try done.
    + rewrite list_lookup_alter_ne in E by done. exact (inv_call st0 s k ck Hi E).
  - intros q k E. destruct (i_chan _ _ Hi q k E) as (ck & Hk & <-).
    destruct (Hle k ck Hk) as (c' & Hk' & Er & _). exists c'. by rewrite Er.
  - intros k [Hk|Hk]%elem_of_app.
    + destruct (inv_sent _ _ _ Hi Hk) as (ck & E & Hs). destruct (Hle k ck E) as (c' & E' & _ & Hs'). exists c'. auto.
    + apply list_elem_of_singleton in Hk as ->. exists (set_stage CWaiting c). simpl. by rewrite list_lookup_alter_eq, Hn.
  - simpl. rewrite <- app_assoc. simpl. apply (NoDup_Permutation_proper _ (n :: up s ++ own s)); [solve_Permutation|].
    constructor; [done|apply (i_once _ _ Hi)].
  - apply (i_hand _ _ Hi).
  - apply (i_flight _ _ Hi).
Qed.

(** Nothing of the invariant is about the writer. *)
Lemma inv_writer st0 s e : inv st0 s -> inv st0 (with_writer s e).
Proof using Type. by intros []; split. Qed.

Lemma inv_lose st0 s n c : inv st0 s -> calls s !! n = Some c -> inv st0 (lose_call s n).
Proof using Type.
  intros Hi Hn. apply inv_writer. set (s' := with_calls _ _ _).
  assert (Hle : calls_le s s') by (by apply (calls_le_alter _ _ (set_stage CWaiting) n)).
  apply (inv_client st0 s); try done.
  - intros k ck E. simpl in E. destruct (decide (k = n)) as [->|Hne].
    + rewrite list_lookup_alter_eq, Hn in E. simpl in E. injection E as <-. simpl.
      destruct (inv_call st0 s n c Hi Hn) as (H1 & H2 & H3 & _ & H5). splits; try done.
    + rewrite list_lookup_alter_ne in E by done. exact (inv_call st0 s k ck Hi E).
  - intros q k E. destruct (i_chan _ _ Hi q k E) as (ck & Hk & <-).
    destruct (Hle k ck Hk) as (c' & Hk' & Er & _). exists c'. by rewrite Er.
  - intros k Hk. destruct (inv_sent _ _ _ Hi Hk) as (ck & E & Hs). destruct (Hle k ck E) as (c' & E' & _ & Hs'). exists c'. auto.
  - apply (i_once _ _ Hi).
  - apply (i_hand _ _ Hi).
  - apply (i_flight _ _ Hi).
Qed.

(** The channel a reply is sent on is that of its call, as long as the sequence
    numbers have not wrapped. *)
Lemma seq_of_small n : Z.of_nat n + 1 < 2 ^ 31 -> seq_of n = Z.of_nat n + 1.
Proof using Type. intros H. unfold seq_of. apply wraps_small; [lia|]. unfold in_s. lia. Qed.

Lemma inv_read st0 s tag m ms :
  inv st0 s -> Z.of_nat (length (calls s)) < 2 ^ 31 -> reader s = RRead -> down s = (tag, m) :: ms ->
  inv st0 (with_reader s (reader_dispatch s m) ms).
Proof using Hserve.
  intros Hi Hsm Hr Hd. pose proof (i_down _ _ Hi tag m) as Hm. rewrite Hd in Hm.
  specialize (Hm ltac:(by left)).
  assert (Hlt : forall n c, calls s !! n = Some c -> seq_of n = Z.of_nat n + 1).
  { intros n c E. apply seq_of_small. apply lookup_lt_Some in E. lia. }
  assert (Hk : forall k, MessageChan s !! Seq m = Some k -> tag = Some k).
  { intros k E. destruct (i_chan _ _ Hi _ _ E) as (c & Hc & Eq). rewrite (i_req _ _ Hi k c Hc), (Hlt k c Hc) in Eq.
    destruct tag as [n|]; [|lia]. destruct Hm as (cn & Hn & Hin). f_equal.
    apply (i_answer_seq st0 s n cn m Hi Hn) in Hin. rewrite Hin, (i_req _ _ Hi n cn Hn), (Hlt n cn Hn) in Eq. lia. }
  assert (Hfl : flight s = omap fst ((tag, m) :: ms)) by (unfold flight, hand; by rewrite Hr, Hd, app_nil_r).
  pose proof (i_flight _ _ Hi) as Hnd. rewrite Hfl in Hnd.
  apply (inv_quiet st0 s); try done.
  - by left.
  - simpl. intros e He. rewrite Hd. by right.
  - simpl. intros n x. unfold reader_dispatch. destruct (MessageChan s !! Seq m) as [k|] eqn:Ek.
    + intros [= <- <-]. by rewrite (Hk k eq_refl) in Hm.
    + by case_decide.
  - unfold flight, hand. simpl. unfold reader_dispatch. destruct (MessageChan s !! Seq m) as [k|] eqn:Ek.
    + rewrite (Hk k eq_refl) in Hnd. simpl in Hnd. apply NoDup_cons in Hnd as [Hn Hnd].
      apply NoDup_app. splits; [done| |by apply NoDup_singleton]. intros x Hx ->%list_elem_of_singleton. done.
    + assert (NoDup (omap fst ms)) by (destruct tag; simpl in Hnd; [by apply NoDup_cons in Hnd as [_ ?]|done]).
      case_decide; by rewrite app_nil_r.
  - intros n. rewrite Hfl. unfold flight, hand. simpl. unfold reader_dispatch.
    destruct (MessageChan s !! Seq m) as [k|] eqn:Ek.
    + rewrite (Hk k eq_refl). simpl. set_solver.
    + intros Hn. assert (n ∈ omap fst ms) by (case_decide; by rewrite app_nil_r in Hn).
      destruct tag; simpl; [by right|done].
Qed.
Lemma inv_deliver st0 s n c m s' :
  inv st0 s -> reader s = RSend n m -> calls s !! n = Some c -> reader_send s n c m = Some s' -> inv st0 s'.
Proof using Type.
  intros Hi Hr Hn Hs. pose proof (i_hand _ _ Hi n m Hr) as Ha.
  assert (Hfl : flight s = omap fst (down s) ++ [n]) by (unfold flight, hand; by rewrite Hr).
  pose proof (i_flight _ _ Hi) as Hnd. rewrite Hfl in Hnd. apply NoDup_app in Hnd as (Hnd & Hnot & _).
  assert (Hput : inv st0 (with_reader (with_calls s (alter (set_buf [m]) n (calls s)) (MessageChan s)) RRead (down s))).
  { set (s1 := with_reader _ _ _).
    assert (Hle : calls_le s s1) by (by apply (calls_le_alter _ _ (set_buf [m]) n)).
    assert (Hfl1 : flight s1 = omap fst (down s)) by (unfold flight; by rewrite app_nil_r).
    apply (inv_client st0 s); try done.
    - intros k ck E. simpl in E. rewrite Hfl1. destruct (decide (k = n)) as [->|Hne].
      + rewrite list_lookup_alter_eq, Hn in E. simpl in E. injection E as <-. simpl.
        destruct (inv_call st0 s n c Hi Hn) as (H1 & _ & _ & H4 & _).
        splits; [done|lia|by intros x ->%list_elem_of_singleton|done|]. intros Hin. exfalso. apply (Hnot n Hin). by left.
      + rewrite list_lookup_alter_ne in E by done. destruct (inv_call st0 s k ck Hi E) as (H1 & H2 & H3 & H4 & H5).
        splits; try done. intros Hin. apply H5. rewrite Hfl. apply elem_of_app. by left.
    - intros q k E. destruct (i_chan _ _ Hi q k E) as (ck & Hk & <-).
      destruct (Hle k ck Hk) as (c' & Hk' & Er & _). exists c'. by rewrite Er.
    - intros k Hk. destruct (inv_sent _ _ _ Hi Hk) as (ck & E & Hs1). destruct (Hle k ck E) as (c' & E' & _ & Hs'). exists c'. auto.
    - apply (i_once _ _ Hi).
    - by rewrite Hfl1. }
  unfold reader_send in Hs.
  destruct (at_stage c); [destruct (buf c); [by injection Hs as <-|done]..|].
  injection Hs as <-. apply (inv_quiet st0 s); try done; [by right|by intros e ?%elem_of_nil|constructor|by intros k ?%elem_of_nil].
Qed.

Lemma inv_handle st0 s tag m u :
  inv st0 s ->
  match tag with Some n => up s = n :: u /\ exists c, calls s !! n = Some c /\ m = req c | None => u = up s end ->
  inv st0 (handle s tag m u).
Proof using Hserve.
  intros Hi Ht. unfold handle. destruct (serve m (srv s)) as [r st] eqn:Em. set (s' := with_server _ _ _ _ _).
  assert (Hown : own s' = own s ++ match tag with Some n => [n] | None => [] end).
  { unfold own. simpl. rewrite omap_app. simpl. by destruct tag. }
  assert (Hperm : up s' ++ own s' ≡ₚ up s ++ own s).
  { rewrite Hown. destruct tag as [n|]; [destruct Ht as [-> _]; simpl; solve_Permutation|]. subst u. simpl. by rewrite app_nil_r. }
  assert (Ha : forall n x, answered s n x -> answered s' n x).
  { intros n x. apply answered_mono; [by apply calls_le_refl|]. intros e He. simpl. apply elem_of_app. by left. }
  assert (Hnew : forall n, tag = Some n -> n ∉ own s).
  { intros n ->. destruct Ht as [Eu _]. pose proof (i_once _ _ Hi) as Ho. rewrite Eu in Ho. simpl in Ho.
    apply NoDup_cons in Ho as [Ho _]. intros Hin. apply Ho, elem_of_app. by right. }
  assert (Hfl : flight s' ≡ₚ flight s ++ match tag, r with Some n, Some _ => [n] | _, _ => [] end).
  { unfold flight. change (hand s') with (hand s). simpl. rewrite omap_app. destruct tag, r; simpl; solve_Permutation. }
  split.
  - apply (i_req _ _ Hi).
  - apply (i_chan _ _ Hi).
  - intros n Hn. rewrite Hperm in Hn. by apply (i_sent _ _ Hi).
  - simpl. intros t x [Hin|Hin]%elem_of_app.
    + pose proof (i_down _ _ Hi t x Hin) as H. destruct t; auto.
    + destruct tag as [n|], r as [r|]; try by apply elem_of_nil in Hin.
      apply list_elem_of_singleton in Hin as [= -> ->]. destruct Ht as (_ & c & Hc & ->). exists c.
      split; [done|]. simpl. apply elem_of_app. right. by left.
  - intros n x E. apply Ha. by apply (i_hand _ _ Hi).
  - intros n c E. destruct (i_buf _ _ Hi n c E) as [Hl Hb]. split; [done|]. intros x Hx. by apply Ha, Hb.
  - intros n c x E Hr. apply Ha. by apply (i_ret _ _ Hi n c).
  - rewrite Hperm. apply (i_once _ _ Hi).
  - rewrite Hfl. apply NoDup_app. splits; [apply (i_flight _ _ Hi)| |destruct tag, r; apply NoDup_singleton || constructor].
    intros x Hx Hin. destruct tag as [n|], r; try by apply elem_of_nil in Hin.
    apply list_elem_of_singleton in Hin as ->. apply (Hnew n eq_refl). by apply (flight_own st0).
  - intros n c Hn E. rewrite Hfl in Hn. apply elem_of_app in Hn as [Hn|Hn]; [by eapply (i_empty _ _ Hi)|].
    destruct tag as [n0|], r; try by apply elem_of_nil in Hn. apply list_elem_of_singleton in Hn as ->.
    destruct (buf c) as [|x l] eqn:Eb; [done|exfalso]. apply (Hnew n0 eq_refl), (answered_own s n0 x).
    apply (i_buf _ _ Hi n0 c E). rewrite Eb. by left.
  - simpl. rewrite !fmap_app. simpl. rewrite (replay_snoc _ _ _ _ _ (i_log _ _ Hi)), Em. done.
Qed.

Lemma inv_push st0 s k f v :
  inv st0 s -> inv st0 (with_server s (up s) (down s ++ [(None, watch_msg k f v)]) (srv s) (served s)).
Proof using Type.
  intros Hi. set (s' := with_server _ _ _ _ _).
  assert (Hfl : flight s' = flight s) by (unfold flight; simpl; by rewrite omap_app, app_nil_r).
  destruct Hi as [H1 H2 H3 H4 H5 H6 H7 H8 H9 H10 H11]. split; rewrite ?Hfl; try done.
  simpl. intros t x [Hin|Hin]%elem_of_app; [by apply H4|]. by apply list_elem_of_singleton in Hin as [= -> ->].
Qed.
Lemma cstep_length s s' : step s s' -> (length (calls s) <= length (calls s'))%nat.
Proof using Type.
  destruct 1; unfold start_call, send_call, lose_call, end_call, handle; simpl; rewrite ?length_app, ?length_alter; try (simpl; lia).
  - unfold reader_send in *. repeat case_match; simplify_eq; simpl; rewrite ?length_alter; done.
  - destruct (serve _ _); simpl; done.
  - destruct (serve _ _); simpl; done.
Qed.

Lemma cstep_inv st0 s s' : step s s' -> Z.of_nat (length (calls s')) < 2 ^ 31 -> inv st0 s -> inv st0 s'.
Proof using Hserve.
  intros Hs Hsm Hi. pose proof (cstep_length _ _ Hs) as Hl.
  assert (Hconn : forall b r, (forall n m, r <> RSend n m) -> inv st0 (with_conn s b r)).
  { intros b r Hr. assert (Hfl : flight (with_conn s b r) = []).
    { unfold flight, hand. simpl. destruct r; try done. by destruct (Hr c m). }
    apply (inv_quiet st0 s); rewrite ?Hfl; try done; [by right|by intros e ?%elem_of_nil| |constructor|by intros n ?%elem_of_nil].
    simpl. intros n m E. by destruct (Hr n m). }
  assert (Hw : forall w o, inv st0 (with_watch s w o)) by (intros w o; destruct Hi; by split).
  assert (Hf : flight s = omap fst (down s) ++ hand s) by done.
  pose proof (i_flight _ _ Hi) as Hnd.
  destruct Hs; try by auto using inv_start, inv_push.
  - by eapply inv_send.
  - by eapply inv_lose.
  - by apply inv_writer, inv_end.
  - apply inv_end; [done..|]. intros m' [= <-]. apply (i_buf _ _ Hi n c H). rewrite H1. by left.
  - by apply inv_end.
  - eapply inv_read; [done| |done..]. lia.
  - by eapply inv_deliver.
  - unfold hand in Hf. rewrite H, app_nil_r in Hf. rewrite Hf in Hnd.
    apply (inv_quiet st0 s); try done; [by left| |].
    + unfold flight, hand. simpl. by rewrite app_nil_r.
    + rewrite Hf. unfold flight, hand. simpl. intros n. by rewrite app_nil_r.
  - apply inv_start. destruct (inv_writer st0 _ false (Hconn false RRead ltac:(done))). by split.
  - apply inv_handle; [done|]. split; [done|]. by exists c.
  - by apply inv_handle.
Qed.

Lemma inv_started st0 : inv st0 (started st0).
Proof using Type.
  split; try done.
  - intros n Hn. by apply elem_of_nil in Hn.
  - intros t x Hx. by apply elem_of_nil in Hx.
  - constructor.
  - constructor.
Qed.

Lemma reachable_inv st0 s : reachable st0 s -> Z.of_nat (length (calls s)) < 2 ^ 31 -> inv st0 s.
Proof using Hserve.
  intros Hr. unfold reachable in Hr. pose proof (inv_started st0) as H0.
  remember (started st0) as s0 eqn:E0. clear E0. induction Hr as [s|s s1 s2 Hs Hr IH]; [done|]. intros Hsm.
  assert (Hl : (length (calls s1) <= length (calls s2))%nat).
  { clear -Hr. induction Hr; [done|]. pose proof (cstep_length _ _ H). lia. }
  apply IH; [|done]. eapply cstep_inv; [done|lia|done].
Qed.

(** C8. However the callers, the reader, the callbacks and the server are
    interleaved, with connections lost and reopened: until 2^31 calls have been
    made, a call that gets a reply gets the one the server gave to its own
    request, in one sequential run of the server over all requests in which every
    request of this client is handled at most once; and the reader never waits
    for a caller to take a reply. *)
Theorem watch_client_own_reply (st0 : S) (s : machine) (Hr : reachable st0 s)
    (Hsm : Z.of_nat (length (calls s)) < 2 ^ 31) :
  (forall n c m, calls s !! n = Some c -> at_stage c = CReturned (RMsg m) -> (Some n, req c, Some m) ∈ served s) /\
  replay (served s).*1.*2 st0 = ((served s).*2, srv s) /\
  NoDup (omap (fun e => e.1.1) (served s)) /\
  (forall n m, reader s = RSend n m -> exists c s', calls s !! n = Some c /\ Seq (req c) = Seq m /\ reader_send s n c m = Some s').
Proof using Hserve.
  pose proof (reachable_inv st0 s Hr Hsm) as Hi. splits.
  - intros n c m Hc Hg. destruct (i_ret _ _ Hi n c m Hc Hg) as (c' & Hc' & Hin). congruence.
  - apply (i_log _ _ Hi).
  - pose proof (i_once _ _ Hi) as Ho. by apply NoDup_app in Ho as (_ & _ & ?).
  - intros n m Hm. destruct (i_hand _ _ Hi n m Hm) as (c & Hc & Hin). exists c.
    assert (Hb : buf c = []).
    { apply (i_empty _ _ Hi n); [|done]. unfold flight, hand. rewrite Hm. apply elem_of_app. right. by left. }
    unfold reader_send. rewrite Hb. rewrite (i_answer_seq _ _ _ _ _ Hi Hc Hin).
    destruct (at_stage c); eexists; by splits.
Qed.
(** *** A reply that comes too late *)

(** Of a call made after the reader has panicked: what may have become of it, and
    whether its request got into the buffer. *)
Definition dead_call (c : call) : Prop :=
  buf c = [] /\ match at_stage c with CReturned (RMsg _) => False | _ => True end.
Definition written (c : call) : bool :=
  match at_stage c with CWaiting | CReturned RTimeout => true | _ => false end.
Record dead_from (n0 : nat) (s : machine) : Prop := {
  d_reader : reader s = RPanicked;
  d_closed : closed s = true;
  d_call n c : (n0 <= n)%nat -> calls s !! n = Some c -> dead_call c;
  d_written n c : (n0 <= n)%nat -> calls s !! n = Some c -> written c = true -> Werr s = true;
  d_one n n' c c' : (n0 <= n)%nat -> (n0 <= n')%nat -> calls s !! n = Some c -> calls s !! n' = Some c' ->
    written c = true -> written c' = true -> n = n'
}.

Lemma start_dead n0 s cmd values : dead_from n0 s -> dead_from n0 (start_call s cmd values).
Proof using Type.
  intros [Hr Hc Hd Hw Ho].
  assert (Hold : forall n c, calls (start_call s cmd values) !! n = Some c ->
    calls s !! n = Some c \/ (dead_call c /\ written c = false)).
  { intros n c [E|[_ E]]%lookup_app_Some; [by left|]. apply list_lookup_singleton_Some in E as [_ <-]. by right. }
  split; [done|done|..].
  - intros n c Hn [E|[E _]]%Hold; [by eapply Hd|done].
  - intros n c Hn [E|[_ E]]%Hold Hwr; [by eapply Hw|congruence].
  - intros n n' c c' Hn Hn' [E|[_ E]]%Hold [E'|[_ E']]%Hold H H'; [by eapply Ho|congruence..].
Qed.

(** A step on one call, which gets into the buffer only of a writer without error. *)
Lemma alter_dead n0 s s' f n c :
  dead_from n0 s -> calls s !! n = Some c -> calls s' = alter f n (calls s) ->
  reader s' = reader s -> closed s' = closed s -> (Werr s = true -> Werr s' = true) ->
  ((n0 <= n)%nat -> dead_call c -> dead_call (f c)) ->
  (written (f c) = true -> written c = true \/ (Werr s = false /\ Werr s' = true)) -> dead_from n0 s'.
Proof using Type.
  intros [Hr Hc Hd Hw Ho] Hn Ec Er Ecl Hwe Hdc Hwc.
  assert (Hold : forall k ck, calls s' !! k = Some ck ->
    (k <> n /\ calls s !! k = Some ck) \/ (k = n /\ ck = f c)).
  { intros k ck E. rewrite Ec in E. destruct (decide (k = n)) as [->|Hne].
    - rewrite list_lookup_alter_eq, Hn in E. injection E as <-. by right.
    - rewrite list_lookup_alter_ne in E by done. by left. }
  split; [congruence|congruence|..].
  - intros k ck Hk [[_ E]|[-> ->]]%Hold; [by eapply Hd|]. apply Hdc; [done|]. by eapply Hd.
  - intros k ck Hk [[_ E]|[-> ->]]%Hold Hwr; [by eapply Hwe, Hw|]. destruct (Hwc Hwr) as [H|[_ H]]; [by eapply Hwe, Hw|done].
  - intros k k' ck ck' Hk Hk' [[Hne E]|[-> ->]]%Hold [[Hne' E']|[-> ->]]%Hold H H'; [by eapply Ho| | |done].
    + destruct (Hwc H') as [H''|[H'' _]]; [by eapply Ho|]. pose proof (Hw k ck Hk E H). congruence.
    + destruct (Hwc H) as [H''|[H'' _]]; [by eapply Ho|]. pose proof (Hw k' ck' Hk' E' H'). congruence.
Qed.

Lemma step_dead n0 s s' : step s s' -> dead_from n0 s -> dead_from n0 s'.
Proof using Type.
  intros Hs Hdead. pose proof Hdead as [Hr Hc Hd Hw Ho].
  destruct Hs; try congruence; try (by split); try (apply start_dead; by split).
  - unfold alive in *. by rewrite Hr in *.
  - eapply (alter_dead n0 s _ (set_stage CWaiting)); try done; [|by right]. intros _ [Hb _]. by split.
  - eapply (alter_dead n0 s _ (fun c => set_buf [] (set_stage (CReturned (RErr e)) c))); try done.
  - eapply (alter_dead n0 s _ (fun c => set_buf [] (set_stage (CReturned (RMsg m)) c))); try done.
    intros _ [Hb _]. congruence.
  - eapply (alter_dead n0 s _ (fun c => set_buf [] (set_stage (CReturned RTimeout) c))); try done.
    intros _. left. unfold written. by rewrite H0.
  - unfold handle. destruct (serve _ _). by split.
  - unfold handle. destruct (serve _ _). by split.
Qed.

Lemma dead_forever s s' : reader s = RPanicked -> closed s = true -> rtc step s s' -> dead_from (length (calls s)) s'.
Proof using Type.
  intros Hr Hc Hs. assert (H0 : dead_from (length (calls s)) s).
  { split; [done|done|..]; intros n; intros; [|exfalso..]; match goal with H : calls s !! n = Some _ |- _ => apply lookup_lt_Some in H end; lia. }
  revert H0. generalize (length (calls s)). intros n0 H0. clear Hr Hc.
  induction Hs as [|a b c Hab _ IH]; [done|]. by apply IH, (step_dead n0 a).
Qed.

(** One RawCall after the panic does get its request into the buffer. *)
Lemma dead_timeout s (cmd : string) (values : list string) : Werr s = false ->
  exists s' c, rtc step s s' /\ calls s' !! length (calls s) = Some c /\ Cmd (req c) = cmd /\ Values (req c) = values /\
    at_stage c = CReturned RTimeout.
Proof using Type.
  intros He. set (n := length (calls s)). set (m := {| Cmd := cmd; Seq := seq_of n; Values := values |}).
  set (c g := {| req := m; at_stage := g; buf := [] |}). set (s1 := start_call s cmd values). set (s2 := lose_call s1 n).
  assert (E1 : calls s1 !! n = Some (c CSending)) by (by apply list_lookup_middle).
  assert (E2 : calls s2 !! n = Some (c CWaiting)).
  { change (alter (set_stage CWaiting) n (calls s1) !! n = Some (c CWaiting)). by rewrite list_lookup_alter_eq, E1. }
  exists (end_call s2 n (c CWaiting) RTimeout), (c (CReturned RTimeout)). splits; [|
    change (alter (fun c => set_buf [] (set_stage (CReturned RTimeout) c)) n (calls s2) !! n = Some (c (CReturned RTimeout)));
    by rewrite list_lookup_alter_eq, E2|done..].
  eapply rtc_l; [apply (cstep_start s cmd values)|]. eapply rtc_l; [by apply (cstep_send_lost s1 n (c CSending))|].
  apply rtc_once. by apply (cstep_timeout s2 n (c CWaiting)).
Qed.

(** A call whose reply arrives between the reader's look at MessageChan and its
    send, while the call times out. *)
Lemma late_reply st0 cmd values r st' :
  serve {| Cmd := cmd; Seq := 1; Values := values |} st0 = (Some r, st') -> Seq r = 1 ->
  exists s, reachable st0 s /\ reader s = RPanicked /\ closed s = true /\ Werr s = false.
Proof using Type.
  intros Hsv Hq. set (m := {| Cmd := cmd; Seq := 1; Values := values |}) in *.
  set (s1 := start_call (started st0) cmd values). set (c1 := {| req := m; at_stage := CSending; buf := [] |}).
  set (s2 := send_call s1 0). set (c2 := {| req := m; at_stage := CWaiting; buf := [] |}).
  set (s3 := handle s2 (Some 0%nat) m []).
  assert (E3 : s3 = with_server s2 [] [(Some 0%nat, r)] st' [(Some 0%nat, m, Some r)]) by (unfold s3, handle; simpl; by rewrite Hsv).
  set (s4 := with_reader s3 (reader_dispatch s3 r) []).
  assert (E4 : reader s4 = RSend 0 r). { unfold s4. rewrite E3. simpl. unfold reader_dispatch. simpl. by rewrite Hq. }
  assert (C4 : calls s4 = [c2]) by (unfold s4; by rewrite E3).
  set (c5 := {| req := m; at_stage := CReturned RTimeout; buf := [] |}).
  assert (C5 : calls (end_call s4 0 c2 RTimeout) = [c5]).
  { transitivity (alter (fun c => set_buf [] (set_stage (CReturned RTimeout) c)) 0%nat (calls s4)); [done|by rewrite C4]. }
  exists (with_conn (end_call s4 0 c2 RTimeout) true RPanicked). split; [|by unfold s4; rewrite E3].
  eapply rtc_l; [apply (cstep_start _ cmd values)|]. fold s1.
  eapply rtc_l; [by apply (cstep_send s1 0 c1)|]. fold s2.
  eapply rtc_l; [by apply (cstep_serve s2 0 c2 [])|]. change (handle _ _ _ _) with s3.
  eapply rtc_l; [apply (cstep_read s3 (Some 0%nat) r []); by rewrite E3|]. fold s4.
  eapply rtc_l; [apply (cstep_timeout s4 0 c2); by rewrite ?C4|].
  apply rtc_once. apply (cstep_deliver _ 0 c5 r); [exact E4|by rewrite C5|done].
Qed.
(** *** Callbacks that make a call while two more messages wait *)

Definition waiting_call (s : machine) (n : nat) : Prop :=
  exists c, calls s !! n = Some c /\ at_stage c = CWaiting /\ buf c = [].
Definition timed_out (s : machine) (n : nat) : Prop :=
  exists c, calls s !! n = Some c /\ at_stage c = CReturned RTimeout.
Definition starved (s : machine) (ns : list nat) : Prop :=
  watchers s = Some <$> ns /\ (exists m, reader s = RWatch m) /\ WatchChan s <> [] /\ Forall (waiting_call s) ns.

Lemma timed_out_step s s' n : step s s' -> timed_out s n -> timed_out s' n.
Proof using Type.
  intros Hs (c & Hc & Hg).
  assert (Hkeep : forall f k ck, calls s !! k = Some ck -> (k = n -> False) \/ (forall c, at_stage (f c) = at_stage c) ->
    exists c', alter f k (calls s) !! n = Some c' /\ at_stage c' = CReturned RTimeout).
  { intros f k ck Hk Hf. destruct (decide (k = n)) as [->|Hne].
    - exists (f c). rewrite list_lookup_alter_eq, Hc. split; [done|]. destruct Hf as [[]|Hf]; [done|by rewrite Hf].
    - exists c. by rewrite list_lookup_alter_ne by congruence. }
  unfold timed_out. destruct Hs; try by exists c.
  all: try (exists c; split; [by apply lookup_app_l_Some|done]).
  all: try (eapply Hkeep; [done|left; intros ->; congruence]).
  - unfold reader_send in *. repeat case_match; simplify_eq; simpl; try (by exists c); eapply Hkeep; [done|by right|done|by right].
  - unfold handle. destruct (serve _ _). by exists c.
  - unfold handle. destruct (serve _ _). by exists c.
Qed.

(** Steps on other calls leave a waiting call waiting. *)
Lemma waiting_same s s' n : calls s' = calls s -> waiting_call s n -> waiting_call s' n.
Proof using Type. unfold waiting_call. by intros ->. Qed.
Lemma waiting_start s cmd values n : waiting_call s n -> waiting_call (start_call s cmd values) n.
Proof using Type. intros (c & Hc & H). exists c. split; [by apply lookup_app_l_Some|done]. Qed.
Lemma waiting_alter s s' f k n c :
  calls s' = alter f k (calls s) -> calls s !! k = Some c -> at_stage c <> CWaiting \/ n <> k -> waiting_call s n -> waiting_call s' n.
Proof using Type.
  intros E Hk Hne (cn & Hc & Hg & Hb). exists cn. rewrite E, list_lookup_alter_ne; [done|]. intros ->.
  destruct Hne; congruence.
Qed.

Lemma starved_step s s' ns : step s s' -> starved s ns -> starved s' ns \/ exists n, n ∈ ns /\ timed_out s' n.
Proof using Type.
  intros Hs (Hw & [mr Hr] & Hch & Hall).
  assert (Hbusy : forall i, watchers s !! i <> Some None).
  { intros i. rewrite Hw, list_lookup_fmap. by destruct (ns !! i). }
  assert (Hret : forall i n, watchers s !! i = Some (Some n) -> returned s n = true -> False).
  { intros i n E. rewrite Hw, list_lookup_fmap in E. destruct (ns !! i) as [n'|] eqn:Ei; [|done]. injection E as ->.
    destruct (Forall_lookup_1 _ _ _ _ Hall Ei) as (c & Hc & Hg & _). unfold returned. by rewrite Hc, Hg. }
  assert (Hkeep : forall s', watchers s' = watchers s -> reader s' = reader s -> WatchChan s' = WatchChan s ->
    (forall n, n ∈ ns -> waiting_call s n -> waiting_call s' n) -> starved s' ns).
  { intros s2 E1 E2 E3 H. split; [congruence|split; [exists mr; congruence|split; [congruence|]]].
    rewrite Forall_forall in *. auto. }
  destruct Hs; try congruence; try (exfalso; by eapply Hbusy); try (exfalso; by eapply Hret).
  - left. apply Hkeep; [done..|]. intros k _. apply waiting_start.
  - left. apply Hkeep; [done..|]. intros k _. apply (waiting_alter _ _ (set_stage CWaiting) n _ c); [done..|left; congruence].
  - left. apply Hkeep; [done..|]. intros k _. apply (waiting_alter _ _ (set_stage CWaiting) n _ c); [done..|left; congruence].
  - left. apply Hkeep; [done..|]. intros k _. eapply (waiting_alter _ _ _ n _ c); [done..|left; congruence].
  - left. apply Hkeep; [done..|]. intros k _ Hk. eapply (waiting_alter _ _ _ n _ c); [done|done| |done].
    right. intros ->. destruct Hk as (ck & Hck & _ & Hb). congruence.
  - destruct (decide (n ∈ ns)) as [Hin|Hout].
    + right. exists n. split; [done|]. exists (set_buf [] (set_stage (CReturned RTimeout) c)). simpl. by rewrite list_lookup_alter_eq, H.
    + left. apply Hkeep; [done..|]. intros k Hk. eapply (waiting_alter _ _ _ n _ c); [done|done|]. right. by intros ->.
  - left. unfold handle. destruct (serve _ _). apply Hkeep; [done..|]. intros k _. by apply waiting_same.
  - left. unfold handle. destruct (serve _ _). apply Hkeep; [done..|]. intros k _. by apply waiting_same.
  - left. apply Hkeep; [done..|]. intros j _. by apply waiting_same.
Qed.

Lemma starved_forever s s' ns : rtc step s s' -> starved s ns -> starved s' ns \/ exists n, n ∈ ns /\ timed_out s' n.
Proof using Type.
  intros Hs H0. assert (H : starved s ns \/ exists n, n ∈ ns /\ timed_out s n) by by left. clear H0.
  induction Hs as [|a b c Hab _ IH]; [done|]. apply IH. destruct H as [H|(n & Hn & H)]; [by eapply starved_step|].
  right. exists n. split; [done|]. by eapply timed_out_step.
Qed.

Lemma starved_reachable st0 (cmd : string) (values : list string) : exists s, reachable st0 s /\ starved s [0%nat].
Proof using Type.
  set (m := watch_msg "k" "f" "v"). set (q := (None, m) : option nat * WatchMessage).
  set (s0 := started st0).
  set (s3 := with_server s0 [] [q; q; q] st0 []).
  set (s5 := with_reader (with_watch s3 [m] [None]) RRead [q; q]).
  set (s6 := start_call (with_watch s5 [] [Some 0%nat]) cmd values).
  set (s7 := send_call s6 0). set (s9 := with_reader (with_watch s7 [m] [Some 0%nat]) RRead [q]).
  exists (with_reader s9 (RWatch m) []). split; [|split; [done|split; [by exists m|split; [done|]]]; by apply Forall_singleton; eexists].
  eapply rtc_l; [apply (cstep_push s0 "k" "f" "v")|].
  eapply rtc_l; [apply (cstep_push _ "k" "f" "v")|].
  eapply rtc_l; [apply (cstep_push _ "k" "f" "v")|].
  eapply rtc_l; [by apply (cstep_read s3 None m [q; q])|].
  eapply rtc_l; [by apply (cstep_deliver_watch _ m)|].
  eapply rtc_l; [by apply (cstep_watch_call s5 0 m [] cmd values)|].
  eapply rtc_l; [by apply (cstep_send s6 0 {| req := {| Cmd := cmd; Seq := 1; Values := values |}; at_stage := CSending; buf := [] |})|].
  eapply rtc_l; [by apply (cstep_read s7 None m [q])|].
  eapply rtc_l; [by apply (cstep_deliver_watch _ m)|].
  eapply rtc_once. by apply (cstep_read s9 None m []).
Qed.
End machine.

(** C35. What a timeout does.  A call that waited ten seconds for its reply has
    nil, and Hget, Hgetall, KeyPrefix, Hincrby and RawCall dereference it: they
    panic.  A reply that comes just as its call times out is sent on a closed
    channel: the reader panics, unlike after a read error no reconnection is
    scheduled, and from then on the client is closed and no call gets a reply: a
    call that returns has an error of the write or, since WriteWatchMessage drops
    the error of Flush, one of them (and at most one) a timeout.  When every
    callback loop waits for a call while the channel and the reader hold two more
    watch messages, the callbacks wait for a reader that waits for them: the first
    of their calls that ends times out. *)
Theorem watch_client_timeout (S : Type) (serve : WatchMessage -> S -> option WatchMessage * S) (st0 : S) :
  (forall (send : WatchMessage -> S -> rsp * S) wc s key field add,
     (forall m s, exists s', send m s = (RTimeout, s')) -> isClose wc = false ->
     (Hget send wc s key field).1.1 = Panic nil_deref /\ (Hgetall send wc s key).1.1 = Panic nil_deref /\
     (KeyPrefix send wc s key).1.1 = Panic nil_deref /\ (Hincrby send wc s key field add).1.1 = Panic nil_deref /\
     (RawCall send wc s [key]).1.1 = Panic nil_deref) /\
  (forall cmd values r st', serve {| Cmd := cmd; Seq := 1; Values := values |} st0 = (Some r, st') -> Seq r = 1 ->
     exists s, reachable serve st0 s /\ reader s = RPanicked /\ closed s = true /\ Werr s = false) /\
  (forall s s', reader s = RPanicked -> closed s = true -> rtc (step serve) s s' ->
     reader s' = RPanicked /\ closed s' = true /\
     (forall n c r, (length (calls s) <= n)%nat -> calls s' !! n = Some c -> at_stage c = CReturned r ->
        r = RTimeout \/ exists e, r = RErr e) /\
     (forall n n', (length (calls s) <= n)%nat -> (length (calls s) <= n')%nat -> timed_out s' n -> timed_out s' n' -> n = n')) /\
  (forall s (cmd : string) (values : list string), Werr s = false ->
     exists s' c, rtc (step serve) s s' /\ calls s' !! length (calls s) = Some c /\ Cmd (req c) = cmd /\
       Values (req c) = values /\ at_stage c = CReturned RTimeout) /\
  (exists s, reachable serve st0 s /\ starved s [0%nat]) /\
  (forall s s' ns, starved s ns -> rtc (step serve) s s' ->
     (forall n, n ∈ ns -> waiting_call s' n) \/ exists n, n ∈ ns /\ timed_out s' n).
Proof.
  splits.
  - intros send wc s key field add Hs Hc. unfold Hget, Hgetall, KeyPrefix, Hincrby, RawCall, request. rewrite Hc.
    repeat match goal with |- context [send ?m s] => destruct (Hs m s) as [? ->] end. done.
  - apply late_reply.
  - intros s s' Hr Hc Hs. destruct (dead_forever serve s s' Hr Hc Hs) as [H1 H2 H3 _ H5]. splits; [done..| |].
    + intros n c r Hn Hlk Hg. destruct (H3 n c Hn Hlk) as [_ H]. rewrite Hg in H. destruct r; try done; eauto.
    + intros n n' Hn Hn' (c & Hc1 & Hg) (c' & Hc1' & Hg'). eapply H5; try done; unfold written; by rewrite ?Hg, ?Hg'.
  - apply dead_timeout.
  - by apply (starved_reachable serve st0 "hget" ["k"; "f"]).
  - intros s s' ns Hst Hs. destruct (starved_forever serve s s' ns Hs Hst) as [(_ & _ & _ & H)|H]; [left|by right].
    by apply Forall_forall.
Qed.

(** ** The store seen through a client *)

(** What a table of the server may hold to be sent over the wire. *)
Definition clean (t : table) : Prop :=
  forall k m, t !! k = Some m -> no_nl k /\ forall f v, m !! f = Some v -> no_nl f /\ no_nl v.
Definition small (t : table) : Prop :=
  Z.of_nat (size t) < 2 ^ 63 /\ forall k m, t !! k = Some m -> 2 * Z.of_nat (size m) < 2 ^ 63.

(** The promise to the packages that use a client: each call acts on the
    server's table of keys and fields. *)
Class WatchApi := {
  conn : Type;
  tbl : conn -> table;
  w_ok : conn -> Prop;
  w_Hget : conn -> string -> string -> go string * conn;
  w_Hgetall : conn -> string -> go (list string) * conn;
  w_KeyPrefix : conn -> string -> go (list string) * conn;
  w_Hset : conn -> string -> string -> string -> conn;
  w_Del : conn -> string -> conn;
  w_Hincrby : conn -> string -> string -> Z -> go Z * conn;
  w_Hget_ok c k f : w_ok c -> no_nl k -> no_nl f -> exists c',
    w_Hget c k f = (Ret (if decide (k = "" \/ f = "") then "" else default "" (field_of (tbl c) k f)), c') /\
    tbl c' = tbl c /\ w_ok c';
  w_Hgetall_ok c k : w_ok c -> small (tbl c) -> no_nl k -> exists l c',
    w_Hgetall c k = (Ret (l ≫= fun '(f, v) => [f; v]), c') /\ tbl c' = tbl c /\ w_ok c' /\
    NoDup l.*1 /\ forall f v, (f, v) ∈ l <-> k <> "" /\ field_of (tbl c) k f = Some v;
  w_KeyPrefix_ok c p : w_ok c -> small (tbl c) -> no_nl p -> exists l c',
    w_KeyPrefix c p = (Ret l, c') /\ tbl c' = tbl c /\ w_ok c' /\
    NoDup l /\ forall k, k ∈ l <-> HasPrefix k p = true /\ is_Some (tbl c !! k);
  w_Hset_ok c k f v : w_ok c -> no_nl k -> no_nl f -> no_nl v ->
    tbl (w_Hset c k f v) = (if decide (k = "" \/ f = "") then tbl c else set_field (tbl c) k f v) /\ w_ok (w_Hset c k f v);
  w_Del_ok c k : w_ok c -> no_nl k -> tbl (w_Del c k) = delete k (tbl c) /\ w_ok (w_Del c k);
  w_Hincrby_ok c k f n : w_ok c -> no_nl k -> no_nl f -> k <> "" -> f <> "" -> in_s 64 n ->
    let v := i64 (n + (Atoi (default "" (field_of (tbl c) k f))).1) in exists c',
    w_Hincrby c k f n = (Ret v, c') /\ tbl c' = set_field (tbl c) k f (Itoa v) /\ w_ok c'
}.

Lemma clean_set_field t k f v : clean t -> no_nl k -> no_nl f -> no_nl v -> clean (set_field t k f v).
Proof.
  intros Ht Hk Hf Hv k' m. unfold set_field.
  assert (Hd : forall f' v', default ∅ (t !! k) !! f' = Some v' -> no_nl f' /\ no_nl v').
  { intros f' v'. destruct (t !! k) as [m0|] eqn:E; simpl; [by apply (Ht k m0)|by rewrite lookup_empty]. }
  case_decide; intros [[<- <-]|[_ E]]%lookup_insert_Some; try by apply (Ht k' m).
  - split; [done|]. intros f' v' [_ E]%lookup_delete_Some. by apply Hd.
  - split; [done|]. intros f' v' [[<- <-]|[_ E]]%lookup_insert_Some; [done|by apply Hd].
Qed.

Lemma clean_delete t k : clean t -> clean (delete k t).
Proof. intros Ht k' m [_ E]%lookup_delete_Some. by apply (Ht k' m). Qed.

Section remote.
Context {B : Bolt} (ρ : RangeOrder) (i : Z).

(** The reply a handler of connection [i] sends first. *)
Definition first_reply (acts : list action) : option WatchMessage :=
  match acts with ASend j m :: _ => if decide (j = i) then Some m else None | _ => None end.

(** A message written at one end and read at the other. *)
Definition over_wire (m : WatchMessage) : option WatchMessage :=
  match WriteWatchMessage {| out := []; broken := None |} m with
  | Ret w => match ReadWatchMessage (out w) with Ret (m', _) => Some m' | _ => None end
  | _ => None
  end.

(** A call on a connection that works: the request goes to the server, its
    handler's reply comes back in time. *)
Definition exchange (m : WatchMessage) (s : WatchServer) : rsp * WatchServer :=
  match over_wire m with
  | Some m => match dispatch ρ s i m with
              | Ret (s', acts) =>
                  match first_reply acts with
                  | Some r => match over_wire r with Some r => (RMsg r, s') | None => (RTimeout, s') end
                  | None => (RTimeout, s')
                  end
              | _ => (RTimeout, s)
              end
  | None => (RTimeout, s)
  end.

Lemma over_wire_ok m : msg_ok m -> over_wire m = Some m.
Proof using Type.
  intros Hm. unfold over_wire. rewrite WriteWatchMessage_encode by done. simpl.
  pose proof (ReadWatchMessage_encode m [] Hm) as E. rewrite app_nil_r in E. by rewrite E.
Qed.

Lemma exchange_ok m s s' vals acts :
  msg_ok m -> Forall no_nl vals -> Z.of_nat (length vals) < 2 ^ 63 ->
  dispatch ρ s i m = Ret (s', ASend i (reply m vals) :: acts) -> exchange m s = (RMsg (reply m vals), s').
Proof using Type.
  intros Hm Hv Hl Hd. unfold exchange. rewrite over_wire_ok, Hd by done. simpl. rewrite decide_True by done.
  rewrite over_wire_ok; [done|]. destruct Hm as (H1 & H2 & H3 & _). by splits.
Qed.
Definition stored (s : WatchServer) : table := Data (Set_ (Set' s)).

Lemma request_ok wc s cmd values s' vals acts :
  no_nl cmd -> trimmed cmd -> Forall no_nl values -> (length values <= 3)%nat ->
  Forall no_nl vals -> Z.of_nat (length vals) < 2 ^ 63 ->
  (forall m, Cmd m = cmd -> Values m = values -> dispatch ρ s i m = Ret (s', ASend i (reply m vals) :: acts)) ->
  exists m seq, request (exchange) wc s cmd values = (RMsg m, {| isClose := isClose wc; SeqNo := seq |}, s') /\ Values m = vals.
Proof using Type.
  intros Hc Ht Hv Hlen Hvs Hl Hd. unfold request.
  set (m := {| Cmd := cmd; Seq := i32 (SeqNo wc + 1); Values := values |}).
  assert (Hm : msg_ok m).
  { unfold msg_ok. simpl. splits; try done; try lia; pose proof (wraps_range 32 (SeqNo wc + 1) ltac:(lia)) as Hw; unfold in_s in *; lia. }
  rewrite (exchange_ok m s s' vals acts Hm Hvs Hl (Hd m eq_refl eq_refl)). by exists (reply m vals), (i32 (SeqNo wc + 1)).
Qed.

(** A client whose connection is up, and the server. *)
Definition remote : Type := client * WatchServer.
Definition remote_ok (c : remote) : Prop := isClose c.1 = false /\ clean (stored c.2).
Definition on {A} (f : client -> WatchServer -> go A * client * WatchServer) (c : remote) : go A * remote :=
  let '(r, wc, s) := f c.1 c.2 in (r, (wc, s)).
Definition on_ (f : client -> WatchServer -> client * WatchServer) (c : remote) : remote :=
  let '(wc, s) := f c.1 c.2 in (wc, s).

(** Facts about the literals of a request. *)
Ltac lit :=
  match goal with
  | |- no_nl (String _ _) => by apply (bool_decide_unpack _); vm_compute
  | |- no_nl "" => by constructor
  | |- trimmed _ => by apply (bool_decide_unpack _); vm_compute
  | |- (length _ <= 3)%nat => simpl; lia
  | |- Forall no_nl [] => constructor
  | |- Forall no_nl (_ :: _) => repeat constructor; first [done | apply Itoa_no_nl]
  | |- Z.of_nat (length [_]) < _ => done
  | |- Z.of_nat (length []) < _ => done
  end.

Lemma remote_Hget c k f : remote_ok c -> no_nl k -> no_nl f -> exists c',
  on (fun wc s => Hget exchange wc s k f) c =
    (Ret (if decide (k = "" \/ f = "") then "" else default "" (field_of (stored c.2) k f)), c') /\
  stored c'.2 = stored c.2 /\ remote_ok c'.
Proof using Type.
  destruct c as [wc s]. intros [Hc Hcl] Hk Hf. unfold on. simpl in *. unfold Hget. rewrite Hc.
  set (v := if decide (k = "" \/ f = "") then "" else default "" (field_of (stored s) k f)).
  assert (Ev : HashSet.Hget (Set_ (Set' s)) k f = v).
  { unfold v, HashSet.Hget, field_of, stored. case_decide; [done|]. destruct (Data _ !! k) as [m|]; [|done]. simpl. by destruct (m !! f). }
  assert (Hv : no_nl v).
  { unfold v, field_of. case_decide; [lit|]. destruct (stored s !! k) as [m|] eqn:E; simpl; [|lit].
    destruct (m !! f) as [x|] eqn:Ex; simpl; [|lit]. apply (Hcl k m E) in Ex. by destruct Ex. }
  destruct (request_ok wc s "hget" [k; f] s [v] []) as (m & seq & -> & Em); try lit.
  - intros m Em Ev'. unfold dispatch. rewrite Em. simpl. unfold hgetProcess. rewrite Ev'. simpl. by rewrite Ev.
  - exists ({| isClose := isClose wc; SeqNo := seq |}, s). unfold rsp_first. rewrite Em. by split.
Qed.

Lemma pairs_length (l : list (string * string)) : length (l ≫= fun '(f, v) => [f; v]) = (2 * length l)%nat.
Proof using Type. induction l as [|[f v] l IH]; [done|]. change (((f, v) :: l) ≫= _) with (f :: v :: (l ≫= fun '(f, v) => [f; v])). simpl length. lia. Qed.

Lemma remote_Hgetall c k : remote_ok c -> small (stored c.2) -> no_nl k -> exists l c',
  on (fun wc s => Hgetall exchange wc s k) c = (Ret (l ≫= fun '(f, v) => [f; v]), c') /\
  stored c'.2 = stored c.2 /\ remote_ok c' /\
  NoDup l.*1 /\ forall f v, (f, v) ∈ l <-> k <> "" /\ field_of (stored c.2) k f = Some v.
Proof using Type.
  destruct c as [wc s]. intros [Hc Hcl] [Hs1 Hs2] Hk. unfold on. simpl in *. unfold Hgetall. rewrite Hc.
  assert (Hl : exists l, HashSet.Hgetall ρ (Set_ (Set' s)) k = (l ≫= fun '(f, v) => [f; v]) /\ NoDup l.*1 /\
    (forall f v, (f, v) ∈ l <-> k <> "" /\ field_of (stored s) k f = Some v) /\ 2 * Z.of_nat (length l) < 2 ^ 63).
  { unfold HashSet.Hgetall. case_decide as Hk0; [exists []; splits; [done|constructor|set_solver|done]|].
    unfold field_of. change (Data _) with (stored s). destruct (stored s !! k) as [m|] eqn:E.
    - exists (ρ _ (map_to_list m)). splits; [done|by rewrite (range_order_perm ρ); apply NoDup_fst_map_to_list| |].
      + intros f v. rewrite elem_of_range_order, elem_of_map_to_list. simpl. naive_solver.
      + rewrite (range_order_perm ρ), length_map_to_list. by apply (Hs2 k).
    - exists []. splits; [done|constructor|set_solver|done]. }
  destruct Hl as (l & El & Hnd & Hin & Hlen).
  destruct (request_ok wc s "hgetall" [k] s (l ≫= fun '(f, v) => [f; v]) []) as (m & seq & -> & Em); try lit.
  - apply Forall_bind, Forall_forall. intros [f v] Hfv. apply Hin in Hfv as [_ Hfv]. unfold field_of in Hfv.
    destruct (stored s !! k) as [m|] eqn:E; [|done]. simpl in Hfv. apply (Hcl k m E) in Hfv as [? ?]. by repeat constructor.
  - rewrite pairs_length. lia.
  - intros m Em Ev'. unfold dispatch. rewrite Em. simpl. unfold hgetallProcess. rewrite Ev'. simpl. by rewrite El.
  - exists l, ({| isClose := isClose wc; SeqNo := seq |}, s). unfold rsp_values. rewrite Em. by splits.
Qed.

Lemma remote_KeyPrefix c p : remote_ok c -> small (stored c.2) -> no_nl p -> exists l c',
  on (fun wc s => KeyPrefix exchange wc s p) c = (Ret l, c') /\ stored c'.2 = stored c.2 /\ remote_ok c' /\
  NoDup l /\ forall k, k ∈ l <-> HasPrefix k p = true /\ is_Some (stored c.2 !! k).
Proof using Type.
  destruct c as [wc s]. intros [Hc Hcl] [Hs1 _] Hp. unfold on. simpl in *. unfold KeyPrefix. rewrite Hc.
  set (l := HashSet.KeyPrefix ρ (Set_ (Set' s)) p).
  assert (Hin : forall k, k ∈ l <-> HasPrefix k p = true /\ is_Some (stored s !! k)) by (intros k; apply (listings_spec ρ (Set_ (Set' s)) p k)).
  assert (Hlen : Z.of_nat (length l) < 2 ^ 63).
  { assert (length l <= size (stored s))%nat; [|lia]. unfold l, HashSet.KeyPrefix. rewrite length_filter.
    by rewrite (range_order_perm ρ), length_fmap, length_map_to_list. }
  destruct (request_ok wc s "key_prefix" [p] s l []) as (m & seq & -> & Em); try lit.
  - apply Forall_forall. intros k Hk. apply Hin in Hk as [_ [m Hm]]. by apply (Hcl k m).
  - exact Hlen.
  - intros m Em Ev'. unfold dispatch. rewrite Em. simpl. unfold KeyPrefixtProcess. by rewrite Ev'.
  - exists l, ({| isClose := isClose wc; SeqNo := seq |}, s). unfold rsp_values. rewrite Em. splits; try done.
    apply (listings_spec ρ (Set_ (Set' s)) p p).
Qed.

Lemma remote_Hset c k f v : remote_ok c -> no_nl k -> no_nl f -> no_nl v ->
  let c' := on_ (fun wc s => Hset exchange wc s k f v) c in
  stored c'.2 = (if decide (k = "" \/ f = "") then stored c.2 else set_field (stored c.2) k f v) /\ remote_ok c'.
Proof using Type.
  destruct c as [wc s]. intros [Hc Hcl] Hk Hf Hv. unfold on_. simpl in *. unfold Hset. rewrite Hc.
  assert (Es : stored (set_Set s (HashSet.Hset (Set' s) k f v).2) =
    (if decide (k = "" \/ f = "") then stored s else set_field (stored s) k f v)).
  { unfold stored. rewrite <- hset_data. simpl. unfold HashSet.Hset. by destruct (hset _ _ _ _) as [[st []] s'']. }
  destruct (request_ok wc s "hset" [k; f; v] (set_Set s (HashSet.Hset (Set' s) k f v).2) [] (notify k f v))
    as (m & seq & -> & Em); try lit.
  - intros m Em Ev'. unfold dispatch. rewrite Em. simpl. unfold hsetProcess. by rewrite Ev'.
  - cbn [fst snd]. split; [exact Es|]. split; [done|]. cbn [snd]. rewrite Es. case_decide; [done|by apply clean_set_field].
Qed.

Lemma remote_Del c k : remote_ok c -> no_nl k ->
  let c' := on_ (fun wc s => Del exchange wc s k) c in stored c'.2 = delete k (stored c.2) /\ remote_ok c'.
Proof using Type.
  destruct c as [wc s]. intros [Hc Hcl] Hk. unfold on_. simpl in *. unfold Del. rewrite Hc.
  destruct (request_ok wc s "del" [k] (set_Set s (HashSet.Del (Set' s) k)) [] (notify k "" ""))
    as (m & seq & -> & Em); try lit.
  - intros m Em Ev'. unfold dispatch. rewrite Em. simpl. unfold delProcess. by rewrite Ev'.
  - cbn [fst snd]. split; [done|]. split; [done|]. by apply clean_delete.
Qed.

Lemma remote_Hincrby c k f n : remote_ok c -> no_nl k -> no_nl f -> k <> "" -> f <> "" -> in_s 64 n ->
  let v := i64 (n + (Atoi (default "" (field_of (stored c.2) k f))).1) in exists c',
  on (fun wc s => Hincrby exchange wc s k f n) c = (Ret v, c') /\ stored c'.2 = set_field (stored c.2) k f (Itoa v) /\ remote_ok c'.
Proof using Type.
  destruct c as [wc s]. intros [Hc Hcl] Hk Hf Hk0 Hf0 Hn v. unfold on. simpl in *. unfold Hincrby. rewrite Hc.
  destruct (HashSet.Hincrby (Set' s) k f n) as [x st] eqn:E.
  assert (E' : x = Itoa v /\ Data (Set_ st) = set_field (stored s) k f (Itoa v)).
  { unfold HashSet.Hincrby in E. destruct (hincrby_as_set (Set_ (Set' s)) k f n Hk0 Hf0) as (status & _ & E1).
    rewrite E1 in E. by injection E as <- <-. }
  destruct E' as [-> Es].
  destruct (request_ok wc s "hincrby" [k; f; Itoa n] (set_Set s st) [Itoa v] (notify k f (Itoa v)))
    as (m & seq & -> & Em); try lit.
  - intros m Em Ev'. unfold dispatch. rewrite Em. simpl. unfold hincrbyProcess. rewrite Ev'. simpl.
    rewrite Atoi_Itoa by done. simpl. by rewrite E.
  - exists ({| isClose := isClose wc; SeqNo := seq |}, set_Set s st). cbn [fst snd]. rewrite Em. simpl.
    rewrite Atoi_Itoa by (apply wraps_range; lia). splits; [done|exact Es|]. split; [done|]. unfold stored in *. simpl. rewrite Es.
    apply clean_set_field; [done..|apply Itoa_no_nl].
Qed.

(** The client and the server keep the promise. *)
#[global] Instance RemoteApi : WatchApi := {|
  conn := remote; tbl := fun c => stored c.2; w_ok := remote_ok;
  w_Hget c k f := on (fun wc s => Hget exchange wc s k f) c;
  w_Hgetall c k := on (fun wc s => Hgetall exchange wc s k) c;
  w_KeyPrefix c p := on (fun wc s => KeyPrefix exchange wc s p) c;
  w_Hset c k f v := on_ (fun wc s => Hset exchange wc s k f v) c;
  w_Del c k := on_ (fun wc s => Del exchange wc s k) c;
  w_Hincrby c k f n := on (fun wc s => Hincrby exchange wc s k f n) c;
  w_Hget_ok := remote_Hget; w_Hgetall_ok := remote_Hgetall; w_KeyPrefix_ok := remote_KeyPrefix;
  w_Hset_ok := remote_Hset; w_Del_ok := remote_Del; w_Hincrby_ok := remote_Hincrby
|}.
End remote.

(** ** Sequences of calls *)

Section api.
Context {W : WatchApi}.

Definition api_run (c : conn) (o : hs_op) : conn :=
  match o with
  | OpHset k f v => w_Hset c k f v
  | OpHincrby k f n => (w_Hincrby c k f n).2
  | OpDel k => w_Del c k
  end.

Definition op_clean (o : hs_op) : Prop :=
  match o with
  | OpHset k f v => no_nl k /\ no_nl f /\ no_nl v
  | OpHincrby k f n => no_nl k /\ no_nl f /\ k <> "" /\ f <> "" /\ in_s 64 n
  | OpDel k => no_nl k
  end.

Lemma api_run_ok c o : w_ok c -> op_clean o ->
  w_ok (api_run c o) /\ forall k f, field_of (tbl (api_run c o)) k f = kv_run (field_of (tbl c)) o k f.
Proof.
  intros Hc Ho. destruct o as [k0 f0 v|k0 f0 n|k0]; simpl in *.
  - destruct Ho as (Hk & Hf & Hv). destruct (w_Hset_ok c k0 f0 v Hc Hk Hf Hv) as [E Hok]. split; [done|].
    intros k f. rewrite E. case_decide; [done|]. apply field_of_set_field.
  - destruct Ho as (Hk & Hf & Hk0 & Hf0 & Hn). destruct (w_Hincrby_ok c k0 f0 n Hc Hk Hf Hk0 Hf0 Hn) as (c' & -> & E & Hok).
    split; [done|]. intros k f. simpl. rewrite E, decide_False by naive_solver. rewrite field_of_set_field.
    unfold kv_set. case_decide; [|done]. by rewrite decide_False by apply Itoa_nonempty.
  - destruct (w_Del_ok c k0 Hc Ho) as [E Hok]. split; [done|]. intros k f. rewrite E. apply field_of_delete.
Qed.

Lemma api_runs_ok ops : forall c, w_ok c -> Forall op_clean ops ->
  w_ok (fold_left api_run ops c) /\
  forall k f, field_of (tbl (fold_left api_run ops c)) k f = fold_left kv_run ops (field_of (tbl c)) k f.
Proof.
  assert (Hext : forall ops (m m' : kv), (forall k f, m k f = m' k f) ->
    forall k f, fold_left kv_run ops m k f = fold_left kv_run ops m' k f).
  { clear. induction ops as [|o ops IH]; intros m m' H k f; [apply H|]. simpl. apply IH. intros. by apply kv_run_ext. }
  induction ops as [|o ops IH]; intros c Hc Ho; [done|]. apply Forall_cons in Ho as [Ho Hops].
  destruct (api_run_ok c o Hc Ho) as [Hok E]. destruct (IH _ Hok Hops) as [Hok' E']. simpl. split; [done|].
  intros k f. rewrite E'. by apply Hext.
Qed.
End api.

(** C2. A connected client works on the store of the server: after any
    sequence of Hset, Hincrby and Del calls, each written by the client, read and
    handled by the server and answered over the wire, Hget returns what the
    abstract map from (key, field) to value holds, Hgetall lists its fields of the
    key once each and KeyPrefix the keys of the store, provided no string holds a
    newline and no listing is longer than an int. *)
Theorem watch_client_remote_store (B : Bolt) (ρ : RangeOrder) (i : Z) (wc : client) (s : WatchServer)
    (ops : list hs_op) (k f : string)
    (Hc : isClose wc = false) (Hs : clean (stored s)) (Hops : Forall op_clean ops) (Hk : no_nl k) (Hf : no_nl f) :
  let c := fold_left (api_run (W := RemoteApi ρ i)) ops (wc, s) in
  let m := fold_left kv_run ops (field_of (stored s)) in
  (Hget (exchange ρ i) c.1 c.2 k f).1.1 = Ret (if decide (k = "" \/ f = "") then "" else default "" (m k f)) /\
  (small (stored c.2) -> exists l,
     (Hgetall (exchange ρ i) c.1 c.2 k).1.1 = Ret (l ≫= fun '(f, v) => [f; v]) /\ NoDup l.*1 /\
     forall f v, (f, v) ∈ l <-> k <> "" /\ m k f = Some v) /\
  (small (stored c.2) -> exists l,
     (KeyPrefix (exchange ρ i) c.1 c.2 k).1.1 = Ret l /\ NoDup l /\
     forall k', k' ∈ l <-> HasPrefix k' k = true /\ is_Some (stored c.2 !! k')).
Proof.
  destruct (api_runs_ok (W := RemoteApi ρ i) ops (wc, s)) as [Hok E]; [done..|]. cbn zeta.
  set (c := fold_left _ _ _) in *. cbn [tbl RemoteApi snd] in E. splits.
  - destruct (remote_Hget ρ i c k f Hok Hk Hf) as (c' & Hg & _). unfold on in Hg.
    destruct (Hget _ _ _ _ _) as [[r ?] ?]. injection Hg as -> _. simpl. by rewrite <- (E k f).
  - intros Hsm. destruct (remote_Hgetall ρ i c k Hok Hsm Hk) as (l & c' & Hg & _ & _ & Hnd & Hin). exists l. unfold on in Hg.
    destruct (Hgetall _ _ _ _) as [[r ?] ?]. injection Hg as -> _. splits; [done..|]. intros f' v'. rewrite <- (E k f'). apply Hin.
  - intros Hsm. destruct (remote_KeyPrefix ρ i c k Hok Hsm Hk) as (l & c' & Hg & _ & _ & Hnd & Hin). exists l. unfold on in Hg.
    destruct (KeyPrefix _ _ _ _) as [[r ?] ?]. by injection Hg as -> _.
Qed.

Lemma watch_client_remote_store_witness :
  let c := fold_left (api_run (W := @RemoteApi BoltMap range_id 1)) [OpHset "k" "f" "7"; OpHincrby "k" "f" 3]
             ({| isClose := false; SeqNo := 0 |}, NewWatchServer None) in
  (Hget (exchange range_id 1) c.1 c.2 "k" "f").1.1 = Ret "10".
Proof.
  destruct (watch_client_remote_store BoltMap range_id 1 {| isClose := false; SeqNo := 0 |} (NewWatchServer None)
    [OpHset "k" "f" "7"; OpHincrby "k" "f" 3] "k" "f") as [H _].
  - reflexivity.
  - intros k m H. discriminate H.
  - repeat constructor; try discriminate.
  - apply (bool_decide_unpack _). vm_compute. exact I.
  - apply (bool_decide_unpack _). vm_compute. exact I.
  - exact H.
Defined.

Module ClientSample.
Definition echo (m : WatchMessage) (st : nat) : option WatchMessage * nat := (Some m, S st).
Definition m : WatchMessage := {| Cmd := "hget"; Seq := 1; Values := ["k"; "f"] |}.
Definition c (g : stage) (b : list WatchMessage) : call := {| req := m; at_stage := g; buf := b |}.
Definition s1 : machine := start_call (started 0%nat) "hget" ["k"; "f"].
Definition s2 : machine := send_call s1 0.
Definition s3 : machine := handle echo s2 (Some 0%nat) m [].
Definition s4 : machine := with_reader s3 (RSend 0 m) [].
Definition s5 : machine := with_reader (with_calls s4 [c CWaiting [m]] (MessageChan s4)) RRead [].
Definition s6 : machine := end_call s5 0 (c CWaiting [m]) (RMsg m).

Lemma s6_reachable : reachable echo 0%nat s6.
Proof.
  eapply rtc_l; [apply (cstep_start echo _ "hget" ["k"; "f"])|].
  eapply rtc_l; [by apply (cstep_send echo s1 0 (c CSending []))|].
  eapply rtc_l; [by apply (cstep_serve echo s2 0 (c CWaiting []) [])|].
  eapply rtc_l; [by apply (cstep_read echo s3 (Some 0%nat) m [])|].
  eapply rtc_l; [by apply (cstep_deliver echo s4 0 (c CWaiting []) m s5)|].
  apply rtc_once. by apply (cstep_recv echo s5 0 (c CWaiting [m]) m).
Qed.
End ClientSample.

Lemma watch_client_own_reply_witness :
  (Some 0%nat, ClientSample.m, Some ClientSample.m) ∈ served ClientSample.s6.
Proof.
  destruct (watch_client_own_reply ClientSample.echo ltac:(by intros m st r st' [= <- _])
    0%nat ClientSample.s6) as (H & _).
  - exact ClientSample.s6_reachable.
  - reflexivity.
  - exact (H 0%nat (ClientSample.c (CReturned (RMsg ClientSample.m)) []) ClientSample.m eq_refl eq_refl).
Defined.
