(* ===== verification/WatchConfig.v ===== *)
(** * Configuration and registration through a watch client: watch_config/

    node.go, service.go and gate.go keep everything in keys of the watch
    server.  They are proved against the class [WatchApi], which a connected
    client implements.  encoding/json is the class [Json]. *)

From Stdlib Require Import ZArith Lia Ascii String.
From stdpp Require Import base numbers list strings gmap.
From S2P Require Import Prelude GoStd HashSet WatchMessage WatchServer WatchClient Rand.

(** json.Marshal and json.Unmarshal at a type.  Unmarshal also returns what it
    has filled in when it fails.  Marshal writes one line, and what it writes is
    read back for values whose strings are valid UTF-8 ([json_ok]). *)
Class Json (A : Type) := {
  json_ok : A -> Prop;
  Marshal : A -> string;
  Unmarshal : string -> A * option go_error;
  json_line a : no_nl (Marshal a);
  json_nonempty a : Marshal a <> "";
  json_back a : json_ok a -> Unmarshal (Marshal a) = (a, None)
}.

(** ** Data *)

Module FunctionInfo.
Record t := { Name : string; Cmd : Z }.
End FunctionInfo.
Module ServiceInfo.
Record t := { Name : string; Func : list FunctionInfo.t }.
End ServiceInfo.
Module NodeInfo.
Record t := { Id : Z; Name : string; Type_ : string; Address : string; Service : list ServiceInfo.t; Region : Z; Set_ : string }.
End NodeInfo.
Module GateInfo.
Record t := { Name : string; Address : string; SSLAddress : string; KCPAddress : string; Region : Z; Time : Z }.
End GateInfo.

Definition NodeKey : string := "node:".
Definition ServiceKey : string := "service:".
Definition NodeRegisterKey : string := "nodeRegister".
Definition NodeLoadKey : string := "node_load".
Definition ServiceLoadKey : string := "service_load".
Definition GateKey : string := "gate".

(** fmt.Sprintf("%v:%v", a, b) *)
Definition colon (a b : string) : string := a +:+ String ":" b.

Section config.
Context {W : WatchApi} {JN : Json NodeInfo.t} {JG : Json GateInfo.t}.

(** ** node.go *)

Definition names (nodes : list string) : list string :=
  omap (fun node => match Split ":" node with [_; b] => Some b | _ => None end) nodes.

Definition GetAllName (client : conn) (prefix : string) : go (list string) * conn :=
  let '(nodes, client) := w_KeyPrefix client prefix in
  (nodes ← nodes; Ret (names nodes), client).

Definition GetNodeAllName (client : conn) : go (list string) * conn := GetAllName client NodeKey.

(** for i := 0; i < len(values); i = i + 2 over values[i] and values[i+1] *)
Fixpoint pairs (values : list string) : go (list (string * string)) :=
  match values with
  | [] => Ret []
  | a :: b :: values => l ← pairs values; Ret ((a, b) :: l)
  | [_] => Panic "index out of range"
  end.

Definition GetNodeAllConfig (client : conn) (nodeName : string) : go (gmap string string) * conn :=
  let '(values, client) := w_Hgetall client (NodeKey +:+ nodeName) in
  (values ← values; l ← pairs values; Ret (fold_left (fun m '(k, v) => <[k := v]> m) l ∅), client).

Definition SetNodeConfig (client : conn) (nodeName key value : string) : conn := w_Hset client (NodeKey +:+ nodeName) key value.
Definition DelNodeConfig (client : conn) (nodeName : string) : conn := w_Del client (NodeKey +:+ nodeName).
Definition GetNodeConfig (client : conn) (nodeName key : string) : go string * conn := w_Hget client (NodeKey +:+ nodeName) key.

Definition GetAllRegisterNode (client : conn) (set : string) : go (gmap string NodeInfo.t) * conn :=
  let '(values, client) := w_Hgetall client (colon NodeRegisterKey set) in
  (values ← values; l ← pairs values; Ret (fold_left (fun m '(k, v) => <[k := (Unmarshal v).1]> m) l ∅), client).

(** The loop over the services of RegisterNode and DelRegisterNode. *)
Definition set_services (client : conn) (name : string) (services : list ServiceInfo.t) : conn :=
  fold_left (fun client v => w_Hset client (colon ServiceLoadKey (ServiceInfo.Name v)) name "0") services client.

Definition RegisterNode (client : conn) (info : NodeInfo.t) : conn :=
  let client := w_Hset client (colon NodeRegisterKey (NodeInfo.Set_ info)) (NodeInfo.Name info) (Marshal info) in
  let client := w_Hset client (colon NodeLoadKey (NodeInfo.Type_ info)) (NodeInfo.Name info) "0" in
  set_services client (NodeInfo.Name info) (NodeInfo.Service info).

Definition DelRegisterNode (client : conn) (info : NodeInfo.t) : conn :=
  let client := w_Hset client (colon NodeRegisterKey (NodeInfo.Set_ info)) (NodeInfo.Name info) "" in
  let client := w_Hset client (colon NodeLoadKey (NodeInfo.Type_ info)) (NodeInfo.Name info) "" in
  set_services client (NodeInfo.Name info) (NodeInfo.Service info).

Definition GetRegisterNode (client : conn) (nodeName set : string) : go (option NodeInfo.t) * conn :=
  let '(value, client) := w_Hget client (colon NodeRegisterKey set) nodeName in
  (value ← value; if decide (value = "") then Ret None else Ret (Some (Unmarshal value).1), client).

(** ** service.go *)

Section alloc.
Context (draw64 : nat -> Z).

(** [k]: the draws used so far. *)
Definition allocLoad (client : conn) (key : string) (k : nat) : go (string * nat) * conn :=
  let '(values, client) := w_Hgetall client key in
  (values ← values; l ← pairs values;
   let weights := map (fun '(_, v) => u64 (Atoi v).1) l in
   '(i, _, k) ← RandLessWight draw64 weights k;
   name ← go_index l.*1 i;
   Ret (name, k), client).

Definition AllocServiceNode (client : conn) (serviceName : string) (k : nat) := allocLoad client (colon ServiceLoadKey serviceName) k.
Definition AllocNode (client : conn) (NodeType : string) (k : nat) := allocLoad client (colon NodeLoadKey NodeType) k.
End alloc.

Definition AddServiceLoad (client : conn) (nodeName serviceName : string) (add : Z) : conn :=
  (w_Hincrby client (colon ServiceLoadKey serviceName) nodeName add).2.
Definition AddNodeLoad (client : conn) (nodeName NodeType : string) (add : Z) : conn :=
  (w_Hincrby client (colon NodeLoadKey NodeType) nodeName add).2.

(** ** gate.go *)

Definition GetAllGate (client : conn) : go (list GateInfo.t) * conn :=
  let '(values, client) := w_Hgetall client GateKey in
  (values ← values; l ← pairs values; Ret (map (fun '(_, v) => (Unmarshal v).1) l), client).

Definition SetGateInfo (client : conn) (gate : GateInfo.t) : conn :=
  w_Hset client GateKey (GateInfo.Name gate) (Marshal gate).

Definition GetGateInfo (client : conn) (name : string) : go (option GateInfo.t) * conn :=
  let '(value, client) := w_Hget client GateKey name in
  (value ← value;
   if decide (value = "") then Ret None
   else match Unmarshal value with (gate, None) => Ret (Some gate) | (_, Some _) => Ret None end, client).

(** ** Lemmas *)

Lemma pairs_bind (l : list (string * string)) : pairs (l ≫= fun '(f, v) => [f; v]) = Ret l.
Proof using Type.
  induction l as [|[f v] l IH]; [done|].
  change (((f, v) :: l) ≫= _) with (f :: v :: (l ≫= fun '(f, v) => [f; v])). cbn [pairs]. by rewrite IH.
Qed.

Lemma colon_ok a b : no_nl a -> no_nl b -> no_nl (colon a b) /\ colon a b <> "".
Proof using Type.
  intros Ha Hb. unfold colon. split.
  - apply all_bytes_app. split; [done|]. constructor; [done|exact Hb].
  - intros E. apply (f_equal to_bytes) in E. rewrite to_bytes_app in E. by destruct (to_bytes a).
Qed.

(** The entries of a map built from a listing without duplicates. *)
Lemma fold_insert_lookup {A} (g : string -> A) (l : list (string * string)) : forall (m : gmap string A) k,
  NoDup l.*1 ->
  fold_left (fun m '(k, v) => <[k := g v]> m) l m !! k =
    match (list_to_map l : gmap string string) !! k with Some v => Some (g v) | None => m !! k end.
Proof using Type.
  induction l as [|[f v] l IH]; intros m k Hnd; [done|]. cbn [fold_left]. apply NoDup_cons in Hnd as [Hf Hnd].
  rewrite IH by done. simpl. destruct (decide (k = f)) as [->|Hne].
  - rewrite not_elem_of_list_to_map_1 by done. by rewrite !lookup_insert_eq.
  - by rewrite !lookup_insert_ne by done.
Qed.

(** Hset as seen in the fields. *)
Lemma hset_fields c k f v : w_ok c -> no_nl k -> no_nl f -> no_nl v -> k <> "" -> f <> "" ->
  w_ok (w_Hset c k f v) /\ forall k' f', field_of (tbl (w_Hset c k f v)) k' f' =
    if decide (k' = k /\ f' = f) then (if decide (v = "") then None else Some v) else field_of (tbl c) k' f'.
Proof using Type.
  intros Hc Hk Hf Hv Hk0 Hf0. destruct (w_Hset_ok c k f v Hc Hk Hf Hv) as [E Hok]. split; [done|].
  intros k' f'. rewrite E, decide_False by naive_solver. apply field_of_set_field.
Qed.

Lemma set_services_fields name svs : forall c, w_ok c -> no_nl name -> name <> "" ->
  Forall (fun v => no_nl (ServiceInfo.Name v)) svs ->
  w_ok (set_services c name svs) /\ forall k f, field_of (tbl (set_services c name svs)) k f =
    if decide (f = name /\ Exists (fun v => k = colon ServiceLoadKey (ServiceInfo.Name v)) svs) then Some "0" else field_of (tbl c) k f.
Proof using Type.
  induction svs as [|v svs IH]; intros c Hc Hn Hn0 Hs.
  - split; [done|]. intros k f. rewrite decide_False; [done|]. by intros [_ ?%Exists_nil].
  - apply Forall_cons in Hs as [Hv Hs]. simpl.
    destruct (colon_ok ServiceLoadKey (ServiceInfo.Name v)) as [Hk Hk0]; [apply (bool_decide_unpack _); by vm_compute|done|].
    destruct (hset_fields c (colon ServiceLoadKey (ServiceInfo.Name v)) name "0") as [Hok Hf]; try done; [repeat constructor; done|].
    destruct (IH _ Hok Hn Hn0 Hs) as [Hok' Hf']. split; [done|]. intros k f. rewrite Hf', Hf.
    destruct (decide (f = name)) as [->|Hne]; [|repeat case_decide; naive_solver].
    destruct (decide (Exists (fun v => k = colon ServiceLoadKey (ServiceInfo.Name v)) svs)) as [He|He].
    + rewrite !decide_True; [done|split; [done|by right]|done].
    + rewrite (decide_False (P := _ /\ Exists _ svs)) by naive_solver.
      destruct (decide (k = colon ServiceLoadKey (ServiceInfo.Name v))) as [->|Hk'].
      * rewrite decide_True by done. rewrite (decide_True (P := _ /\ Exists _ (v :: svs))); [by rewrite decide_False by done|split; [done|by left]].
      * rewrite decide_False by naive_solver. rewrite decide_False; [done|]. intros [_ H]. inversion H; naive_solver.
Qed.

(** A node that can be registered. *)
Definition node_fine (info : NodeInfo.t) : Prop :=
  json_ok info /\ no_nl (NodeInfo.Name info) /\ NodeInfo.Name info <> "" /\ no_nl (NodeInfo.Type_ info) /\
  no_nl (NodeInfo.Set_ info) /\ Forall (fun v => no_nl (ServiceInfo.Name v)) (NodeInfo.Service info).

Definition reg_key (info : NodeInfo.t) : string := colon NodeRegisterKey (NodeInfo.Set_ info).
Definition load_key (info : NodeInfo.t) : string := colon NodeLoadKey (NodeInfo.Type_ info).
Definition has_service (info : NodeInfo.t) (k : string) : Prop :=
  Exists (fun v => k = colon ServiceLoadKey (ServiceInfo.Name v)) (NodeInfo.Service info).
#[global] Instance has_service_dec info k : Decision (has_service info k).
Proof using Type. unfold has_service. apply _. Defined.

Lemma literal_keys : no_nl NodeRegisterKey /\ no_nl NodeLoadKey /\ no_nl ServiceLoadKey /\ no_nl NodeKey /\ no_nl GateKey.
Proof using Type. apply (bool_decide_unpack _). by vm_compute. Qed.

Lemma keys_differ a b : colon NodeRegisterKey a <> colon NodeLoadKey b /\ colon NodeRegisterKey a <> colon ServiceLoadKey b /\
  colon NodeLoadKey a <> colon ServiceLoadKey b.
Proof using Type. splits; intros E; vm_compute in E; discriminate E. Qed.

Lemma no_service_key info a : ~ has_service info (colon NodeRegisterKey a) /\ ~ has_service info (colon NodeLoadKey a).
Proof using Type.
  unfold has_service. rewrite !Exists_exists. split; intros (v & _ & E); by apply keys_differ in E.
Qed.

(** The fields after RegisterNode and DelRegisterNode write [reg] and [load]. *)
Lemma register_fields c info (reg load : string) :
  w_ok c -> node_fine info -> no_nl reg -> no_nl load ->
  let c' := set_services (w_Hset (w_Hset c (reg_key info) (NodeInfo.Name info) reg) (load_key info) (NodeInfo.Name info) load)
              (NodeInfo.Name info) (NodeInfo.Service info) in
  let val v := if decide (v = "") then None else Some v in
  w_ok c' /\ forall k f, field_of (tbl c') k f =
    if decide (f = NodeInfo.Name info) then
      if decide (has_service info k) then Some "0"
      else if decide (k = load_key info) then val load else if decide (k = reg_key info) then val reg else field_of (tbl c) k f
    else field_of (tbl c) k f.
Proof using Type.
  intros Hc (Hj & Hn & Hn0 & Ht & Hs & Hv) Hreg Hload c' val. destruct literal_keys as (L1 & L2 & _).
  destruct (colon_ok _ _ L1 Hs) as [Hk1 Hk10]. destruct (colon_ok _ _ L2 Ht) as [Hk2 Hk20].
  destruct (hset_fields c (reg_key info) (NodeInfo.Name info) reg) as [Hc1 F1]; [done..|].
  destruct (hset_fields _ (load_key info) (NodeInfo.Name info) load Hc1) as [Hc2 F2]; [done..|].
  destruct (set_services_fields (NodeInfo.Name info) (NodeInfo.Service info) _ Hc2 Hn Hn0 Hv) as [Hc3 F3].
  split; [done|]. intros k f. rewrite F3, F2, F1. fold (has_service info k). destruct (decide (f = NodeInfo.Name info)) as [->|Hne].
  - destruct (decide (has_service info k)); [by rewrite decide_True|].
    rewrite (decide_False (P := _ /\ has_service _ _)) by tauto.
    destruct (decide (k = load_key info)); [by rewrite decide_True|]. rewrite decide_False by tauto.
    destruct (decide (k = reg_key info)); [by rewrite decide_True|]. by rewrite decide_False by tauto.
  - by rewrite !decide_False by tauto.
Qed.

(** What a listing of a key gives. *)
Lemma hgetall_pairs c k : w_ok c -> small (tbl c) -> no_nl k -> k <> "" -> exists l c',
  w_Hgetall c k = (Ret (l ≫= fun '(f, v) => [f; v]), c') /\ NoDup l.*1 /\
  (forall f, (list_to_map l : gmap string string) !! f = field_of (tbl c) k f) /\
  forall f v, (f, v) ∈ l <-> field_of (tbl c) k f = Some v.
Proof using Type.
  intros Hc Hs Hk Hk0. destruct (w_Hgetall_ok c k Hc Hs Hk) as (l & c' & E & _ & _ & Hnd & Hin). exists l, c'.
  assert (Hin' : forall f v, (f, v) ∈ l <-> field_of (tbl c) k f = Some v) by (intros f v; rewrite Hin; naive_solver).
  splits; try done. intros f. destruct (field_of (tbl c) k f) as [v|] eqn:Ef.
  - apply elem_of_list_to_map_1; [done|]. by apply Hin'.
  - apply not_elem_of_list_to_map_1. intros Hf. apply list_elem_of_fmap in Hf as ([f' v] & -> & Hfv). apply Hin' in Hfv. simpl in Ef. congruence.
Qed.

Lemma GetRegisterNode_spec c name set : w_ok c -> no_nl name -> no_nl set -> name <> "" ->
  (GetRegisterNode c name set).1 =
    Ret (v ← field_of (tbl c) (colon NodeRegisterKey set) name; if decide (v = "") then None else Some (Unmarshal v).1).
Proof using Type.
  intros Hc Hn Hs Hn0. destruct literal_keys as (L1 & _). destruct (colon_ok _ _ L1 Hs) as [Hk Hk0]. unfold GetRegisterNode.
  destruct (w_Hget_ok c (colon NodeRegisterKey set) name Hc Hk Hn) as (c' & -> & _). simpl.
  rewrite (decide_False (P := _ \/ _)) by naive_solver. destruct (field_of _ _ _) as [v|]; simpl; by try case_decide.
Qed.

(** allocLoad is RandLessWight on the listing of the key. *)
(** The same with the state of the client afterwards. *)
Lemma GetRegisterNode_conn c name set : w_ok c -> no_nl name -> no_nl set -> name <> "" -> exists c',
  GetRegisterNode c name set = (Ret (v ← field_of (tbl c) (colon NodeRegisterKey set) name; if decide (v = "") then None else Some (Unmarshal v).1), c') /\
  tbl c' = tbl c /\ w_ok c'.
Proof using Type.
  intros Hc Hn Hs Hn0. pose proof (GetRegisterNode_spec c name set Hc Hn Hs Hn0) as E. destruct literal_keys as (L1 & _).
  destruct (colon_ok _ _ L1 Hs) as [Hk _]. destruct (w_Hget_ok c _ _ Hc Hk Hn) as (c' & Eq & Et & Hok). exists c'.
  unfold GetRegisterNode in *. rewrite Eq in *. cbn [fst] in E. by rewrite E.
Qed.

Lemma GetAllRegisterNode_spec c set : w_ok c -> small (tbl c) -> no_nl set -> exists m c',
  GetAllRegisterNode c set = (Ret m, c') /\ tbl c' = tbl c /\ w_ok c' /\
  forall k, m !! k = (fun v => (Unmarshal v).1) <$> field_of (tbl c) (colon NodeRegisterKey set) k.
Proof using Type.
  intros Hc Hsm Hs. destruct literal_keys as (L1 & _). destruct (colon_ok _ _ L1 Hs) as [Hk Hk0].
  destruct (w_Hgetall_ok c _ Hc Hsm Hk) as (l0 & c' & E & Et & Hok & _).
  destruct (hgetall_pairs c _ Hc Hsm Hk Hk0) as (l & c1 & E1 & Hnd & Hm & _). rewrite E1 in E. injection E as _ ->.
  eexists _, c'. unfold GetAllRegisterNode. rewrite E1. cbn [mbind go_bind]. rewrite pairs_bind. splits; try done.
  intros k. rewrite (fold_insert_lookup (fun v => (Unmarshal v).1)), Hm by done. by destruct (field_of (tbl c) _ k).
Qed.

Lemma allocLoad_list draw64 c key k l c' : w_Hgetall c key = (Ret (l ≫= fun '(f, v) => [f; v]), c') ->
  (allocLoad draw64 c key k).1 =
    ('(i, _, k) ← RandLessWight draw64 (map (fun '(_, v) => u64 (Atoi v).1) l) k; name ← go_index l.*1 i; Ret (name, k)).
Proof using Type. intros E. unfold allocLoad. rewrite E. cbn [mbind go_bind fst]. by rewrite pairs_bind. Qed.

Lemma allocLoad_single draw64 c key k name v : w_ok c -> small (tbl c) -> no_nl key -> key <> "" ->
  (forall f x, field_of (tbl c) key f = Some x <-> f = name /\ x = v) -> (allocLoad draw64 c key k).1 = Ret (name, k).
Proof using Type.
  intros Hc Hs Hk Hk0 Hf. destruct (hgetall_pairs c key Hc Hs Hk Hk0) as (l & c' & E & Hnd & _ & Hin).
  assert (l = [(name, v)]) as ->.
  { apply Permutation_singleton_r. apply NoDup_Permutation.
    - by apply (NoDup_fmap_1 fst).
    - apply NoDup_singleton.
    - intros [f x]. rewrite Hin, Hf, list_elem_of_singleton. naive_solver. }
  rewrite (allocLoad_list _ _ _ _ _ _ E). done.
Qed.

(** C31. After RegisterNode, GetRegisterNode and GetAllRegisterNode give the
    registered node, the other nodes of the set as before; after DelRegisterNode
    it is gone from both and from the loads of its type.  But its services keep
    it, with load 0: a service that only this node offered still allocates it. *)
Theorem watch_config_registration (draw64 : nat -> Z) (c : conn) (info : NodeInfo.t) (k : nat)
    (Hc : w_ok c) (Hinfo : node_fine info) :
  let c1 := RegisterNode c info in let c2 := DelRegisterNode c1 info in
  let name := NodeInfo.Name info in let set := NodeInfo.Set_ info in
  (GetRegisterNode c1 name set).1 = Ret (Some info) /\
  (small (tbl c1) -> exists m, (GetAllRegisterNode c1 set).1 = Ret m /\ m !! name = Some info /\
     forall other, other <> name -> m !! other = (fun v => (Unmarshal v).1) <$> field_of (tbl c) (reg_key info) other) /\
  (GetRegisterNode c2 name set).1 = Ret None /\
  (small (tbl c2) -> exists m, (GetAllRegisterNode c2 set).1 = Ret m /\ m !! name = None) /\
  field_of (tbl c2) (load_key info) name = None /\
  (forall v, v ∈ NodeInfo.Service info -> small (tbl c2) ->
     (forall f, field_of (tbl c) (colon ServiceLoadKey (ServiceInfo.Name v)) f = None) ->
     (AllocServiceNode draw64 c2 (ServiceInfo.Name v) k).1 = Ret (name, k)).
Proof using Type.
  cbn zeta. destruct literal_keys as (L1 & _ & L3 & _). pose proof Hinfo as (Hj & Hn & Hn0 & Ht & Hs & Hv).
  destruct (register_fields c info (Marshal info) "0") as [Hc1 F1]; [done|done|apply json_line|repeat constructor; done|].
  change (set_services _ _ _) with (RegisterNode c info) in Hc1, F1. set (c1 := RegisterNode c info) in *.
  destruct (register_fields c1 info "" "") as [Hc2 F2]; [done|done|constructor..|].
  change (set_services _ _ _) with (DelRegisterNode c1 info) in Hc2, F2. set (c2 := DelRegisterNode c1 info) in *.
  destruct (colon_ok _ _ L1 Hs) as [Hk Hk0].
  destruct (no_service_key info (NodeInfo.Set_ info)) as [Ns1 _], (no_service_key info (NodeInfo.Type_ info)) as [_ Ns2].
  destruct (keys_differ (NodeInfo.Set_ info) (NodeInfo.Type_ info)) as (Hd & _ & _).
  assert (R1 : field_of (tbl c1) (reg_key info) (NodeInfo.Name info) = Some (Marshal info)).
  { rewrite F1, decide_True, (decide_False (P := has_service _ _)), (decide_False (P := _ = load_key _)), decide_True by done.
    by rewrite decide_False by apply json_nonempty. }
  assert (R2 : field_of (tbl c2) (reg_key info) (NodeInfo.Name info) = None).
  { by rewrite F2, decide_True, (decide_False (P := has_service _ _)), (decide_False (P := _ = load_key _)), decide_True by done. }
  splits.
  - rewrite GetRegisterNode_spec by done. change (colon _ _) with (reg_key info). rewrite R1. simpl.
    by rewrite decide_False, json_back by (apply json_nonempty || done).
  - intros Hsm. destruct (hgetall_pairs c1 (reg_key info) Hc1 Hsm Hk Hk0) as (l & c' & E & Hnd & Hm & _).
    eexists. split; [unfold GetAllRegisterNode; change (colon _ _) with (reg_key info); rewrite E; cbn [mbind go_bind fst]; by rewrite pairs_bind|].
    split; [|intros other Ho]; rewrite (fold_insert_lookup (fun v => (Unmarshal v).1)), Hm by done.
    + rewrite R1. by rewrite json_back.
    + rewrite F1, decide_False by done. by destruct (field_of (tbl c) _ _).
  - rewrite GetRegisterNode_spec by done. change (colon _ _) with (reg_key info). by rewrite R2.
  - intros Hsm. destruct (hgetall_pairs c2 (reg_key info) Hc2 Hsm Hk Hk0) as (l & c' & E & Hnd & Hm & _).
    eexists. split; [unfold GetAllRegisterNode; change (colon _ _) with (reg_key info); rewrite E; cbn [mbind go_bind fst]; by rewrite pairs_bind|].
    by rewrite (fold_insert_lookup (fun v => (Unmarshal v).1)), Hm, R2 by done.
  - by rewrite F2, decide_True, (decide_False (P := has_service _ _)), decide_True by done.
  - intros v Hin Hsm Hnone. rewrite Forall_forall in Hv. destruct (colon_ok _ _ L3 (Hv v Hin)) as [Hkv Hkv0].
    apply (allocLoad_single draw64 c2 _ k _ "0"); try done. set (key := colon ServiceLoadKey (ServiceInfo.Name v)) in *.
    assert (Hsv : has_service info key) by (apply Exists_exists; eauto). intros f x. rewrite F2.
    destruct (decide (f = NodeInfo.Name info)) as [->|Hne].
    + rewrite decide_True by done. naive_solver.
    + rewrite F1, decide_False by done. rewrite Hnone. naive_solver.
Qed.

(** The loads of a listing. *)
Definition loads (l : list (string * string)) : list Z := map (fun '(_, v) => (Atoi v).1) l.

Lemma loads_weights l M : Forall (fun w => 0 <= w <= M) (loads l) -> map (fun '(_, v) => u64 (Atoi v).1) l = loads l.
Proof using Type.
  unfold loads. induction l as [|[f v] l IH]; [done|]. simpl. intros [Hv Hl]%Forall_cons. rewrite IH by done. f_equal.
  apply wrapu_small. pose proof (Atoi_range v) as Hr. unfold in_u, in_s in *. lia.
Qed.

(** allocLoad, on whatever order the server lists the key.  Without nodes it
    panics; one node is always chosen; of several, with loads between 0 and [M],
    the one in whose share of the weights the draw falls, where a node's weight
    is positive and smaller by its load.  AddNodeLoad and AddServiceLoad add to
    the load of the node, which starts from 0. *)
Lemma watch_config_alloc (draw64 : nat -> Z) (c : conn) (key : string) (k : nat)
    (Hc : w_ok c) (Hs : small (tbl c)) (Hk : no_nl key) (Hk0 : key <> "") :
  exists l, NoDup l.*1 /\ (forall f v, (f, v) ∈ l <-> field_of (tbl c) key f = Some v) /\
  (l = [] -> (allocLoad draw64 c key k).1 = Panic "invalid argument to RandLessWight") /\
  (forall name v, l = [(name, v)] -> (allocLoad draw64 c key k).1 = Ret (name, k)) /\
  (forall M, (2 <= length l)%nat -> Forall (fun w => 0 <= w <= M) (loads l) -> (2 * M + 10) * Z.of_nat (length l) < 2 ^ 64 ->
     exists j name v w, (allocLoad draw64 c key k).1 = Ret (name, S k) /\ l !! j = Some (name, v) /\
       w = raise (max_weight (loads l)) - (Atoi v).1 /\ 0 < w /\
       sum (take j (reweigh (loads l))) <= draw64 k mod sum (reweigh (loads l)) < sum (take j (reweigh (loads l))) + w /\
       forall i f x, l !! i = Some (f, x) -> reweigh (loads l) !! i = Some (raise (max_weight (loads l)) - (Atoi x).1)) /\
  (forall name t add, no_nl name -> no_nl t -> name <> "" -> in_s 64 add ->
     (key = colon NodeLoadKey t -> field_of (tbl (AddNodeLoad c name t add)) key name =
        Some (Itoa (i64 (add + (Atoi (default "" (field_of (tbl c) key name))).1)))) /\
     (key = colon ServiceLoadKey t -> field_of (tbl (AddServiceLoad c name t add)) key name =
        Some (Itoa (i64 (add + (Atoi (default "" (field_of (tbl c) key name))).1))))).
Proof using Type.
  destruct (hgetall_pairs c key Hc Hs Hk Hk0) as (l & c' & E & Hnd & _ & Hin). exists l. splits; try done.
  - intros ->. by rewrite (allocLoad_list _ _ _ _ _ _ E).
  - intros name v ->. by rewrite (allocLoad_list _ _ _ _ _ _ E).
  - intros M Hl HM Hb. rewrite (allocLoad_list _ _ _ _ _ _ E), (loads_weights l M HM).
    assert (El : length (loads l) = length l) by apply length_map. rewrite <- El in Hl, Hb.
    destruct (RandLessWight_spec draw64 (loads l) M k Hl HM Hb) as (j & w & -> & Hj & Hw & Hd & _). cbn [mbind go_bind].
    assert (Hex : exists name v, l !! j = Some (name, v)).
    { apply lookup_lt_Some in Hj. unfold reweigh in Hj. rewrite length_fmap, El in Hj.
      destruct (lookup_lt_is_Some_2 l j Hj) as [[name v] ?]. eauto. }
    assert (Hload : forall i f x, l !! i = Some (f, x) -> loads l !! i = Some (Atoi x).1).
    { intros i f x Hi. unfold loads. change (map ?g l) with (g <$> l). by rewrite list_lookup_fmap, Hi. }
    destruct Hex as (name & v & Hlj). destruct (Hw j _ (Hload _ _ _ Hlj)) as [Ew Hpos]. rewrite Hj in Ew. injection Ew as ->.
    exists j, name, v, (raise (max_weight (loads l)) - (Atoi v).1).
    split; [unfold go_index; by rewrite list_lookup_fmap, Hlj|]. splits; try done; try lia.
    intros i f x Hi. by apply (Hw i _ (Hload _ _ _ Hi)).
  - intros name t add Hn Ht Hn0 Ha.
    split; intros ->; [unfold AddNodeLoad|unfold AddServiceLoad];
      destruct (w_Hincrby_ok c _ name add Hc Hk Hn Hk0 Hn0 Ha) as (c2 & -> & Ec & _); simpl;
      rewrite Ec, field_of_set_field, decide_True by done; by rewrite decide_False by apply Itoa_nonempty.
Qed.

(** A node's configuration and a gate are read back as they were set, the
    last value winning and other entries left alone; an empty value removes the
    setting, DelNodeConfig all of them; GetNodeAllConfig and GetAllGate give all
    entries, and GetNodeAllName the names of the nodes with a configuration. *)
Lemma watch_config_roundtrip (c : conn) (node key value : string) (gate : GateInfo.t)
    (Hc : w_ok c) (Hn : no_nl node) (Hk : no_nl key) (Hk0 : key <> "") (Hv : no_nl value)
    (Hg : json_ok gate) (Hgn : no_nl (GateInfo.Name gate)) (Hg0 : GateInfo.Name gate <> "") :
  let c1 := SetNodeConfig c node key value in
  (GetNodeConfig c1 node key).1 = Ret value /\
  (forall other, no_nl other -> other <> key -> (GetNodeConfig c1 node other).1 = (GetNodeConfig c node other).1) /\
  (small (tbl c1) -> exists m, (GetNodeAllConfig c1 node).1 = Ret m /\ forall f, m !! f = field_of (tbl c1) (NodeKey +:+ node) f) /\
  (GetNodeConfig (DelNodeConfig c1 node) node key).1 = Ret "" /\
  (all_bytes (fun x => x <> ":"%char) node -> small (tbl c1) ->
     exists l, (GetNodeAllName c1).1 = Ret l /\ node ∈ l) /\
  (GetGateInfo (SetGateInfo c gate) (GateInfo.Name gate)).1 = Ret (Some gate) /\
  (small (tbl (SetGateInfo c gate)) -> exists l, (GetAllGate (SetGateInfo c gate)).1 = Ret l /\ gate ∈ l).
Proof using Type.
  cbn zeta. destruct literal_keys as (_ & _ & _ & L4 & L5).
  assert (Hnk : no_nl (NodeKey +:+ node)) by (by apply all_bytes_app).
  assert (Hnk0 : NodeKey +:+ node <> "") by done.
  destruct (hset_fields c (NodeKey +:+ node) key value) as [Hc1 F1]; [done..|]. fold (SetNodeConfig c node key value) in Hc1, F1.
  set (c1 := SetNodeConfig c node key value) in *.
  destruct (hset_fields c GateKey (GateInfo.Name gate) (Marshal gate)) as [Hcg Fg]; try done; [apply json_line|].
  fold (SetGateInfo c gate) in Hcg, Fg. set (cg := SetGateInfo c gate) in *.
  assert (Gg : field_of (tbl cg) GateKey (GateInfo.Name gate) = Some (Marshal gate)).
  { rewrite Fg, decide_True by done. by rewrite decide_False by apply json_nonempty. }
  assert (Hget : forall c f, w_ok c -> no_nl f -> f <> "" ->
    (GetNodeConfig c node f).1 = Ret (default "" (field_of (tbl c) (NodeKey +:+ node) f))).
  { intros c0 f H0 Hf Hf0. unfold GetNodeConfig. destruct (w_Hget_ok c0 (NodeKey +:+ node) f H0 Hnk Hf) as (c' & -> & _).
    by rewrite decide_False by tauto. }
  splits.
  - rewrite Hget, F1, decide_True by done. destruct (decide (value = "")) as [E|E]; [by rewrite E|done].
  - intros other Ho Hne. destruct (decide (other = "")) as [->|Ho0].
    + unfold GetNodeConfig. destruct (w_Hget_ok c1 (NodeKey +:+ node) "" Hc1 Hnk Ho) as (? & -> & _).
      destruct (w_Hget_ok c (NodeKey +:+ node) "" Hc Hnk Ho) as (? & -> & _). by rewrite !decide_True by (by right).
    + rewrite !Hget, F1 by done. by rewrite decide_False by naive_solver.
  - intros Hsm. destruct (hgetall_pairs c1 (NodeKey +:+ node) Hc1 Hsm Hnk Hnk0) as (l & c' & E & Hnd & Hm & _).
    eexists. split; [unfold GetNodeAllConfig; rewrite E; cbn [mbind go_bind fst]; by rewrite pairs_bind|].
    intros f. rewrite (fold_insert_lookup (fun v => v)), Hm by done. destruct (field_of (tbl c1) (NodeKey +:+ node) f); [done|apply lookup_empty].
  - destruct (w_Del_ok c1 (NodeKey +:+ node) Hc1 Hnk) as [Ed Hd]. rewrite Hget by done.
    unfold DelNodeConfig. rewrite Ed, field_of_delete, decide_True by done. done.
  - intros Hcol Hsm. destruct (w_KeyPrefix_ok c1 NodeKey Hc1 Hsm L4) as (l & c' & E & _ & _ & _ & Hin).
    exists (names l). unfold GetNodeAllName, GetAllName. rewrite E. split; [done|].
    apply list_elem_of_omap. exists (NodeKey +:+ node). split.
    + apply Hin. split; [clear; by destruct node|]. destruct (w_Hset_ok c (NodeKey +:+ node) key value Hc Hnk Hk Hv) as [Et _].
      fold (SetNodeConfig c node key value) in Et. fold c1 in Et. rewrite decide_False in Et by tauto.
      rewrite Et. unfold set_field. destruct (decide (value = "")); rewrite lookup_insert_eq; by eexists.
    + change (NodeKey +:+ node) with ("node" +:+ String ":" node).
      rewrite Split_app, Split_none; [done|done|repeat constructor; done].
  - unfold GetGateInfo. destruct (w_Hget_ok cg GateKey (GateInfo.Name gate) Hcg L5 Hgn) as (c' & -> & _).
    rewrite (decide_False (P := _ \/ _)) by naive_solver. rewrite Gg. cbn [mbind go_bind fst default].
    simpl. rewrite decide_False by apply json_nonempty. by rewrite json_back.
  - intros Hsm. destruct (hgetall_pairs cg GateKey Hcg Hsm L5) as (l & c' & E & Hnd & _ & Hin); [done|].
    eexists. split; [unfold GetAllGate; rewrite E; cbn [mbind go_bind fst]; by rewrite pairs_bind|].
    change (map ?g l) with (g <$> l). apply list_elem_of_fmap. exists (GateInfo.Name gate, Marshal gate).
    split; [by rewrite json_back|]. by apply Hin.
Qed.
End config.

(** ** Examples: a client of an empty server, and an encoding of nodes and gates
    of which only the name varies *)

Module ConfigSample.
Definition unlined (s : string) : string := of_bytes (filter (fun c => c <> nl) (to_bytes s)).

Lemma unlined_line s : no_nl (String "N" (unlined s)).
Proof.
  unfold no_nl, all_bytes, unlined. simpl. rewrite String.list_ascii_of_string_of_list_ascii.
  constructor; [done|]. apply Forall_forall. by intros c [Hc _]%list_elem_of_filter.
Qed.

Lemma unlined_id s : no_nl s -> unlined s = s.
Proof.
  intros H. unfold unlined. replace (filter (fun c => c <> nl) (to_bytes s)) with (to_bytes s).
  2:{ unfold no_nl, all_bytes in H. induction H as [|c l Hc _ IH]; [done|]. by rewrite filter_cons_True, <- IH. }
  apply String.string_of_list_ascii_of_string.
Qed.

Definition name_in (s : string) : string := match s with String _ n => n | EmptyString => "" end.

Definition node (name : string) : NodeInfo.t :=
  {| NodeInfo.Id := 1; NodeInfo.Name := name; NodeInfo.Type_ := "game"; NodeInfo.Address := "10.0.0.1:80";
     NodeInfo.Service := [{| ServiceInfo.Name := "chat"; ServiceInfo.Func := [] |}]; NodeInfo.Region := 0; NodeInfo.Set_ := "a" |}.
Definition gate (name : string) : GateInfo.t :=
  {| GateInfo.Name := name; GateInfo.Address := "10.0.0.2:80"; GateInfo.SSLAddress := ""; GateInfo.KCPAddress := "";
     GateInfo.Region := 0; GateInfo.Time := 0 |}.

Program Definition NodeJson : Json NodeInfo.t := {|
  json_ok a := no_nl (NodeInfo.Name a) /\ a = node (NodeInfo.Name a);
  Marshal a := String "N" (unlined (NodeInfo.Name a));
  Unmarshal s := (node (name_in s), None)
|}.
Next Obligation. intros a. apply unlined_line. Qed.
Next Obligation. done. Qed.
Next Obligation. intros a [Hn E]. simpl. by rewrite (unlined_id _ Hn), <- E. Qed.

Program Definition GateJson : Json GateInfo.t := {|
  json_ok a := no_nl (GateInfo.Name a) /\ a = gate (GateInfo.Name a);
  Marshal a := String "N" (unlined (GateInfo.Name a));
  Unmarshal s := (gate (name_in s), None)
|}.
Next Obligation. intros a. apply unlined_line. Qed.
Next Obligation. done. Qed.
Next Obligation. intros a [Hn E]. simpl. by rewrite (unlined_id _ Hn), <- E. Qed.

Definition api : WatchApi := @RemoteApi BoltMap range_id 1.
Definition start : @conn api := ({| isClose := false; SeqNo := 0 |}, NewWatchServer None).

Lemma start_ok : @w_ok api start.
Proof. split; [done|]. intros k m H. discriminate H. Qed.
Lemma start_small : small (@tbl api start).
Proof. split; [done|]. intros k m H. discriminate H. Qed.
Lemma node_ok : @node_fine NodeJson (node "n1").
Proof.
  assert (Hn : no_nl "n1") by (apply (bool_decide_unpack _); by vm_compute).
  unfold node_fine. split; [by split|]. split; [done|]. split; [done|].
  split; [apply (bool_decide_unpack _); by vm_compute|]. split; [apply (bool_decide_unpack _); by vm_compute|].
  constructor; [|constructor]. apply (bool_decide_unpack _). by vm_compute.
Qed.
End ConfigSample.

Lemma watch_config_registration_witness :
  (@GetRegisterNode ConfigSample.api ConfigSample.NodeJson
     (@RegisterNode ConfigSample.api ConfigSample.NodeJson ConfigSample.start (ConfigSample.node "n1")) "n1" "a").1
  = Ret (Some (ConfigSample.node "n1")).
Proof.
  destruct (@watch_config_registration ConfigSample.api ConfigSample.NodeJson (fun _ => 5) ConfigSample.start
    (ConfigSample.node "n1") 0%nat ConfigSample.start_ok ConfigSample.node_ok) as [H _].
  exact H.
Defined.

Lemma watch_config_alloc_witness :
  (@allocLoad ConfigSample.api (fun _ => 5) ConfigSample.start "node_load:game" 0).1 = Panic "invalid argument to RandLessWight".
Proof.
  destruct (@watch_config_alloc ConfigSample.api (fun _ => 5) ConfigSample.start "node_load:game" 0%nat
    ConfigSample.start_ok ConfigSample.start_small ltac:(apply (bool_decide_unpack _); vm_compute; exact I) ltac:(discriminate))
    as (l & _ & Hin & H & _).
  apply H. destruct l as [|[f v] l]; [reflexivity|]. assert (Hf : (f, v) ∈ (f, v) :: l) by left.
  apply Hin in Hf. discriminate Hf.
Defined.

Lemma watch_config_roundtrip_witness :
  (@GetNodeConfig ConfigSample.api (@SetNodeConfig ConfigSample.api ConfigSample.start "n1" "port" "80") "n1" "port").1 = Ret "80".
Proof.
  destruct (@watch_config_roundtrip ConfigSample.api ConfigSample.GateJson ConfigSample.start "n1" "port" "80" (ConfigSample.gate "g"))
    as [H _].
  - exact ConfigSample.start_ok.
  - apply (bool_decide_unpack _). vm_compute. exact I.
  - apply (bool_decide_unpack _). vm_compute. exact I.
  - discriminate.
  - apply (bool_decide_unpack _). vm_compute. exact I.
  - split; [apply (bool_decide_unpack _); vm_compute; exact I|reflexivity].
  - apply (bool_decide_unpack _). vm_compute. exact I.
  - discriminate.
  - exact H.
Defined.
