(* ===== verification/RpcNode.v ===== *)
(** * Nodes and routing: rpc/rpc_node.go

    A node keeps a client for every other node it knows, the nodes that offer
    each service, the table from commands to service methods, and mocks; a call
    is routed to a mock, to the node its context names, to this node, or to a
    client of the region.  The network is an argument ([reach]: which addresses
    accept a connection), and so is the order of map iterations. *)

From Stdlib Require Import ZArith Lia Ascii String.
From stdpp Require Import base numbers list strings gmap.
From S2P Require Import Prelude GoStd RpcCoder RpcServer WatchConfig.

(** ** Data *)

(** What a node registers (watch_config/node.go). *)
Abbreviation FunctionInfo := WatchConfig.FunctionInfo.t.
Abbreviation fn_Name := WatchConfig.FunctionInfo.Name.
Abbreviation Cmd := WatchConfig.FunctionInfo.Cmd.
Abbreviation ServiceInfo := WatchConfig.ServiceInfo.t.
Abbreviation sv_Name := WatchConfig.ServiceInfo.Name.
Abbreviation Func := WatchConfig.ServiceInfo.Func.
Abbreviation NodeInfo := WatchConfig.NodeInfo.t.
Abbreviation Id := WatchConfig.NodeInfo.Id.
Abbreviation Name := WatchConfig.NodeInfo.Name.
Abbreviation Type' := WatchConfig.NodeInfo.Type_.
Abbreviation Address := WatchConfig.NodeInfo.Address.
Abbreviation Service := WatchConfig.NodeInfo.Service.
Abbreviation Region := WatchConfig.NodeInfo.Region.
Abbreviation Set' := WatchConfig.NodeInfo.Set_.

(** What the node uses of a Client (go_client.go). *)
Record ClientInfo := { cl_Region : Z; cl_closed : bool; cl_Name : option string (* with CloseCallback *) }.

Record GxNodeConn := { Info : NodeInfo; Conn : option nat; Close : bool }.

Record MockRsp := { Rsp : string; mock_Ret : Z; mock_Error : option string }.

(** Calls of the services' callbacks. *)
Inductive event := ENodeConn (name : string) | ENodeClose (name : string) | EEvent (service name : string).

Record GxNode := {
  self : string;                                (* Name *)
  region : Z;
  nset : string;                                (* Set *)
  Services : list string;                       (* names of the local services *)
  RpcClient : gmap string GxNodeConn;
  CmdService : gmap string string;
  ServiceNode : gmap string (gset string);
  MockData : option (gmap string MockRsp);
  Data : gmap string string;
  clients : list ClientInfo;                    (* by address *)
  events : list event
}.

Definition upd_RpcClient n v := {| self := self n; region := region n; nset := nset n; Services := Services n;
  RpcClient := v; CmdService := CmdService n; ServiceNode := ServiceNode n; MockData := MockData n; Data := Data n;
  clients := clients n; events := events n |}.
Definition upd_CmdService n v := {| self := self n; region := region n; nset := nset n; Services := Services n;
  RpcClient := RpcClient n; CmdService := v; ServiceNode := ServiceNode n; MockData := MockData n; Data := Data n;
  clients := clients n; events := events n |}.
Definition upd_ServiceNode n v := {| self := self n; region := region n; nset := nset n; Services := Services n;
  RpcClient := RpcClient n; CmdService := CmdService n; ServiceNode := v; MockData := MockData n; Data := Data n;
  clients := clients n; events := events n |}.
Definition upd_MockData n v := {| self := self n; region := region n; nset := nset n; Services := Services n;
  RpcClient := RpcClient n; CmdService := CmdService n; ServiceNode := ServiceNode n; MockData := v; Data := Data n;
  clients := clients n; events := events n |}.
Definition upd_Data n v := {| self := self n; region := region n; nset := nset n; Services := Services n;
  RpcClient := RpcClient n; CmdService := CmdService n; ServiceNode := ServiceNode n; MockData := MockData n; Data := v;
  clients := clients n; events := events n |}.
Definition upd_clients n v := {| self := self n; region := region n; nset := nset n; Services := Services n;
  RpcClient := RpcClient n; CmdService := CmdService n; ServiceNode := ServiceNode n; MockData := MockData n; Data := Data n;
  clients := v; events := events n |}.
Definition upd_events n v := {| self := self n; region := region n; nset := nset n; Services := Services n;
  RpcClient := RpcClient n; CmdService := CmdService n; ServiceNode := ServiceNode n; MockData := MockData n; Data := Data n;
  clients := clients n; events := v |}.
Definition upd_Services n v := {| self := self n; region := region n; nset := nset n; Services := v;
  RpcClient := RpcClient n; CmdService := CmdService n; ServiceNode := ServiceNode n; MockData := MockData n; Data := Data n;
  clients := clients n; events := events n |}.

(** Every local service is told, each in a goroutine of its own. *)
Definition tell (n : GxNode) (e : event) : GxNode := upd_events n (events n ++ ((fun _ => e) <$> Services n)).

(** ** Addresses *)

(** host:port, or host1/host2:port with the inner and the outer host. *)
Definition getNodeAddress (n : GxNode) (nodeAddr : string) (nodeRegion : Z) : go string :=
  let arr := Split ":" nodeAddr in
  h ← go_index arr 0;
  let arr1 := Split "/" h in
  if decide (length arr1 = 1%nat) then Ret nodeAddr
  else
    let i := if nodeRegion =? region n then 0%nat else 1%nat in
    host ← go_index arr1 i;
    port ← go_index arr 1;
    Ret (host +:+ ":" +:+ port).

(** ** Commands *)

Definition cmd_key (nodeType : string) (cmd : Z) : string := nodeType +:+ "." +:+ Itoa cmd.

Definition AddServiceMethod (n : GxNode) (nodeType : string) (cmd : Z) (serviceMethod : string) : GxNode :=
  let n := upd_CmdService n (<[cmd_key nodeType cmd := serviceMethod]> (CmdService n)) in
  upd_CmdService n (<[cmd_key "" cmd := serviceMethod]> (CmdService n)).

Definition FindServiceMethod (n : GxNode) (nodeType : string) (cmd : Z) : string :=
  default "" (CmdService n !! cmd_key nodeType cmd).

(** ** Connections *)

Section node.
Context (reach : string -> bool) (ρ : RangeOrder).

(** Dial: a new client, or an error. *)
Definition Dial (n : GxNode) (address : string) (nm : option string) : option nat * GxNode :=
  if reach address
  then (Some (length (clients n)), upd_clients n (clients n ++ [{| cl_Region := 0; cl_closed := false; cl_Name := nm |}]))
  else (None, n).

Definition set_region (n : GxNode) (c : nat) (r : Z) : GxNode :=
  upd_clients n (alter (fun cl => {| cl_Region := r; cl_closed := cl_closed cl; cl_Name := cl_Name cl |}) c (clients n)).

Definition add_service (name type : string) (n : GxNode) (server : ServiceInfo) : GxNode :=
  let n := upd_ServiceNode n (<[sv_Name server := {[name]} ∪ default ∅ (ServiceNode n !! sv_Name server)]> (ServiceNode n)) in
  fold_left (fun n f => AddServiceMethod n type (Cmd f) (sv_Name server +:+ "." +:+ fn_Name f)) (Func server) n.

Definition connectNode (n : GxNode) (info : NodeInfo) : go GxNode :=
  if String.eqb (Name info) (self n) then Ret n
  else
    address ← getNodeAddress n (Address info) (Region info);
    let '(context, n) := Dial n address (Some (Name info)) in
    let n := match context with Some c => set_region n c (Region info) | None => n end in
    let isClose := match context with Some _ => false | None => true end in
    let n := fold_left (add_service (Name info) (Type' info)) (Service info) n in
    let n := upd_RpcClient n (<[Name info := {| Info := info; Conn := context; Close := isClose |}]> (RpcClient n)) in
    Ret (if isClose then n else tell n (ENodeConn (Name info))).

(** Conn.Close(): the client's callback runs later, when its reader has seen the
    end of the connection. *)
Definition close_client (n : GxNode) (c : nat) : GxNode :=
  upd_clients n (alter (fun cl => {| cl_Region := cl_Region cl; cl_closed := true; cl_Name := cl_Name cl |}) c (clients n)).

(** WatchNodeRegister: [found] is what GetRegisterNode returns for the node. *)
Definition WatchNodeRegister (n : GxNode) (k v : string) (found : option NodeInfo) : go GxNode :=
  if String.eqb v "" then
    match RpcClient n !! k with
    | Some nc =>
        let n := match Conn nc with Some c => close_client n c | None => n end in
        Ret (upd_RpcClient n (delete k (RpcClient n)))
    | None => Ret n
    end
  else match found with
       | Some info =>
           if String.eqb (Set' info) "" || String.eqb (Set' info) (nset n) then connectNode n info else Ret n
       | None => Ret n
       end.

(** The callback of a client connectNode made. *)
Definition CloseCallback (n : GxNode) (nm : string) : GxNode :=
  tell (upd_RpcClient n (delete nm (RpcClient n))) (ENodeClose nm).

Definition IsClose (n : GxNode) (c : nat) : bool :=
  match clients n !! c with Some cl => cl_closed cl | None => true end.

Definition getNode (n : GxNode) (nodeName : string) : go (option nat * GxNode) :=
  match RpcClient n !! nodeName with
  | None => Ret (None, n)
  | Some nc =>
      let live := match Conn nc with Some c => negb (IsClose n c) | None => false end in
      if live then Ret (Conn nc, n)
      else
        address ← getNodeAddress n (Address (Info nc)) (Region (Info nc));
        let '(conn, n) := Dial n address None in
        match conn with
        | None => Ret (None, n)
        | Some c => Ret (Some c, upd_RpcClient n (<[nodeName := {| Info := Info nc; Conn := Some c; Close := Close nc |}]> (RpcClient n)))
        end
  end.

Definition GetNode := getNode.

(** The loop of FindRpcConnByService. *)
Fixpoint find_conns (n : GxNode) (names : list string) : go (list (string * nat) * GxNode) :=
  match names with
  | [] => Ret ([], n)
  | k :: names =>
      '(c, n) ← getNode n k;
      '(m, n) ← find_conns n names;
      Ret (match c with Some c => (k, c) :: m | None => m end, n)
  end.

Definition FindRpcConnByService (n : GxNode) (serviceName : string) : go (list (string * nat) * GxNode) :=
  match ServiceNode n !! serviceName with
  | None => Ret ([], n)
  | Some names => find_conns n (ρ _ (elements names))
  end.

Definition client_region (n : GxNode) (c : nat) : Z := match clients n !! c with Some cl => cl_Region cl | None => 0 end.

(** getClient: the first client of the own region, else the first one. *)
Definition getClient (n : GxNode) (serviceName : string) : go (option nat * GxNode) :=
  '(m, n) ← FindRpcConnByService n serviceName;
  let cs := m.*2 in
  Ret (match find (fun c => region n =? client_region n c) cs with
       | Some c => Some c
       | None => head cs
       end, n).

(** ** Mocks, data, services *)

Definition InitMock (n : GxNode) : GxNode := upd_MockData n (Some ∅).
Definition RemoveMock (n : GxNode) : GxNode := upd_MockData n None.

(** A write to a nil map panics. *)
Definition InsertMock (n : GxNode) (sm : string) (rsp : MockRsp) : go GxNode :=
  match MockData n with
  | None => Panic "assignment to entry in nil map"
  | Some m => Ret (upd_MockData n (Some (<[sm := rsp]> m)))
  end.

Definition callMock (n : GxNode) (sm : string) : option MockRsp := MockData n ≫= fun m => m !! sm.

(** LoadOrStore *)
Definition GetData (n : GxNode) (key def : string) : string * GxNode :=
  match Data n !! key with
  | Some v => (v, n)
  | None => (def, upd_Data n (<[key := def]> (Data n)))
  end.
Definition DelData (n : GxNode) (key : string) : GxNode := upd_Data n (delete key (Data n)).

Definition RegisterService (n : GxNode) (serviceName : string) : GxNode :=
  upd_Services n (if decide (serviceName ∈ Services n) then Services n else Services n ++ [serviceName]).

Definition SubmitEvent (n : GxNode) (serviceName eventName : string) : GxNode :=
  if negb (String.eqb serviceName "") && bool_decide (serviceName ∈ Services n)
  then upd_events n (events n ++ [EEvent serviceName eventName])
  else upd_events n (events n ++ ((fun s => EEvent s eventName) <$> Services n)).

Definition RangeNode {S} (f : S -> GxNodeConn -> S * bool) (s : S) (n : GxNode) : S :=
  (fix go (l : list GxNodeConn) (s : S) : S :=
     match l with [] => s | x :: l => let '(s, more) := f s x in if more then go l s else s end)
  (ρ _ (map_to_list (RpcClient n)).*2) s.

Definition QueryNodeStatus (n : GxNode) : list GxNodeConn :=
  (fun nc => {| Info := {| Id := Id (Info nc); Name := Name (Info nc); Type' := ""; Address := Address (Info nc);
                           Service := []; Region := 0; Set' := "" |}; Conn := None; Close := Close nc |})
  <$> ρ _ (map_to_list (RpcClient n)).*2.

(** ** Routing *)

(** The calls a node can be asked for. *)
Inductive kind_of_call := KCall | KSend | KJsonCall | KJsonSend | KRawCall | KRawSend.

(** Where a call goes.  [DLocal]: the own server, InternalCall or RawCall with
    the JSON flag; a send runs in a goroutine.  [DRemote]: the method of the
    client that [k] names. *)
Inductive decision :=
  | DMock (m : MockRsp)
  | DLocal (k : kind_of_call) (ctx : Context.t) (sm : string)
  | DRemote (k : kind_of_call) (client : nat) (ctx : Context.t) (sm : string)
  | DError (msg : string).

(** The loop over context.Nodes. *)
Fixpoint by_context (nodes : list NodeRpcInfo.t) (serviceName : string) : option string :=
  match nodes with
  | [] => None
  | x :: nodes => if String.eqb serviceName (NodeRpcInfo.ServiceName x) then Some (NodeRpcInfo.NodeName x)
                  else by_context nodes serviceName
  end.

Definition route (k : kind_of_call) (unsupported : string) (n : GxNode) (ctx : Context.t) (sm : string) : go (decision * GxNode) :=
  match callMock n sm with
  | Some m => Ret (DMock m, n)
  | None =>
      let serviceName := (splitServiceMethod sm).1 in
      match by_context (Context.Nodes ctx) serviceName with
      | Some nodeName =>
          '(c, n) ← getNode n nodeName;
          Ret (match c with
               | None => DError ("node[" +:+ nodeName +:+ "] not exist")
               | Some c => DRemote k c ctx sm
               end, n)
      | None =>
          if decide (serviceName ∈ Services n) then Ret (DLocal k ctx sm, n)
          else
            '(c, n) ← getClient n serviceName;
            Ret (match c with
                 | None => DError unsupported
                 | Some c => DRemote k c ctx sm
                 end, n)
      end
  end.

Definition Call := route KCall "Call not support node rpc".
Definition Send := route KSend "not support node rpc".
Definition JsonCall := route KJsonCall "not support node rpc".
Definition JsonSend := route KJsonSend "not support node rpc".
Definition RawCall := route KRawCall "not support node rpc".
Definition RawSend := route KRawSend "not support node rpc".

Definition EmptyContext : Context.t :=
  {| Context.GateName := ""; Context.Remote := "empty"; Context.Id := 0; Context.Token := ""; Context.Uid := 0;
     Context.Nodes := []; Context.CallId := 0; Context.Game := ""; Context.Kvs := ∅; Context.Ps := ∅ |}.

(** A call to a named node. *)
Definition to_node (k : kind_of_call) (missing : string) (n : GxNode) (ctx : Context.t) (nodeName sm : string)
    : go (decision * GxNode) :=
  match callMock n sm with
  | Some m => Ret (DMock m, n)
  | None =>
      if String.eqb nodeName (self n) then Ret (DLocal k ctx sm, n)
      else
        '(c, n) ← GetNode n nodeName;
        Ret (match c with Some c => DRemote k c ctx sm | None => DError missing end, n)
  end.

Definition no_node (nm : string) : string := "node " +:+ nm +:+ " not exists".
Definition NodeCall n nodeName := to_node KCall (no_node nodeName) n EmptyContext nodeName.
Definition NodeSend n nodeName := to_node KSend (no_node nodeName) n EmptyContext nodeName.
Definition NodeJsonCallWithConn n ctx nodeName := to_node KJsonCall (no_node nodeName) n ctx nodeName.
Definition NodeRawCallWithConn n ctx nodeName := to_node KRawCall (no_node nodeName) n ctx nodeName.
Definition NodeCallWithConn n ctx nodeName := to_node KCall ("gate " +:+ no_node (Context.GateName ctx)) n ctx nodeName.
Definition NodeSendWithConn n ctx nodeName := to_node KSend ("gate " +:+ no_node (Context.GateName ctx)) n ctx nodeName.

(** Broadcast: the local service and every other node of the service. *)
Definition Broadcast (n : GxNode) (sm : string) : go (list decision * GxNode) :=
  match callMock n sm with
  | Some m => Ret ([DMock m], n)
  | None =>
      let serviceName := (splitServiceMethod sm).1 in
      let local := if decide (serviceName ∈ Services n) then [DLocal KSend EmptyContext sm] else [] in
      '(cs, n) ← FindRpcConnByService n serviceName;
      Ret (local ++ ((fun nc => DRemote KSend nc.2 EmptyContext sm) <$>
             filter (fun nc => nc.1 <> self n) (ρ _ cs)), n)
  end.

(** The loop of BroadcastCall: [f] says whether to go on. *)
Fixpoint call_each (f : string -> bool) (n : GxNode) (sm : string) (cs : list (string * nat)) : list decision :=
  match cs with
  | [] => []
  | (nm, c) :: cs =>
      if String.eqb nm (self n) then call_each f n sm cs
      else DRemote KCall c EmptyContext sm :: (if f nm then call_each f n sm cs else [])
  end.

Definition BroadcastCall (f : string -> bool) (n : GxNode) (sm : string) : go (list decision * GxNode) :=
  match callMock n sm with
  | Some m => Ret ([DMock m], n)
  | None =>
      let serviceName := (splitServiceMethod sm).1 in
      let here := bool_decide (serviceName ∈ Services n) in
      let local := if here then [DLocal KCall EmptyContext sm] else [] in
      if here && negb (f (self n)) then Ret (local, n)
      else
        '(cs, n) ← FindRpcConnByService n serviceName;
        Ret (local ++ call_each f n sm (ρ _ cs), n)
  end.

(** ** Lemmas *)

(** Calls to the node [k] can be made: there is a live client, or one can be
    made. *)
Definition live (n : GxNode) (nc : GxNodeConn) : bool :=
  match Conn nc with Some c => negb (IsClose n c) | None => false end.
Definition address_of (n : GxNode) (info : NodeInfo) : go string := getNodeAddress n (Address info) (Region info).
Definition available (n : GxNode) (k : string) : bool :=
  match RpcClient n !! k with
  | None => false
  | Some nc => live n nc || match address_of n (Info nc) with Ret a => reach a | _ => false end
  end.

Record node_ok (n : GxNode) : Prop := {
  ok_conn : forall k nc, RpcClient n !! k = Some nc ->
    Name (Info nc) = k /\ k <> self n /\ (exists a, address_of n (Info nc) = Ret a) /\
    (forall c, Conn nc = Some c -> (c < length (clients n))%nat);
  ok_service : forall svc ks, ServiceNode n !! svc = Some ks -> self n ∉ ks
}.

(** What reconnecting may change: clients are added, connections replaced when
    they were down. *)
Record ext (n n' : GxNode) : Prop := {
  ext_self : self n' = self n /\ region n' = region n /\ Services n' = Services n /\ ServiceNode n' = ServiceNode n
             /\ MockData n' = MockData n /\ nset n' = nset n;
  ext_clients : clients n `prefix_of` clients n';
  ext_info : forall k, Info <$> RpcClient n' !! k = Info <$> RpcClient n !! k;
  ext_live : forall k nc, RpcClient n !! k = Some nc -> live n nc = true -> RpcClient n' !! k = Some nc
}.

Lemma ext_refl n : ext n n.
Proof. by split. Qed.

Lemma ext_trans n n1 n2 : ext n n1 -> ext n1 n2 ->
  (forall k nc, RpcClient n !! k = Some nc -> live n nc = true -> live n1 nc = true) -> ext n n2.
Proof.
  intros [A1 A2 A3 A4] [B1 B2 B3 B4] Hl. split.
  - naive_solver congruence.
  - by etrans.
  - intros k. by rewrite B3.
  - intros k nc Hk Hlv. apply B4; [by apply A4|]. by eapply Hl.
Qed.

Lemma address_ext n n' info : region n' = region n -> address_of n' info = address_of n info.
Proof. intros E. unfold address_of, getNodeAddress. by rewrite E. Qed.

Lemma live_ext n n' nc : clients n `prefix_of` clients n' -> live n nc = true -> live n' nc = true.
Proof.
  intros [l E]. unfold live, IsClose. destruct (Conn nc) as [c|]; [|done]. rewrite E.
  destruct (clients n !! c) as [cl|] eqn:Ec; [|done]. by rewrite (lookup_app_l_Some _ _ _ _ Ec).
Qed.

(** Reconnecting does not change which nodes can be called. *)
Lemma getNode_spec n k :
  node_ok n -> exists o n', getNode n k = Ret (o, n') /\ node_ok n' /\ ext n n' /\
    (o = None <-> available n k = false) /\
    (forall k', available n' k' = available n k') /\
    (forall c, o = Some c -> exists nc, RpcClient n' !! k = Some nc /\ Conn nc = Some c /\ live n' nc = true).
Proof.
  intros Hok. unfold getNode, available at 1. destruct (RpcClient n !! k) as [nc|] eqn:Ek.
  2:{ exists None, n. splits; try done. }
  fold (live n nc). destruct (live n nc) eqn:El.
  { exists (Conn nc), n. splits; try done.
    - unfold live in El. by destruct (Conn nc).
    - intros c Hc. by exists nc. }
  destruct (ok_conn n Hok k nc Ek) as (Hname & Hself & (a & Ha) & _). fold (address_of n (Info nc)). rewrite Ha.
  cbn [mbind go_bind]. unfold Dial. destruct (reach a) eqn:Er; [|by exists None, n; splits].
  set (n1 := upd_clients n _).
  set (nc' := {| Info := Info nc; Conn := Some (length (clients n)); Close := Close nc |}).
  set (n2 := upd_RpcClient n1 _).
  assert (Hlv : live n2 nc' = true).
  { unfold live, IsClose; simpl. by rewrite lookup_app_r, Nat.sub_diag by lia. }
  assert (Hpre : clients n `prefix_of` clients n2) by (by eexists).
  assert (Hlk : forall k' x, RpcClient n2 !! k' = Some x -> (k' = k /\ x = nc') \/ (k' <> k /\ RpcClient n !! k' = Some x)).
  { intros k' x. simpl. destruct (decide (k' = k)) as [->|Hne].
    - rewrite lookup_insert_eq. intros [= <-]. by left.
    - rewrite lookup_insert_ne by done. by right. }
  exists (Some (length (clients n))), n2. splits; try done.
  - split; [|apply (ok_service n Hok)]. intros k' x [[-> ->]|[_ Hx]]%Hlk.
    + simpl. splits; [done|done|by exists a|]. intros c [= <-]. rewrite length_app. simpl. lia.
    + destruct (ok_conn n Hok k' x Hx) as (H1 & H2 & H3 & H4). splits; try done.
      intros c Hc%H4. simpl. rewrite length_app. lia.
  - split; try done.
    + intros k'. simpl. destruct (decide (k' = k)) as [->|Hne]; [by rewrite lookup_insert_eq, Ek|].
      by rewrite lookup_insert_ne by done.
    + intros k' x Hx Hl. simpl. rewrite lookup_insert_ne; [done|]. intros <-. congruence.
  - intros k'. unfold available. simpl. destruct (decide (k' = k)) as [->|Hne].
    + rewrite lookup_insert_eq, Ek, Hlv, El. simpl. fold (address_of n (Info nc)). by rewrite Ha.
    + rewrite lookup_insert_ne by done. destruct (RpcClient n !! k') as [x|] eqn:Ex; [|done].
      f_equal. unfold live, IsClose. destruct (Conn x) as [c|] eqn:Ec; [|done]. simpl.
      destruct (clients n !! c) as [cl|] eqn:Ecl; [by rewrite (lookup_app_l_Some _ _ _ _ Ecl)|].
      destruct (ok_conn n Hok k' x Ex) as (_ & _ & _ & Hc). specialize (Hc c Ec).
      apply lookup_ge_None in Ecl. lia.
  - intros c [= <-]. exists nc'. simpl. by rewrite lookup_insert_eq.
Qed.

Lemma find_conns_spec names : forall n,
  node_ok n -> exists m n', find_conns n names = Ret (m, n') /\ node_ok n' /\ ext n n' /\
    m.*1 = filter (fun k => available n k = true) names /\
    (forall k', available n' k' = available n k') /\
    (forall k c, (k, c) ∈ m -> exists nc, RpcClient n' !! k = Some nc /\ Conn nc = Some c /\ live n' nc = true).
Proof.
  induction names as [|k names IH]; intros n Hok; cbn [find_conns].
  { exists [], n. splits; try done. intros k c H. by apply elem_of_nil in H. }
  destruct (getNode_spec n k Hok) as (o & n1 & Hg & Hok1 & Hext1 & Ho & Hav1 & Hc1).
  rewrite Hg. cbn [mbind go_bind].
  destruct (IH n1 Hok1) as (m & n2 & Hf & Hok2 & Hext2 & Hm & Hav2 & Hc2).
  rewrite Hf. cbn [mbind go_bind].
  assert (Hfil : filter (fun k => available n1 k = true) names = filter (fun k => available n k = true) names).
  { apply list_filter_iff. intros x. by rewrite Hav1. }
  exists (match o with Some c => (k, c) :: m | None => m end), n2. splits; try done.
  - eapply ext_trans; [done|done|]. intros k' nc _. apply live_ext. apply Hext1.
  - destruct o as [c|]; cbn [fmap list_fmap fst]; rewrite Hm, Hfil.
    + rewrite filter_cons_True; [done|]. destruct (available n k); [done|]. by destruct Ho as [_ Ho]; specialize (Ho eq_refl).
    + rewrite filter_cons_False; [done|]. destruct Ho as [Ho _]. by rewrite Ho.
  - intros k'. by rewrite Hav2, Hav1.
  - intros k' c Hin. destruct o as [c0|]; [|by apply Hc2]. apply elem_of_cons in Hin as [[= -> ->]|Hin]; [|by apply Hc2].
    destruct (Hc1 c0 eq_refl) as (nc & Hk & Hcn & Hl). exists nc. splits; [|done|].
    + by apply (ext_live n1 n2 Hext2).
    + eapply live_ext; [|done]. apply Hext2.
Qed.

(** The nodes of a service that can be called. *)
Definition offers (n : GxNode) (svc k : string) : Prop :=
  k ∈ default ∅ (ServiceNode n !! svc) /\ available n k = true.

(** Reconnecting leaves the commands alone. *)
Lemma getNode_cmds n k o n' : getNode n k = Ret (o, n') -> CmdService n' = CmdService n.
Proof.
  unfold getNode, Dial. intros H. destruct (RpcClient n !! k) as [nc|]; [|by simplify_eq]. cbn zeta in H.
  destruct (match Conn nc with Some _ => _ | None => _ end); [by simplify_eq|].
  destruct (getNodeAddress _ _ _) as [a|e|w]; cbn [mbind go_bind] in H; [|done..]. destruct (reach a); by simplify_eq.
Qed.

Lemma find_conns_cmds names : forall n l n', find_conns n names = Ret (l, n') -> CmdService n' = CmdService n.
Proof.
  induction names as [|nm names IH]; intros n l n'; cbn [find_conns]; [intros H; by simplify_eq|].
  destruct (getNode n nm) as [[o n1]|e|w] eqn:E; cbn [mbind go_bind]; try done. apply getNode_cmds in E.
  destruct (find_conns n1 names) as [[l2 n2]|e|w] eqn:E2; cbn [mbind go_bind]; try done. apply IH in E2.
  destruct o; intros H; simplify_eq; congruence.
Qed.

Lemma getClient_cmds n svc o n' : getClient n svc = Ret (o, n') -> CmdService n' = CmdService n.
Proof.
  unfold getClient, FindRpcConnByService. intros H.
  repeat match type of H with
  | context [find_conns ?a ?b] => destruct (find_conns a b) as [[? ?]|?|?] eqn:E; cbn [mbind go_bind] in H; [apply find_conns_cmds in E|done|done]
  | context [ServiceNode n !! ?x] => destruct (ServiceNode n !! x); cbn [mbind go_bind] in H
  end; by simplify_eq.
Qed.

(** [c] is the live client of node [k]. *)
Definition client_of (n : GxNode) (k : string) (c : nat) : Prop :=
  exists nc, RpcClient n !! k = Some nc /\ Conn nc = Some c /\ live n nc = true.

Lemma client_of_unique n k c c' : client_of n k c -> client_of n k c' -> c = c'.
Proof. intros (nc & H1 & H2 & _) (nc' & H1' & H2' & _). congruence. Qed.

Lemma getClient_spec n svc :
  node_ok n -> exists o n', getClient n svc = Ret (o, n') /\ node_ok n' /\ ext n n' /\
    (o = None <-> forall k, ~ offers n svc k) /\
    (forall c, o = Some c -> (exists k, offers n svc k /\ client_of n' k c) /\
       ((exists k c', offers n svc k /\ client_of n' k c' /\ client_region n' c' = region n) ->
        client_region n' c = region n)).
Proof.
  intros Hok. unfold getClient, FindRpcConnByService.
  assert (Hnone : forall n', n' = n -> ServiceNode n !! svc = None -> forall k, ~ offers n svc k).
  { intros n' _ Es k [Hk _]. rewrite Es in Hk. set_solver. }
  destruct (ServiceNode n !! svc) as [ks|] eqn:Es.
  2:{ cbn [mbind go_bind]. exists None, n. splits; try done. split; [|done]. intros _. by eapply Hnone. }
  destruct (find_conns_spec (ρ _ (elements ks)) n Hok) as (m & n' & Hf & Hok' & Hext & Hm & _ & Hc).
  rewrite Hf. cbn [mbind go_bind].
  assert (Hoff : forall k, offers n svc k <-> k ∈ m.*1).
  { intros k. rewrite Hm, list_elem_of_filter, elem_of_range_order, elem_of_elements. unfold offers. rewrite Es. simpl. tauto. }
  assert (Hin : forall c, c ∈ m.*2 -> exists k, offers n svc k /\ client_of n' k c).
  { intros c ([k c0] & -> & Hkc)%list_elem_of_fmap. exists k. split; [|by apply Hc].
    apply Hoff, list_elem_of_fmap. by exists (k, c0). }
  assert (Hof : forall k c, offers n svc k -> client_of n' k c -> c ∈ m.*2).
  { intros k c ([k0 c0] & -> & Hkc)%Hoff%list_elem_of_fmap Hcl.
    assert (c0 = c) as -> by (eapply client_of_unique; [apply (Hc k0 c0 Hkc)|done]).
    apply list_elem_of_fmap. by exists (k0, c). }
  assert (Er : region n' = region n) by apply Hext.
  set (p := fun c => region n' =? client_region n' c).
  exists (match find p m.*2 with Some c => Some c | None => head m.*2 end), n'. splits; try done.
  - destruct (find p m.*2) as [c|] eqn:Efind.
    + apply find_some in Efind as [Hc'%list_elem_of_In _]. destruct (Hin c Hc') as (k & Ho & _).
      split; [done|]. intros Hno. by destruct (Hno k).
    + destruct m as [|[k c] m]; simpl.
      * split; [|done]. intros _ k Hk%Hoff. by apply elem_of_nil in Hk.
      * split; [done|]. intros Hno. destruct (Hno k). apply Hoff. simpl. by left.
  - intros c Hsel. destruct (find p m.*2) as [c1|] eqn:Efind.
    + injection Hsel as <-. apply find_some in Efind as [Hc'%list_elem_of_In Hp]. split; [by apply Hin|].
      intros _. unfold p in Hp. lia.
    + split.
      * apply Hin. destruct m.*2; [done|]. injection Hsel as <-. by left.
      * intros (k & c' & Ho & Hcl & Hr). pose proof (find_none _ _ Efind c') as Hp.
        rewrite <- list_elem_of_In in Hp. specialize (Hp (Hof k c' Ho Hcl)). unfold p in Hp. lia.
Qed.

(** Choosing where a call goes succeeds and changes connections only. *)
Lemma to_node_total k miss n ctx nm sm : node_ok n -> exists d n',
  to_node k miss n ctx nm sm = Ret (d, n') /\ node_ok n' /\ CmdService n' = CmdService n.
Proof using Type.
  intros Hok. unfold to_node. destruct (callMock n sm); [by eauto|]. destruct (String.eqb nm (self n)); [by eauto|].
  unfold GetNode. destruct (getNode_spec n nm Hok) as (o & n' & Hg & Hok' & _). rewrite Hg. cbn [mbind go_bind].
  do 2 eexists. splits; [done|done|]. by eapply getNode_cmds.
Qed.

Lemma route_total k miss n ctx sm : node_ok n -> exists d n',
  route k miss n ctx sm = Ret (d, n') /\ node_ok n' /\ CmdService n' = CmdService n.
Proof using Type.
  intros Hok. unfold route. destruct (callMock n sm); [by eauto|]. destruct (by_context _ _) as [nm|].
  - destruct (getNode_spec n nm Hok) as (o & n' & Hg & Hok' & _). rewrite Hg. cbn [mbind go_bind].
    do 2 eexists. splits; [done|done|]. by eapply getNode_cmds.
  - case_decide; [by eauto|]. destruct (getClient_spec n (splitServiceMethod sm).1 Hok) as (o & n' & Hg & Hok' & _).
    rewrite Hg. cbn [mbind go_bind]. do 2 eexists. splits; [done|done|]. by eapply getClient_cmds.
Qed.

Lemma route_spec (k : kind_of_call) (msg : string) (n : GxNode) (ctx : Context.t) (sm : string) (Hok : node_ok n) :
  let svc := (splitServiceMethod sm).1 in
  exists d n', route k msg n ctx sm = Ret (d, n') /\ node_ok n' /\ ext n n' /\
    match callMock n sm, by_context (Context.Nodes ctx) svc with
    | Some m, _ => d = DMock m
    | None, Some nm =>
        (available n nm = true /\ exists c, d = DRemote k c ctx sm /\ client_of n' nm c) \/
        (available n nm = false /\ d = DError ("node[" +:+ nm +:+ "] not exist"))
    | None, None =>
        if decide (svc ∈ Services n) then d = DLocal k ctx sm
        else (exists c nm, d = DRemote k c ctx sm /\ offers n svc nm /\ client_of n' nm c /\
                ((exists nm' c', offers n svc nm' /\ client_of n' nm' c' /\ client_region n' c' = region n) ->
                 client_region n' c = region n)) \/
             ((forall nm, ~ offers n svc nm) /\ d = DError msg)
    end.
Proof.
  intros svc. unfold route. destruct (callMock n sm) as [mk|].
  { exists (DMock mk), n. splits; try done. }
  fold svc. destruct (by_context (Context.Nodes ctx) svc) as [nm|].
  - destruct (getNode_spec n nm Hok) as (o & n' & Hg & Hok' & Hext & Ho & _ & Hc). rewrite Hg.
    cbn [mbind go_bind]. do 2 eexists. splits; [reflexivity|done|done|].
    destruct o as [c|].
    + left. split; [|by exists c; split; [done|apply Hc]]. destruct (available n nm); [done|].
      destruct Ho as [_ Ho]. by specialize (Ho eq_refl).
    + right. split; [by apply Ho|done].
  - case_decide; [by do 2 eexists; splits|].
    destruct (getClient_spec n svc Hok) as (o & n' & Hg & Hok' & Hext & Ho & Hc). rewrite Hg.
    cbn [mbind go_bind]. do 2 eexists. splits; [reflexivity|done|done|].
    destruct o as [c|].
    + left. destruct (Hc c eq_refl) as ((nm & H1 & H2) & H3). by exists c, nm.
    + right. split; [by apply Ho|done].
Qed.

(** C14. Where a call goes, for every kind of call and whatever the order of map
    iterations.  A mock answers first.  Otherwise the first entry of the
    context for the service decides: the call goes to that node or fails, it is
    never rerouted.  Otherwise a local service takes it.  Otherwise a node that
    offers the service and can be reached takes it, one of the own region when
    the clients know of one, and the call fails only if there is none.  The
    tables of services, mocks and live connections are left as they are. *)
Theorem rpc_node_routing (k : kind_of_call) (msg : string) (n : GxNode) (ctx : Context.t) (sm : string) (Hok : node_ok n) :
  let svc := (splitServiceMethod sm).1 in
  exists d n', route k msg n ctx sm = Ret (d, n') /\ node_ok n' /\ ext n n' /\
    match callMock n sm, by_context (Context.Nodes ctx) svc with
    | Some m, _ => d = DMock m
    | None, Some nm =>
        (available n nm = true /\ exists c, d = DRemote k c ctx sm /\ client_of n' nm c) \/
        (available n nm = false /\ d = DError ("node[" +:+ nm +:+ "] not exist"))
    | None, None =>
        if decide (svc ∈ Services n) then d = DLocal k ctx sm
        else (exists c nm, d = DRemote k c ctx sm /\ offers n svc nm /\ client_of n' nm c /\
                ((exists nm' c', offers n svc nm' /\ client_of n' nm' c' /\ client_region n' c' = region n) ->
                 client_region n' c = region n)) \/
             ((forall nm, ~ offers n svc nm) /\ d = DError msg)
    end.
Proof. exact (route_spec k msg n ctx sm Hok). Qed.

Lemma fold_cmds type svc fs : forall n,
  let n' := fold_left (fun n f => AddServiceMethod n type (Cmd f) (svc +:+ "." +:+ fn_Name f)) fs n in
  self n' = self n /\ region n' = region n /\ RpcClient n' = RpcClient n /\ ServiceNode n' = ServiceNode n /\
  clients n' = clients n /\ Services n' = Services n /\ nset n' = nset n /\ MockData n' = MockData n.
Proof.
  induction fs as [|f fs IH]; intros n; cbn [fold_left]; [by splits|].
  destruct (IH (AddServiceMethod n type (Cmd f) (svc +:+ "." +:+ fn_Name f))) as (H1 & H2 & H3 & H4 & H5 & H6 & H7 & H8).
  cbn zeta. rewrite H1, H2, H3, H4, H5, H6, H7, H8. by splits.
Qed.

Lemma fold_services name type svs : forall n,
  let n' := fold_left (add_service name type) svs n in
  self n' = self n /\ region n' = region n /\ RpcClient n' = RpcClient n /\ clients n' = clients n /\
  Services n' = Services n /\ nset n' = nset n /\ MockData n' = MockData n /\
  (forall svc k, k ∈ default ∅ (ServiceNode n' !! svc) <->
     k ∈ default ∅ (ServiceNode n !! svc) \/ (k = name /\ svc ∈ sv_Name <$> svs)).
Proof.
  induction svs as [|sv svs IH]; intros n; cbn [fold_left].
  { cbn zeta. splits; try done. intros svc k. cbn. rewrite elem_of_nil. tauto. }
  destruct (IH (add_service name type n sv)) as (H1 & H2 & H3 & H4 & H5 & H6 & H7 & H8). cbn zeta.
  set (n0 := upd_ServiceNode n (<[sv_Name sv := {[name]} ∪ default ∅ (ServiceNode n !! sv_Name sv)]> (ServiceNode n))).
  destruct (fold_cmds type (sv_Name sv) (Func sv) n0) as (F1 & F2 & F3 & F4 & F5 & F6 & F7 & F8).
  change (fold_left _ (Func sv) n0) with (add_service name type n sv) in F1, F2, F3, F4, F5, F6, F7, F8.
  cbn zeta in *. rewrite H1, H2, H3, H4, H5, H6, H7, F1, F2, F3, F5, F6, F7, F8. splits; try done.
  intros svc k. rewrite H8, F4. unfold n0; cbn [ServiceNode upd_ServiceNode fmap list_fmap].
  rewrite elem_of_cons. destruct (decide (svc = sv_Name sv)) as [->|Hne].
  - rewrite lookup_insert_eq. simpl. set_solver.
  - rewrite lookup_insert_ne by done. set_solver.
Qed.

(** What connectNode leaves, whether or not the node can be reached. *)
Lemma connectNode_any n info a :
  node_ok n -> Name info <> self n -> address_of n info = Ret a ->
  exists n', connectNode n info = Ret n' /\ node_ok n' /\ self n' = self n /\ region n' = region n /\ nset n' = nset n /\
    RpcClient n' = <[Name info := {| Info := info; Conn := if reach a then Some (length (clients n)) else None; Close := negb (reach a) |}]> (RpcClient n) /\
    clients n' = clients n ++ (if reach a then [{| cl_Region := Region info; cl_closed := false; cl_Name := Some (Name info) |}] else []) /\
    (forall svc k, k ∈ default ∅ (ServiceNode n' !! svc) <->
       k ∈ default ∅ (ServiceNode n !! svc) \/ (k = Name info /\ svc ∈ sv_Name <$> Service info)).
Proof.
  intros Hok Hne Ha. unfold connectNode. destruct (String.eqb_spec (Name info) (self n)); [done|].
  fold (address_of n info). rewrite Ha. cbn [mbind go_bind].
  set (cs := clients n ++ (if reach a then [{| cl_Region := Region info; cl_closed := false; cl_Name := Some (Name info) |}] else [])).
  set (conn := if reach a then Some (length (clients n)) else None).
  set (nc := {| Info := info; Conn := conn; Close := negb (reach a) |}). set (n2 := upd_clients n cs).
  destruct (fold_services (Name info) (Type' info) (Service info) n2) as (F1 & F2 & F3 & F4 & F5 & F6 & F7 & F8).
  set (n3 := fold_left _ _ n2) in *. cbn zeta in *. set (n4 := upd_RpcClient n3 (<[Name info := nc]> (RpcClient n3))).
  set (n5 := if reach a then tell n4 (ENodeConn (Name info)) else n4). exists n5.
  assert (Hrc : RpcClient n5 = <[Name info := nc]> (RpcClient n)).
  { transitivity (RpcClient n4); [unfold n5; by destruct (reach a)|]. cbn [RpcClient n4 upd_RpcClient]. by rewrite F3. }
  assert (Hcs : clients n5 = cs) by (unfold n5; destruct (reach a); exact F4).
  assert (Hrg : region n5 = region n) by (unfold n5; destruct (reach a); exact F2).
  assert (Hsf : self n5 = self n) by (unfold n5; destruct (reach a); exact F1).
  assert (Hst : nset n5 = nset n) by (unfold n5; destruct (reach a); exact F6).
  assert (Hsv : ServiceNode n5 = ServiceNode n3) by (unfold n5; by destruct (reach a)).
  splits; try done.
  - unfold n5, n4, nc, n3, n2, conn, cs, Dial. destruct (reach a); [|by rewrite app_nil_r; destruct n].
    unfold set_region. cbn [clients upd_clients]. by rewrite alter_app_r_alt, Nat.sub_diag by lia.
  - split.
    + rewrite Hrc, Hsf, Hcs. intros k x [[<- <-]|[Hk Hx]]%lookup_insert_Some.
      * cbn [nc Info Conn]. splits; try done; [by rewrite (address_ext n n5); eauto|].
        intros c. unfold conn, cs. destruct (reach a); [|done]. intros [= <-]. rewrite length_app. simpl. lia.
      * destruct (ok_conn n Hok k x Hx) as (H1 & H2 & H3 & H4). splits; try done; [by rewrite (address_ext n n5)|].
        intros c Hc%H4. unfold cs. rewrite length_app. lia.
    + rewrite Hsv, Hsf. intros svc ks Hs Hin. destruct (F8 svc (self n)) as [F8' _]. rewrite Hs in F8'. cbn in F8'.
      destruct (F8' Hin) as [Hold|[Hn _]]; [|congruence]. change (ServiceNode n2) with (ServiceNode n) in Hold.
      destruct (ServiceNode n !! svc) as [ks0|] eqn:E; [|set_solver]. by apply (ok_service n Hok svc ks0 E).
  - by rewrite Hsv.
Qed.

(** connectNode in the case that the node can be reached. *)
Lemma connectNode_spec n info a :
  node_ok n -> Name info <> self n -> address_of n info = Ret a -> reach a = true ->
  exists n' c, connectNode n info = Ret n' /\ node_ok n' /\ client_of n' (Name info) c /\
    client_region n' c = Region info /\
    (exists cl, clients n' !! c = Some cl /\ cl_Name cl = Some (Name info)) /\
    (forall sv, sv ∈ Service info -> offers n' (sv_Name sv) (Name info)).
Proof.
  intros Hok Hne Ha Hr. destruct (connectNode_any n info a Hok Hne Ha) as (n' & E & Hok' & _ & _ & _ & Hrc & Hcs & Hsv).
  rewrite Hr in Hrc, Hcs. set (c := length (clients n)) in *. exists n', c.
  assert (Hcl : clients n' !! c = Some {| cl_Region := Region info; cl_closed := false; cl_Name := Some (Name info) |}).
  { rewrite Hcs, lookup_app_r, Nat.sub_diag by (unfold c; lia). done. }
  assert (Hcof : client_of n' (Name info) c).
  { eexists. rewrite Hrc, lookup_insert_eq. splits; try done. unfold live, IsClose. cbn [Conn]. by rewrite Hcl. }
  splits; try done; [unfold client_region; by rewrite Hcl|eauto|].
  intros sv Hin. split.
  - apply Hsv. right. split; [done|]. apply list_elem_of_fmap. by exists sv.
  - unfold available. by destruct Hcof as (x & -> & _ & ->).
Qed.

(** A connection that ends, closed here or lost, leaves the tables well formed. *)
Lemma close_client_ok n c : node_ok n -> node_ok (close_client n c).
Proof.
  intros Hok. split; [|apply (ok_service n Hok)]. intros k x Hx. destruct (ok_conn n Hok k x Hx) as (H1 & H2 & H3 & H4).
  splits; try done. intros d Hd%H4. cbn [clients close_client upd_clients]. by rewrite length_alter.
Qed.

(** Connecting to a node that is connected replaces its client but does not close
    it: nothing refers to the old one any more, and it stays open. *)
Lemma connect_keeps_old n info a c : node_ok n -> Name info <> self n -> address_of n info = Ret a -> reach a = true ->
  client_of n (Name info) c -> exists n' c', connectNode n info = Ret n' /\ client_of n' (Name info) c' /\ c' <> c /\
    IsClose n' c = false /\ forall k, k <> Name info -> RpcClient n' !! k = RpcClient n !! k.
Proof.
  intros Hok Hne Ha Hr (nc & Hnc & Hc & Hl). destruct (connectNode_any n info a Hok Hne Ha) as (n' & E & _ & _ & _ & _ & Hrc & Hcs & _).
  rewrite Hr in Hrc, Hcs. destruct (ok_conn n Hok _ _ Hnc) as (_ & _ & _ & Hlt). specialize (Hlt c Hc).
  exists n', (length (clients n)). splits; [done| |lia| |].
  - eexists. rewrite Hrc, lookup_insert_eq. splits; try done. unfold live, IsClose. cbn [Conn]. by rewrite Hcs, lookup_app_r, Nat.sub_diag by lia.
  - unfold live in Hl. rewrite Hc in Hl. unfold IsClose in *. rewrite Hcs, lookup_app_l by done. by apply negb_true_iff.
  - intros k Hk. by rewrite Hrc, lookup_insert_ne.
Qed.

(** The registry's notifications keep the node's tables well formed.  When a
    node [k] is removed, it cannot be called any more and the entries of the
    other nodes stay.  When a node is announced (of this set or of all sets, not the node
    itself) and can be reached, it is connected with its region and a close
    callback, and it is offered for each of its services. *)
Lemma rpc_node_watch (n : GxNode) (k v : string) (info : NodeInfo) (a : string) (Hok : node_ok n)
    (Hv : v <> "") (Hset : Set' info = "" \/ Set' info = nset n)
    (Hother : Name info <> self n) (Ha : address_of n info = Ret a) (Hreach : reach a = true) :
  (exists n', WatchNodeRegister n k "" None = Ret n' /\ node_ok n' /\ available n' k = false /\
     forall k', k' <> k -> RpcClient n' !! k' = RpcClient n !! k') /\
  (exists n' c, WatchNodeRegister n k v (Some info) = Ret n' /\ node_ok n' /\ client_of n' (Name info) c /\
     client_region n' c = Region info /\
     (exists cl, clients n' !! c = Some cl /\ cl_Name cl = Some (Name info)) /\
     (forall sv, sv ∈ Service info -> offers n' (sv_Name sv) (Name info))).
Proof.
  split.
  - unfold WatchNodeRegister. cbn [String.eqb]. destruct (RpcClient n !! k) as [nc|] eqn:Ek.
    2:{ exists n. splits; try done. unfold available. by rewrite Ek. }
    eexists. split; [done|]. set (n1 := match Conn nc with Some c => _ | None => _ end).
    assert (E : RpcClient n1 = RpcClient n /\ self n1 = self n /\ region n1 = region n /\ ServiceNode n1 = ServiceNode n
      /\ length (clients n1) = length (clients n)).
    { unfold n1. destruct (Conn nc); [|done]. splits; try done. apply length_alter. }
    destruct E as (E1 & E2 & E3 & E4 & E5). splits.
    + split; cbn [RpcClient ServiceNode self clients upd_RpcClient].
      * rewrite E1, E2, E5. intros k' x [Hne Hx]%lookup_delete_Some.
        destruct (ok_conn n Hok k' x Hx) as (H1 & H2 & H3 & H4). splits; try done.
        by rewrite (address_ext n).
      * rewrite E4, E2. apply (ok_service n Hok).
    + unfold available. cbn [RpcClient upd_RpcClient]. by rewrite E1, lookup_delete_eq.
    + intros k' Hk'. cbn [RpcClient upd_RpcClient]. rewrite E1. by apply lookup_delete_ne.
  - unfold WatchNodeRegister. destruct (String.eqb_spec v ""); [done|].
    assert (Hb : String.eqb (Set' info) "" || String.eqb (Set' info) (nset n) = true).
    { destruct Hset as [-> | ->]; [done|]. by rewrite String.eqb_refl, orb_true_r. }
    rewrite Hb. by apply (connectNode_spec n info a).
Qed.

(** Two defects of reconnection.  The close callback of a client removes the
    node by name: when a node is removed and announced again before the callback
    of its old client has run, the callback drops the new connection, and calls
    to the node fail although its client is open.  And a client made by getNode
    for a connection that is down has region 0 and no callback, whatever the
    region of the node. *)
Lemma rpc_node_reconnect (n n1 n2 : GxNode) (k v sm : string) (info : NodeInfo) (nc : GxNodeConn) (a : string)
    (Hok : node_ok n) (Hnc : RpcClient n !! k = Some nc) (Hv : v <> "")
    (Hk : Name info = k) (Hset : Set' info = "" \/ Set' info = nset n) (Ha : address_of n info = Ret a)
    (Hreach : reach a = true)
    (H1 : WatchNodeRegister n k "" None = Ret n1) (H2 : WatchNodeRegister n1 k v (Some info) = Ret n2)
    (Hmock : callMock n2 sm = None) :
  (exists c, client_of n2 k c /\ IsClose (CloseCallback n2 k) c = false /\
     NodeCall (CloseCallback n2 k) k sm = Ret (DError (no_node k), CloseCallback n2 k)) /\
  (forall nc' a', RpcClient n !! k = Some nc' -> live n nc' = false -> address_of n (Info nc') = Ret a' -> reach a' = true ->
     exists c n', getNode n k = Ret (Some c, n') /\ client_region n' c = 0 /\
       (exists cl, clients n' !! c = Some cl /\ cl_Name cl = None)).
Proof.
  destruct (ok_conn n Hok k nc Hnc) as (_ & Hself & _ & _). split.
  - unfold WatchNodeRegister in H1. cbn [String.eqb] in H1. rewrite Hnc in H1. injection H1 as <-.
    set (n0 := match Conn nc with Some c => close_client n c | None => n end) in *.
    assert (E : RpcClient n0 = RpcClient n /\ self n0 = self n /\ region n0 = region n /\ ServiceNode n0 = ServiceNode n
      /\ length (clients n0) = length (clients n) /\ nset n0 = nset n).
    { unfold n0. destruct (Conn nc); [|done]. splits; try done. apply length_alter. }
    destruct E as (E1 & E2 & E3 & E4 & E5 & E6). set (n1 := upd_RpcClient n0 _) in *.
    assert (Hok1 : node_ok n1).
    { split; cbn [RpcClient ServiceNode self clients upd_RpcClient n1].
      - rewrite E1, E2, E5. intros k' x [Hne Hx]%lookup_delete_Some.
        destruct (ok_conn n Hok k' x Hx) as (A1 & A2 & A3 & A4). splits; try done. by rewrite (address_ext n).
      - rewrite E4, E2. apply (ok_service n Hok). }
    unfold WatchNodeRegister in H2. destruct (String.eqb_spec v ""); [done|].
    assert (Hb : String.eqb (Set' info) "" || String.eqb (Set' info) (nset n1) = true).
    { change (nset n1) with (nset n0). rewrite E6. destruct Hset as [-> | ->]; [done|]. by rewrite String.eqb_refl, orb_true_r. }
    rewrite Hb in H2.
    destruct (connectNode_spec n1 info a Hok1) as (n2' & c & Hc & Hok2 & Hcl & _).
    { change (self n1) with (self n0). congruence. }
    { by rewrite (address_ext n) by (exact E3). }
    { done. }
    rewrite H2 in Hc. injection Hc as <-. rewrite Hk in Hcl. exists c. split; [done|].
    destruct Hcl as (x & Hx & Hxc & Hl).
    assert (Hs2 : k <> self n2) by (by destruct (ok_conn n2 Hok2 k x Hx) as (_ & ? & _)).
    split.
    + unfold live in Hl. rewrite Hxc in Hl. unfold IsClose in *. by apply negb_true_iff.
    + unfold NodeCall, to_node. change (callMock (CloseCallback n2 k) sm) with (callMock n2 sm). rewrite Hmock.
      change (self (CloseCallback n2 k)) with (self n2). destruct (String.eqb_spec k (self n2)); [done|].
      unfold GetNode, getNode. change (RpcClient (CloseCallback n2 k)) with (delete k (RpcClient n2)).
      by rewrite lookup_delete_eq.
  - intros nc' a' Hnc' Hlv Ha' Hr'. unfold getNode. rewrite Hnc'. fold (live n nc'). rewrite Hlv.
    fold (address_of n (Info nc')). rewrite Ha'. cbn [mbind go_bind]. unfold Dial. rewrite Hr'.
    do 2 eexists. split; [done|]. unfold client_region. cbn [clients upd_RpcClient upd_clients].
    rewrite lookup_app_r, Nat.sub_diag by lia. simpl. split; [done|]. by eexists.
Qed.

End node.

(** ** Addresses and commands *)

Definition free_of (c : ascii) (s : string) : Prop := all_bytes (fun x => x <> c) s.
#[local] Instance free_of_dec c s : Decision (free_of c s).
Proof. unfold free_of, all_bytes. apply _. Defined.

(** getNodeAddress: an address host:port is used as it is; of inner/outer:port
    the inner host is used within the region and the outer host from another
    region; inner/outer without a port is an index panic. *)
Lemma rpc_node_address (n : GxNode) (host inner outer port : string) (r : Z)
    (Hh : free_of ":" host /\ free_of "/" host) (Hi : free_of ":" inner /\ free_of "/" inner)
    (Ho : free_of ":" outer /\ free_of "/" outer) (Hp : free_of ":" port) :
  getNodeAddress n (host +:+ String ":" port) r = Ret (host +:+ String ":" port) /\
  getNodeAddress n (inner +:+ String "/" (outer +:+ String ":" port)) r =
    Ret ((if r =? region n then inner else outer) +:+ String ":" port) /\
  exists w, getNodeAddress n (inner +:+ String "/" outer) r = Panic w.
Proof.
  destruct Hh as [Hh1 Hh2], Hi as [Hi1 Hi2], Ho as [Ho1 Ho2]. unfold getNodeAddress.
  assert (Hio : free_of ":" (inner +:+ String "/" outer)).
  { unfold free_of. rewrite all_bytes_app. split; [done|]. constructor; [done|exact Ho1]. }
  splits.
  - rewrite Split_app by done. cbn [go_index lookup list_lookup mbind go_bind]. by rewrite (Split_none "/" host).
  - replace (inner +:+ String "/" (outer +:+ String ":" port)) with ((inner +:+ String "/" outer) +:+ String ":" port)
      by (by rewrite append_assoc, append_cons).
    rewrite Split_app by done. cbn [go_index lookup list_lookup mbind go_bind].
    rewrite Split_app, (Split_none "/" outer), (Split_none ":" port) by done. simpl.
    by destruct (r =? region n).
  - rewrite (Split_none ":") by done. cbn [go_index lookup list_lookup mbind go_bind].
    rewrite Split_app, (Split_none "/" outer) by done. simpl. destruct (r =? region n); by eexists.
Qed.

Lemma cmd_key_inj t t' c c' : cmd_key t c = cmd_key t' c' -> t = t' /\ c = c'.
Proof.
  intros E. unfold cmd_key in E.
  assert (H : forall t c, LastIndex "." (t +:+ "." +:+ Itoa c) = Some (t, Itoa c)).
  { intros u d. change ("." +:+ Itoa d) with (String "." (Itoa d)). apply LastIndex_app. by apply Itoa_free. }
  pose proof (f_equal (LastIndex ".") E) as E'. rewrite !H in E'. injection E' as -> Hc. split; [done|].
  by apply Itoa_inj.
Qed.

(** AddServiceMethod and FindServiceMethod: the method registered last for a
    node type and command is found, also under the empty type; the methods of
    other commands and of other types are left. *)
Lemma rpc_node_commands (n : GxNode) (t : string) (c : Z) (sm : string) :
  let n' := AddServiceMethod n t c sm in
  FindServiceMethod n' t c = sm /\ FindServiceMethod n' "" c = sm /\
  (forall t' c', c' <> c \/ (t' <> t /\ t' <> "") -> FindServiceMethod n' t' c' = FindServiceMethod n t' c') /\
  RpcClient n' = RpcClient n /\ ServiceNode n' = ServiceNode n.
Proof.
  cbn zeta. unfold AddServiceMethod, FindServiceMethod. cbn [CmdService upd_CmdService]. splits; try done.
  - destruct (decide (cmd_key "" c = cmd_key t c)) as [->|Hne]; [by rewrite lookup_insert_eq|].
    by rewrite lookup_insert_ne, lookup_insert_eq.
  - by rewrite lookup_insert_eq.
  - intros t' c' Hd. rewrite !lookup_insert_ne; [done|..].
    + intros [Ht Hc]%cmd_key_inj. naive_solver.
    + intros [Ht Hc]%cmd_key_inj. naive_solver.
Qed.

(** ** Examples *)

Module NodeSample.
Definition reach (a : string) : bool := String.eqb a "10.0.0.2:9000".
Definition info : NodeInfo :=
  {| Id := 2; Name := "db1"; Type' := "db"; Address := "10.0.0.2:9000";
     Service := [{| sv_Name := "Db"; Func := [{| fn_Name := "Get"; Cmd := 17 |}] |}]; Region := 5; Set' := "" |}.
Definition empty : GxNode :=
  {| self := "gate1"; region := 5; nset := "s1"; Services := ["Gate"]; RpcClient := ∅; CmdService := ∅;
     ServiceNode := ∅; MockData := None; Data := ∅; clients := []; events := [] |}.
Definition connected : GxNode := match connectNode reach empty info with Ret n => n | _ => empty end.
Definition removed : GxNode := match WatchNodeRegister reach connected "db1" "" None with Ret n => n | _ => empty end.
Definition again : GxNode := match WatchNodeRegister reach removed "db1" "x" (Some info) with Ret n => n | _ => empty end.

Lemma empty_ok : node_ok empty.
Proof. split; cbn; intros; rewrite lookup_empty in *; done. Qed.

Lemma connected_ok : node_ok connected.
Proof.
  destruct (connectNode_spec reach empty info "10.0.0.2:9000" empty_ok) as (n' & c & Hc & Hok & _);
    [by vm_compute..|]. unfold connected. by rewrite Hc.
Qed.
End NodeSample.

Lemma rpc_node_routing_witness :
  exists (d : decision) (n' : GxNode), route NodeSample.reach range_id KCall "no" NodeSample.connected EmptyContext "Db.Get" = Ret (d, n') /\
    exists c, d = DRemote KCall c EmptyContext "Db.Get" /\ client_of n' "db1" c.
Proof.
  destruct (rpc_node_routing NodeSample.reach range_id KCall "no" NodeSample.connected EmptyContext "Db.Get")
    as (d & n' & Hr & _ & _ & H).
  - exact NodeSample.connected_ok.
  - exists d, n'. split; [exact Hr|]. vm_compute in Hr. injection Hr as <- <-.
    exists 0%nat. split; [reflexivity|]. eexists. split; [by vm_compute|]. split; by vm_compute.
Defined.

Lemma rpc_node_watch_witness :
  exists n' c, WatchNodeRegister NodeSample.reach NodeSample.connected "db1" "x" (Some NodeSample.info) = Ret n' /\
    client_region n' c = 5.
Proof.
  destruct (rpc_node_watch NodeSample.reach NodeSample.connected "db1" "x" NodeSample.info "10.0.0.2:9000")
    as [_ (n' & c & Hw & _ & _ & Hr & _)].
  - exact NodeSample.connected_ok.
  - done.
  - by left.
  - done.
  - by vm_compute.
  - by vm_compute.
  - by exists n', c.
Defined.

Lemma rpc_node_reconnect_witness :
  NodeCall NodeSample.reach (CloseCallback NodeSample.again "db1") "db1" "Db.Get"
  = Ret (DError "node db1 not exists", CloseCallback NodeSample.again "db1").
Proof.
  destruct (rpc_node_reconnect NodeSample.reach NodeSample.connected NodeSample.removed NodeSample.again
    "db1" "x" "Db.Get" NodeSample.info {| Info := NodeSample.info; Conn := Some 0%nat; Close := false |} "10.0.0.2:9000")
    as [(c & _ & _ & H) _].
  - exact NodeSample.connected_ok.
  - by vm_compute.
  - done.
  - done.
  - by left.
  - by vm_compute.
  - by vm_compute.
  - by vm_compute.
  - by vm_compute.
  - by vm_compute.
  - exact H.
Defined.

Lemma rpc_node_address_witness :
  getNodeAddress NodeSample.empty "10.0.0.2/1.2.3.4:9000" 7 = Ret "1.2.3.4:9000".
Proof.
  destruct (rpc_node_address NodeSample.empty "h" "10.0.0.2" "1.2.3.4" "9000" 7) as (_ & H & _);
    try exact H; apply (bool_decide_unpack _); by vm_compute.
Defined.
