(* ===== verification/Misc.v ===== *)
(** * Helpers: util/misc.go

    Arrays (the ones that are only read as lists, the ones that are changed as
    slices of a heap), bits, numbers and strings, versions, dates and protected
    calls.  The clock and the zones of the system are arguments. *)

From Stdlib Require Import ZArith Lia Ascii String.
From stdpp Require Import base numbers list strings gmap.
From S2P Require Import Prelude GoStd GoText GoTime GoSlice.

(** ** Arrays that are read *)

Section arrays.
Context {A : Type} `{EqDecision A}.

(** The loop of InIntArray, InArray and the others. *)
Fixpoint in_array (array : list A) (key : A) : bool :=
  match array with
  | [] => false
  | x :: array => if decide (x = key) then true else in_array array key
  end.

Fixpoint sub_array (arr1 arr2 : list A) : list A :=
  match arr1 with
  | [] => []
  | x :: arr1 => if in_array arr2 x then sub_array arr1 arr2 else x :: sub_array arr1 arr2
  end.

Fixpoint all_in (arr1 arr2 : list A) : bool :=
  match arr1 with
  | [] => true
  | x :: arr1 => if in_array arr2 x then all_in arr1 arr2 else false
  end.

Definition equal_array (arr1 arr2 : list A) : bool :=
  if decide (length arr1 = length arr2) then all_in arr1 arr2 else false.

Fixpoint array_repeat (arr1 arr2 : list A) : bool :=
  match arr1 with
  | [] => false
  | x :: arr1 => if in_array arr2 x then true else array_repeat arr1 arr2
  end.
End arrays.

Definition InIntArray (array : list Z) (key : Z) : bool := in_array array key.
Definition InArray (array : list string) (key : string) : bool := in_array array key.
Definition InUint16Array (array : list Z) (n : Z) : bool := in_array array n.
Definition InUint32Array (array : list Z) (n : Z) : bool := in_array array n.
Definition InUint64Array (array : list Z) (n : Z) : bool := in_array array n.
Definition SubUint32Array (arr1 arr2 : list Z) : list Z := sub_array arr1 arr2.
Definition EqualUInt32Array (arr1 arr2 : list Z) : bool := equal_array arr1 arr2.
Definition EqualInt32Array (arr1 arr2 : list Z) : bool := equal_array arr1 arr2.
Definition Uint32ArrayRepeat (arr1 arr2 : list Z) : bool := array_repeat arr1 arr2.

(** [In] by reflection: the elements of a slice or array, or another kind. *)
Inductive reflected (A : Type) := RElems (l : list A) | ROther.
Arguments RElems {A} l.
Arguments ROther {A}.

Definition In {A} `{EqDecision A} (arr : reflected A) (v : A) : go bool :=
  match arr with RElems l => Ret (in_array l v) | ROther => Err (ErrMsg "unsupport type") end.

(** ** Arrays that are changed *)

Section slices.
Context {A : Type} `{EqDecision A} (zero : A) (grow : nat -> nat).

Definition copy_array (h : heap A) (src : slice) : heap A * slice :=
  if decide (len src = 0%nat) then make_of h [] else make_of h (elems h src).

(** The loops read the arguments [v] from the heap in each round. *)
Fixpoint insert_loop (n i : nat) (h : heap A) (arr v : slice) (count : nat) : heap A * slice * nat :=
  match n with
  | O => (h, arr, count)
  | S n =>
      match elems h v !! i with
      | None => (h, arr, count)
      | Some x =>
          if in_array (elems h arr) x then insert_loop n (S i) h arr v count
          else let '(h, arr) := append zero grow h arr x in insert_loop n (S i) h arr v (S count)
      end
  end.

Definition UnquieInsert (h : heap A) (arr v : slice) : heap A * slice * bool :=
  let '(h, arr, count) := insert_loop (len v) 0 h arr v 0 in (h, arr, Nat.eqb count 0).

(** The versions for numbers return nothing. *)
Definition insert_numbers (h : heap A) (arr v : slice) : heap A * slice :=
  (insert_loop (len v) 0 h arr v 0).1.

Fixpoint index_of (arr : list A) (x : A) : option nat :=
  match arr with
  | [] => None
  | y :: arr => if decide (y = x) then Some 0%nat else S <$> index_of arr x
  end.

Fixpoint remove_loop (n i : nat) (h : heap A) (arr v : slice) : heap A * slice :=
  match n with
  | O => (h, arr)
  | S n =>
      match elems h v !! i with
      | None => (h, arr)
      | Some x =>
          match index_of (elems h arr) x with
          | Some index => let '(h, arr) := remove_at h arr index in remove_loop n (S i) h arr v
          | None => remove_loop n (S i) h arr v
          end
      end
  end.

Definition RemoveUInt64Array (h : heap A) (arr v : slice) : heap A * slice := remove_loop (len v) 0 h arr v.
End slices.

Definition CopyInt64Array (h : heap Z) (src : slice) := copy_array h src.
Definition CopyUInt64Array (h : heap Z) (src : slice) := copy_array h src.
Definition CopyUInt32Array (h : heap Z) (src : slice) := copy_array h src.
Definition CopyInt32Array (h : heap Z) (src : slice) := copy_array h src.
Definition UnquieInsertUInt64 := insert_numbers (A := Z) 0.
Definition UnquieInsertUInt32 := insert_numbers (A := Z) 0.
Definition UnquieInsertInt32 := insert_numbers (A := Z) 0.

(** ** Bits *)

Definition RemBit (mask i : Z) : Z := Z.lxor mask (u32 (Z.shiftl 1 i)).
Definition SetBit (mask i : Z) : Z := Z.lor (u32 (Z.shiftl 1 i)) mask.
Definition GetBit (mask i : Z) : bool := negb (Z.land mask (u32 (Z.shiftl 1 i)) =? 0).

(** ** Strings and numbers *)

Definition STU32 (str : string) : Z := u32 (Atoi str).1.
Definition STU64 (str : string) : Z := (ParseUint 64 str).1.
Definition STI64 (str : string) : Z := (ParseInt 64 str).1.

(** interface{} values: nil, a string, something else. *)
Inductive iface := INil | IString (s : string) | IOther.
Definition ITS (i : iface) : go string :=
  match i with INil => Ret "" | IString s => Ret s | IOther => Panic "interface conversion" end.
Definition If {A} (x : bool) (a b : A) : A := if x then a else b.

(** The loop of the three functions that write numbers with a separator. *)
Fixpoint write_all (first : bool) (arr : list Z) (sep : string) : string :=
  match arr with
  | [] => ""
  | x :: arr => (if first then "" else sep) +:+ Itoa x +:+ write_all false arr sep
  end.
Definition Uint64ArratToString (arr : list Z) (sep : string) : string := write_all true arr sep.
Definition Int64ArratToString (arr : list Z) (sep : string) : string := write_all true arr sep.
Definition JoinUint64Array (arr : list Z) (sep : string) : string := write_all true arr sep.

Definition upper_byte (b : ascii) : ascii :=
  if (97 <=? byte_val b) && (byte_val b <=? 122) then to_byte (byte_val b - 32) else b.
Fixpoint Upper (s : string) (n : Z) : string :=
  match s with
  | "" => ""
  | String b s => if 0 <? n then String (upper_byte b) (Upper s (n - 1)) else String b (Upper s n)
  end.

Definition GetVersionFromStr (str : string) : list Z := (fun s => (Atoi s).1) <$> Split "." str.

(** The loop over the first three components, from the [i]th. *)
Fixpoint compare_from (n i : nat) (a1 a2 : list Z) : go Z :=
  match n with
  | O => Ret 0
  | S n =>
      x ← go_index a1 i; y ← go_index a2 i;
      if y <? x then Ret 1 else if x <? y then Ret (-1) else compare_from n (S i) a1 a2
  end.
Definition CompareVersion (v1 v2 : string) : go Z := compare_from 3 0 (GetVersionFromStr v1) (GetVersionFromStr v2).

(** ExportServiceFunction, on the names of the methods in their order. *)
Definition cmd_of (name : string) : option Z :=
  let l := String.length name in
  if (l <=? 5)%nat then None
  else match ParseHex 32 (String.substring (l - 4) 4 name) with (cmd, None) => Some (u16 cmd) | (_, Some _) => None end.
Definition export_step (funcs : gmap Z string) (name : string) : gmap Z string :=
  match cmd_of name with Some cmd => <[cmd := name]> funcs | None => funcs end.
Definition ExportServiceFunction (methods : list string) : gmap Z string := fold_left export_step methods ∅.

(** ** Protected calls *)

(** A function on a state that may panic. *)
Definition ProtectCall {S} (f : S -> S * option string) (failFunc : option (S -> S * option string)) (s : S) : S * option string :=
  let '(s, err) := f s in
  match err, failFunc with
  | None, _ => (s, None)
  | Some _, None => (s, None)
  | Some _, Some g => g s
  end.

(** ** Dates *)

Definition ChinaLocTime : Z := 1546272000.
Definition VietnamLocTime : Z := 1546275600.
Definition HoChiMinhLocKey : string := "Asia/Ho_Chi_Minh".

Section dates.
Context (Local : location) (LoadLocation : string -> option location).
Context (now : Z).                       (* time.Now(), in nanoseconds *)
Definition second : Z := 10 ^ 9.
Definition now_s : Z := now / second.

Definition Now : Z := u64 now_s.
Definition NowNano : Z := u64 now.

(** [None]: a nil location. *)
Definition GetLocatione (timeZone : string) : option location :=
  match LoadLocation timeZone with
  | None => None
  | Some _ => Some Local
  end.

(** Differences of times saturate. *)
Definition saturate (d : Z) : Z := Z.max (- 2 ^ 63) (Z.min (2 ^ 63 - 1) d).

Definition GetNextDuration (timeZone date : string) : go Z :=
  let arr := Split ":" date in
  h ← go_index arr 0; m ← go_index arr 1;
  match GetLocatione timeZone with
  | None => Panic "time: missing Location in call to Date"
  | Some loc =>
      let next := Date loc (wall Local now_s).1 ((Atoi h).1 * 3600 + (Atoi m).1 * 60) in
      let next := if now <? next * second then next else next + 86400 in
      Ret (saturate (next * second - now))
  end.

Definition LTTS (t : Z) : string := FormatTime Local t.
Definition LSTT (str : string) : Z := default 0 (ParseInLocation str Local).

Definition chongqing : location := default Local (LoadLocation "Asia/Chongqing").
Definition TTS (t : Z) : string := FormatTime chongqing t.
Definition STT (str : string) : Z := default 0 (ParseInLocation str chongqing).

Definition IsSameDay (t1 t2 : Z) : bool := String.eqb (FormatDate Local (i64 t1)) (FormatDate Local (i64 t2)).

(** The first of January 1970 was a Thursday. *)
Definition Weekday (days : Z) : Z := (days + 4) mod 7.

Definition GetWeekRange (i : Z) : string * string :=
  let week := Weekday ((now_s + Local now_s) / 86400) in
  let week := if week =? 0 then 7 else week in
  let hour := 3600 * second in
  let begin := now + i64 (hour * -24 * (week - 1)) in
  let fin := now + i64 (hour * 24 * (7 - week)) in
  let begin := begin + i64 (hour * 24 * 7 * i) in
  let fin := fin + i64 (hour * 24 * 7 * i) in
  (FormatDate Local (begin / second), FormatDate Local (fin / second)).

Definition GetVietnamDay (ts : Z) : Z := u64 (ts - VietnamLocTime) / (24 * 3600).

Definition ho_chi_minh {A} (f : location -> A) : go A :=
  match LoadLocation HoChiMinhLocKey with Some loc => Ret (f loc) | None => Panic "time: missing Location" end.
Definition GetVietnamDate (ts : Z) : go string := ho_chi_minh (fun loc => FormatDate loc (i64 ts)).
Definition GetVietnamDateTime (ts : Z) : go string := ho_chi_minh (fun loc => FormatTime loc (i64 ts)).
Definition GetVietnamBeginAndEndDateTime (ts : Z) : go (string * string) :=
  let day := (wall Local now_s).1 in
  ho_chi_minh (fun loc => (FormatTime Local (Date loc day 0), FormatTime Local (Date loc day (23 * 3600 + 59 * 60 + 59)))).
End dates.

(** ** Lemmas: arrays *)

Section array_lemmas.
Context {A : Type} `{EqDecision A}.

Lemma in_array_spec (l : list A) x : in_array l x = true <-> x ∈ l.
Proof.
  induction l as [|y l IH]; cbn [in_array]; [by rewrite elem_of_nil|]. rewrite elem_of_cons. case_decide as E; [naive_solver|].
  rewrite IH. naive_solver.
Qed.

Lemma in_array_false (l : list A) x : in_array l x = false <-> x ∉ l.
Proof. rewrite <- in_array_spec. by destruct (in_array l x). Qed.

Lemma sub_array_spec (l k : list A) : sub_array l k = filter (fun x => x ∉ k) l.
Proof.
  induction l as [|x l IH]; [done|]. cbn [sub_array]. rewrite filter_cons.
  destruct (in_array k x) eqn:E; [apply in_array_spec in E|apply in_array_false in E]; case_decide; rewrite ?IH; done.
Qed.

Lemma all_in_spec (l k : list A) : all_in l k = true <-> l ⊆ k.
Proof.
  induction l as [|x l IH]; cbn [all_in]; [by split; [set_solver|]|].
  destruct (in_array k x) eqn:E; [apply in_array_spec in E|apply in_array_false in E].
  - rewrite IH. set_solver.
  - split; [done|]. intros H. destruct E. apply H. set_solver.
Qed.

Lemma array_repeat_spec (l k : list A) : array_repeat l k = true <-> exists x, x ∈ l /\ x ∈ k.
Proof.
  induction l as [|x l IH]; cbn [array_repeat]; [split; [done|set_solver]|].
  destruct (in_array k x) eqn:E; [apply in_array_spec in E|apply in_array_false in E]; [set_solver|]. rewrite IH. set_solver.
Qed.

(** What UnquieInsert does to the elements. *)
Definition add_unique (l : list A) (x : A) : list A := if decide (x ∈ l) then l else l ++ [x].

Lemma add_unique_all vs : forall l,
  (NoDup l -> NoDup (fold_left add_unique vs l)) /\ (forall x, x ∈ fold_left add_unique vs l <-> x ∈ l \/ x ∈ vs) /\
  (length l <= length (fold_left add_unique vs l))%nat /\ (length (fold_left add_unique vs l) = length l <-> vs ⊆ l).
Proof.
  induction vs as [|v vs IH]; intros l; cbn [fold_left].
  { splits; try done; [intros x; set_solver|]. by split; [set_solver|]. }
  destruct (IH (add_unique l v)) as (H1 & H2 & H3 & H4). unfold add_unique in *. destruct (decide (v ∈ l)) as [Hv|Hv].
  - splits; try done; [intros x; rewrite H2; set_solver|]. rewrite H4. set_solver.
  - rewrite length_app in H3, H4. cbn [length] in H3, H4. splits; [intros Hnd; apply H1|intros x; rewrite H2; set_solver|lia|].
    + apply NoDup_app. splits; [done| |apply NoDup_singleton]. intros x Hx. set_solver.
    + split; [lia|]. intros Hs. destruct Hv. apply Hs. set_solver.
Qed.

(** What RemoveUInt64Array does to the elements. *)
Definition remove_first (l : list A) (x : A) : list A := match index_of l x with Some i => delete i l | None => l end.

Lemma index_of_some (l : list A) x i : index_of l x = Some i -> (i < length l)%nat /\ l !! i = Some x.
Proof.
  revert i. induction l as [|y l IH]; intros i; cbn [index_of]; [done|]. case_decide as E.
  - intros [= <-]. simpl. split; [lia|by rewrite E].
  - destruct (index_of l x) as [j|]; [|done]. intros [= <-]. destruct (IH j eq_refl). simpl. split; [lia|done].
Qed.

Lemma filter_all (P : A -> Prop) `{forall x, Decision (P x)} (l : list A) : Forall P l -> filter P l = l.
Proof. induction 1 as [|x l Hx _ IH]; [done|]. rewrite filter_cons, decide_True by done. by rewrite IH. Qed.

Lemma remove_first_NoDup (l : list A) x : NoDup l -> remove_first l x = filter (fun y => y <> x) l.
Proof.
  unfold remove_first. induction 1 as [|y l Hy Hnd IH]; [done|]. cbn [index_of]. rewrite filter_cons. destruct (decide (y = x)) as [->|Hne].
  - rewrite decide_False by naive_solver. cbn [delete list_delete]. symmetry. apply filter_all, Forall_forall. intros z Hz E. by subst.
  - rewrite decide_True by done. rewrite <- IH. destruct (index_of l x) as [i|]; cbn [fmap option_fmap option_map]; done.
Qed.
End array_lemmas.

Section slice_lemmas.
Context {A : Type} `{EqDecision A} (zero : A) (grow : nat -> nat).

(** [h'] and [s'] come from [h] and [s] by changes of the array of [s] only. *)
Definition evolves (h h' : heap A) (s s' : slice) : Prop :=
  slice_ok h' s' /\ keeps h h' s /\ (ptr s' = ptr s \/ h !! ptr s' = None).

Lemma evolves_trans h h1 h2 s s1 s2 : evolves h h1 s s1 -> evolves h1 h2 s1 s2 -> slice_ok h s -> evolves h h2 s s2.
Proof using Type.
  intros (O1 & K1 & P1) (O2 & K2 & P2) Hs. split; [done|].
  assert (Hne : forall p a, p <> ptr s -> h !! p = Some a -> p <> ptr s1) by (intros p a Hp Ha ->; destruct P1 as [|P1]; congruence).
  split.
  - intros p a Hp Ha. apply K2; [by eapply Hne|by apply K1].
  - destruct P2 as [->|P2]; [done|]. destruct (decide (ptr s2 = ptr s)) as [|Hd]; [by left|]. right.
    destruct (h !! ptr s2) as [a|] eqn:E; [|done]. rewrite (K1 _ _ Hd E) in P2. done.
Qed.

Lemma evolves_refl h s : slice_ok h s -> evolves h h s s.
Proof using Type. intros H. split; [done|]. split; [by intros p a _|by left]. Qed.

(** A slice of another array does not see the change. *)
Lemma evolves_other h h' s s' o : evolves h h' s s' -> ptr o <> ptr s -> slice_ok h o ->
  slice_ok h' o /\ elems h' o = elems h o /\ ptr o <> ptr s'.
Proof using Type.
  intros (_ & K & P) Hne Ho. destruct (keeps_elems h h' s o K Hne Ho) as [H1 H2]. splits; try done.
  intros E. destruct P as [P|P]; [congruence|]. rewrite <- E in P. by rewrite (array_lookup _ _ Ho) in P.
Qed.

Lemma insert_loop_ok n : forall i h arr v count, slice_ok h arr -> slice_ok h v -> ptr v <> ptr arr -> (i + n = len v)%nat ->
  let '(h', arr', count') := insert_loop zero grow n i h arr v count in
  evolves h h' arr arr' /\ elems h' arr' = fold_left add_unique (drop i (elems h v)) (elems h arr) /\
  (count' + length (elems h arr) = count + length (elems h' arr'))%nat.
Proof using Type.
  induction n as [|n IH]; intros i h arr v count Ha Hv Hne Hi; cbn [insert_loop].
  { rewrite drop_ge by (rewrite length_elems by done; lia). split; [by apply evolves_refl|done]. }
  destruct (elems h v !! i) as [x|] eqn:Ex.
  2:{ apply lookup_ge_None in Ex. rewrite length_elems in Ex by done. lia. }
  rewrite (drop_S _ _ _ Ex). cbn [fold_left]. destruct (in_array (elems h arr) x) eqn:E.
  - apply in_array_spec in E. specialize (IH (S i) h arr v count Ha Hv Hne ltac:(lia)). unfold add_unique at 2. rewrite decide_True by done. exact IH.
  - apply in_array_false in E. pose proof (append_ok zero grow h arr x Ha) as Happ. destruct (append zero grow h arr x) as [h1 arr1].
    destruct Happ as (O1 & E1 & K1 & P1). assert (Hev : evolves h h1 arr arr1) by done.
    destruct (evolves_other _ _ _ _ v Hev Hne Hv) as (Ov & Ev & Nv).
    specialize (IH (S i) h1 arr1 v (S count) O1 Ov Nv ltac:(lia)). destruct (insert_loop zero grow n (S i) h1 arr1 v (S count)) as [[h2 arr2] c2].
    destruct IH as (Hev2 & El & Hc). unfold add_unique at 2. rewrite decide_False by done. rewrite <- E1, <- Ev. splits; [by eapply evolves_trans|done|].
    rewrite E1, length_app in Hc. simpl in Hc. lia.
Qed.

Lemma remove_loop_ok n : forall i h arr v, slice_ok h arr -> slice_ok h v -> ptr v <> ptr arr -> (i + n = len v)%nat ->
  let '(h', arr') := remove_loop n i h arr v in
  evolves h h' arr arr' /\ elems h' arr' = fold_left remove_first (drop i (elems h v)) (elems h arr).
Proof using Type.
  induction n as [|n IH]; intros i h arr v Ha Hv Hne Hi; cbn [remove_loop].
  { rewrite drop_ge by (rewrite length_elems by done; lia). split; [by apply evolves_refl|done]. }
  destruct (elems h v !! i) as [x|] eqn:Ex.
  2:{ apply lookup_ge_None in Ex. rewrite length_elems in Ex by done. lia. }
  rewrite (drop_S _ _ _ Ex). cbn [fold_left]. unfold remove_first at 2. destruct (index_of (elems h arr) x) as [k|] eqn:E.
  - destruct (index_of_some _ _ _ E) as [Hk _]. rewrite length_elems in Hk by done. pose proof (remove_at_ok h arr k Ha Hk) as Hrm.
    destruct (remove_at h arr k) as [h1 arr1]. destruct Hrm as (O1 & E1 & K1 & P1).
    assert (Hev : evolves h h1 arr arr1) by (split; [done|]; split; [done|by left]).
    destruct (evolves_other _ _ _ _ v Hev Hne Hv) as (Ov & Ev & Nv).
    specialize (IH (S i) h1 arr1 v O1 Ov Nv ltac:(lia)). destruct (remove_loop n (S i) h1 arr1 v) as [h2 arr2].
    destruct IH as (Hev2 & El). rewrite <- E1, <- Ev. split; [by eapply evolves_trans|done].
  - exact (IH (S i) h arr v Ha Hv Hne ltac:(lia)).
Qed.

Lemma copy_array_ok (h : heap A) src : slice_ok h src ->
  let '(h', dst) := copy_array h src in slice_ok h' dst /\ elems h' dst = elems h src /\ h !! ptr dst = None /\
    (forall p a, h !! p = Some a -> h' !! p = Some a).
Proof using Type.
  clear zero grow. intros Hs. unfold copy_array. pose proof (length_elems h src Hs) as Hl. case_decide as E.
  - rewrite E in Hl. apply nil_length_inv in Hl. pose proof (make_of_ok h []) as H. unfold make_of in *. rewrite Hl.
    destruct H as (H1 & H2 & H3). splits; try done. by apply lookup_ge_None.
  - pose proof (make_of_ok h (elems h src)) as H. unfold make_of in *. destruct H as (H1 & H2 & H3). splits; try done. by apply lookup_ge_None.
Qed.

Lemma remove_all_NoDup vs : forall l : list A, NoDup l -> fold_left remove_first vs l = filter (fun x => x ∉ vs) l.
Proof using Type.
  clear zero grow. induction vs as [|v vs IH]; intros l Hl; cbn [fold_left].
  - symmetry. apply filter_all, Forall_forall. set_solver.
  - rewrite remove_first_NoDup by done. rewrite IH by (by apply NoDup_filter). rewrite list_filter_filter. apply list_filter_iff. set_solver.
Qed.
End slice_lemmas.

(** C30. Arrays that are changed, with arguments in an array of their own.  Every
    result is a window of an existing array again.  UnquieInsert adds the missing
    values in their order, keeps an array without repetitions so, and returns
    true exactly when there was nothing to add.  RemoveUInt64Array removes the
    first occurrence of each value, so all of them from an array without
    repetitions.  Slices of other arrays do not see either, and a copy is a new
    array.  But removal moves the elements in place: called with the array
    itself as arguments it skips values, and another slice of the same array shows
    its last element twice. *)
Theorem misc_slices {A} `{EqDecision A} (zero : A) (grow : nat -> nat) (h : heap A) (arr v o : slice)
    (Ha : slice_ok h arr) (Hv : slice_ok h v) (Hne : ptr v <> ptr arr) (Ho : slice_ok h o) (Hno : ptr o <> ptr arr) :
  (let '(h', arr', same) := UnquieInsert zero grow h arr v in
     slice_ok h' arr' /\ elems h' arr' = fold_left add_unique (elems h v) (elems h arr) /\
     (forall x, x ∈ elems h' arr' <-> x ∈ elems h arr \/ x ∈ elems h v) /\ (NoDup (elems h arr) -> NoDup (elems h' arr')) /\
     (same = true <-> elems h v ⊆ elems h arr) /\ slice_ok h' o /\ elems h' o = elems h o /\
     insert_numbers zero grow h arr v = (h', arr')) /\
  (let '(h', arr') := RemoveUInt64Array h arr v in
     slice_ok h' arr' /\ elems h' arr' = fold_left remove_first (elems h v) (elems h arr) /\
     (NoDup (elems h arr) -> elems h' arr' = filter (fun x => x ∉ elems h v) (elems h arr)) /\ slice_ok h' o /\ elems h' o = elems h o) /\
  (let '(h', dst) := copy_array h arr in
     slice_ok h' dst /\ elems h' dst = elems h arr /\ ptr dst <> ptr arr /\ slice_ok h' arr /\ elems h' arr = elems h arr) /\
  (let s := {| ptr := 0; off := 0; len := 3; cap := 3 |} in
   let '(h', arr') := RemoveUInt64Array [[1; 2; 3]] s s in elems h' arr' = [2] /\ elems h' s = [2; 3; 3]).
Proof.
  splits.
  - unfold UnquieInsert, insert_numbers. pose proof (insert_loop_ok zero grow (len v) 0 h arr v 0 Ha Hv Hne eq_refl) as H.
    destruct (insert_loop zero grow (len v) 0 h arr v 0) as [[h' arr'] c]. destruct H as (Hev & El & Hc). rewrite drop_0 in El.
    destruct (add_unique_all (elems h v) (elems h arr)) as (H1 & H2 & H3 & H4). rewrite <- El in *.
    destruct (evolves_other _ _ _ _ o Hev Hno Ho) as (Oo & Eo & _). splits; try done; [apply Hev|].
    rewrite <- H4, Nat.eqb_eq. lia.
  - unfold RemoveUInt64Array. pose proof (remove_loop_ok (len v) 0 h arr v Ha Hv Hne eq_refl) as H.
    destruct (remove_loop (len v) 0 h arr v) as [h' arr']. destruct H as (Hev & El). rewrite drop_0 in El.
    destruct (evolves_other _ _ _ _ o Hev Hno Ho) as (Oo & Eo & _). splits; try done; [apply Hev|]. intros Hnd. by rewrite El, remove_all_NoDup.
  - pose proof (copy_array_ok h arr Ha) as H. destruct (copy_array h arr) as [h' dst]. destruct H as (O & E & Hn & K).
    assert (Hp : ptr dst <> ptr arr) by (intros Ep; rewrite Ep in Hn; by rewrite (array_lookup _ _ Ha) in Hn).
    destruct (keeps_elems h h' dst arr) as [? ?]; [by intros p a _; apply K|done|done|]. by splits.
  - by vm_compute.
Qed.

Lemma misc_slices_witness :
  let '(h', arr', same) := UnquieInsert 0 (fun n => n) [[5; 6; 0]; [6; 7]; [9]] {| ptr := 0; off := 0; len := 2; cap := 3 |} {| ptr := 1; off := 0; len := 2; cap := 2 |} in
  elems h' arr' = [5; 6; 7] /\ (same = true <-> elems [[5; 6; 0]; [6; 7]; [9]] {| ptr := 1; off := 0; len := 2; cap := 2 |} ⊆
    elems [[5; 6; 0]; [6; 7]; [9]] {| ptr := 0; off := 0; len := 2; cap := 3 |}).
Proof.
  pose proof (misc_slices 0 (fun n => n) [[5; 6; 0]; [6; 7]; [9]] {| ptr := 0; off := 0; len := 2; cap := 3 |}
    {| ptr := 1; off := 0; len := 2; cap := 2 |} {| ptr := 2; off := 0; len := 1; cap := 1 |}) as H.
  destruct H as [H _]; [split; [|split]; vm_compute; lia|split; [|split]; vm_compute; lia|discriminate|split; [|split]; vm_compute; lia|discriminate|].
  destruct (UnquieInsert _ _ _ _ _) as [[h' arr'] same] eqn:E. destruct H as (_ & Hel & _ & _ & Hsame & _). split; [rewrite Hel; reflexivity|exact Hsame].
Defined.

(** EqualInt32Array compares as sets of the same size: without repetitions it
    ignores the order, with repetitions it is not symmetric. *)
Lemma misc_equal_arrays (a b : list Z) :
  (EqualInt32Array a b = true <-> length a = length b /\ a ⊆ b) /\
  (NoDup a -> EqualInt32Array a b = true <-> a ≡ₚ b) /\
  EqualInt32Array [1; 1; 2] [1; 2; 3] = true /\ EqualInt32Array [1; 2; 3] [1; 1; 2] = false.
Proof.
  assert (H : EqualInt32Array a b = true <-> length a = length b /\ a ⊆ b).
  { unfold EqualInt32Array, equal_array. case_decide; [by rewrite all_in_spec; naive_solver|]. by split; [|intros [? _]]. }
  splits; [done| |done|done]. intros Hnd. rewrite H. split.
  - intros [Hl Hs]. apply submseteq_length_Permutation; [by apply NoDup_submseteq|lia].
  - intros Hp. rewrite Hp. done.
Qed.

(** ** Lemmas: bits, versions, strings, dates *)

Lemma bit_pow i : 0 <= i < 32 -> u32 (Z.shiftl 1 i) = 2 ^ i.
Proof. intros Hi. rewrite Z.shiftl_1_l. apply wrapu_small. unfold in_u. split; [apply Z.pow_nonneg; lia|apply Z.pow_lt_mono_r; lia]. Qed.

Lemma bit_big i : 32 <= i -> u32 (Z.shiftl 1 i) = 0.
Proof.
  intros Hi. rewrite Z.shiftl_1_l. unfold wrapu. replace i with (32 + (i - 32)) by lia. rewrite Z.pow_add_r by lia.
  rewrite Z.mul_comm. apply Z.mod_mul. lia.
Qed.

Lemma GetBit_testbit mask i : 0 <= i < 32 -> GetBit mask i = Z.testbit mask i.
Proof.
  intros Hi. unfold GetBit. rewrite bit_pow by done. destruct (Z.eqb_spec (Z.land mask (2 ^ i)) 0) as [E|E].
  - apply (f_equal (fun z => Z.testbit z i)) in E. rewrite Z.land_spec, Z.pow2_bits_true, andb_true_r, Z.bits_0 in E by lia. by rewrite E.
  - destruct (Z.testbit mask i) eqn:Et; [done|]. destruct E. apply Z.bits_inj'. intros n Hn. rewrite Z.land_spec, Z.bits_0.
    destruct (decide (n = i)) as [->|Hne]; [by rewrite Et|]. rewrite Z.pow2_bits_false by lia. apply andb_false_r.
Qed.

(** SetBit sets one bit; RemBit flips it, so it sets a bit that was not set.
    Bits from 32 on do not exist. *)
Lemma misc_bits (mask i j : Z) : in_u 32 mask -> 0 <= j < 32 -> 0 <= i ->
  (i < 32 -> GetBit (SetBit mask i) j = (i =? j) || GetBit mask j /\ GetBit (RemBit mask i) j = xorb (i =? j) (GetBit mask j)) /\
  (32 <= i -> SetBit mask i = mask /\ RemBit mask i = mask /\ GetBit mask i = false).
Proof.
  intros Hm Hj Hi0. split.
  - intros Hi. rewrite !GetBit_testbit by lia. unfold SetBit, RemBit. rewrite bit_pow by lia. rewrite Z.lor_spec, Z.lxor_spec, Z.pow2_bits_eqb by lia.
    split; [done|]. by rewrite xorb_comm.
  - intros Hi. unfold SetBit, RemBit, GetBit. rewrite bit_big by done. by rewrite Z.lxor_0_r, Z.land_0_r.
Qed.

(** *** Versions *)

(** The first difference decides. *)
Fixpoint lex (l k : list Z) : Z :=
  match l, k with
  | x :: l, y :: k => if y <? x then 1 else if x <? y then -1 else lex l k
  | _, _ => 0
  end.

Lemma compare_from_lex n : forall i a1 a2, (i + n <= length a1)%nat -> (i + n <= length a2)%nat ->
  compare_from n i a1 a2 = Ret (lex (take n (drop i a1)) (take n (drop i a2))).
Proof.
  induction n as [|n IH]; intros i a1 a2 H1 H2; [done|]. cbn [compare_from]. unfold go_index.
  destruct (lookup_lt_is_Some_2 a1 i) as [x Ex]; [lia|]. destruct (lookup_lt_is_Some_2 a2 i) as [y Ey]; [lia|].
  rewrite Ex, Ey. cbn [mbind go_bind]. rewrite (drop_S _ _ _ Ex), (drop_S _ _ _ Ey), !firstn_cons. cbn [lex].
  destruct (y <? x); [done|]. destruct (x <? y); [done|]. apply IH; lia.
Qed.

Lemma lex_antisym : forall l k, lex k l = - lex l k.
Proof.
  induction l as [|x l IH]; intros [|y k]; cbn [lex]; try done.
  destruct (Z.ltb_spec x y), (Z.ltb_spec y x); try lia. apply IH.
Qed.

Lemma lex_zero : forall l k, length l = length k -> lex l k = 0 <-> l = k.
Proof.
  induction l as [|x l IH]; intros [|y k] H; cbn [lex]; try done. injection H as H.
  destruct (Z.ltb_spec y x), (Z.ltb_spec x y); try lia; [split; [done|]; intros [=]; lia..|].
  assert (x = y) as -> by lia. rewrite IH by done. split; [by intros ->|by intros [= ->]].
Qed.

Lemma lex_trans : forall l k m, length l = length k -> length k = length m -> lex l k = 1 -> lex k m = 1 -> lex l m = 1.
Proof.
  induction l as [|x l IH]; intros [|y k] [|z m] H1 H2; cbn [lex]; try done. injection H1 as H1. injection H2 as H2.
  destruct (Z.ltb_spec y x), (Z.ltb_spec x y), (Z.ltb_spec z y), (Z.ltb_spec y z), (Z.ltb_spec z x), (Z.ltb_spec x z); try lia; try done. by apply IH.
Qed.

Lemma compare_from_short n : forall i a1 a2, (i <= length a1)%nat -> (i <= length a2)%nat ->
  (length a1 < i + n \/ length a2 < i + n)%nat ->
  drop i (take (length a1 `min` length a2) a1) = drop i (take (length a1 `min` length a2) a2) ->
  exists w, compare_from n i a1 a2 = Panic w.
Proof.
  induction n as [|n IH]; intros i a1 a2 H1 H2 Hs He; [lia|]. cbn [compare_from]. unfold go_index.
  destruct (a1 !! i) as [x|] eqn:Ex; cbn [mbind go_bind]; [|by eexists].
  destruct (a2 !! i) as [y|] eqn:Ey; cbn [mbind go_bind]; [|by eexists].
  assert (i < length a1)%nat by (by eapply lookup_lt_Some). assert (i < length a2)%nat by (by eapply lookup_lt_Some).
  assert (Exm : take (length a1 `min` length a2) a1 !! i = Some x) by (rewrite lookup_take_lt by lia; done).
  assert (Eym : take (length a1 `min` length a2) a2 !! i = Some y) by (rewrite lookup_take_lt by lia; done).
  rewrite (drop_S _ _ _ Exm), (drop_S _ _ _ Eym) in He. injection He as -> He. rewrite Z.ltb_irrefl. apply IH; [lia..|done].
Qed.

(** Versions of at least three components are ordered by the first three: the
    comparison is antisymmetric and transitive and gives 0 exactly when they agree.
    If one has fewer and its components agree with the other's, the comparison
    panics. *)
Lemma misc_versions (v1 v2 v3 : string) :
  let n v := length (GetVersionFromStr v) in let c v := take 3 (GetVersionFromStr v) in
  ((3 <= n v1)%nat -> (3 <= n v2)%nat -> exists r, CompareVersion v1 v2 = Ret r /\ CompareVersion v2 v1 = Ret (- r) /\
     r = lex (c v1) (c v2) /\ (r = 0 <-> c v1 = c v2) /\
     ((3 <= n v3)%nat -> r = 1 -> CompareVersion v2 v3 = Ret 1 -> CompareVersion v1 v3 = Ret 1)) /\
  ((n v1 < 3 \/ n v2 < 3)%nat -> take (n v1 `min` n v2) (GetVersionFromStr v1) = take (n v1 `min` n v2) (GetVersionFromStr v2) ->
     exists w, CompareVersion v1 v2 = Panic w).
Proof.
  cbn zeta. unfold CompareVersion. split.
  - intros H1 H2. exists (lex (take 3 (GetVersionFromStr v1)) (take 3 (GetVersionFromStr v2))). rewrite !compare_from_lex by lia. rewrite !drop_0.
    splits; [done|by rewrite lex_antisym|done| |].
    + apply lex_zero. rewrite !length_take. lia.
    + intros H3 E12. rewrite !compare_from_lex by lia. rewrite !drop_0. intros [= E23]. f_equal. eapply lex_trans; [..|exact E12|exact E23]; rewrite !length_take; lia.
  - intros Hs He. apply compare_from_short; [lia|lia|lia|]. by rewrite !drop_0.
Qed.

(** *** Numbers and names *)

Lemma write_all_Join arr sep : write_all true arr sep = Join (Itoa <$> arr) sep.
Proof.
  assert (H : forall arr x, Join (Itoa <$> (x :: arr)) sep = Itoa x +:+ write_all false arr sep).
  { clear arr. induction arr as [|y arr IH]; intros x; [by rewrite append_nil_r|].
    change (Join (Itoa <$> (x :: y :: arr)) sep) with (Itoa x +:+ sep +:+ Join (Itoa <$> (y :: arr)) sep). by rewrite IH. }
  destruct arr as [|x arr]; [done|]. rewrite H. cbn [write_all]. by rewrite append_nil_l.
Qed.

Lemma Upper_app_first c s : Upper (String c s) 1 = String (upper_byte c) s.
Proof.
  cbn [Upper]. change (0 <? 1) with true. cbn iota. f_equal.
  assert (H : forall s n, n <= 0 -> Upper s n = s).
  { clear. induction s as [|b s IH]; intros n Hn; [done|]. cbn [Upper]. destruct (Z.ltb_spec 0 n); [lia|]. by rewrite IH. }
  apply H. lia.
Qed.

Lemma substring_app p s : String.substring (String.length p) (String.length s) (p +:+ s) = s.
Proof.
  induction p as [|c p IH]; [|exact IH]. rewrite append_nil_l. cbn [String.length]. induction s as [|c s IH]; [done|]. cbn [String.length String.substring]. by rewrite IH.
Qed.

(** A method whose name ends in four hexadecimal digits serves that command. *)
Lemma cmd_of_name p cmd : (2 <= String.length p)%nat -> in_u 16 cmd -> cmd_of (p +:+ hex4 cmd) = Some cmd.
Proof.
  intros Hp Hc. unfold cmd_of. rewrite string_length_app. change (String.length (hex4 cmd)) with 4%nat.
  destruct (Nat.leb_spec (String.length p + 4) 5); [lia|]. replace (String.length p + 4 - 4)%nat with (String.length p) by lia.
  change 4%nat with (String.length (hex4 cmd)). rewrite (substring_app p (hex4 cmd)). rewrite ParseHex_hex4 by done. by rewrite wrapu_small.
Qed.

Lemma export_step_lookup funcs name cmd m : export_step funcs name !! cmd = Some m -> funcs !! cmd = Some m \/ (m = name /\ cmd_of name = Some cmd).
Proof.
  unfold export_step. destruct (cmd_of name) as [c|]; [|by left]. destruct (decide (c = cmd)) as [->|]; rewrite ?lookup_insert_eq, ?lookup_insert_ne by done; naive_solver.
Qed.

Lemma ExportServiceFunction_spec methods : forall funcs cmd m, fold_left export_step methods funcs !! cmd = Some m ->
  funcs !! cmd = Some m \/ (m ∈ methods /\ cmd_of m = Some cmd).
Proof.
  induction methods as [|name methods IH]; intros funcs cmd m H; [by left|]. cbn [fold_left] in H. destruct (IH _ _ _ H) as [H'|H'].
  - apply export_step_lookup in H' as [|[-> ?]]; [by left|]. right. set_solver.
  - right. set_solver.
Qed.

(** Every command of a method is served, by a method of that command. *)
Lemma ExportServiceFunction_total methods name cmd : name ∈ methods -> cmd_of name = Some cmd -> is_Some (ExportServiceFunction methods !! cmd).
Proof.
  unfold ExportServiceFunction. generalize (∅ : gmap Z string). intros funcs Hin Hc.
  assert (Hk : forall ms f, is_Some (f !! cmd) -> is_Some (fold_left export_step ms f !! cmd)).
  { clear. induction ms as [|n ms IH]; intros f Hf; [done|]. cbn [fold_left]. apply IH. unfold export_step. destruct (cmd_of n) as [c|]; [|done].
    destruct (decide (c = cmd)) as [->|]; rewrite ?lookup_insert_eq, ?lookup_insert_ne by done; [by eexists|done]. }
  revert funcs. induction methods as [|n ms IH]; intros funcs; [set_solver|]. cbn [fold_left]. apply elem_of_cons in Hin as [->|Hin]; [|by apply IH].
  apply Hk. unfold export_step. rewrite Hc. rewrite lookup_insert_eq. by eexists.
Qed.

(** Texts and numbers.  Numbers joined with a separator that is neither digit
    nor sign are read back by Split and STU64 or STI64.  The exported functions
    are exactly the methods whose names end in four hexadecimal digits, by that
    number; of several with one number the last is kept.  Upper with 1 changes the
    first letter only.  A text that is not a number is 0, and one out of range is
    the nearest number, except that STU32 keeps the low 32 bits. *)
Lemma misc_text (arr : list Z) (sep : ascii) (p : string) (cmd : Z) (methods : list string) (b : ascii) (s : string)
    (Hne : arr <> []) (Hsep : digit_val sep = None) (Hminus : sep <> "-"%char)
    (Hp : (2 <= String.length p)%nat) (Hc : in_u 16 cmd) :
  (Forall (in_u 64) arr -> STU64 <$> Split sep (Uint64ArratToString arr (String sep "")) = arr) /\
  (Forall (in_u 64) arr -> STU64 <$> Split sep (JoinUint64Array arr (String sep "")) = arr) /\
  (Forall (in_s 64) arr -> STI64 <$> Split sep (Int64ArratToString arr (String sep "")) = arr) /\
  (forall m, ExportServiceFunction methods !! cmd = Some m -> m ∈ methods /\ cmd_of m = Some cmd) /\
  (p +:+ hex4 cmd ∈ methods -> is_Some (ExportServiceFunction methods !! cmd)) /\
  ExportServiceFunction (methods ++ [p +:+ hex4 cmd]) !! cmd = Some (p +:+ hex4 cmd) /\
  Upper (String b s) 1 = String (upper_byte b) s /\
  STU64 "x1" = 0 /\ STU64 "18446744073709551616" = 2 ^ 64 - 1 /\ STI64 "-9223372036854775809" = - 2 ^ 63 /\ STU32 "4294967297" = 1.
Proof.
  assert (Hsp : Split sep (write_all true arr (String sep "")) = Itoa <$> arr).
  { rewrite write_all_Join. apply Split_Join; [by destruct arr|]. apply Forall_fmap, Forall_forall. intros x _. by apply Itoa_free. }
  unfold Uint64ArratToString, Int64ArratToString, JoinUint64Array. rewrite Hsp, <- !list_fmap_compose.
  assert (Hu : Forall (in_u 64) arr -> (STU64 ∘ Itoa) <$> arr = arr).
  { intros Hr. rewrite <- (list_fmap_id arr) at 2. apply list_fmap_ext. intros i x Hx. unfold compose, STU64. rewrite ParseUint_Itoa; [done|]. by eapply Forall_lookup_1. }
  splits; try done.
  - intros Hr. rewrite <- (list_fmap_id arr) at 2. apply list_fmap_ext. intros i x Hx. unfold compose, STI64. rewrite ParseInt_Itoa; [done|done|]. by eapply Forall_lookup_1.
  - intros m Hm. apply ExportServiceFunction_spec in Hm as [Hm|]; [by rewrite lookup_empty in Hm|done].
  - intros Hin. eapply ExportServiceFunction_total; [done|]. by apply cmd_of_name.
  - unfold ExportServiceFunction. rewrite fold_left_app. cbn [fold_left]. unfold export_step at 1. rewrite cmd_of_name by done. apply lookup_insert_eq.
  - apply Upper_app_first.
Qed.

Lemma misc_versions_witness : exists r, CompareVersion "1.10.0" "1.9.3" = Ret r /\ CompareVersion "1.9.3" "1.10.0" = Ret (- r).
Proof.
  destruct (misc_versions "1.10.0" "1.9.3" "1.0.0") as [H _].
  destruct H as (r & H1 & H2 & _); [vm_compute; lia|vm_compute; lia|]. exists r. split; [exact H1|exact H2].
Defined.

Lemma misc_text_witness :
  STU64 <$> Split "," (Uint64ArratToString [7; 12; 0] ",") = [7; 12; 0] /\ is_Some (ExportServiceFunction ["Login0a01"; "Ping"] !! 2561).
Proof.
  destruct (misc_text [7; 12; 0] "," "Login" 2561 ["Login0a01"; "Ping"] "a" "") as (H1 & _ & _ & _ & H2 & _).
  - discriminate.
  - reflexivity.
  - discriminate.
  - vm_compute. lia.
  - vm_compute. split; [discriminate|reflexivity].
  - split; [apply H1; repeat constructor; vm_compute; discriminate|]. apply H2. constructor.
Defined.

(** *** Dates *)

Lemma wall_fixed o t : wall (fixed o) t = (date_of_days ((t + o) / 86400), (t + o) mod 86400).
Proof. done. Qed.

Lemma FormatDate_inj loc t1 t2 : 0 <= year (wall loc t1).1 < 10000 -> 0 <= year (wall loc t2).1 < 10000 ->
  FormatDate loc t1 = FormatDate loc t2 <-> (t1 + loc t1) / 86400 = (t2 + loc t2) / 86400.
Proof.
  intros H1 H2. split.
  - intros E. apply date_of_days_inj. apply fmt_date_inj in E; [done|apply wall_ok..|done|done].
  - intros E. unfold FormatDate, wall. cbn [fst]. by rewrite E.
Qed.

Lemma Weekday_monday days : let week := if Weekday days =? 0 then 7 else Weekday days in
  1 <= week <= 7 /\ Weekday (days - (week - 1)) = 1 /\ Weekday (days + (7 - week)) = 0.
Proof. cbn zeta. unfold Weekday. destruct (Z.eqb_spec ((days + 4) mod 7) 0); Z.div_mod_to_equations; lia. Qed.

(** GetWeekRange on a clock of constant offset: from the Monday to the Sunday of
    the week of today, moved by [i] weeks. *)
Lemma week_range o now i : Z.abs i <= 15000 -> exists monday,
  let today := (now_s now + o) / 86400 in
  Weekday monday = 1 /\ monday <= today <= monday + 6 /\
  GetWeekRange (fixed o) now i = (fmt_date (date_of_days (monday + 7 * i)), fmt_date (date_of_days (monday + 6 + 7 * i))).
Proof.
  intros Hi. set (today := (now_s now + o) / 86400). destruct (Weekday_monday today) as (Hw & Hm & _).
  set (week := if Weekday today =? 0 then 7 else Weekday today) in *. exists (today - (week - 1)). cbn zeta. splits; [done|lia|lia|].
  unfold GetWeekRange. change (fixed o (now_s now)) with o. fold today. fold week. cbn zeta. unfold FormatDate. rewrite !wall_fixed. cbn [fst].
  clearbody week. unfold now_s in today. unfold second in *. rewrite !wraps_small by (unfold in_s; lia).
  f_equal; f_equal; f_equal; unfold today; Z.div_mod_to_equations; lia.
Qed.

Lemma next_duration o load now tz h m : - 86400 <= o <= 86400 -> 0 <= h < 24 -> 0 <= m < 60 -> is_Some (load tz) ->
  exists d, GetNextDuration (fixed o) load now tz (Itoa h +:+ String ":" (Itoa m)) = Ret d /\ 0 < d <= 86400 * second /\
    (now + d) mod second = 0 /\ ((now + d) / second + o) mod 86400 = h * 3600 + m * 60.
Proof.
  intros Ho Hh Hm [loc Hl]. unfold GetNextDuration. rewrite Split_app by (by apply Itoa_free). rewrite (Split_none ":") by (by apply Itoa_free).
  unfold go_index. cbn [lookup list_lookup mbind go_bind]. unfold GetLocatione. rewrite Hl. rewrite !Atoi_Itoa by (unfold in_s; lia). cbn [fst].
  rewrite wall_fixed. cbn [fst]. unfold Date. rewrite (proj2 (date_of_days_ok _)).
  set (today := (now_s now + o) / 86400). set (u := today * 86400 + (h * 3600 + m * 60)).
  replace (if fixed o u =? 0 then u else u - fixed o (u - fixed o u)) with (u - o) by (unfold fixed; destruct (Z.eqb_spec o 0); lia).
  set (next := u - o). assert (En : next = today * 86400 + (h * 3600 + m * 60) - o) by done.
  unfold now_s, second in *. clearbody next. clear u.
  assert (Ht : today * 86400 <= now / 10 ^ 9 + o < today * 86400 + 86400) by (unfold today; Z.div_mod_to_equations; lia). clearbody today.
  assert (Hnow : 10 ^ 9 * (now / 10 ^ 9) <= now < 10 ^ 9 * (now / 10 ^ 9) + 10 ^ 9) by (Z.div_mod_to_equations; lia). set (s := now / 10 ^ 9) in *. clearbody s.
  set (d := (if now <? next * 10 ^ 9 then next else next + 86400) * 10 ^ 9 - now).
  assert (Hd : 0 < d <= 86400 * 10 ^ 9) by (unfold d; destruct (Z.ltb_spec now (next * 10 ^ 9)); lia).
  exists d. splits; try lia.
  - f_equal. unfold saturate. lia.
  - unfold d. set (n := if now <? next * 10 ^ 9 then next else next + 86400). replace (now + (n * 10 ^ 9 - now)) with (n * 10 ^ 9) by lia. apply Z.mod_mul. lia.
  - unfold d. set (n := if now <? next * 10 ^ 9 then next else next + 86400). replace (now + (n * 10 ^ 9 - now)) with (n * 10 ^ 9) by lia. rewrite Z.div_mul by lia.
    assert (n + o = (h * 3600 + m * 60) + today * 86400 \/ n + o = (h * 3600 + m * 60) + (today + 1) * 86400) as [-> | ->] by (unfold n; destruct (now <? next * 10 ^ 9); lia);
      rewrite Z.mod_add by lia; apply Z.mod_small; lia.
Qed.

(** Dates, on a clock of constant offset.  Times from the year 0 to 9999 are
    read back by LSTT and STT as LTTS and TTS wrote them.  IsSameDay compares local
    days.  GetWeekRange gives Monday and Sunday of the week.  GetNextDuration of a
    known zone is the time to the next h:m of the local clock, whatever the zone,
    and of an unknown zone it panics: GetLocatione returns the local zone for the
    known ones and nil for the others.  GetVietnamDay counts the days of Vietnam's
    calendar since 2019 and wraps around before; the range of a day ignores its
    argument. *)
Lemma misc_dates (o : Z) (load : string -> option location) (now t t1 t2 : Z)
    (Ho : - 86400 <= o <= 86400) (Hy : 0 <= year (wall (fixed o) t).1 < 10000)
    (Hy1 : 0 <= year (wall (fixed o) t1).1 < 10000) (Hy2 : 0 <= year (wall (fixed o) t2).1 < 10000) (H1 : in_s 64 t1) (H2 : in_s 64 t2) :
  LSTT (fixed o) (LTTS (fixed o) t) = t /\
  (steady (chongqing (fixed o) load) t -> 0 <= year (wall (chongqing (fixed o) load) t).1 < 10000 ->
     STT (fixed o) load (TTS (fixed o) load t) = t) /\
  (IsSameDay (fixed o) t1 t2 = true <-> (t1 + o) / 86400 = (t2 + o) / 86400) /\
  (forall i, Z.abs i <= 15000 -> exists monday, Weekday monday = 1 /\ monday <= (now_s now + o) / 86400 <= monday + 6 /\
     GetWeekRange (fixed o) now i = (fmt_date (date_of_days (monday + 7 * i)), fmt_date (date_of_days (monday + 6 + 7 * i)))) /\
  (forall tz h m, 0 <= h < 24 -> 0 <= m < 60 -> let clock := Itoa h +:+ String ":" (Itoa m) in
     (is_Some (load tz) -> exists d, GetNextDuration (fixed o) load now tz clock = Ret d /\ 0 < d <= 86400 * second /\
        (now + d) mod second = 0 /\ ((now + d) / second + o) mod 86400 = h * 3600 + m * 60) /\
     (load tz = None -> exists w, GetNextDuration (fixed o) load now tz clock = Panic w)) /\
  (forall ts, VietnamLocTime <= ts < 2 ^ 64 -> date_of_days (17897 + GetVietnamDay ts) = (wall (fixed 25200) ts).1) /\
  date_of_days 17897 = {| year := 2019; month := 1; day := 1 |} /\
  (forall ts, 0 <= ts < VietnamLocTime -> 2 ^ 63 / 86400 <= GetVietnamDay ts) /\
  (forall ts ts', GetVietnamBeginAndEndDateTime (fixed o) load now ts = GetVietnamBeginAndEndDateTime (fixed o) load now ts').
Proof.
  splits.
  - unfold LSTT, LTTS. rewrite ParseInLocation_Format by (done || by apply fixed_steady). done.
  - intros Hs Hyc. unfold STT, TTS. by rewrite ParseInLocation_Format.
  - unfold IsSameDay. rewrite !wraps_small by (lia || done). rewrite String.eqb_eq. by apply FormatDate_inj.
  - intros i Hi. destruct (week_range o now i Hi) as (d & Hd). by exists d.
  - intros tz h m Hh Hm. cbn zeta. split; [by apply next_duration|]. intros Hl. unfold GetNextDuration.
    rewrite Split_app by (by apply Itoa_free). rewrite (Split_none ":") by (by apply Itoa_free). unfold go_index, GetLocatione. rewrite Hl. by eexists.
  - intros ts Hts. rewrite wall_fixed. cbn [fst]. f_equal. unfold GetVietnamDay. rewrite wrapu_small by (unfold in_u, VietnamLocTime in *; lia).
    unfold VietnamLocTime. Z.div_mod_to_equations; lia.
  - done.
  - intros ts Hts. unfold GetVietnamDay. unfold wrapu, VietnamLocTime in *. rewrite <- (Z_mod_plus_full _ 1 (2 ^ 64)), Z.mod_small by lia. apply Z.div_le_mono; lia.
  - done.
Qed.

Lemma misc_dates_witness : LSTT (fixed 28800) (LTTS (fixed 28800) 1709202896) = 1709202896 /\ LTTS (fixed 28800) 1709202896 = "2024-02-29 18:34:56".
Proof.
  destruct (misc_dates 28800 (fun _ => None) 0 1709202896 0 0) as [H _].
  - lia.
  - vm_compute; split; [discriminate|reflexivity].
  - vm_compute; split; [discriminate|reflexivity].
  - vm_compute; split; [discriminate|reflexivity].
  - vm_compute; split; [discriminate|reflexivity].
  - vm_compute; split; [discriminate|reflexivity].
  - split; [exact H|reflexivity].
Defined.
