(* ===== verification/NodeInit.v ===== *)
(** * Starting and stopping a node: InitNode and handleExit of rpc/rpc_node.go

    InitNode sets the node up and starts two goroutines: one collects the local
    services and registers the node (watch_config), the other lists the nodes
    that are registered and connects to them.  Nodes that register later are
    announced by the watch server to WatchNodeRegister, which runs in the callback
    loop of the watch client and asks the server itself.  The replies and the
    announcements come on one stream, whose reader hands announcements to the
    callback loop through WatchChan, of capacity 1, and blocks while it is full.
    The goroutines, the reader, the callback loop, calls that time out, lost
    connections and the other nodes' writes to the registry are steps in any
    order; one step is one request to the watch server, one message read, one
    service or one connectNode.  The registry is the class [WatchApi], so that all
    of this holds for a client connected to the server of WatchServer.v; that
    connection is taken to last. *)

From Stdlib Require Import ZArith Lia Ascii String.
From stdpp Require Import base numbers list strings gmap relations.
From S2P Require Import Prelude GoStd HashSet WatchMessage WatchServer WatchClient Misc IdGen RpcCoder RpcServer WatchConfig RpcNode.

(** ** Data *)

Module NodeConfig.
Record t (C : Type) := {
  Client : option C;            (* nil: no registry *)
  Id : Z; Nodename : string; Nodetype : string; Set_ : string; Host : string; Port : Z; Region : Z;
  Cmds : gmap string Z; HttpPort : Z
}.
Arguments Client {C}. Arguments Id {C}. Arguments Nodename {C}. Arguments Nodetype {C}. Arguments Set_ {C}.
Arguments Host {C}. Arguments Port {C}. Arguments Region {C}. Arguments Cmds {C}. Arguments HttpPort {C}.
End NodeConfig.

(** Calls of the services' Run and Exit. *)
Inductive lifecycle := LRun (service : string) | LExit (service : string).

(** Where the registering goroutine is: services to collect, requests to send. *)
Inductive registering := Collect (todo : list string) | Write (calls : list (string * string * string)).

(** Where the goroutine that connects to the registered nodes is. *)
Inductive pull := PullGlobal | ConnectGlobal (todo : list NodeInfo) | ConnectSet (todo : list NodeInfo).

(** Who waits for a reply of the watch server. *)
Inductive routine := GReg | GPull | GCb.

(** What comes from the watch server: an announcement (field and value of a
    watched key) or a reply. *)
Inductive item := Note (k v : string) | Reply (g : routine).
#[global] Instance routine_eq_dec : EqDecision routine.
Proof. solve_decision. Defined.
#[global] Instance item_eq_dec : EqDecision item.
Proof. solve_decision. Defined.

(** The messages under way ([stream]; the reader works on its head), WatchChan,
    the running callback with what it got from the registry once it has asked, and
    whether some request has timed out. *)
Record Inbox := {
  stream : list item;
  chan : list (string * string);
  cb : option (string * string * option (go (option NodeInfo)));
  late : bool
}.
Definition with_stream ib l := {| stream := l; chan := chan ib; cb := cb ib; late := late ib |}.
Definition with_chan ib l := {| stream := stream ib; chan := l; cb := cb ib; late := late ib |}.
Definition with_cb ib o := {| stream := stream ib; chan := chan ib; cb := o; late := late ib |}.

(** The announcements that are under way or being handled. *)
Definition notes (l : list item) : list (string * string) := omap (fun it => match it with Note k v => Some (k, v) | _ => None end) l.
Definition pending (ib : Inbox) : list (string * string) :=
  notes (stream ib) ++ chan ib ++ match cb ib with Some (k, v, _) => [(k, v)] | None => [] end.

Lemma notes_snoc l it : notes (l ++ [it]) = notes l ++ match it with Note k v => [(k, v)] | Reply _ => [] end.
Proof. unfold notes. rewrite omap_app. by destruct it. Qed.

(** What the reader and the loop hand on is pending all the time. *)
Lemma pending_read ib k v rest e : stream ib = Note k v :: rest -> chan ib = [] ->
  e ∈ pending (with_chan (with_stream ib rest) [(k, v)]) <-> e ∈ pending ib.
Proof. intros Es Ec. unfold pending. cbn [stream with_stream with_chan chan cb]. rewrite Es, Ec. cbn. set_solver. Qed.

Lemma pending_take ib k v rest e : cb ib = None -> chan ib = (k, v) :: rest ->
  e ∈ pending (with_cb (with_chan ib rest) (Some (k, v, None))) <-> e ∈ pending ib.
Proof. intros Eb Ec. unfold pending. cbn [stream with_cb with_chan chan cb]. rewrite Eb, Ec. set_solver. Qed.

Lemma pending_cb ib k v found : cb ib = Some (k, v, found) -> (k, v) ∈ pending ib.
Proof. intros E. unfold pending. rewrite E. set_solver. Qed.

Lemma pending_chan ib k v rest : chan ib = (k, v) :: rest -> (k, v) ∈ pending ib.
Proof. intros E. unfold pending. rewrite E. set_solver. Qed.

Lemma pending_answer ib k v found e : cb ib = Some (k, v, found) ->
  e ∈ pending ib <-> e ∈ pending (with_cb ib None) \/ e = (k, v).
Proof. intros E. unfold pending. cbn [stream with_cb chan cb]. rewrite E. set_solver. Qed.

(** The functions of one service among the configured commands. *)
Definition service_cmds (serviceName : string) (cmds : list (string * Z)) : list FunctionInfo :=
  omap (fun kv => match Split "_" kv.1 with
                  | [svc; fn] => if String.eqb serviceName svc then Some {| fn_Name := fn; Cmd := u16 kv.2 |} else None
                  | _ => None
                  end) cmds.

Section init.
Context {P : Proto} (upper_nonascii : string -> bool).
Context (receiver : string -> Receiver)          (* the object of a local service *)
        (listens : string -> bool).              (* net.Listen *)
Context (reach : string -> bool) (ρ : RangeOrder).
Context {W : WatchApi} {JN : Json NodeInfo}.

(** NodeIntance, its goroutines, and what is under way to its callback. *)
Record Running := {
  gx : GxNode;
  Server_ : Server;
  IDGen_ : IDGen;
  ExitTime : Z;
  Node : NodeInfo;
  client : option conn;                          (* WatchClient, with the server behind it *)
  config_Cmds : gmap string Z;
  reg : option registering;                      (* None: not started, or finished *)
  pulling : option pull;
  Watching : list string;                        (* the keys with WatchNodeRegister as callback *)
  inbox : Inbox;
  http : option Z;
  accepting : bool;
  lives : list lifecycle;
  crashed : bool;                                (* a panic that nothing recovers *)
  RpcCallBack : option nat;                      (* functions, by their identity: what RegisterRpcCallBack set, *)
  server_RpcCallBack : option nat                (* and what the server calls after a request *)
}.

Definition set_gx r v := {| gx := v; Server_ := Server_ r; IDGen_ := IDGen_ r; ExitTime := ExitTime r; Node := Node r; client := client r;
  config_Cmds := config_Cmds r; reg := reg r; pulling := pulling r; Watching := Watching r; inbox := inbox r; http := http r;
  accepting := accepting r; lives := lives r; crashed := crashed r;
  RpcCallBack := RpcCallBack r; server_RpcCallBack := server_RpcCallBack r |}.
Definition set_ExitTime r v := {| gx := gx r; Server_ := Server_ r; IDGen_ := IDGen_ r; ExitTime := v; Node := Node r; client := client r;
  config_Cmds := config_Cmds r; reg := reg r; pulling := pulling r; Watching := Watching r; inbox := inbox r; http := http r;
  accepting := accepting r; lives := lives r; crashed := crashed r;
  RpcCallBack := RpcCallBack r; server_RpcCallBack := server_RpcCallBack r |}.
Definition set_Node r v := {| gx := gx r; Server_ := Server_ r; IDGen_ := IDGen_ r; ExitTime := ExitTime r; Node := v; client := client r;
  config_Cmds := config_Cmds r; reg := reg r; pulling := pulling r; Watching := Watching r; inbox := inbox r; http := http r;
  accepting := accepting r; lives := lives r; crashed := crashed r;
  RpcCallBack := RpcCallBack r; server_RpcCallBack := server_RpcCallBack r |}.
Definition set_client r v := {| gx := gx r; Server_ := Server_ r; IDGen_ := IDGen_ r; ExitTime := ExitTime r; Node := Node r; client := v;
  config_Cmds := config_Cmds r; reg := reg r; pulling := pulling r; Watching := Watching r; inbox := inbox r; http := http r;
  accepting := accepting r; lives := lives r; crashed := crashed r;
  RpcCallBack := RpcCallBack r; server_RpcCallBack := server_RpcCallBack r |}.
Definition set_reg r v := {| gx := gx r; Server_ := Server_ r; IDGen_ := IDGen_ r; ExitTime := ExitTime r; Node := Node r; client := client r;
  config_Cmds := config_Cmds r; reg := v; pulling := pulling r; Watching := Watching r; inbox := inbox r; http := http r;
  accepting := accepting r; lives := lives r; crashed := crashed r;
  RpcCallBack := RpcCallBack r; server_RpcCallBack := server_RpcCallBack r |}.
Definition set_pulling r v := {| gx := gx r; Server_ := Server_ r; IDGen_ := IDGen_ r; ExitTime := ExitTime r; Node := Node r; client := client r;
  config_Cmds := config_Cmds r; reg := reg r; pulling := v; Watching := Watching r; inbox := inbox r; http := http r;
  accepting := accepting r; lives := lives r; crashed := crashed r;
  RpcCallBack := RpcCallBack r; server_RpcCallBack := server_RpcCallBack r |}.
Definition set_inbox r v := {| gx := gx r; Server_ := Server_ r; IDGen_ := IDGen_ r; ExitTime := ExitTime r; Node := Node r; client := client r;
  config_Cmds := config_Cmds r; reg := reg r; pulling := pulling r; Watching := Watching r; inbox := v; http := http r;
  accepting := accepting r; lives := lives r; crashed := crashed r;
  RpcCallBack := RpcCallBack r; server_RpcCallBack := server_RpcCallBack r |}.
Definition set_lives r v := {| gx := gx r; Server_ := Server_ r; IDGen_ := IDGen_ r; ExitTime := ExitTime r; Node := Node r; client := client r;
  config_Cmds := config_Cmds r; reg := reg r; pulling := pulling r; Watching := Watching r; inbox := inbox r; http := http r;
  accepting := accepting r; lives := v; crashed := crashed r;
  RpcCallBack := RpcCallBack r; server_RpcCallBack := server_RpcCallBack r |}.
Definition set_crashed r v := {| gx := gx r; Server_ := Server_ r; IDGen_ := IDGen_ r; ExitTime := ExitTime r; Node := Node r; client := client r;
  config_Cmds := config_Cmds r; reg := reg r; pulling := pulling r; Watching := Watching r; inbox := inbox r; http := http r;
  accepting := accepting r; lives := lives r; crashed := v;
  RpcCallBack := RpcCallBack r; server_RpcCallBack := server_RpcCallBack r |}.

(** ** InitNode *)

(** NodeIntance.Server.RegisterName for every local service; its error is ignored. *)
Definition register_services (services : list string) : Server :=
  fold_left (fun s nm => match RegisterName upper_nonascii s nm (receiver nm) with Ret s' => s' | _ => s end) services NewServer.

(** [n0]: NodeIntance before the call, with the services of RegisterService;
    [hook]: the function of
    RegisterRpcCallBack; [watching]: the keys of RegisterCallback. *)
Definition InitNode (config : NodeConfig.t conn) (n0 : GxNode) (hook : option nat) (watching : list string) : Running :=
  let services := ρ _ (Services n0) in
  let started := match NodeConfig.Client config with Some _ => true | None => false end in
  {| gx := {| self := NodeConfig.Nodename config; region := NodeConfig.Region config; nset := NodeConfig.Set_ config;
              Services := Services n0; RpcClient := RpcClient n0; CmdService := CmdService n0; ServiceNode := ∅;
              MockData := MockData n0; Data := Data n0; clients := clients n0; events := events n0 |};
     Server_ := register_services services;
     IDGen_ := NewIDGen (NodeConfig.Id config);
     ExitTime := 1;
     Node := {| Id := NodeConfig.Id config; Name := NodeConfig.Nodename config; Type' := NodeConfig.Nodetype config;
                Address := NodeConfig.Host config +:+ ":" +:+ Itoa (NodeConfig.Port config); Service := [];
                Region := NodeConfig.Region config; Set' := NodeConfig.Set_ config |};
     client := NodeConfig.Client config;
     config_Cmds := NodeConfig.Cmds config;
     reg := if started then Some (Collect services) else None;
     pulling := if started then Some PullGlobal else None;
     Watching := watching; inbox := {| stream := []; chan := []; cb := None; late := false |};
     http := if NodeConfig.HttpPort config =? 0 then None else Some (NodeConfig.HttpPort config);
     accepting := listens (":" +:+ Itoa (NodeConfig.Port config));
     lives := LRun <$> services; crashed := false;
     RpcCallBack := hook; server_RpcCallBack := hook |}.

Definition SetExitTime (r : Running) (d : Z) : Running := set_ExitTime r d.

(** Once the node runs, the server keeps the function it was started with. *)
Definition RegisterRpcCallBack (r : Running) (cb : nat) : Running :=
  {| gx := gx r; Server_ := Server_ r; IDGen_ := IDGen_ r; ExitTime := ExitTime r; Node := Node r; client := client r;
     config_Cmds := config_Cmds r; reg := reg r; pulling := pulling r; Watching := Watching r; inbox := inbox r; http := http r;
     accepting := accepting r; lives := lives r; crashed := crashed r; RpcCallBack := Some cb; server_RpcCallBack := server_RpcCallBack r |}.

Definition GetWatchClient (r : Running) : option conn := client r.

(** [nano]: the clock. *)
Definition NewId (r : Running) (nano moduleId : Z) : go Z * Running :=
  let '(id, gen) := NewID (IDGen_ r) nano moduleId in
  (id, {| gx := gx r; Server_ := Server_ r; IDGen_ := gen; ExitTime := ExitTime r; Node := Node r; client := client r;
          config_Cmds := config_Cmds r; reg := reg r; pulling := pulling r; Watching := Watching r; inbox := inbox r; http := http r;
          accepting := accepting r; lives := lives r; crashed := crashed r; RpcCallBack := RpcCallBack r;
          server_RpcCallBack := server_RpcCallBack r |}).

(** *** The goroutine that registers the node *)

(** The functions of a service: from the configured commands, or from its
    methods' names when there are none. *)
Definition service_info (cmds : gmap string Z) (serviceName : string) : ServiceInfo :=
  {| sv_Name := serviceName;
     Func := if decide (size cmds = 0%nat)
             then (fun kv => {| fn_Name := kv.2; Cmd := kv.1 |}) <$> ρ _ (map_to_list (ExportServiceFunction (mname <$> methods (receiver serviceName))))
             else service_cmds serviceName (ρ _ (map_to_list cmds)) |}.

Definition collect (r : Running) (serviceName : string) : Running :=
  let s := service_info (config_Cmds r) serviceName in
  let n := fold_left (fun n f => AddServiceMethod n (Type' (Node r)) (Cmd f) (sv_Name s +:+ "." +:+ fn_Name f)) (Func s) (gx r) in
  let info := Node r in
  set_Node (set_gx r n) {| Id := Id info; Name := Name info; Type' := Type' info; Address := Address info;
                           Service := Service info ++ [s]; Region := Region info; Set' := Set' info |}.

(** The requests of RegisterNode ([register_calls_ok]). *)
Definition register_calls (info : NodeInfo) : list (string * string * string) :=
  (colon NodeRegisterKey (Set' info), Name info, Marshal info) :: (colon NodeLoadKey (Type' info), Name info, "0") ::
  ((fun v => (colon ServiceLoadKey (sv_Name v), Name info, "0")) <$> Service info).

(** The watch server sends something. *)
Definition push (r : Running) (it : item) : Running := set_inbox r (with_stream (inbox r) (stream (inbox r) ++ [it])).

(** The watch server tells the watchers of a key of every write: what
    WatchServer.v and WatchClient.v show of a change, seen from this node. *)
Definition announce (r : Running) (k f v : string) : Running :=
  if decide (k ∈ Watching r) then push r (Note f v) else r.

(** The goroutine's request has been served and its reply is still under way. *)
Definition waiting (g : routine) (r : Running) : bool := bool_decide (Reply g ∈ stream (inbox r)).

(** The server replies to a write before it tells the watchers. *)
Definition reg_next (r : Running) : option Running :=
  match reg r, client r with
  | Some (Collect (svc :: todo)), _ => Some (set_reg (collect r svc) (Some (Collect todo)))
  | Some (Collect []), _ => Some (set_reg r (Some (Write (register_calls (Node r)))))
  | Some (Write ((k, f, v) :: calls)), Some c =>
      Some (set_reg (announce (push (set_client r (Some (w_Hset c k f v))) (Reply GReg)) k f v) (Some (Write calls)))
  | Some (Write []), _ => Some (set_reg r None)
  | _, _ => None
  end.

(** *** The goroutine that connects to the registered nodes *)

(** A node of another set is skipped; a panic ends the goroutine. *)
Definition connect_next (r : Running) (v : NodeInfo) (rest : pull) : Running :=
  if negb (String.eqb (Set' v) "") && negb (String.eqb (Set' v) (nset (gx r))) then set_pulling r (Some rest)
  else match connectNode reach (gx r) v with
       | Ret n => set_pulling (set_gx r n) (Some rest)
       | _ => set_pulling r None
       end.

Definition list_next (r : Running) (c : conn) (set : string) (next : list NodeInfo -> pull) : Running :=
  let '(nodes, c) := GetAllRegisterNode c set in
  push (set_pulling (set_client r (Some c)) (match nodes with Ret m => Some (next (ρ _ (map_to_list m).*2)) | _ => None end)) (Reply GPull).

Definition pull_next (r : Running) : option Running :=
  match pulling r, client r with
  | Some PullGlobal, Some c => Some (list_next r c "" ConnectGlobal)
  | Some (ConnectGlobal (v :: todo)), _ => Some (connect_next r v (ConnectGlobal todo))
  | Some (ConnectGlobal []), Some c => Some (list_next r c (nset (gx r)) ConnectSet)
  | Some (ConnectSet (v :: todo)), _ => Some (connect_next r v (ConnectSet todo))
  | Some (ConnectSet []), _ => Some (set_pulling r None)
  | _, _ => None
  end.

(** *** The reader and the callback loop of the watch client, with WatchNodeRegister *)

(** The reader: a reply goes to the call that waits for it, an announcement to
    WatchChan, which has room for one; [None]: blocked, or nothing to read. *)
Definition read_next (r : Running) : option Running :=
  let ib := inbox r in
  match stream ib with
  | Reply _ :: rest => Some (set_inbox r (with_stream ib rest))
  | Note k v :: rest => match chan ib with
                        | [] => Some (set_inbox r (with_chan (with_stream ib rest) [(k, v)]))
                        | _ => None
                        end
  | [] => None
  end.

(** The end of a callback; nothing recovers its panic. *)
Definition settle (r : Running) (res : go GxNode) : Running :=
  match res with Ret n => set_gx r n | _ => set_crashed r true end.

(** The loop takes a message; a removal needs no request. *)
Definition callback_take (r : Running) : option Running :=
  let ib := inbox r in
  match cb ib, chan ib with
  | None, (k, v) :: rest =>
      if String.eqb v "" then Some (settle (set_inbox r (with_chan ib rest)) (WatchNodeRegister reach (gx r) k v None))
      else Some (set_inbox r (with_cb (with_chan ib rest) (Some (k, v, None))))
  | _, _ => None
  end.

(** Its request: GetRegisterNode, as the server answers it. *)
Definition callback_ask (r : Running) : option Running :=
  match cb (inbox r), client r with
  | Some (k, v, None), Some c =>
      let '(found, c) := GetRegisterNode c k (nset (gx r)) in
      Some (push (set_inbox (set_client r (Some c)) (with_cb (inbox r) (Some (k, v, Some found)))) (Reply GCb))
  | _, _ => None
  end.

(** With the reply: the rest of WatchNodeRegister. *)
Definition callback_answer (r : Running) : option Running :=
  match cb (inbox r) with
  | Some (k, v, Some found) =>
      if waiting GCb r then None
      else Some (settle (set_inbox r (with_cb (inbox r) None)) (found ← found; WatchNodeRegister reach (gx r) k v found))
  | _ => None
  end.

(** A request times out: Hset goes on; Hgetall dereferences nil, and the pool
    recovers the goroutine's panic; Hget does so in the callback loop, where nothing
    recovers it.  The reply that comes later is dropped. *)
Definition time_out (g : routine) (r : Running) : Running :=
  let ib := inbox r in
  let r := set_inbox r {| stream := filter (fun it => it <> Reply g) (stream ib); chan := chan ib; cb := cb ib; late := true |} in
  match g with GReg => r | GPull => set_pulling r None | GCb => set_crashed r true end.

(** *** handleExit *)

(** What the signal starts: the node is removed from the registry, the services
    are told, and the process ends after the sleep, whose nanoseconds are
    returned. *)
Definition handleExit (r : Running) : go (Running * Z) :=
  match client r with
  | None => Panic "nil pointer dereference"
  | Some c =>
      let r := set_client r (Some (DelRegisterNode c (Node r))) in
      Ret (set_lives r (lives r ++ (LExit <$> ρ _ (Services (gx r)))), i64 (ExitTime r * 10 ^ 9))
  end.

(** ** Steps *)

(** What the other nodes write to the registry: a node registers, a node leaves,
    or something under another key. *)
Inductive other := Join (info : NodeInfo) | Leave (info : NodeInfo) | Elsewhere (k f v : string).

Definition write_of (o : other) : string * string * string :=
  match o with
  | Join info => (reg_key info, Name info, Marshal info)
  | Leave info => (reg_key info, Name info, "")
  | Elsewhere k f v => (k, f, v)
  end.

Inductive cb_step : Running -> Running -> Prop :=
  | cb_read r r' : read_next r = Some r' -> cb_step r r'
  | cb_take r r' : callback_take r = Some r' -> cb_step r r'
  | cb_ask r r' : callback_ask r = Some r' -> cb_step r r'
  | cb_answer r r' : callback_answer r = Some r' -> cb_step r r'.

Inductive own_step : Running -> Running -> Prop :=
  | own_reg r r' : waiting GReg r = false -> reg_next r = Some r' -> own_step r r'
  | own_pull r r' : waiting GPull r = false -> pull_next r = Some r' -> own_step r r'
  | own_callback r r' : cb_step r r' -> own_step r r'.

(** The services this node will have registered. *)
Definition with_services (info : NodeInfo) (svs : list ServiceInfo) : NodeInfo :=
  {| Id := Id info; Name := Name info; Type' := Type' info; Address := Address info; Service := svs; Region := Region info; Set' := Set' info |}.

Definition announced (r : Running) : NodeInfo :=
  match reg r with
  | Some (Collect todo) => with_services (Node r) (Service (Node r) ++ (service_info (config_Cmds r) <$> todo))
  | _ => Node r
  end.

(** Requests to write that this node has still to make. *)
Definition writes_left (r : Running) : nat :=
  match reg r with
  | Some (Collect _) => 2 + length (Service (announced r))
  | Some (Write calls) => length calls
  | None => 0
  end.

(** The table has room for [n] more fields. *)
Definition room (n : nat) (t : table) : Prop :=
  Z.of_nat (size t + n) < 2 ^ 62 /\ forall k m, t !! k = Some m -> Z.of_nat (size m + n) < 2 ^ 62.

(** A registration that can be read back and whose address has the right form. *)
Definition good (n : GxNode) (info : NodeInfo) : Prop := node_fine info /\ exists a, address_of n info = Ret a.

(** The writes of the start-up: nodes register under names not yet in use, and
    nobody leaves. *)
Definition starting (r : Running) (t : table) (o : other) : Prop :=
  match o with
  | Join info => good (gx r) info /\ Name info <> self (gx r) /\ forall set, field_of t (colon NodeRegisterKey set) (Name info) = None
  | Leave _ => False
  | Elsewhere k f v => forall set, k <> colon NodeRegisterKey set
  end.

Inductive step (ok : Running -> table -> other -> Prop) : Running -> Running -> Prop :=
  | step_own r r' : own_step r r' -> step ok r r'
  | step_timeout r g : waiting g r = true -> step ok r (time_out g r)
  | step_use r k o n' : getNode reach (gx r) k = Ret (o, n') -> step ok r (set_gx r n')
  | step_lost r c : step ok r (set_gx r (close_client (gx r) c))       (* a connection to a node is lost *)
  | step_other r c c' o k f v : client r = Some c -> ok r (tbl c) o -> write_of o = (k, f, v) ->
      tbl c' = set_field (tbl c) k f v -> w_ok c' -> room (writes_left r) (tbl c') ->
      step ok r (announce (set_client r (Some c')) k f v).

(** ** Lemmas *)

Lemma register_calls_ok c info : RegisterNode c info = fold_left (fun c '(k, f, v) => w_Hset c k f v) (register_calls info) c.
Proof using Type.
  unfold RegisterNode, register_calls, set_services. cbn [fold_left].
  generalize (w_Hset (w_Hset c (colon NodeRegisterKey (Set' info)) (Name info) (Marshal info)) (colon NodeLoadKey (Type' info)) (Name info) "0").
  induction (Service info) as [|v svs IH]; intros c'; [done|]. cbn [fold_left fmap list_fmap]. apply IH.
Qed.

Lemma room_weaken n n' t : (n' <= n)%nat -> room n t -> room n' t.
Proof using Type. intros Hn [H1 H2]. split; [lia|]. intros k m Hm%H2. lia. Qed.

Lemma room_small n t : room n t -> small t.
Proof using Type. intros [H1 H2]. change (2 ^ 63) with (2 * 2 ^ 62). split; [lia|]. intros k m Hm%H2. lia. Qed.

Lemma size_insert_le {A} (m : gmap string A) k x : (size (<[k := x]> m) <= S (size m))%nat.
Proof using Type. rewrite map_size_insert. case_match; cbn; lia. Qed.

Lemma room_write n t k f v : room (S n) t -> room n (set_field t k f v).
Proof using Type.
  intros [H1 H2]. assert (Hd : Z.of_nat (size (default ∅ (t !! k)) + S n) < 2 ^ 62).
  { destruct (t !! k) as [m|] eqn:E; cbn; [by apply (H2 k)|]. rewrite map_size_empty. lia. }
  assert (Hm : exists m, set_field t k f v = <[k := m]> t /\ (size m <= S (size (default ∅ (t !! k))))%nat).
  { unfold set_field. case_decide; eexists; (split; [done|]); [|apply size_insert_le].
    rewrite map_size_delete. case_match; cbn; lia. }
  destruct Hm as (m & -> & Hm). pose proof (size_insert_le t k m). split; [lia|].
  intros k' m' [[<- <-]|[_ Hk]]%lookup_insert_Some; [lia|]. apply H2 in Hk. lia.
Qed.

Lemma colon_inj a b b' : colon a b = colon a b' -> b = b'.
Proof using Type.
  unfold colon. intros E. apply (f_equal to_bytes) in E. rewrite !to_bytes_app in E. apply app_inv_head in E.
  cbn in E. injection E as E. rewrite <- (String.string_of_list_ascii_of_string b), <- (String.string_of_list_ascii_of_string b'). by f_equal.
Qed.

Lemma Marshal_inj info info' : node_fine info -> node_fine info' -> Marshal info = Marshal info' -> info = info'.
Proof using Type.
  intros [H1 _] [H2 _] E. apply json_back in H1, H2. rewrite E, H2 in H1. by injection H1.
Qed.

(** *** The registry *)

Definition listed (n : GxNode) (t : table) (info : NodeInfo) : Prop :=
  field_of t (reg_key info) (Name info) = Some (Marshal info) /\ good n info.

(** Every registration is one, and a name other than this node's is in one set. *)
Definition registry (n : GxNode) (t : table) : Prop :=
  (forall set k v, field_of t (colon NodeRegisterKey set) k = Some v ->
     exists info, v = Marshal info /\ listed n t info /\ Name info = k /\ Set' info = set) /\
  (forall set set' k, k <> self n -> is_Some (field_of t (colon NodeRegisterKey set) k) ->
     is_Some (field_of t (colon NodeRegisterKey set') k) -> set = set').

Lemma listed_unique n t info info' : registry n t -> listed n t info -> listed n t info' -> Name info = Name info' ->
  Name info <> self n -> info = info'.
Proof using Type.
  intros [_ Hu] [H1 [F1 _]] [H2 [F2 _]] En Hs. apply Marshal_inj; [done|done|].
  assert (Set' info = Set' info') as Es. { apply (Hu _ _ (Name info)); [done|by eexists|]. rewrite En. by eexists. }
  unfold reg_key in *. rewrite Es, En in H1. congruence.
Qed.

(** *** The writes of the start-up *)

(** A write that registers [info], or one under another key. *)
Definition fair_write (n : GxNode) (t : table) (k f v : string) : Prop :=
  (forall set, k <> colon NodeRegisterKey set) \/
  exists info, k = reg_key info /\ f = Name info /\ v = Marshal info /\ good n info /\
    (f = self n \/ forall set, field_of t (colon NodeRegisterKey set) f = None).

Lemma fair_write_register n t k f v set f' : fair_write n t k f v ->
  field_of (set_field t k f v) (colon NodeRegisterKey set) f' =
    if decide (colon NodeRegisterKey set = k /\ f' = f) then Some v else field_of t (colon NodeRegisterKey set) f'.
Proof using Type.
  intros Hw. rewrite field_of_set_field. case_decide as Hd; [|done]. destruct Hd as [<- ->].
  destruct Hw as [Hne|(info & _ & _ & -> & _)]; [by destruct (Hne set)|]. by rewrite decide_False by apply json_nonempty.
Qed.

Lemma listed_kept n t k f v info : fair_write n t k f v -> Name info <> self n -> listed n t info -> listed n (set_field t k f v) info.
Proof using Type.
  intros Hw Hs [H G]. split; [|done]. unfold reg_key in *. rewrite (fair_write_register n) by done. case_decide as Hd; [|done].
  destruct Hd as [<- <-]. destruct Hw as [Hne|(info' & _ & _ & _ & _ & [Hf|Hf])]; [by destruct (Hne (Set' info))|done|]. by rewrite Hf in H.
Qed.

Lemma listed_back n t k f v info : fair_write n t k f v -> listed n (set_field t k f v) info ->
  (listed n t info \/ (k = reg_key info /\ f = Name info /\ v = Marshal info)).
Proof using Type.
  intros Hw [H G]. unfold reg_key in *. rewrite (fair_write_register n) in H by done. case_decide as Hd; [|by left].
  destruct Hd as [<- <-]. injection H as ->. by right.
Qed.

Lemma registry_write n t k f v : fair_write n t k f v -> registry n t -> registry n (set_field t k f v).
Proof using Type.
  intros Hw [H1 H2]. split.
  - intros set k' v'. rewrite (fair_write_register n) by done. case_decide as Hd.
    + destruct Hd as [<- ->]. intros [= <-]. pose proof Hw as [Hne|(info & E & -> & -> & G & _)]; [by destruct (Hne set)|].
      apply colon_inj in E as ->. exists info. splits; try done. split; [|done]. unfold reg_key.
      rewrite (fair_write_register n) by done. by rewrite decide_True.
    + intros H. destruct (H1 set k' v' H) as (info & -> & [Hl G] & <- & <-). exists info. splits; try done. split; [|done].
      unfold reg_key. by rewrite (fair_write_register n), decide_False.
  - intros set set' k' Hs. rewrite !(fair_write_register n) by done.
    assert (Hf : forall set, colon NodeRegisterKey set = k /\ k' = f -> forall set, field_of t (colon NodeRegisterKey set) k' = None).
    { intros set0 [<- ->]. destruct Hw as [Hne|(info & _ & _ & _ & _ & [Hf|Hf])]; [by destruct (Hne set0)|done|done]. }
    destruct (decide (colon NodeRegisterKey set = k /\ k' = f)) as [Hd|Hd], (decide (colon NodeRegisterKey set' = k /\ k' = f)) as [Hd'|Hd'].
    + destruct Hd as [<- _], Hd' as [E _]. intros _ _. by apply colon_inj in E.
    + rewrite (Hf set) by done. by intros _ [].
    + rewrite (Hf set') by done. by intros [].
    + by apply H2.
Qed.

(** *** The invariant *)

Definition connected (n : GxNode) (info : NodeInfo) : Prop :=
  Info <$> RpcClient n !! Name info = Some info /\
  forall sv, sv ∈ Service info -> Name info ∈ default ∅ (ServiceNode n !! sv_Name sv).

Definition todo (r : Running) : list NodeInfo :=
  match pulling r with Some (ConnectGlobal l) | Some (ConnectSet l) => l | _ => [] end.

(** A node of this node's set that is still to be connected: it has been
    announced, will be listed, or is in the list. *)
Definition awaited (r : Running) (info : NodeInfo) : Prop :=
  (exists v, (Name info, v) ∈ pending (inbox r)) \/
  match pulling r with
  | Some PullGlobal | Some (ConnectGlobal _) => True
  | Some (ConnectSet l) => info ∈ l
  | None => False
  end.

(** What a callback for the name [k] has found. *)
Definition asked_ok (own : NodeInfo) (n : GxNode) (t : table) (k : string) (found : go (option NodeInfo)) : Prop :=
  exists o, found = Ret o /\
    (forall info, o = Some info -> good n info /\ (Name info <> Name own -> listed n t info) /\ Set' info = Set' own) /\
    (forall info, listed n t info -> Set' info = Set' own -> Name info <> Name own -> Name info = k -> o = Some info).

(** The same for a node of the global set. *)
Definition awaited_global (r : Running) (info : NodeInfo) : Prop :=
  match pulling r with
  | Some PullGlobal => True
  | Some (ConnectGlobal l) => info ∈ l
  | _ => False
  end.

(** [own]: what this node registers; [G]: the nodes that were there first. *)
Record inv (own : NodeInfo) (G : NodeInfo -> Prop) (r : Running) (c : conn) : Prop := {
  i_client : client r = Some c;
  i_alive : crashed r = false;
  i_conn : w_ok c /\ small (tbl c);
  i_registry : registry (gx r) (tbl c);
  i_node : node_ok (gx r);
  i_self : self (gx r) = Name own /\ nset (gx r) = Set' own;
  i_own : good (gx r) own;
  i_watch : colon NodeRegisterKey (Set' own) ∈ Watching r /\ forall k, k ∈ Watching r -> exists set, k = colon NodeRegisterKey set;
  i_inbox : forall k v, (k, v) ∈ pending (inbox r) ->
    v <> "" /\ no_nl k /\ k <> "" /\ exists set, is_Some (field_of (tbl c) (colon NodeRegisterKey set) k);
  i_asked : forall k v found, cb (inbox r) = Some (k, v, Some found) -> asked_ok own (gx r) (tbl c) k found;
  i_todo : forall info, info ∈ todo r -> good (gx r) info /\ (Name info <> Name own -> listed (gx r) (tbl c) info);
  i_set : forall info, listed (gx r) (tbl c) info -> Set' info = Set' own -> Name info <> Name own -> awaited r info \/ connected (gx r) info;
  i_global : forall info, G info -> Name info <> Name own -> listed (gx r) (tbl c) info /\
    (Set' info = "" -> awaited_global r info \/ connected (gx r) info)
}.

Lemma good_region n n' info : region n' = region n -> good n info <-> good n' info.
Proof using Type. intros E. unfold good. by rewrite (address_ext n n'). Qed.

Lemma listed_region n n' t info : region n' = region n -> listed n t info <-> listed n' t info.
Proof using Type. intros E. unfold listed. by rewrite (good_region n n'). Qed.

Lemma registry_region n n' t : region n' = region n -> self n' = self n -> registry n t -> registry n' t.
Proof using Type.
  intros Er Es [H1 H2]. split; [|by rewrite Es]. intros set k v H. destruct (H1 set k v H) as (info & ? & Hl & ? & ?). exists info.
  splits; try done. by apply (listed_region n n').
Qed.

Lemma asked_region own n n' t k found : region n' = region n -> asked_ok own n t k found -> asked_ok own n' t k found.
Proof using Type.
  intros E (o & -> & H1 & H2). exists o. splits; [done|..].
  - intros info (Hg & Hl & Hs)%H1. rewrite <- (good_region n n'), <- (listed_region n n') by done. by splits.
  - intros info Hl. rewrite <- (listed_region n n') in Hl by done. by apply H2.
Qed.

Lemma inv_gx own G r c n' : inv own G r c -> node_ok n' -> self n' = self (gx r) -> region n' = region (gx r) -> nset n' = nset (gx r) ->
  (forall info, listed (gx r) (tbl c) info -> Name info <> Name own -> connected (gx r) info -> connected n' info) -> inv own G (set_gx r n') c.
Proof using Type.
  intros [] Hn Hs Hr Hset Hc. split; cbn [gx set_gx client crashed]; try done.
  - by apply (registry_region (gx r)).
  - by rewrite Hs, Hset.
  - by apply (good_region (gx r)).
  - intros k v found E. apply (asked_region own (gx r)); [done|by apply (i_asked0 k v)].
  - intros info Hi. rewrite <- (good_region (gx r)), <- (listed_region (gx r)) by done. by apply i_todo0.
  - intros info Hl Hsi Hne. rewrite <- (listed_region (gx r)) in Hl by done. destruct (i_set0 info Hl Hsi Hne); [by left|right; by apply Hc].
  - intros info Hg Hne. destruct (i_global0 info Hg Hne) as [Hl Ha]. rewrite <- (listed_region (gx r)) by done. split; [done|].
    intros [|]%Ha; [by left|right; by apply Hc].
Qed.

Lemma connect_spec n t v : node_ok n -> registry n t -> good n v -> (Name v <> self n -> listed n t v) ->
  exists n', connectNode reach n v = Ret n' /\ node_ok n' /\ self n' = self n /\ region n' = region n /\ nset n' = nset n /\
    (Name v <> self n -> connected n' v) /\
    (forall info, listed n t info -> Name info <> self n -> connected n info -> connected n' info).
Proof using Type.
  intros Hn Hreg [_ [a Ha]] Hl. destruct (decide (Name v = self n)) as [E|Hne].
  { exists n. unfold connectNode. rewrite E, String.eqb_refl. by splits. }
  destruct (connectNode_any reach n v a Hn Hne Ha) as (n' & E & Hok & H1 & H2 & H3 & Hrc & _ & Hsv). exists n'.
  assert (Hv : connected n' v).
  { split; [by rewrite Hrc, lookup_insert_eq|]. intros sv Hin. apply Hsv. right. split; [done|]. apply list_elem_of_fmap. eauto. }
  splits; try done. intros info Hi Hs [C1 C2]. destruct (decide (Name info = Name v)) as [En|En].
  { by rewrite (listed_unique n t info v Hreg Hi (Hl Hne) En Hs). }
  split; [by rewrite Hrc, lookup_insert_ne|]. intros sv Hin. apply Hsv. left. by apply C2.
Qed.

(** Only the messages under way change, but not what they announce. *)
Lemma inv_box own G r c ib : inv own G r c -> (forall e, e ∈ pending ib <-> e ∈ pending (inbox r)) ->
  (forall k v found, cb ib = Some (k, v, Some found) -> asked_ok own (gx r) (tbl c) k found) -> inv own G (set_inbox r ib) c.
Proof using Type.
  intros [] Hp Ha. split; try done; cbn [inbox set_inbox gx].
  - intros k v H%Hp. by apply i_inbox0.
  - intros info Hl Hs Hne. destruct (i_set0 info Hl Hs Hne) as [[[v Hv]|Hw]|Hc]; [|left; by right|by right].
    left. left. exists v. by apply Hp.
Qed.

Lemma inv_reply own G r c g : inv own G r c -> inv own G (push r (Reply g)) c.
Proof using Type.
  intros Hi. apply inv_box; [done|..].
  - intros e. unfold pending. cbn [stream with_stream chan cb]. by rewrite notes_snoc, app_nil_r.
  - apply (i_asked own G r c Hi).
Qed.

(** A name that is in use is not written again, except by this node. *)
Lemma asked_write own n t k' found k f v : self n = Name own -> fair_write n t k f v ->
  (exists set, is_Some (field_of t (colon NodeRegisterKey set) k')) -> asked_ok own n t k' found -> asked_ok own n (set_field t k f v) k' found.
Proof using Type.
  intros Hs Hw [set [x Hx]] (o & -> & H1 & H2). exists o. splits; [done|..].
  - intros info (Hg & Hl & Hset)%H1. splits; try done. intros Hne. apply listed_kept; [done|congruence|by apply Hl].
  - intros info [Hl|(-> & -> & ->)]%listed_back Hset Hne En; [by apply H2| |done].
    destruct Hw as [Hno|(info' & _ & _ & _ & _ & [Hf|Hf])]; [by destruct (Hno (Set' info))|congruence|].
    rewrite <- En, Hf in Hx. done.
Qed.

Lemma inv_write own G r c c' k f v : inv own G r c -> fair_write (gx r) (tbl c) k f v ->
  tbl c' = set_field (tbl c) k f v -> w_ok c' -> small (tbl c') -> inv own G (announce (set_client r (Some c')) k f v) c'.
Proof using Type.
  intros [] Hw Et Hok Hsm. set (r' := announce _ k f v).
  assert (Er : gx r' = gx r /\ client r' = Some c' /\ crashed r' = crashed r /\ Watching r' = Watching r /\ pulling r' = pulling r /\
               cb (inbox r') = cb (inbox r) /\
               forall e, e ∈ pending (inbox r') <-> e ∈ pending (inbox r) \/ (k ∈ Watching r /\ e = (f, v))).
  { unfold r', announce. cbn [Watching set_client]. case_decide as Hd; splits; try done;
      [|intros e; split; [by left|intros [?|[? _]]; [done|by destruct Hd]]].
    intros e. unfold pending. cbn [push inbox set_inbox stream with_stream chan cb set_client]. rewrite notes_snoc, !elem_of_app, list_elem_of_singleton.
    split; [intros [[?|?]|[?|?]]|intros [[?|[?|?]]|[? ?]]]; auto. }
  destruct Er as (E1 & E2 & E3 & E4 & E5 & Ecb & E6). destruct i_self0 as [Es1 Es2].
  assert (Hkeep : forall set f', is_Some (field_of (tbl c) (colon NodeRegisterKey set) f') ->
    is_Some (field_of (set_field (tbl c) k f v) (colon NodeRegisterKey set) f')).
  { intros set f' H. rewrite (fair_write_register (gx r)) by done. by case_decide. }
  split; rewrite ?E1, ?E2, ?E3, ?E4, ?Et; try done; [by rewrite <- Et|by apply registry_write|..].
  - intros k' v' [Hi|[Hk [= -> ->]]]%E6.
    { destruct (i_inbox0 k' v' Hi) as (? & ? & ? & set & ?). splits; try done. exists set. by apply Hkeep. }
    destruct (proj2 i_watch0 k Hk) as [set ->]. pose proof Hw as Hw'.
    destruct Hw as [Hne|(info & _ & -> & -> & [(_ & ? & ? & _) _] & _)]; [by destruct (Hne set)|]. splits; try done; [apply json_nonempty|].
    exists set. rewrite (fair_write_register (gx r)) by done. by rewrite decide_True.
  - intros k' v' found. rewrite Ecb. intros E. apply asked_write; [done|done| |by eapply i_asked0].
    destruct (i_inbox0 k' v') as (_ & _ & _ & H); [|done]. unfold pending. rewrite E, !elem_of_app. right. right. by left.
  - intros info. unfold todo. rewrite E5. intros [Hg Hl]%i_todo0. split; [done|]. intros Hne. apply listed_kept; [done|congruence|by apply Hl].
  - intros info Hl Hs Hne. unfold awaited. rewrite E5. apply listed_back in Hl as [Hl|(-> & -> & ->)]; [|..|done].
    + destruct (i_set0 info Hl Hs Hne) as [[[v' Hv]|Hp]|Hc]; [|left; by right|by right].
      left. left. exists v'. apply E6. by left.
    + left. left. exists (Marshal info). apply E6. right. split; [|done]. unfold reg_key. rewrite Hs. apply i_watch0.
  - intros info Hg Hne. destruct (i_global0 info Hg Hne) as [H1 H2]. unfold awaited_global in *. rewrite E5. split; [|done].
    apply listed_kept; [done|congruence|done].
Qed.

(** The goroutine of the registration and the table. *)
Definition kept_reg (r r' : Running) : Prop := reg r' = reg r /\ Node r' = Node r /\ config_Cmds r' = config_Cmds r.

Lemma listing_ok own G r c set : inv own G r c -> no_nl set -> exists m c',
  GetAllRegisterNode c set = (Ret m, c') /\ tbl c' = tbl c /\ w_ok c' /\
  forall info, info ∈ (map_to_list m).*2 <-> listed (gx r) (tbl c) info /\ Set' info = set.
Proof using Type.
  intros [] Hs. destruct (GetAllRegisterNode_spec c set) as (m & c' & E & Et & Hok & Hm); [apply i_conn0|apply i_conn0|done|].
  exists m, c'. splits; try done. intros info. rewrite list_elem_of_fmap. destruct i_registry0 as [H1 _]. split.
  - intros ([k x] & -> & Hi%elem_of_map_to_list). rewrite Hm in Hi. destruct (field_of (tbl c) (colon NodeRegisterKey set) k) as [v|] eqn:Ef; [|done].
    destruct (H1 set k v Ef) as (info & -> & Hl & <- & Hset). cbn in Hi. injection Hi as <-.
    pose proof Hl as [_ [[Hj _] _]]. cbn [snd]. by rewrite json_back.
  - intros [[Hl [[Hj _] _]] <-]. exists (Name info, info). split; [done|]. apply elem_of_map_to_list. rewrite Hm. unfold reg_key in Hl.
    rewrite Hl. cbn. by rewrite json_back.
Qed.

Lemma inv_pulling own G r c p : inv own G r c ->
  (forall info, info ∈ todo (set_pulling r p) -> good (gx r) info /\ (Name info <> Name own -> listed (gx r) (tbl c) info)) ->
  (forall info, listed (gx r) (tbl c) info -> Set' info = Set' own -> Name info <> Name own -> awaited r info ->
     awaited (set_pulling r p) info \/ connected (gx r) info) ->
  (forall info, listed (gx r) (tbl c) info -> Set' info = "" -> Name info <> Name own -> awaited_global r info ->
     awaited_global (set_pulling r p) info \/ connected (gx r) info) -> inv own G (set_pulling r p) c.
Proof using Type.
  intros [] H1 H2 H3. split; try done.
  - intros info Hl Hs Hne. destruct (i_set0 info Hl Hs Hne); [by apply H2|by right].
  - intros info Hg Hne. destruct (i_global0 info Hg Hne) as [Hl Ha]. split; [done|]. intros Hs. destruct (Ha Hs); [by apply H3|by right].
Qed.

Lemma inv_set_client own G r c c' : inv own G r c -> tbl c' = tbl c -> w_ok c' -> inv own G (set_client r (Some c')) c'.
Proof using Type. intros [] Et Hok. split; cbn [gx set_client client]; rewrite ?Et; try done. by split; [|apply i_conn0]. Qed.

(** One node of the list is connected or skipped. *)
Lemma connect_next_inv own G r c v rest p : inv own G r c -> pulling r = Some p -> v ∈ todo r ->
  (forall info, info ∈ todo (set_pulling r (Some rest)) -> info ∈ todo r) ->
  (forall info, awaited r info -> awaited (set_pulling r (Some rest)) info \/ info = v) ->
  (forall info, awaited_global r info -> awaited_global (set_pulling r (Some rest)) info \/ info = v) ->
  inv own G (connect_next r v rest) c /\ kept_reg r (connect_next r v rest) /\
  pulling (connect_next r v rest) = Some rest.
Proof using Type.
  intros Hi Hp Hv H1 H2 H3. pose proof (i_self own G r c Hi) as [Es1 Es2].
  destruct (i_todo own G r c Hi v Hv) as [Hg Hl]. unfold connect_next.
  destruct (negb (String.eqb (Set' v) "") && negb (String.eqb (Set' v) (nset (gx r)))) eqn:Eb.
  - apply andb_prop in Eb as [N1%negb_true_iff%String.eqb_neq N2%negb_true_iff%String.eqb_neq]. splits; try done.
    apply inv_pulling; try done.
    + intros info Hin%H1. by apply Hi.
    + intros info _ Hs _ [ | -> ]%H2; [by left|congruence].
    + intros info _ Hs _ [ | -> ]%H3; [by left|congruence].
  - destruct (connect_spec (gx r) (tbl c) v) as (n' & -> & Hn & S1 & S2 & S3 & Hc & Hk);
      [apply Hi|apply Hi|done|by rewrite Es1|]. splits; try done.
    assert (Hi' : inv own G (set_gx r n') c). { apply inv_gx; try done. intros info Hli Hne. apply Hk; [done|congruence]. }
    change (connected (gx (set_gx r n')) v) with (connected n' v) in *. apply inv_pulling; [done|..]; cbn [gx set_gx].
    + intros info Hin%H1. by apply (i_todo own G (set_gx r n') c Hi').
    + intros info _ Hs Hne [ | -> ]%H2; [by left|right; apply Hc; congruence].
    + intros info _ Hs Hne [ | -> ]%H3; [by left|right; apply Hc; congruence].
Qed.

(** The list of the nodes of a set. *)
Lemma list_next_inv own G r c set next : inv own G r c -> client r = Some c -> no_nl set ->
  (forall l, (forall info, info ∈ l <-> listed (gx r) (tbl c) info /\ Set' info = set) ->
     inv own G (set_pulling r (Some (next l))) c) ->
  exists c' l, inv own G (list_next r c set next) c' /\ tbl c' = tbl c /\ kept_reg r (list_next r c set next) /\
    pulling (list_next r c set next) = Some (next l).
Proof using Type.
  intros Hi Hc Hs Hn. destruct (listing_ok own G r c set Hi Hs) as (m & c' & E & Et & Hok & Hm). unfold list_next. rewrite E.
  exists c', (ρ _ (map_to_list m).*2). splits; try done.
  assert (Hi' : inv own G (set_pulling r (Some (next (ρ _ (map_to_list m).*2)))) c).
  { apply Hn. intros info. by rewrite elem_of_range_order. }
  apply inv_reply. exact (inv_set_client own G _ c c' Hi' Et Hok).
Qed.

Lemma no_nl_empty : no_nl "".
Proof using Type. constructor. Qed.

Lemma pull_inv own G r c r' : inv own G r c -> pull_next r = Some r' ->
  exists c', inv own G r' c' /\ tbl c' = tbl c /\ kept_reg r r'.
Proof using Type.
  intros Hi. unfold pull_next. pose proof (i_client own G r c Hi) as Hc. rewrite Hc.
  pose proof (i_own own G r c Hi) as [(_ & _ & _ & _ & Hnl & _) _]. pose proof (i_self own G r c Hi) as [Es1 Es2].
  destruct (pulling r) as [[|[|v l]|[|v l]]|] eqn:Ep; intros [= <-].
  - destruct (list_next_inv own G r c "" ConnectGlobal Hi Hc no_nl_empty) as (c' & l & H & ? & ? & _); [|by exists c'].
    intros l Hl. apply inv_pulling; [done|..].
    + intros info Hin%Hl. destruct Hin as [Hin _]. split; [apply Hin|done].
    + intros info _ _ _ _. left. by right.
    + intros info Hli Hs _ _. left. by apply Hl.
  - destruct (list_next_inv own G r c (nset (gx r)) ConnectSet Hi Hc) as (c' & l & H & ? & ? & _); [by rewrite Es2|..|by exists c'].
    intros l Hl. apply inv_pulling; [done|..].
    + intros info Hin%Hl. destruct Hin as [Hin _]. split; [apply Hin|done].
    + intros info Hli Hs _ _. left. right. apply Hl. by rewrite Es2.
    + intros info _ _ _ Ha. unfold awaited_global in Ha. rewrite Ep in Ha. by apply elem_of_nil in Ha.
  - destruct (connect_next_inv own G r c v (ConnectGlobal l) _ Hi Ep) as (? & ? & _); [..|by exists c];
      unfold todo, awaited, awaited_global; rewrite ?Ep; cbn [pulling inbox set_pulling];
      first [by left|intros info; rewrite ?elem_of_cons; tauto].
  - exists c. splits; try done. apply inv_pulling; [done|..].
    + intros info Hin. by apply elem_of_nil in Hin.
    + unfold awaited. rewrite Ep. cbn. intros info _ _ _ [Ha|Ha%elem_of_nil]; [left; by left|done].
    + unfold awaited_global. by rewrite Ep.
  - destruct (connect_next_inv own G r c v (ConnectSet l) _ Hi Ep) as (? & ? & _); [..|by exists c];
      unfold todo, awaited, awaited_global; rewrite ?Ep; cbn [pulling inbox set_pulling];
      first [by left|intros info; rewrite ?elem_of_cons; tauto].
Qed.

(** The reader and the callback loop. *)
Lemma read_inv own G r c r' : inv own G r c -> read_next r = Some r' -> inv own G r' c /\ kept_reg r r' /\ pulling r' = pulling r.
Proof using Type.
  intros Hi. unfold read_next. destruct (stream (inbox r)) as [|[k v|g] rest] eqn:Es; [done|..].
  - destruct (chan (inbox r)) as [|x l] eqn:Ec; [|done]. intros [= <-]. splits; try done. apply inv_box; [done| |apply (i_asked own G r c Hi)].
    intros e. by apply pending_read.
  - intros [= <-]. splits; try done. apply inv_box; [done| |apply (i_asked own G r c Hi)].
    intros e. unfold pending. cbn [stream with_stream chan cb]. by rewrite Es.
Qed.

Lemma take_inv own G r c r' : inv own G r c -> callback_take r = Some r' -> inv own G r' c /\ kept_reg r r' /\ pulling r' = pulling r.
Proof using Type.
  intros Hi. unfold callback_take. destruct (cb (inbox r)) as [?|] eqn:Ecb; [done|]. destruct (chan (inbox r)) as [|[k v] rest] eqn:Ec; [done|].
  destruct (i_inbox own G r c Hi k v) as (Hv & _); [by eapply pending_chan|]. apply String.eqb_neq in Hv as ->.
  intros [= <-]. splits; try done. apply inv_box; [done| |done].
  intros e. by apply pending_take.
Qed.

Lemma ask_inv own G r c r' : inv own G r c -> callback_ask r = Some r' ->
  exists c', inv own G r' c' /\ tbl c' = tbl c /\ kept_reg r r' /\ pulling r' = pulling r.
Proof using Type.
  intros Hi. unfold callback_ask. pose proof (i_client own G r c Hi) as Hc. rewrite Hc.
  pose proof (i_own own G r c Hi) as [(_ & _ & _ & _ & Hnl & _) _]. pose proof (i_self own G r c Hi) as [Es1 Es2].
  destruct (cb (inbox r)) as [[[k v] [found|]]|] eqn:Ecb; [done| |done].
  destruct (i_inbox own G r c Hi k v) as (Hv & Hk & Hk0 & _); [by eapply pending_cb|].
  destruct (GetRegisterNode_conn c k (nset (gx r))) as (c' & -> & Et & Hok); [apply Hi|done|by rewrite Es2|done|].
  intros [= <-]. exists c'. splits; try done. apply inv_reply. apply (inv_box own G (set_client r (Some c'))).
  { by eapply inv_set_client. }
  { intros e. unfold pending. cbn [stream with_cb chan cb inbox set_client]. by rewrite Ecb. }
  cbn [cb with_cb gx set_client]. intros ? ? ? [= <- <- <-]. rewrite Et. eexists. splits; [done|..].
  - intros info. destruct (field_of (tbl c) (colon NodeRegisterKey (nset (gx r))) k) as [x|] eqn:Ef; [|done]. cbn.
    destruct (i_registry own G r c Hi) as [H1 _]. destruct (H1 _ _ _ Ef) as (info' & -> & Hl & En & Es). pose proof Hl as [_ [[Hj _] _]].
    rewrite decide_False, json_back by (apply json_nonempty || done). intros [= <-]. splits; [apply Hl|done|congruence].
  - intros info [Hl [[Hj _] _]] Hs Hne <-. unfold reg_key in Hl. rewrite Es2, <- Hs, Hl. cbn.
    by rewrite decide_False, json_back by (apply json_nonempty || done).
Qed.

Lemma answer_inv own G r c r' : inv own G r c -> callback_answer r = Some r' -> inv own G r' c /\ kept_reg r r' /\ pulling r' = pulling r.
Proof using Type.
  intros Hi. unfold callback_answer. pose proof (i_self own G r c Hi) as [Es1 Es2].
  destruct (cb (inbox r)) as [[[k v] [found|]]|] eqn:Ecb; [|done..]. destruct (waiting GCb r); [done|].
  destruct (i_inbox own G r c Hi k v) as (Hv & _); [by eapply pending_cb|]. apply String.eqb_neq in Hv.
  destruct (i_asked own G r c Hi k v found Ecb) as (o & -> & Ho1 & Ho2). cbn [mbind go_bind]. unfold WatchNodeRegister. rewrite Hv.
  set (ib := with_cb (inbox r) None).
  assert (Hpre : forall e, e ∈ pending (inbox r) -> e ∈ pending ib \/ e = (k, v)).
  { intros e. by rewrite (pending_answer _ k v _ e Ecb). }
  assert (Hsub : forall e, e ∈ pending ib -> e ∈ pending (inbox r)).
  { intros e He. rewrite (pending_answer _ k v _ e Ecb). by left. }
  (* the step, once the node of this name is known to be connected *)
  assert (Hstep : forall n', node_ok n' -> self n' = self (gx r) -> region n' = region (gx r) -> nset n' = nset (gx r) ->
    (forall info, listed (gx r) (tbl c) info -> Name info <> Name own -> connected (gx r) info -> connected n' info) ->
    (forall info, listed (gx r) (tbl c) info -> Name info <> Name own -> o = Some info -> connected n' info) ->
    inv own G (set_gx (set_inbox r ib) n') c).
  { intros n' H1 H2 H3 H4 H5 H6. destruct (inv_gx own G r c n' Hi H1 H2 H3 H4 H5) as []. split; try done; cbn [inbox set_inbox gx set_gx].
    - intros k' v' H%Hsub. by apply i_inbox0.
    - intros info Hl Hs Hne. destruct (i_set0 info Hl Hs Hne) as [[[v' H]|H]|H]; [|left; by right|by right].
      destruct (Hpre _ H) as [H'|[= En _]]; [left; left; by exists v'|]. right. rewrite <- (listed_region (gx r)) in Hl by done.
      apply H6; [done|done|]. by apply Ho2. }
  destruct o as [info|].
  - destruct (Ho1 info eq_refl) as (Hg & Hl & Hs). rewrite Hs, Es2, String.eqb_refl, orb_true_r.
    destruct (connect_spec (gx r) (tbl c) info) as (n' & -> & Hn' & S1 & S2 & S3 & Hcn & Hkp); [apply Hi|apply Hi|done|by rewrite Es1|].
    intros [= <-]. splits; try done. apply Hstep; try done.
    + intros info' Hl' Hne. apply Hkp; [done|congruence].
    + intros info' _ Hne [= <-]. apply Hcn. congruence.
  - intros [= <-]. splits; try done. apply Hstep; try done. apply Hi.
Qed.

Lemma cb_step_inv own G r c r' : inv own G r c -> cb_step r r' ->
  exists c', inv own G r' c' /\ tbl c' = tbl c /\ kept_reg r r' /\ pulling r' = pulling r.
Proof using Type.
  intros Hi Hs. destruct Hs as [r r' E|r r' E|r r' E|r r' E].
  - destruct (read_inv own G r c r' Hi E) as (? & ? & ?). by exists c.
  - destruct (take_inv own G r c r' Hi E) as (? & ? & ?). by exists c.
  - by eapply ask_inv.
  - destruct (answer_inv own G r c r' Hi E) as (? & ? & ?). by exists c.
Qed.

(** *** The registration *)

Definition registered (own : NodeInfo) (t : table) : Prop := field_of t (reg_key own) (Name own) = Some (Marshal own).

Definition reg_inv (own : NodeInfo) (r : Running) (t : table) : Prop :=
  announced r = own /\ room (writes_left r) t /\
  match reg r with
  | Some (Collect _) => True
  | Some (Write calls) => exists sent, register_calls own = sent ++ calls /\ (sent <> [] -> registered own t)
  | None => registered own t
  end.

Definition Inv (own : NodeInfo) (G : NodeInfo -> Prop) (r : Running) : Prop := exists c, inv own G r c /\ reg_inv own r (tbl c).

Lemma reg_inv_kept own r r' t : kept_reg r r' -> reg_inv own r t -> reg_inv own r' t.
Proof using Type.
  intros (E1 & E2 & E3) H. unfold reg_inv, writes_left, announced in *. by rewrite E1, E2, E3.
Qed.

Lemma inv_same own G r r' c : gx r' = gx r -> client r' = client r -> crashed r' = crashed r -> Watching r' = Watching r ->
  inbox r' = inbox r -> pulling r' = pulling r -> inv own G r c -> inv own G r' c.
Proof using Type.
  intros E1 E2 E3 E4 E5 E6 []. split; rewrite ?E1, ?E2, ?E3, ?E4, ?E5; try done.
  - unfold todo. by rewrite E6.
  - unfold awaited. by rewrite E5, E6.
  - unfold awaited_global. by rewrite E6.
Qed.

(** The requests of the registration are fair writes under clean keys. *)
Lemma register_call_fair n t own k f v : good n own -> self n = Name own -> (k, f, v) ∈ register_calls own ->
  fair_write n t k f v /\ f = Name own /\ no_nl k /\ no_nl v /\ k <> "".
Proof using Type.
  intros Hg Hs. pose proof Hg as [(Hj & Hn & Hn0 & Ht & Hst & Hv) _]. destruct literal_keys as (L1 & L2 & L3 & _).
  destruct (colon_ok _ _ L1 Hst) as [A1 A2]. destruct (colon_ok _ _ L2 Ht) as [B1 B2].
  assert (Hz : no_nl "0") by (repeat constructor; done). unfold register_calls. rewrite !elem_of_cons, list_elem_of_fmap.
  intros [[= -> -> ->]|[[= -> -> ->]|(sv & [= -> -> ->] & Hin)]].
  - splits; try done; [|apply json_line]. right. exists own. splits; try done. by left.
  - splits; try done. left. intros set E. symmetry in E. by apply keys_differ in E.
  - rewrite Forall_forall in Hv. destruct (colon_ok _ _ L3 (Hv sv Hin)) as [C1 C2]. splits; try done.
    left. intros set E. symmetry in E. by apply keys_differ in E.
Qed.

Lemma registered_kept own n t k f v : fair_write n t k f v -> (f = Name own -> k = reg_key own -> v = Marshal own) ->
  registered own t -> registered own (set_field t k f v).
Proof using Type.
  unfold registered, reg_key. intros Hw Hv H. rewrite (fair_write_register n) by done. case_decide as Hd; [|done].
  destruct Hd as [<- <-]. by rewrite Hv.
Qed.

Lemma collect_inv own G r c svc : inv own G r c -> inv own G (collect r svc) c.
Proof using Type.
  intros Hi. unfold collect. set (s := service_info _ _).
  destruct (fold_cmds (Type' (Node r)) (sv_Name s) (Func s) (gx r)) as (F1 & F2 & F3 & F4 & F5 & F6 & F7 & F8). cbn zeta in *.
  set (n := fold_left _ (Func s) (gx r)) in *. apply (inv_same own G (set_gx r n)); try done. apply inv_gx; try done.
  - destruct (i_node own G r c Hi) as [H1 H2]. split; rewrite ?F1, ?F3, ?F4, ?F5; [|done].
    intros k nc Hk. rewrite (address_ext (gx r)) by done. by apply H1.
  - intros info _ _ [C1 C2]. unfold connected. by rewrite F3, F4.
Qed.

Lemma reg_next_inv own G r r' : Inv own G r -> reg_next r = Some r' -> Inv own G r' /\ pulling r' = pulling r.
Proof using Type.
  intros (c & Hi & Ha & Hr & Hw). unfold reg_next. rewrite (i_client own G r c Hi). unfold announced in Ha. unfold writes_left, announced in Hr.
  destruct (reg r) as [[[|svc l]|[|[[k f] v] calls]]|] eqn:Er; intros [= <-].
  - split; [|done]. assert (En : Node r = own) by (rewrite <- Ha; cbn; rewrite app_nil_r; by destruct (Node r)).
    exists c. split; [by apply (inv_same own G r)|]. unfold reg_inv, announced, writes_left. cbn [reg set_reg Node]. rewrite En. splits; try done.
    + rewrite Ha in Hr. unfold register_calls. cbn [length]. by rewrite length_fmap.
    + by exists [].
  - split; [|done]. exists c. split; [by apply (inv_same own G (collect r svc)); [..|apply collect_inv]|].
    assert (Ea : announced (set_reg (collect r svc) (Some (Collect l))) = own).
    { rewrite <- Ha. unfold announced, with_services. cbn. by rewrite <- app_assoc. }
    unfold reg_inv. splits; [done|unfold writes_left; cbn [reg set_reg]; by rewrite Ea, <- Ha|done].
  - split; [|done]. destruct Hw as (sent & Es & Hs). rewrite app_nil_r in Es. exists c. split; [by apply (inv_same own G r)|].
    unfold reg_inv, announced, writes_left. cbn [reg set_reg Node]. splits; try done. apply Hs. by rewrite <- Es.
  - destruct Hw as (sent & Es & Hs). pose proof (i_own own G r c Hi) as Hg. pose proof (i_self own G r c Hi) as [S1 _].
    pose proof (i_conn own G r c Hi) as [Hok _]. pose proof Hg as [(_ & Hn & Hn0 & _) _].
    destruct (register_call_fair (gx r) (tbl c) own k f v Hg S1) as (Hf & -> & Hk & Hv & Hk0); [rewrite Es; apply elem_of_app; right; by left|].
    destruct (w_Hset_ok c k (Name own) v Hok Hk Hn Hv) as [Et Hok']. rewrite decide_False in Et by (by intros [|]).
    set (c' := w_Hset c k (Name own) v) in *. set (r1 := announce (push (set_client r (Some c')) (Reply GReg)) k (Name own) v).
    assert (Hroom : room (length calls) (tbl c')) by (rewrite Et; by apply room_write).
    assert (Hi' : inv own G r1 c').
    { apply (inv_write own G (push r (Reply GReg)) c); try done; [by apply inv_reply|by eapply room_small]. }
    assert (E1 : Node r1 = Node r /\ pulling r1 = pulling r) by (unfold r1, announce; by case_decide). destruct E1 as [E1 E2].
    split; [|done]. exists c'. split; [by apply (inv_same own G r1)|]. unfold reg_inv, announced, writes_left. cbn [reg set_reg Node]. rewrite E1.
    splits; try done. exists (sent ++ [(k, Name own, v)]). split; [by rewrite <- app_assoc|]. intros _. rewrite Et.
    destruct sent as [|x sent].
    + unfold register_calls in Es. cbn [app] in Es. injection Es as <- <- <-. unfold registered, reg_key.
      rewrite (fair_write_register (gx r)) by done. by rewrite decide_True.
    + apply (registered_kept own (gx r)); [done| |by apply Hs]. intros _ ->. unfold register_calls in Es. cbn [app] in Es. injection Es as _ Es.
      assert (Hin : (reg_key own, Name own, v) ∈ sent ++ (reg_key own, Name own, v) :: calls) by (apply elem_of_app; right; by left). rewrite <- Es in Hin.
      apply elem_of_cons in Hin as [[= E _]|(sv & [= E _] & _)%list_elem_of_fmap]; by apply keys_differ in E.
Qed.

(** *** Every step of the start-up *)

Lemma own_step_inv own G r r' : Inv own G r -> own_step r r' -> Inv own G r'.
Proof using Type.
  intros HI Hs. destruct Hs as [r r' _ E|r r' _ E|r r' E]; [by eapply reg_next_inv|destruct HI as (c & Hi & Hr)..].
  - destruct (pull_inv own G r c r' Hi E) as (c' & Hi' & Et & Hk). exists c'. rewrite Et. split; [done|by eapply reg_inv_kept].
  - destruct (cb_step_inv own G r c r' Hi E) as (c' & Hi' & Et & Hk & _). exists c'. rewrite Et. split; [done|by eapply reg_inv_kept].
Qed.

Lemma step_inv own G r r' : Inv own G r -> step starting r r' -> late (inbox r') = true \/ Inv own G r'.
Proof using Type.
  intros HI Hs. destruct Hs as [r r' Hs|r g Hw|r k o n' E|r d|r c0 c' o k f v Hc Ho Ew Et Hok Hroom];
    [right; by eapply own_step_inv|left; by destruct g|..]; right; destruct HI as (c & Hi & Hr).
  - exists c. split; [|by eapply reg_inv_kept]. destruct (getNode_spec reach (gx r) k (i_node own G r c Hi)) as (o' & n & E' & Hn & [X1 X2 X3 X4] & _).
    rewrite E in E'. injection E' as <- <-. destruct X1 as (X1 & X5 & _ & X6 & _ & X7). apply inv_gx; try done.
    intros info _ _ [C1 C2]. split; [by rewrite X3|]. by rewrite X6.
  - exists c. split; [|by eapply reg_inv_kept]. by apply inv_gx; try done; apply close_client_ok, Hi.
  - pose proof (i_client own G r c Hi) as Hc'. rewrite Hc in Hc'. injection Hc' as ->. pose proof (i_self own G r c Hi) as [S1 _].
    assert (Hf : fair_write (gx r) (tbl c) k f v /\ (f = Name own -> k = reg_key own -> v = Marshal own)).
    { destruct o as [info|info|k0 f0 v0]; cbn in Ho, Ew; injection Ew as <- <- <-; [|done|].
      - destruct Ho as (Hg & Hne & Hfr). split; [|congruence]. right. exists info. splits; try done. by right.
      - split; [by left|by intros _ ?%Ho]. }
    destruct Hf as [Hf Hv]. set (r' := announce _ k f v). exists c'. split.
    { apply inv_write with c; try done. by eapply room_small. }
    destruct Hr as (Ha & _ & Hw). rewrite Et in *. assert (Hk : kept_reg r r') by (unfold r', announce; by case_decide).
    apply (reg_inv_kept own r); [done|]. unfold reg_inv. splits; try done.
    destruct (reg r) as [[l|calls]|]; [done|..|by eapply registered_kept]. destruct Hw as (sent & Es & Hs). exists sent. split; [done|].
    intros Hne. eapply registered_kept; [done..|by apply Hs].
Qed.

(** All but the reader and the callback loop only add messages. *)
Definition fed (r r' : Running) : Prop := exists its, inbox r' = with_stream (inbox r) (stream (inbox r) ++ its).

Lemma fed_same r r' : inbox r' = inbox r -> fed r r'.
Proof using Type. intros E. exists []. rewrite E, app_nil_r. by destruct (inbox r). Qed.

Lemma fed_push r r' it : fed r r' -> fed r (push r' it).
Proof using Type. intros [its E]. exists (its ++ [it]). cbn [push inbox set_inbox]. rewrite E. cbn. by rewrite app_assoc. Qed.

Lemma fed_announce r r' k f v : fed r r' -> fed r (announce r' k f v).
Proof using Type. intros H. unfold announce. case_decide; [by apply fed_push|done]. Qed.

Lemma reg_next_fed r r' : reg_next r = Some r' -> fed r r'.
Proof using Type.
  unfold reg_next. destruct (reg r) as [[[|svc l]|[|[[k f] v] calls]]|], (client r) as [c|]; intros [= <-]; try by apply fed_same.
  assert (H : fed r (announce (push (set_client r (Some (w_Hset c k f v))) (Reply GReg)) k f v)).
  { by apply fed_announce, fed_push, fed_same. }
  exact H.
Qed.

Lemma pull_next_fed r r' : pull_next r = Some r' -> fed r r'.
Proof using Type.
  unfold pull_next, connect_next, list_next. destruct (pulling r) as [[|[|v l]|[|v l]]|], (client r) as [c|]; repeat case_match; intros [= <-];
    first [by apply fed_same|by apply fed_push, fed_same].
Qed.

Lemma step_cases ok r r' : step ok r r' -> fed r r' \/ cb_step r r' \/ exists g, waiting g r = true /\ r' = time_out g r.
Proof using Type.
  intros [r1 r1' [a b _ E|a b _ E|a b E]|r1 g Hw|r1 k o n' E|r1 d|r1 c0 c' o k f v Hc Ho Ew Et Hok Hroom].
  - left. by apply reg_next_fed.
  - left. by apply pull_next_fed.
  - right. by left.
  - right. right. by exists g.
  - left. by apply fed_same.
  - left. by apply fed_same.
  - left. by apply fed_announce, fed_same.
Qed.

Lemma settle_inbox r res : inbox (settle r res) = inbox r.
Proof using Type. by destruct res. Qed.

Lemma cb_step_late r r' : cb_step r r' -> late (inbox r') = late (inbox r).
Proof using Type.
  intros [a b E|a b E|a b E|a b E].
  - unfold read_next in E. destruct (stream (inbox a)) as [|[k v|g] l]; [done|destruct (chan (inbox a)); [|done]|]; by injection E as <-.
  - unfold callback_take in E. destruct (cb (inbox a)), (chan (inbox a)) as [|[k v] l]; try done.
    destruct (String.eqb v ""); injection E as <-; by rewrite ?settle_inbox.
  - unfold callback_ask in E. destruct (cb (inbox a)) as [[[k v] [x|]]|], (client a) as [c|]; try done.
    destruct (GetRegisterNode _ _ _). by injection E as <-.
  - unfold callback_answer in E. destruct (cb (inbox a)) as [[[k v] [x|]]|]; try done. destruct (waiting GCb a); [done|].
    injection E as <-. by rewrite settle_inbox.
Qed.

Lemma step_late ok r r' : step ok r r' -> late (inbox r) = true -> late (inbox r') = true.
Proof using Type.
  intros [[its E]|[E|(g & _ & ->)]]%step_cases Hl; [by rewrite E|by rewrite (cb_step_late r)|by destruct g].
Qed.

Lemma steps_inv own G r r' : rtc (step starting) r r' -> late (inbox r) = true \/ Inv own G r -> late (inbox r') = true \/ Inv own G r'.
Proof using Type.
  induction 1 as [|x y z Hs _ IH]; [done|]. intros [Hl|HI]; apply IH; [left; by eapply step_late|by eapply step_inv].
Qed.

Lemma own_steps ok r r' : rtc own_step r r' -> rtc (step ok) r r'.
Proof using Type. induction 1 as [|x y z Hs _ IH]; [done|]. eapply rtc_l; [by apply step_own|done]. Qed.

(** *** The goroutines finish *)

Definition idle (ib : Inbox) : Prop := stream ib = [] /\ chan ib = [] /\ cb ib = None.
Definition quiet (r : Running) : Prop := reg r = None /\ pulling r = None /\ idle (inbox r).

(** The callback waits for its reply, the reader for room in WatchChan, and
    WatchChan for the callback. *)
Definition starved (r : Running) : Prop :=
  (exists k v found, cb (inbox r) = Some (k, v, Some found)) /\ waiting GCb r = true /\ chan (inbox r) <> [] /\
  exists k v rest, stream (inbox r) = Note k v :: rest.

Lemma node_starved_step ok r r' : starved r -> step ok r r' -> starved r' \/ exists g, waiting g r = true /\ r' = time_out g r.
Proof using Type.
  intros ((k & v & found & Hcb) & Hw & Hch & k' & v' & rest & Hst) [[its E]|[E|E]]%step_cases; [|exfalso|by right].
  - left. unfold starved, waiting in *. rewrite E. cbn [cb with_stream chan stream]. splits; [by eexists _, _, _|..|done|].
    + apply bool_decide_eq_true in Hw. apply bool_decide_eq_true_2, elem_of_app. by left.
    + rewrite Hst. by eexists _, _, _.
  - destruct E as [a b E|a b E|a b E|a b E]; revert E; unfold read_next, callback_take, callback_ask, callback_answer; rewrite ?Hcb.
    + rewrite Hst. by destruct (chan (inbox a)).
    + done.
    + done.
    + by rewrite Hw.
Qed.

(** Left alone, the reader and the loop come to an end, or starve. *)
Definition weight (it : item) : nat := match it with Note _ _ => 5 | Reply _ => 1 end.
Definition load (ib : Inbox) : nat :=
  sum_list_with weight (stream ib) + 4 * length (chan ib) + match cb ib with Some (_, _, None) => 3 | Some (_, _, Some _) => 1 | None => 0 end.

Lemma cb_progress r c : client r = Some c -> idle (inbox r) \/ starved r \/ exists r', cb_step r r' /\ (load (inbox r') < load (inbox r))%nat.
Proof using Type.
  intros Hc. destruct (cb (inbox r)) as [[[k v] [found|]]|] eqn:Ecb.
  - destruct (waiting GCb r) eqn:Ew.
    + destruct (stream (inbox r)) as [|[k' v'|g] rest] eqn:Es.
      * unfold waiting in Ew. rewrite Es in Ew. done.
      * destruct (chan (inbox r)) as [|x l] eqn:Ech.
        -- right. right. eexists. split; [apply cb_read; unfold read_next; by rewrite Es, Ech|].
           unfold load. cbn. rewrite Es, Ech, Ecb. cbn. lia.
        -- right. left. unfold starved. rewrite Ech. splits; [by eexists _, _, _|done|done|by eexists _, _, _].
      * right. right. eexists. split; [apply cb_read; unfold read_next; by rewrite Es|]. unfold load. cbn. rewrite Es, Ecb. cbn. lia.
    + right. right. eexists. split; [apply cb_answer; unfold callback_answer; by rewrite Ecb, Ew|].
      rewrite settle_inbox. unfold load. cbn. rewrite Ecb. lia.
  - right. right. destruct (GetRegisterNode c k (nset (gx r))) as [found c'] eqn:Eg.
    eexists. split; [apply cb_ask; unfold callback_ask; by rewrite Ecb, Hc, Eg|]. unfold load. cbn [push inbox set_inbox stream with_stream with_cb chan cb].
    rewrite sum_list_with_app, Ecb. cbn. lia.
  - destruct (chan (inbox r)) as [|[k v] rest] eqn:Ech.
    + destruct (stream (inbox r)) as [|[k' v'|g] rest] eqn:Es; [by left|..]; right; right.
      * eexists. split; [apply cb_read; unfold read_next; by rewrite Es, Ech|]. unfold load. cbn. rewrite Es, Ech, Ecb. cbn. lia.
      * eexists. split; [apply cb_read; unfold read_next; by rewrite Es|]. unfold load. cbn. rewrite Es, Ecb. cbn. lia.
    + right. right. destruct (String.eqb v "") eqn:Ev; (eexists; split; [apply cb_take; unfold callback_take; by rewrite Ecb, Ech, Ev|]);
        rewrite ?settle_inbox; unfold load; cbn; rewrite Ecb, Ech; cbn; lia.
Qed.

Lemma drain_inbox own G n : forall r, (load (inbox r) < n)%nat -> Inv own G r ->
  exists r', rtc own_step r r' /\ Inv own G r' /\ reg r' = reg r /\ pulling r' = pulling r /\ (idle (inbox r') \/ starved r').
Proof using Type.
  induction n as [|n IH]; intros r Hn HI; [lia|]. pose proof HI as (c & Hi & _).
  destruct (cb_progress r c (i_client own G r c Hi)) as [H|[H|(r1 & Hs & Hl)]]; [exists r; by splits; try done; auto..|].
  destruct (cb_step_inv own G r c r1 Hi Hs) as (_ & _ & _ & (Er & _) & Ep).
  assert (Ho : own_step r r1) by (by apply own_callback).
  destruct (IH r1) as (r' & Hr & HI' & E1 & E2 & H); [lia|by eapply own_step_inv|]. exists r'. splits; try done; [by eapply rtc_l|congruence..].
Qed.

Lemma idle_waiting g r : idle (inbox r) -> waiting g r = false.
Proof using Type. intros (E & _). unfold waiting. by rewrite E. Qed.

(** One goroutine at a time, with the messages read in between. *)
Definition ends (own : NodeInfo) (G : NodeInfo -> Prop) (r : Running) (Q : Running -> Prop) : Prop :=
  exists r', rtc own_step r r' /\ (starved r' \/ (Inv own G r' /\ Q r')).

Lemma ends_step own G r r1 Q : rtc own_step r r1 -> ends own G r1 Q -> ends own G r Q.
Proof using Type. intros H (r' & Hr & HQ). exists r'. split; [by etrans|done]. Qed.

Lemma reg_step own G r : Inv own G r -> reg r <> None ->
  exists r', rtc own_step r r' /\ (starved r' \/ (Inv own G r' /\ exists r0, reg r0 = reg r /\ reg_next r0 = Some r')).
Proof using Type.
  intros HI Hne. destruct (drain_inbox own G _ r (le_n _) HI) as (r1 & Hr & HI1 & E1 & _ & [Hd|Hd]); [|exists r1; auto].
  pose proof HI1 as (c & Hi & _).
  assert (Hs : exists r2, reg_next r1 = Some r2).
  { unfold reg_next. rewrite E1, (i_client own G r1 c Hi). destruct (reg r) as [[[|]|[|[[]]]]|]; [by eexists..|done]. }
  destruct Hs as [r2 Hs]. exists r2. assert (Ho : own_step r1 r2) by (apply own_reg; [by apply idle_waiting|done]).
  split; [etrans; [done|by apply rtc_once]|]. right. split; [by eapply own_step_inv|]. by exists r1.
Qed.

Lemma write_done own G calls : forall r, Inv own G r -> reg r = Some (Write calls) -> ends own G r (fun r' => reg r' = None).
Proof using Type.
  induction calls as [|[[k f] v] calls IH]; intros r HI Er;
    (destruct (reg_step own G r HI) as (r1 & Hr & [H|(HI1 & r0 & E0 & Hs)]); [by rewrite Er|exists r1; auto|]);
    unfold reg_next in Hs; rewrite E0, Er in Hs.
  - injection Hs as <-. eexists. split; [done|]. by right.
  - destruct (client r0); [|done]. injection Hs as <-. eapply ends_step; [done|by apply IH].
Qed.

Lemma collect_done own G l : forall r, Inv own G r -> reg r = Some (Collect l) -> ends own G r (fun r' => reg r' = None).
Proof using Type.
  induction l as [|svc l IH]; intros r HI Er;
    (destruct (reg_step own G r HI) as (r1 & Hr & [H|(HI1 & r0 & E0 & Hs)]); [by rewrite Er|exists r1; auto|]);
    unfold reg_next in Hs; rewrite E0, Er in Hs; injection Hs as <-; (eapply ends_step; [done|]).
  - by eapply write_done.
  - by apply IH.
Qed.

Lemma reg_done own G r : Inv own G r -> ends own G r (fun r' => reg r' = None).
Proof using Type.
  intros HI. destruct (reg r) as [[l|calls]|] eqn:E; [by eapply collect_done|by eapply write_done|]. exists r. split; [done|]. by right.
Qed.

(** What one step of the other goroutine leads to. *)
Lemma pull_next_shape r r' : pull_next r = Some r' -> reg r' = reg r /\
  (pulling r' = None \/ match pulling r with
                        | Some PullGlobal => exists l, pulling r' = Some (ConnectGlobal l)
                        | Some (ConnectGlobal []) => exists l, pulling r' = Some (ConnectSet l)
                        | Some (ConnectGlobal (_ :: l)) => pulling r' = Some (ConnectGlobal l)
                        | Some (ConnectSet (_ :: l)) => pulling r' = Some (ConnectSet l)
                        | _ => False
                        end).
Proof using Type.
  unfold pull_next, connect_next, list_next. destruct (pulling r) as [[|[|v l]|[|v l]]|]; repeat case_match; intros [= <-]; cbn; (split; [done|first [by left|right; eauto]]).
Qed.

Lemma pull_step own G r p : Inv own G r -> reg r = None -> pulling r = Some p ->
  exists r', rtc own_step r r' /\ (starved r' \/ (Inv own G r' /\ reg r' = None /\ exists r0, pulling r0 = Some p /\ pull_next r0 = Some r')).
Proof using Type.
  intros HI Er Ep. destruct (drain_inbox own G _ r (le_n _) HI) as (r1 & Hr & HI1 & E1 & E2 & [Hd|Hd]); [|exists r1; auto].
  pose proof HI1 as (c & Hi & _).
  assert (Hs : exists r2, pull_next r1 = Some r2).
  { unfold pull_next. rewrite E2, Ep, (i_client own G r1 c Hi). destruct p as [|[|v l]|[|v l]]; by eexists. }
  destruct Hs as [r2 Hs]. exists r2. assert (Ho : own_step r1 r2) by (apply own_pull; [by apply idle_waiting|done]).
  destruct (pull_next_shape r1 r2 Hs) as [E3 _].
  split; [etrans; [done|by apply rtc_once]|]. right. splits; [by eapply own_step_inv|congruence|]. exists r1. split; [congruence|done].
Qed.

Definition stopped (r : Running) : Prop := reg r = None /\ pulling r = None.

Lemma connect_set_done own G l : forall r, Inv own G r -> reg r = None -> pulling r = Some (ConnectSet l) -> ends own G r stopped.
Proof using Type.
  induction l as [|v l IH]; intros r HI Er Ep;
    (destruct (pull_step own G r _ HI Er Ep) as (r1 & Hr & [H|(HI1 & E1 & r0 & E0 & Hs)]); [exists r1; auto|]);
    destruct (pull_next_shape r0 r1 Hs) as [_ H]; rewrite E0 in H; destruct H as [Ep1|Ep1]; try done;
    try (exists r1; split; [done|by right]).
  eapply ends_step; [done|by apply IH].
Qed.

Lemma connect_global_done own G l : forall r, Inv own G r -> reg r = None -> pulling r = Some (ConnectGlobal l) -> ends own G r stopped.
Proof using Type.
  induction l as [|v l IH]; intros r HI Er Ep;
    (destruct (pull_step own G r _ HI Er Ep) as (r1 & Hr & [H|(HI1 & E1 & r0 & E0 & Hs)]); [exists r1; auto|]);
    destruct (pull_next_shape r0 r1 Hs) as [_ H]; rewrite E0 in H; destruct H as [Ep1|Ep1]; try done;
    try (exists r1; split; [done|by right]); (eapply ends_step; [done|]).
  - destruct Ep1 as [l Ep1]. by eapply connect_set_done.
  - by apply IH.
Qed.

Lemma pull_done own G r : Inv own G r -> reg r = None -> ends own G r stopped.
Proof using Type.
  intros HI Er. destruct (pulling r) as [[|l|l]|] eqn:Ep; [|by eapply connect_global_done|by eapply connect_set_done|exists r; split; [done|by right]].
  destruct (pull_step own G r _ HI Er Ep) as (r1 & Hr & [H|(HI1 & E1 & r0 & E0 & Hs)]); [exists r1; auto|].
  destruct (pull_next_shape r0 r1 Hs) as [_ H]; rewrite E0 in H; destruct H as [Ep1|[l Ep1]]; [exists r1; split; [done|by right]|].
  eapply ends_step; [done|by eapply connect_global_done].
Qed.

Lemma becomes_quiet own G r : Inv own G r -> exists r', rtc own_step r r' /\ (quiet r' \/ starved r').
Proof using Type.
  intros HI. destruct (reg_done own G r HI) as (r1 & H1 & [Hs|[HI1 E1]]); [exists r1; auto|].
  destruct (pull_done own G r1 HI1 E1) as (r2 & H2 & [Hs|[HI2 [E2 P2]]]); [exists r2; split; [by etrans|by right]|].
  destruct (drain_inbox own G _ r2 (le_n _) HI2) as (r3 & H3 & _ & E3 & P3 & H). exists r3. split; [by do 2 (etrans; [done|])|].
  destruct H as [H|H]; [left|by right]. unfold quiet. splits; [congruence..|done].
Qed.

(** *** The start *)

Lemma InitNode_node config n0 hook watching : RpcClient n0 = ∅ -> node_ok (gx (InitNode config n0 hook watching)).
Proof using Type.
  intros E. split; cbn; intros *; [rewrite E|]; by rewrite lookup_empty.
Qed.

Lemma InitNode_inv config n0 hook watching c : let r := InitNode config n0 hook watching in
  NodeConfig.Client config = Some c -> RpcClient n0 = ∅ -> w_ok c -> room (writes_left r) (tbl c) -> registry (gx r) (tbl c) ->
  good (gx r) (announced r) -> colon NodeRegisterKey (NodeConfig.Set_ config) ∈ watching ->
  (forall k, k ∈ watching -> exists set, k = colon NodeRegisterKey set) ->
  Inv (announced r) (listed (gx r) (tbl c)) r.
Proof using Type.
  intros r Ec E0 Hok Hroom Hreg Hg Hw Hw'. subst r. set (r := InitNode config n0 hook watching) in *.
  assert (Er : reg r = Some (Collect (ρ _ (Services n0))) /\ pulling r = Some PullGlobal) by (cbn; by rewrite Ec). destruct Er as [Er Ep].
  assert (Ha : Name (announced r) = NodeConfig.Nodename config /\ Set' (announced r) = NodeConfig.Set_ config).
  { unfold announced. by rewrite Er. } destruct Ha as [An As].
  exists c. split; [split; try done|].
  - by eapply conj, room_small.
  - by apply InitNode_node.
  - by rewrite As.
  - cbn. intros k v H. by apply elem_of_nil in H.
  - unfold todo. rewrite Ep. intros info H. by apply elem_of_nil in H.
  - intros info _ _ _. left. right. by rewrite Ep.
  - intros info Hl _. split; [done|]. intros _. left. unfold awaited_global. by rewrite Ep.
  - unfold reg_inv. rewrite Er. by splits.
Qed.

(** Known for calls: stored with its data, and offered for its services when it
    can be reached. *)
Definition callable (n : GxNode) (info : NodeInfo) : Prop :=
  Info <$> RpcClient n !! Name info = Some info /\
  forall a sv, address_of n info = Ret a -> reach a = true -> sv ∈ Service info -> offers reach n (sv_Name sv) (Name info).

Lemma connected_callable n info : connected n info -> callable n info.
Proof using Type.
  intros [H1 H2]. split; [done|]. intros a sv Ha Hr Hin. split; [by apply H2|]. unfold available.
  destruct (RpcClient n !! Name info) as [nc|]; [|done]. injection H1 as H1. rewrite H1, Ha, Hr. apply orb_true_r.
Qed.

(** *** Limits *)

(** A node that is announced but not in this node's own set is not connected,
    although nodes of the global set are meant to be: it is looked up in the own
    set only. *)
Lemma node_late_global r c k v : cb (inbox r) = Some (k, v, None) -> client r = Some c -> w_ok c -> no_nl k -> k <> "" -> v <> "" ->
  no_nl (nset (gx r)) -> field_of (tbl c) (colon NodeRegisterKey (nset (gx r))) k = None ->
  exists r1, callback_ask r = Some r1 /\ cb (inbox r1) = Some (k, v, Some (Ret None)) /\
    forall r2 r3, cb (inbox r2) = Some (k, v, Some (Ret None)) -> callback_answer r2 = Some r3 -> gx r3 = gx r2.
Proof using Type.
  intros Hb Hc Hok Hk Hk0 Hv Hs Hf. unfold callback_ask. apply String.eqb_neq in Hv. rewrite Hb, Hc.
  destruct (GetRegisterNode_conn c k (nset (gx r)) Hok Hk Hs Hk0) as (c' & -> & _). rewrite Hf. eexists. splits; [done|done|].
  intros r2 r3 E2. unfold callback_answer. rewrite E2. destruct (waiting GCb r2); [done|]. cbn [mbind go_bind].
  unfold WatchNodeRegister. rewrite Hv. by intros [= <-].
Qed.

(** Three announcements in a row are enough to starve the callback. *)
Lemma node_starves r c k1 v1 k2 v2 k3 v3 : inbox r = {| stream := [Note k1 v1; Note k2 v2; Note k3 v3]; chan := []; cb := None; late := false |} ->
  client r = Some c -> v1 <> "" -> exists r', rtc own_step r r' /\ starved r'.
Proof using Type.
  intros Eb Hc Hv. apply String.eqb_neq in Hv.
  assert (C : forall a b, cb_step a b -> rtc own_step a b) by (intros a b H; by apply rtc_once, own_callback).
  set (ib s ch o := {| stream := s; chan := ch; cb := o; late := false |}).
  set (r1 := set_inbox r (ib [Note k2 v2; Note k3 v3] [(k1, v1)] None)).
  set (r2 := set_inbox r (ib [Note k2 v2; Note k3 v3] [] (Some (k1, v1, None)))).
  set (r3 := set_inbox r (ib [Note k3 v3] [(k2, v2)] (Some (k1, v1, None)))).
  destruct (GetRegisterNode c k1 (nset (gx r))) as [found c'] eqn:Eg.
  set (r4 := set_inbox (set_client r (Some c')) (ib [Note k3 v3; Reply GCb] [(k2, v2)] (Some (k1, v1, Some found)))).
  exists r4. split.
  - etrans; [apply (C r r1), cb_read; unfold read_next; by rewrite Eb|].
    etrans; [apply (C r1 r2), cb_take; unfold callback_take; cbn; by rewrite Hv|].
    etrans; [by apply (C r2 r3), cb_read|]. apply C, cb_ask. unfold callback_ask. cbn. by rewrite Hc, Eg.
  - unfold starved, waiting. cbn. splits; [by eexists _, _, _|done|done|by eexists _, _, _].
Qed.

(** The key that examples/microservice watches is not one that nodes are
    registered under: nothing is announced. *)
Lemma node_watch_key r info v : Watching r = [NodeRegisterKey] -> announce r (reg_key info) (Name info) v = r.
Proof using Type.
  intros E. unfold announce. rewrite E, decide_False; [done|]. intros H%list_elem_of_singleton. unfold reg_key, colon in H.
  vm_compute in H. discriminate H.
Qed.

(** A node that leaves between the listing and its turn: its removal finds no
    connection to close, and then it is connected. *)
Lemma node_stale r c c' info l : pulling r = Some (ConnectSet (info :: l)) -> idle (inbox r) -> client r = Some c -> node_ok (gx r) ->
  good (gx r) info -> Name info <> self (gx r) -> Set' info = nset (gx r) -> reg_key info ∈ Watching r -> RpcClient (gx r) !! Name info = None ->
  tbl c' = set_field (tbl c) (reg_key info) (Name info) "" -> w_ok c' -> room (writes_left r) (tbl c') ->
  exists r', rtc (step (fun _ _ _ => True)) r r' /\ pulling r' = Some (ConnectSet l) /\ idle (inbox r') /\ client r' = Some c' /\
    field_of (tbl c') (reg_key info) (Name info) = None /\ Info <$> RpcClient (gx r') !! Name info = Some info.
Proof using Type.
  intros Hp (Hb1 & Hb2 & Hb3) Hc Hn [Hf [a Ha]] Hne Hs Hw Hnone Et Hok Hroom.
  destruct (connectNode_any reach (gx r) info a Hn Hne Ha) as (n' & En & _ & _ & _ & _ & Hrc & _).
  set (r1 := announce (set_client r (Some c')) (reg_key info) (Name info) "").
  set (ib l := {| stream := []; chan := l; cb := None; late := late (inbox r) |}).
  assert (E1 : r1 = set_inbox (set_client r (Some c')) (with_stream (ib []) [Note (Name info) ""])).
  { unfold r1, announce. cbn [Watching set_client]. rewrite decide_True by done. unfold push, with_stream. cbn. by rewrite Hb1, Hb2, Hb3. }
  set (r1' := set_inbox r1 (ib [(Name info, "")])). set (r2 := set_gx (set_inbox r1 (ib [])) (gx r)).
  assert (H1 : read_next r1 = Some r1') by (unfold r1'; by rewrite E1).
  assert (H2 : callback_take r1' = Some r2).
  { unfold callback_take, r2, r1'. rewrite E1. cbn. by rewrite Hnone. }
  assert (H3 : pull_next r2 = Some (set_pulling (set_gx r2 n') (Some (ConnectSet l)))).
  { unfold pull_next. unfold r2 at 1 2. rewrite E1. cbn [pulling client set_gx set_inbox set_client]. rewrite Hp. unfold connect_next.
    change (gx r2) with (gx r). by rewrite Hs, String.eqb_refl, andb_false_r, En. }
  exists (set_pulling (set_gx r2 n') (Some (ConnectSet l))). splits; try done.
  - eapply rtc_l; [by eapply (step_other _ r c c' (Leave info))|]. eapply rtc_l; [by apply step_own, own_callback, cb_read|].
    eapply rtc_l; [by apply step_own, own_callback, cb_take|]. eapply rtc_l; [by apply step_own, own_pull|]. apply rtc_refl.
  - cbn [client set_pulling set_gx]. unfold r2. by rewrite E1.
  - rewrite Et, field_of_set_field. by rewrite decide_True.
  - cbn [gx set_pulling set_gx]. by rewrite Hrc, lookup_insert_eq.
Qed.

(** handleExit takes the node out of the registry and tells the services.  The
    process then sleeps ExitTime * time.Second: a second by default, but not at all
    after SetExitTime(10 * time.Second), whose product overflows.  Without a
    registry the goroutine ends in a panic, and the process does not exit. *)
Lemma node_exit r c : client r = Some c -> w_ok c -> node_fine (Node r) ->
  (exists r' c' z, handleExit r = Ret (r', z) /\ client r' = Some c' /\ (GetRegisterNode c' (Name (Node r)) (Set' (Node r))).1 = Ret None /\
     lives r' = lives r ++ (LExit <$> ρ _ (Services (gx r))) /\ (ExitTime r = 1 -> z = 10 ^ 9)) /\
  (exists r' z, handleExit (SetExitTime r (10 * 10 ^ 9)) = Ret (r', z) /\ z < 0) /\
  handleExit (set_client r None) = Panic "nil pointer dereference".
Proof using Type.
  intros Hc Hok Hf. pose proof Hf as (Hj & Hn & Hn0 & Ht & Hs & Hv). splits; [|unfold handleExit; cbn; rewrite Hc; eexists _, _; by split|done].
  destruct (register_fields c (Node r) "" "") as [Hc' F]; [done|done|constructor..|]. change (set_services _ _ _) with (DelRegisterNode c (Node r)) in Hc', F.
  unfold handleExit. rewrite Hc. eexists _, _, _. splits; [done|done| |done|intros E; cbn [ExitTime set_client]; by rewrite E].
  rewrite GetRegisterNode_spec by done. change (colon NodeRegisterKey (Set' (Node r))) with (reg_key (Node r)).
  rewrite F, decide_True, (decide_False (P := has_service _ _)), (decide_False (P := _ = load_key _)), decide_True; try done.
  apply no_service_key.
Qed.

(** ** The theorem *)

(** C15. A node that starts finds the others and is found, in any interleaving of
    its goroutines, the reader and the callback loop of its watch client, calls,
    lost connections, requests that time out and nodes that register meanwhile.
    It crashes only if a request has timed out.  Unless one has, its goroutines can
    finish, or come to a state in which the callback starves: it waits for a reader
    that waits for it, and this lasts until a request times out, which ends the
    process if it is the callback's.  Once they have finished, the node is
    registered with all its services, and can call every node that is registered
    in its set, whenever that happened, and every global node that was registered
    before it started. *)
Theorem node_discovery (config : NodeConfig.t conn) (n0 : GxNode) (hook : option nat) (watching : list string) (c : conn) (r : Running)
    (Hclient : NodeConfig.Client config = Some c) (Hempty : RpcClient n0 = ∅) (Hok : w_ok c)
    (Hroom : room (writes_left (InitNode config n0 hook watching)) (tbl c))
    (Hreg : registry (gx (InitNode config n0 hook watching)) (tbl c))
    (Hown : good (gx (InitNode config n0 hook watching)) (announced (InitNode config n0 hook watching)))
    (Hwatch : colon NodeRegisterKey (NodeConfig.Set_ config) ∈ watching)
    (Hkeys : forall k, k ∈ watching -> exists set, k = colon NodeRegisterKey set)
    (Hrun : rtc (step starting) (InitNode config n0 hook watching) r) :
  let own := announced (InitNode config n0 hook watching) in
  (crashed r = true -> late (inbox r) = true) /\
  (late (inbox r) = false -> exists r', rtc own_step r r' /\ (quiet r' \/ starved r')) /\
  (forall r', starved r -> step starting r r' -> starved r' \/ exists g, waiting g r = true /\ r' = time_out g r) /\
  (starved r -> waiting GCb r = true /\ crashed (time_out GCb r) = true) /\
  (late (inbox r) = false -> quiet r -> exists c', client r = Some c' /\
     (GetRegisterNode c' (Name own) (Set' own)).1 = Ret (Some own) /\
     (forall info, listed (gx r) (tbl c') info -> Name info <> Name own -> Set' info = Set' own -> callable (gx r) info) /\
     (forall info, listed (gx (InitNode config n0 hook watching)) (tbl c) info -> Name info <> Name own ->
        Set' info = "" \/ Set' info = Set' own -> callable (gx r) info)).
Proof using Type.
  intros own. pose proof (InitNode_inv config n0 hook watching c Hclient Hempty Hok Hroom Hreg Hown Hwatch Hkeys) as HI. fold own in HI.
  pose proof (steps_inv own _ _ _ Hrun (or_intror HI)) as HL.
  assert (HI' : late (inbox r) = false -> Inv own (listed (gx (InitNode config n0 hook watching)) (tbl c)) r).
  { intros El. destruct HL as [E|?]; [congruence|done]. }
  splits.
  { intros Hcr. destruct HL as [?|(c' & Hi & _)]; [done|]. pose proof (i_alive _ _ _ _ Hi). congruence. }
  { intros El. by eapply becomes_quiet, HI'. }
  { intros r'. apply node_starved_step. }
  { by intros (_ & ? & _). }
  intros El (Er & Ep & Eb1 & Eb2 & Eb3). destruct (HI' El) as (c' & Hi & _ & _ & Hr). exists c'. rewrite Er in Hr.
  assert (Hset : forall info, listed (gx r) (tbl c') info -> Name info <> Name own -> Set' info = Set' own -> callable (gx r) info).
  { intros info Hl Hne Hs. apply connected_callable. destruct (i_set _ _ _ _ Hi info Hl Hs Hne) as [[[v Hv]|Ha]|]; [|..|done].
    - unfold pending in Hv. rewrite Eb1, Eb2, Eb3 in Hv. by apply elem_of_nil in Hv.
    - by rewrite Ep in Ha. }
  splits; [apply Hi| |done|].
  - pose proof (i_own _ _ _ _ Hi) as [(Hj & Hn & Hn0 & _ & Hs & _) _]. rewrite GetRegisterNode_spec by (done || apply Hi).
    unfold registered, reg_key in Hr. rewrite Hr. cbn. by rewrite decide_False, json_back by (apply json_nonempty || done).
  - intros info Hl Hne Hs. destruct (i_global _ _ _ _ Hi info Hl Hne) as [Hl' Hg]. destruct Hs as [Hs|Hs]; [|by apply Hset].
    apply connected_callable. destruct (Hg Hs) as [Ha|]; [|done]. unfold awaited_global in Ha. by rewrite Ep in Ha.
Qed.

(** A schedule that does whatever can be done. *)
Definition drive1 (r : Running) : option Running :=
  match read_next r, callback_answer r, callback_ask r, callback_take r with
  | Some r', _, _, _ | None, Some r', _, _ | None, None, Some r', _ | None, None, None, Some r' => Some r'
  | None, None, None, None =>
      match (if waiting GReg r then None else reg_next r) with
      | Some r' => Some r'
      | None => if waiting GPull r then None else pull_next r
      end
  end.
Fixpoint drive (n : nat) (r : Running) : Running :=
  match n with O => r | S n => match drive1 r with Some r' => drive n r' | None => r end end.

Lemma drive_steps n : forall r, rtc own_step r (drive n r).
Proof using Type.
  induction n as [|n IH]; intros r; [done|]. simpl. destruct (drive1 r) as [r'|] eqn:E; [|done]. eapply rtc_l; [|apply IH].
  unfold drive1 in E. destruct (read_next r) as [x|] eqn:E1; [injection E as <-; by apply own_callback, cb_read|].
  destruct (callback_answer r) as [x|] eqn:E2; [injection E as <-; by apply own_callback, cb_answer|].
  destruct (callback_ask r) as [x|] eqn:E3; [injection E as <-; by apply own_callback, cb_ask|].
  destruct (callback_take r) as [x|] eqn:E4; [injection E as <-; by apply own_callback, cb_take|].
  destruct (waiting GReg r) eqn:Ew.
  - destruct (waiting GPull r) eqn:Ew2; [done|]. by apply own_pull.
  - destruct (reg_next r) as [x|] eqn:E5; [injection E as <-; by apply own_reg|].
    destruct (waiting GPull r) eqn:Ew2; [done|]. by apply own_pull.
Qed.
End init.

(** ** Example: a node "n1" starts beside a registered node "n2" *)

Module InitSample.
Definition config : NodeConfig.t (@conn ConfigSample.api) := {|
  NodeConfig.Client := Some (@RegisterNode ConfigSample.api ConfigSample.NodeJson ConfigSample.start (ConfigSample.node "n2"));
  NodeConfig.Id := 1; NodeConfig.Nodename := "n1"; NodeConfig.Nodetype := "game"; NodeConfig.Set_ := "a"; NodeConfig.Host := "10.0.0.1";
  NodeConfig.Port := 80; NodeConfig.Region := 0; NodeConfig.Cmds := ∅; NodeConfig.HttpPort := 0 |}.
Definition n0 : GxNode :=
  {| self := ""; region := 0; nset := ""; Services := ["chat"]; RpcClient := ∅; CmdService := ∅;
     ServiceNode := ∅; MockData := None; Data := ∅; clients := []; events := [] |}.
Definition reach (a : string) : bool := String.eqb a "10.0.0.1:80".
Definition start : Running :=
  @InitNode SampleProto Sample.upper (fun _ => Sample.db) (fun _ => true) range_id ConfigSample.api config n0 None [colon NodeRegisterKey "a"].
Definition conn_ : @conn ConfigSample.api := @RegisterNode ConfigSample.api ConfigSample.NodeJson ConfigSample.start (ConfigSample.node "n2").
Definition table_ : table := @tbl ConfigSample.api conn_.

Lemma node_good name : name = "n1" \/ name = "n2" -> @good ConfigSample.NodeJson (gx start) (ConfigSample.node name).
Proof.
  intros Hn. assert (Hl : no_nl name) by (destruct Hn as [-> | ->]; apply (bool_decide_unpack _); by vm_compute).
  split; [|exists "10.0.0.1:80"; by vm_compute]. unfold node_fine. splits; [done|done|by destruct Hn as [-> | ->]|..];
    try (apply (bool_decide_unpack _); by vm_compute). 
Qed.

Lemma own_announced : @announced SampleProto (fun _ => Sample.db) range_id ConfigSample.api start = ConfigSample.node "n1".
Proof. by vm_compute. Qed.

Lemma conn_ok : @w_ok ConfigSample.api conn_.
Proof.
  destruct (@register_fields ConfigSample.api ConfigSample.NodeJson ConfigSample.start (ConfigSample.node "n2") "Nn2" "0") as [H _];
    [exact ConfigSample.start_ok|apply node_good; by right|apply (bool_decide_unpack _); by vm_compute..|exact H].
Qed.

Lemma fields set k : field_of table_ (colon NodeRegisterKey set) k = if decide (set = "a" /\ k = "n2") then Some "Nn2" else None.
Proof.
  destruct (@register_fields ConfigSample.api ConfigSample.NodeJson ConfigSample.start (ConfigSample.node "n2") "Nn2" "0") as [_ F];
    [exact ConfigSample.start_ok|apply node_good; by right|apply (bool_decide_unpack _); by vm_compute..|].
  etrans; [exact (F (colon NodeRegisterKey set) k)|]. cbn [NodeInfo.Name ConfigSample.node].
  rewrite (decide_False (P := has_service _ _)) by apply no_service_key. rewrite (decide_False (P := _ = load_key _)) by apply keys_differ.
  assert (E0 : field_of (@tbl ConfigSample.api ConfigSample.start) (colon NodeRegisterKey set) k = None) by done.
  rewrite E0. destruct (decide (k = "n2")) as [->|]; [|by rewrite decide_False by (by intros [])].
  destruct (decide (set = "a")) as [->|Hs]; [by vm_compute|].
  rewrite decide_False, decide_False; [done|by intros []|]. unfold reg_key. intros E%colon_inj. done.
Qed.

Lemma n2_listed : @listed ConfigSample.NodeJson (gx start) table_ (ConfigSample.node "n2").
Proof. split; [|apply node_good; by right]. change (reg_key _) with (colon NodeRegisterKey "a"). by rewrite fields. Qed.

Lemma registry_ok : @registry ConfigSample.NodeJson (gx start) table_.
Proof.
  split.
  - intros set k v. rewrite fields. case_decide as Hd; [|done]. destruct Hd as [-> ->]. intros [= <-]. exists (ConfigSample.node "n2").
    splits; try done. exact n2_listed.
  - intros set set' k _. rewrite !fields. repeat case_decide; try (by intros [] || by intros _ []). naive_solver.
Qed.

Lemma room_ok : room 3 table_.
Proof.
  split; [by vm_compute|]. intros k m H. assert (Hall : map_Forall (fun _ (m : gmap string string) => Z.of_nat (size m + 3) < 2 ^ 62) table_).
  { apply (bool_decide_unpack _). by vm_compute. }
  by apply (Hall k).
Qed.

Lemma own_good : good (JN := ConfigSample.NodeJson) (gx start) (announced (fun _ => Sample.db) range_id start).
Proof. rewrite own_announced. apply node_good. by left. Qed.
Lemma watched : colon NodeRegisterKey "a" ∈ [colon NodeRegisterKey "a"].
Proof. by apply list_elem_of_singleton. Qed.
Lemma watched_keys k : k ∈ [colon NodeRegisterKey "a"] -> exists set, k = colon NodeRegisterKey set.
Proof. intros ->%list_elem_of_singleton. by exists "a". Qed.
End InitSample.

Lemma node_discovery_witness :
  exists r', rtc (own_step (fun _ => Sample.db) InitSample.reach range_id (JN := ConfigSample.NodeJson)) InitSample.start r' /\
    callable InitSample.reach (gx r') (ConfigSample.node "n2").
Proof.
  set (r' := drive (fun _ => Sample.db) InitSample.reach range_id (JN := ConfigSample.NodeJson) 40 InitSample.start).
  assert (Hr : rtc (own_step (fun _ => Sample.db) InitSample.reach range_id (JN := ConfigSample.NodeJson)) InitSample.start r')
    by apply drive_steps.
  exists r'. split; [exact Hr|].
  destruct (node_discovery Sample.upper (fun _ => Sample.db) (fun _ => true) InitSample.reach range_id
    (W := ConfigSample.api) (JN := ConfigSample.NodeJson) InitSample.config InitSample.n0 None [colon NodeRegisterKey "a"] InitSample.conn_ r'
    eq_refl eq_refl InitSample.conn_ok InitSample.room_ok InitSample.registry_ok InitSample.own_good InitSample.watched InitSample.watched_keys)
    as (_ & _ & _ & _ & Hc).
  - exact (own_steps _ _ _ _ _ _ Hr).
  - destruct Hc as (c' & _ & _ & _ & H).
    + by vm_compute.
    + unfold quiet, idle. splits; by vm_compute.
    + apply H; [exact InitSample.n2_listed|discriminate|by right].
Defined.
