(* ===== verification/Crypto.v ===== *)
(** * Encryption: util/crypto.go

    AES and DES in CBC mode with PKCS5 padding.  A block cipher is the class
    [BlockCipher].  Data is a slice, because the padding is appended to the
    caller's array when that has room.  The initial vector of DES is a buffer of
    the pool, whatever bytes it holds: it is an argument. *)

From Stdlib Require Import ZArith Lia Ascii String.
From stdpp Require Import base numbers list strings.
From S2P Require Import Prelude GoStd GoText BytesCache.
Import BytesCache.

(** crypto/aes, crypto/des: one block; NewCipher refuses some keys. *)
Class BlockCipher := {
  BlockSize : nat;
  key_ok : bytes -> bool;
  enc : bytes -> bytes -> bytes;
  dec : bytes -> bytes -> bytes;
  block_size : (0 < BlockSize < 256)%nat;
  enc_length k b : length b = BlockSize -> length (enc k b) = BlockSize;
  dec_length k b : length b = BlockSize -> length (dec k b) = BlockSize;
  dec_enc k b : key_ok k = true -> length b = BlockSize -> dec k (enc k b) = b
}.

Definition byte_xor (a b : ascii) : ascii :=
  match a, b with
  | Ascii a0 a1 a2 a3 a4 a5 a6 a7, Ascii b0 b1 b2 b3 b4 b5 b6 b7 =>
      Ascii (xorb a0 b0) (xorb a1 b1) (xorb a2 b2) (xorb a3 b3) (xorb a4 b4) (xorb a5 b5) (xorb a6 b6) (xorb a7 b7)
  end.
Definition xor_bytes (a b : bytes) : bytes := zip_with byte_xor a b.

Lemma byte_xor_twice a b : byte_xor (byte_xor a b) b = a.
Proof. destruct a, b; simpl. f_equal; by rewrite xorb_assoc, xorb_nilpotent, xorb_false_r. Qed.

Lemma xor_bytes_length a b : length a = length b -> length (xor_bytes a b) = length a.
Proof. intros E. unfold xor_bytes. rewrite length_zip_with. lia. Qed.

Lemma xor_bytes_twice a b : length a = length b -> xor_bytes (xor_bytes a b) b = a.
Proof.
  revert b. induction a as [|x a IH]; intros [|y b] E; try done. simpl.
  unfold xor_bytes in *. simpl. rewrite byte_xor_twice, IH; [done|]. simpl in E. lia.
Qed.

Lemma xor_bytes_inj a b b' : length a = length b -> length a = length b' -> xor_bytes a b = xor_bytes a b' -> b = b'.
Proof.
  revert b b'. induction a as [|x a IH]; intros [|y b] [|z b'] E1 E2 H; try done. unfold xor_bytes in *. simpl in *.
  injection H as Hx H. f_equal; [|apply IH; [lia|lia|done]].
  destruct x, y, z; simpl in Hx. injection Hx; intros. f_equal;
    match goal with |- ?y = ?z => match goal with H : xorb ?x y = xorb ?x z |- _ => by destruct x, y, z end end.
Qed.

Section crypto.
Context {C : BlockCipher}.

(** cipher.NewCBCEncrypter(block, iv).CryptBlocks on [n] blocks. *)
Fixpoint cbc_encrypt (key : bytes) (n : nat) (iv data : bytes) : bytes :=
  match n with
  | O => []
  | S n => let c := enc key (xor_bytes (take BlockSize data) iv) in c ++ cbc_encrypt key n c (drop BlockSize data)
  end.

Fixpoint cbc_decrypt (key : bytes) (n : nat) (iv data : bytes) : bytes :=
  match n with
  | O => []
  | S n => let c := take BlockSize data in xor_bytes (dec key c) iv ++ cbc_decrypt key n c (drop BlockSize data)
  end.

(** append(ciphertext, padtext...): in place when the capacity suffices. *)
Definition pKCS5Padding (ciphertext : slice) : slice :=
  let padding := (BlockSize - len ciphertext mod BlockSize)%nat in
  let padtext := replicate padding (to_byte (Z.of_nat padding)) in
  if decide (len ciphertext + padding <= cap ciphertext)%nat
  then {| len := len ciphertext + padding;
          backing := contents ciphertext ++ padtext ++ drop (len ciphertext + padding) (backing ciphertext) |}
  else {| len := len ciphertext + padding; backing := contents ciphertext ++ padtext |}.

(** The array of the argument after the call. *)
Definition array_after (ciphertext padded : slice) : bytes :=
  if decide (len padded <= cap ciphertext)%nat then backing padded else backing ciphertext.

Definition pKCS5UnPadding (origData : bytes) : go bytes :=
  match last origData with
  | None => Panic "index out of range"
  | Some b =>
      let unpadding := Z.to_nat (byte_val b) in
      if decide (unpadding <= length origData)%nat then Ret (take (length origData - unpadding) origData)
      else Panic "slice bounds out of range"
  end.

(** AesEncrypt and DesEncrypt: the result and the argument's array. *)
Definition Encrypt (iv : bytes) (origData : slice) (key : bytes) : go (bytes * bytes) :=
  if key_ok key then
    let padded := pKCS5Padding origData in
    Ret (cbc_encrypt key (len padded / BlockSize) iv (contents padded), array_after origData padded)
  else Err (ErrMsg "invalid key size").

Definition Decrypt (iv crypted key : bytes) : go bytes :=
  if key_ok key then
    if decide (length crypted mod BlockSize = 0)%nat
    then pKCS5UnPadding (cbc_decrypt key (length crypted / BlockSize) iv crypted)
    else Panic "crypto/cipher: input not full blocks"
  else Err (ErrMsg "invalid key size").

Definition aes_iv : bytes := to_bytes "0000000000000000".
Definition AesEncrypt := Encrypt aes_iv.
Definition AesDecrypt := Decrypt aes_iv.

(** [iv]: bytes_cache.Get(des.BlockSize) *)
Definition DesEncrypt (iv : bytes) := Encrypt iv.
Definition DesDecrypt (iv : bytes) := Decrypt iv.

(** [sum]: crypto/md5. *)
Definition Md5 (sum : bytes -> bytes) (str : string) : string := Hex (sum (to_bytes str)).

(** ** Lemmas *)

Lemma cbc_length key n : forall iv data, length iv = BlockSize -> length data = (n * BlockSize)%nat ->
  length (cbc_encrypt key n iv data) = (n * BlockSize)%nat.
Proof using Type.
  induction n as [|n IH]; intros iv data Hiv Hd; [done|]. cbn [cbc_encrypt]. rewrite length_app.
  assert (Hb : length (xor_bytes (take BlockSize data) iv) = BlockSize).
  { rewrite xor_bytes_length; rewrite length_take; lia. }
  rewrite IH; [|by apply enc_length|rewrite length_drop; lia]. rewrite enc_length by done. lia.
Qed.

Lemma cbc_decrypt_length key n : forall iv data, length iv = BlockSize -> length data = (n * BlockSize)%nat ->
  length (cbc_decrypt key n iv data) = (n * BlockSize)%nat.
Proof using Type.
  induction n as [|n IH]; intros iv data Hiv Hd; [done|]. cbn [cbc_decrypt]. rewrite length_app.
  assert (Hb : length (take BlockSize data) = BlockSize) by (rewrite length_take; lia).
  rewrite IH; [|done|rewrite length_drop; lia]. rewrite xor_bytes_length; rewrite dec_length; lia.
Qed.

Lemma cbc_roundtrip key n : forall iv data, key_ok key = true -> length iv = BlockSize -> length data = (n * BlockSize)%nat ->
  cbc_decrypt key n iv (cbc_encrypt key n iv data) = data.
Proof using Type.
  induction n as [|n IH]; intros iv data Hk Hiv Hd; [by destruct data|]. cbn [cbc_decrypt cbc_encrypt].
  assert (Hb : length (xor_bytes (take BlockSize data) iv) = BlockSize).
  { rewrite xor_bytes_length; rewrite length_take; lia. }
  set (c := enc key _). assert (Hc : length c = BlockSize) by (by apply enc_length).
  rewrite take_app_length', drop_app_length' by done.
  unfold c at 1. rewrite dec_enc by done. rewrite xor_bytes_twice by (rewrite length_take; lia).
  rewrite IH; [apply take_drop|done|done|rewrite length_drop; lia].
Qed.

Definition pad_len (n : nat) : nat := (BlockSize - n mod BlockSize)%nat.
Definition pad_bytes (n : nat) : bytes := replicate (pad_len n) (to_byte (Z.of_nat (pad_len n))).
Definition slice_ok (s : slice) : Prop := (len s <= cap s)%nat.

Lemma pad_len_bounds n : (1 <= pad_len n <= BlockSize)%nat /\ (exists q, n + pad_len n = S q * BlockSize)%nat.
Proof using Type.
  unfold pad_len. pose proof block_size. pose proof (Nat.mod_upper_bound n BlockSize ltac:(lia)). split; [lia|].
  exists (n / BlockSize)%nat. pose proof (Nat.div_mod_eq n BlockSize). lia.
Qed.

(** The padded data, whether it was appended in place or not. *)
Lemma padding_contents s : slice_ok s ->
  contents (pKCS5Padding s) = contents s ++ pad_bytes (len s) /\ len (pKCS5Padding s) = (len s + pad_len (len s))%nat /\
  length (contents s) = len s.
Proof using Type.
  intros Hs. unfold slice_ok, cap in Hs. assert (Hl : length (contents s) = len s) by (unfold contents; rewrite length_take; lia).
  unfold pKCS5Padding. fold (pad_len (len s)). fold (pad_bytes (len s)).
  assert (Hp : length (pad_bytes (len s)) = pad_len (len s)) by apply length_replicate.
  case_decide; splits; try done; unfold contents at 1; cbn [len backing]; try done.
  - rewrite app_assoc. rewrite take_app_length'; [done|]. rewrite length_app. lia.
  - rewrite take_ge; [done|]. rewrite length_app. lia.
Qed.

(** What becomes of the bytes behind the data. *)
Lemma padding_array s : slice_ok s -> (len s + pad_len (len s) <= cap s)%nat ->
  array_after s (pKCS5Padding s) = contents s ++ pad_bytes (len s) ++ drop (len s + pad_len (len s)) (backing s).
Proof using Type.
  intros Hs Hc. unfold array_after. rewrite decide_True by (by rewrite (proj1 (proj2 (padding_contents s Hs)))).
  unfold pKCS5Padding. fold (pad_len (len s)). fold (pad_bytes (len s)). by rewrite decide_True.
Qed.

Lemma unpad_pad d n : (length d = n)%nat -> pKCS5UnPadding (d ++ pad_bytes n) = Ret d.
Proof using Type.
  intros Hd. destruct (pad_len_bounds n) as [Hp _]. pose proof block_size. unfold pKCS5UnPadding.
  assert (Hlast : last (d ++ pad_bytes n) = Some (to_byte (Z.of_nat (pad_len n)))).
  { unfold pad_bytes at 1. destruct (pad_len n) as [|k] eqn:E; [lia|]. rewrite replicate_S_end, app_assoc. by rewrite last_snoc. }
  rewrite Hlast, byte_val_to_byte, Z.mod_small by lia. rewrite Nat2Z.id.
  assert (Hl : length (pad_bytes n) = pad_len n) by apply length_replicate.
  rewrite length_app, Hl. rewrite decide_True by lia. replace (length d + pad_len n - pad_len n)%nat with (length d) by lia.
  by rewrite take_app_length.
Qed.

Lemma encrypt_ret iv s key : slice_ok s -> key_ok key = true ->
  exists q, (len s + pad_len (len s) = S q * BlockSize)%nat /\
  Encrypt iv s key = Ret (cbc_encrypt key (S q) iv (contents s ++ pad_bytes (len s)), array_after s (pKCS5Padding s)) /\
  length (contents s ++ pad_bytes (len s)) = (S q * BlockSize)%nat.
Proof using Type.
  intros Hs Hk. destruct (padding_contents s Hs) as (Ec & El & Hl). destruct (pad_len_bounds (len s)) as [_ [q Hq]].
  pose proof block_size. exists q. split; [done|]. unfold Encrypt. rewrite Hk, Ec, El, Hq, Nat.div_mul by lia. split; [done|].
  rewrite length_app, Hl. unfold pad_bytes. rewrite length_replicate. lia.
Qed.

Lemma decrypt_blocks iv data key q : key_ok key = true -> length data = (q * BlockSize)%nat ->
  Decrypt iv data key = pKCS5UnPadding (cbc_decrypt key q iv data).
Proof using Type.
  intros Hk Hl. pose proof block_size. unfold Decrypt. rewrite Hk, Hl, Nat.Div0.mod_mul, Nat.div_mul by lia. by rewrite decide_True.
Qed.

Lemma encrypt_decrypt iv s key : slice_ok s -> key_ok key = true -> length iv = BlockSize ->
  exists c arr, Encrypt iv s key = Ret (c, arr) /\ length c = (len s + pad_len (len s))%nat /\ Decrypt iv c key = Ret (contents s).
Proof using Type.
  intros Hs Hk Hiv. destruct (encrypt_ret iv s key Hs Hk) as (q & Hq & -> & Hl). eexists _, _. split; [done|].
  rewrite cbc_length by done. split; [done|]. rewrite (decrypt_blocks _ _ _ (S q)) by (done || by apply cbc_length).
  rewrite cbc_roundtrip by done. apply unpad_pad. apply (padding_contents s Hs).
Qed.

(** Decrypted with another vector, the first block differs. *)
Lemma decrypt_other_iv iv iv' s key c arr : slice_ok s -> key_ok key = true -> length iv = BlockSize -> length iv' = BlockSize ->
  iv' <> iv -> (BlockSize <= len s)%nat -> Encrypt iv s key = Ret (c, arr) -> exists d, Decrypt iv' c key = Ret d /\ d <> contents s.
Proof using Type.
  intros Hs Hk Hiv Hiv' Hne Hlen. destruct (encrypt_ret iv s key Hs Hk) as (q & Hq & -> & Hl). intros E.
  assert (Ec : c = cbc_encrypt key (S q) iv (contents s ++ pad_bytes (len s))) by congruence. subst c. clear E.
  destruct (padding_contents s Hs) as (_ & _ & Hcl). set (data := contents s ++ pad_bytes (len s)) in *.
  set (e := cbc_encrypt key (S q) iv data). assert (He : length e = (S q * BlockSize)%nat) by (by apply cbc_length).
  rewrite (decrypt_blocks iv' e key (S q) Hk He).
  pose proof (cbc_roundtrip key (S q) iv data Hk Hiv Hl) as Hrt. fold e in Hrt. cbn [cbc_decrypt] in Hrt |- *.
  set (b := dec key (take BlockSize e)) in *. set (rest := cbc_decrypt key q _ _) in *.
  assert (Hb : length b = BlockSize) by (apply dec_length; rewrite length_take; lia).
  assert (Hx : xor_bytes b iv = take BlockSize (contents s) /\ rest = drop BlockSize (contents s) ++ pad_bytes (len s)).
  { unfold data in Hrt. rewrite <- (take_drop BlockSize (contents s)) in Hrt. rewrite <- app_assoc in Hrt.
    apply app_inj_1 in Hrt; [done|]. rewrite xor_bytes_length, length_take; lia. }
  destruct Hx as [Hx1 Hx2]. exists (xor_bytes b iv' ++ drop BlockSize (contents s)). split.
  - rewrite Hx2, app_assoc. apply unpad_pad. rewrite length_app, length_drop, xor_bytes_length; lia.
  - intros E. rewrite <- (take_drop BlockSize (contents s)) in E at 2.
    apply app_inj_1 in E as [E _]; [|rewrite xor_bytes_length, length_take; lia].
    apply Hne. apply (xor_bytes_inj b); [lia|lia|]. by rewrite E.
Qed.

Lemma decrypt_malformed iv data key : key_ok key = true ->
  ((length data mod BlockSize <> 0)%nat -> Decrypt iv data key = Panic "crypto/cipher: input not full blocks") /\
  Decrypt iv [] key = Panic "index out of range".
Proof using Type.
  intros Hk. pose proof block_size. unfold Decrypt. rewrite Hk. split; [intros H0; by rewrite decide_False|].
  simpl length. rewrite Nat.Div0.mod_0_l, Nat.Div0.div_0_l. by rewrite decide_True.
Qed.

End crypto.

(** C25. With AES, whose blocks have 16 bytes, encrypting and decrypting with the same
    accepted key gives back any data; the result is a whole number of blocks, up to one
    block longer than the data.  With DES the initial vector of each call is whatever a
    pooled buffer holds: data of a block or more comes back exactly when both calls
    happen to get the same vector, otherwise wrong and without an error.  A bad key is
    an error; data that is not whole blocks makes the decryption panic, and so does no
    data; and the padding is written behind the data in the caller's array when there is
    room. *)
Theorem crypto_roundtrip (AES DES : BlockCipher) (s : slice)
    (Haes : @BlockSize AES = 16%nat) (Hdes : @BlockSize DES = 8%nat) (Hs : slice_ok s) :
  (forall key, @key_ok AES key = true ->
     (exists c arr, @AesEncrypt AES s key = Ret (c, arr) /\ length c = (len s + @pad_len AES (len s))%nat /\
        @AesDecrypt AES c key = Ret (contents s) /\
        ((len s + @pad_len AES (len s) <= cap s)%nat ->
           arr = contents s ++ @pad_bytes AES (len s) ++ drop (len s + @pad_len AES (len s)) (backing s))) /\
     (forall data, (length data mod 16 <> 0)%nat -> @AesDecrypt AES data key = Panic "crypto/cipher: input not full blocks") /\
     @AesDecrypt AES [] key = Panic "index out of range") /\
  (forall key iv iv', @key_ok DES key = true -> length iv = 8%nat -> length iv' = 8%nat ->
     exists c arr, @DesEncrypt DES iv s key = Ret (c, arr) /\ length c = (len s + @pad_len DES (len s))%nat /\
       (iv' = iv -> @DesDecrypt DES iv' c key = Ret (contents s)) /\
       ((8 <= len s)%nat -> iv' <> iv -> exists d, @DesDecrypt DES iv' c key = Ret d /\ d <> contents s)) /\
  (forall key iv, @key_ok AES key = false -> exists e, @AesEncrypt AES s key = Err e /\ @AesDecrypt AES iv key = Err e) /\
  (forall key iv c, @key_ok DES key = false -> exists e, @DesEncrypt DES iv s key = Err e /\ @DesDecrypt DES iv c key = Err e).
Proof.
  splits.
  - intros key Hk. splits.
    + destruct (encrypt_decrypt aes_iv s key Hs Hk) as (c & arr & E & Hl & Hd); [by rewrite Haes|]. exists c, arr. splits; try done.
      intros Hcap. destruct (encrypt_ret aes_iv s key Hs Hk) as (q & _ & E' & _). rewrite E' in E. injection E as _ <-. by apply padding_array.
    + intros data Hd. apply (decrypt_malformed aes_iv data key Hk). by rewrite Haes.
    + exact (proj2 (decrypt_malformed aes_iv [] key Hk)).
  - intros key iv iv' Hk Hiv Hiv'. destruct (encrypt_decrypt iv s key Hs Hk) as (c & arr & E & Hl & Hd); [by rewrite Hdes|].
    exists c, arr. splits; try done; [by intros ->|]. intros Hlen Hne.
    apply (decrypt_other_iv iv iv' s key c arr); rewrite ?Hdes; done.
  - intros key iv Hk. unfold AesEncrypt, AesDecrypt, Encrypt, Decrypt. rewrite Hk. by eexists.
  - intros key iv c Hk. unfold DesEncrypt, DesDecrypt, Encrypt, Decrypt. rewrite Hk. by eexists.
Qed.

(** ** Example: ciphers that reverse a block *)

Program Definition reversing (size : nat) (H : (0 < size < 256)%nat) : BlockCipher := {|
  BlockSize := size; key_ok k := bool_decide (length k = size); enc k b := rev b; dec k b := rev b
|}.
Next Obligation. done. Qed.
Next Obligation. intros size H k b Hb. simpl. rewrite List.length_rev. exact Hb. Qed.
Next Obligation. intros size H k b Hb. simpl. rewrite List.length_rev. exact Hb. Qed.
Next Obligation. intros size H k b _ _. apply rev_involutive. Qed.

Definition AesSample : BlockCipher := reversing 16 ltac:(lia).
Definition DesSample : BlockCipher := reversing 8 ltac:(lia).

Lemma crypto_roundtrip_witness :
  exists c arr, @AesEncrypt AesSample {| len := 9; backing := to_bytes "hello you!" |} (to_bytes "a key of 16 byte") = Ret (c, arr) /\
    @AesDecrypt AesSample c (to_bytes "a key of 16 byte") = Ret (to_bytes "hello you").
Proof.
  destruct (crypto_roundtrip AesSample DesSample {| len := 9; backing := to_bytes "hello you!" |}) as [H _].
  - reflexivity.
  - reflexivity.
  - apply (bool_decide_unpack _). vm_compute. exact I.
  - destruct (H (to_bytes "a key of 16 byte") eq_refl) as ((c & arr & E & _ & D & _) & _). exists c, arr. split; [exact E|exact D].
Defined.
