(* ===== verification/GnetMessage.v ===== *)
(** * Messages of the gateway: gnet/message.go, and of the websocket client:
    util/websocket.go

    Fixed headers with 16-bit lengths, followed by the body, which may be
    encrypted.  The bytes of a message are what the writer passes to one call of
    conn.Write; the reader is the stream. *)

From Stdlib Require Import ZArith Lia Ascii String.
From stdpp Require Import base numbers list strings.
From S2P Require Import Prelude BytesCache Misc Crypto.

Module Request.
Record t := { App : string; Mask : Z; Length : Z; Cmd : Z; Seq : Z; Ret : Z; Buff : bytes; Disconn : bool;
  NodeName : string; NodeType : string }.
End Request.

Module RequestMessage.
Record t := { Crype : Z; Length : Z; Cmd : Z; Seq : Z; RetOrClubId : Z; Buff : bytes }.
End RequestMessage.

Section messages.
Context {C : BlockCipher} (Haes : BlockSize = 16%nat).

(** A buffer without spare capacity. *)
Definition whole (b : bytes) : BytesCache.slice := {| BytesCache.len := length b; BytesCache.backing := b |}.
Definition aes_encrypt (b key : bytes) : go bytes := '(c, _) ← AesEncrypt (whole b) key; Ret c.

Lemma aes_roundtrip b key : key_ok key = true ->
  exists c, aes_encrypt b key = Ret c /\ AesDecrypt c key = Ret b /\ (0 < length c)%nat.
Proof using Haes.
  intros Hk. unfold aes_encrypt. destruct (encrypt_decrypt aes_iv (whole b) key) as (c & arr & E & Hl & Hd).
  - unfold slice_ok, BytesCache.cap. simpl. lia.
  - done.
  - by rewrite Haes.
  - exists c. unfold AesEncrypt. rewrite E. cbn [mbind go_bind]. splits; [done| |].
    + unfold AesDecrypt. rewrite Hd. unfold BytesCache.contents, whole. simpl. by rewrite take_ge.
    + destruct (pad_len_bounds (BytesCache.len (whole b))). lia.
Qed.

(** ** gnet/message.go *)

Definition isCrypto (m : Request.t) : bool := GetBit (Request.Mask m) 0.
Definition isJson (m : Request.t) : bool := GetBit (Request.Mask m) 1.

Definition ReadMessageWithKey (r : bytes) (key : bytes) : go (Request.t * bytes) :=
  '(header, r) ← ReadFull r 14;
  if decide (take 1 header = ["G"%char]) then
    let field i n := take n (drop i header) in
    let msg b := {| Request.App := of_bytes (field 2 4); Request.Mask := be_get (field 1 1); Request.Length := be_get (field 6 2);
                    Request.Cmd := be_get (field 8 2); Request.Seq := be_get (field 10 2); Request.Ret := be_get (field 12 2);
                    Request.Buff := b; Request.Disconn := false; Request.NodeName := ""; Request.NodeType := "" |}%nat in
    if Request.Length (msg []) =? 0 then Ret (msg [], r)
    else
      '(buff, r) ← ReadFull r (Z.to_nat (Request.Length (msg [])));
      if (0 <? Z.of_nat (length key)) && isCrypto (msg []) then b ← AesDecrypt buff key; Ret (msg b, r)
      else Ret (msg buff, r)
  else Err (ErrMsg "error message flag").

Definition emptyKey : bytes := [].
Definition ReadMessage (r : bytes) : go (Request.t * bytes) := ReadMessageWithKey r emptyKey.

(** The bytes given to conn.Write. *)
Definition WriteMessageWithKey (req : Request.t) (key : bytes) : go bytes :=
  buff ← (if (0 <? Z.of_nat (length key)) && isCrypto req then aes_encrypt (Request.Buff req) key else Ret (Request.Buff req));
  Ret (["G"%char] ++ be_put 1 (Request.Mask req) ++ to_bytes (Request.App req) ++ be_put 2 (u16 (Z.of_nat (length buff))) ++
       be_put 2 (Request.Cmd req) ++ be_put 2 (Request.Seq req) ++ be_put 2 (Request.Ret req) ++ buff).

Definition WriteMessage (req : Request.t) : go bytes := WriteMessageWithKey req emptyKey.

(** ** util/websocket.go *)

(** The package's AesKey. *)
Definition AesKey : bytes := to_bytes "12345678901234567890123456789012".

Definition ws_ReadMessage (r : bytes) : go (RequestMessage.t * bytes) :=
  '(header, r) ← ReadFull r 12;
  let field i n := take n (drop i header) in
  let msg b := {| RequestMessage.Crype := be_get (field 0 1); RequestMessage.Length := be_get (field 1 2);
                  RequestMessage.Cmd := be_get (field 3 2); RequestMessage.Seq := be_get (field 5 2);
                  RequestMessage.RetOrClubId := be_get (field 7 4); RequestMessage.Buff := b |}%nat in
  if RequestMessage.Length (msg []) =? 0 then Ret (msg [], r)
  else
    '(buff, r) ← ReadFull r (Z.to_nat (RequestMessage.Length (msg [])));
    if RequestMessage.Crype (msg []) =? 1 then b ← AesDecrypt buff AesKey; Ret (msg b, r)
    else Ret (msg buff, r).

(** [pointer]: proto.Marshal of req.Pointer, if there is one. *)
Definition ws_WriteMessage (req : RequestMessage.t) (pointer : option (go bytes)) : go bytes :=
  body ← (match RequestMessage.Buff req, pointer with [], Some m => m | b, _ => Ret b end);
  buff ← (if RequestMessage.Crype req =? 1 then aes_encrypt body AesKey else Ret body);
  Ret (be_put 1 (RequestMessage.Crype req) ++ be_put 2 (u16 (Z.of_nat (length buff))) ++ be_put 2 (RequestMessage.Cmd req) ++
       be_put 2 (RequestMessage.Seq req) ++ be_put 4 (RequestMessage.RetOrClubId req) ++ be_put 1 0 ++ buff).

(** ** Lemmas *)

Definition crypted (key : bytes) (m : Request.t) : bool := (0 <? Z.of_nat (length key)) && isCrypto m.

(** The message with the wire length and body [b], as it is read. *)
Definition as_read (req : Request.t) (l : Z) (b : bytes) : Request.t :=
  {| Request.App := Request.App req; Request.Mask := Request.Mask req; Request.Length := l; Request.Cmd := Request.Cmd req;
     Request.Seq := Request.Seq req; Request.Ret := Request.Ret req; Request.Buff := b; Request.Disconn := false;
     Request.NodeName := ""; Request.NodeType := "" |}.

Definition header_ok (req : Request.t) : Prop :=
  String.length (Request.App req) = 4%nat /\ in_u 8 (Request.Mask req) /\ in_u 16 (Request.Cmd req) /\
  in_u 16 (Request.Seq req) /\ in_u 16 (Request.Ret req).

Definition header (req : Request.t) (l : Z) : bytes :=
  ["G"%char] ++ be_put 1 (Request.Mask req) ++ to_bytes (Request.App req) ++ be_put 2 l ++
    be_put 2 (Request.Cmd req) ++ be_put 2 (Request.Seq req) ++ be_put 2 (Request.Ret req).

Lemma be_get_put_small n z : in_u (8 * Z.of_nat n) z -> be_get (be_put n z) = z.
Proof using Type. intros H. rewrite be_get_put. by apply Z.mod_small. Qed.

Lemma four_bytes s : String.length s = 4%nat -> exists a b c d, to_bytes s = [a; b; c; d] /\ s = of_bytes [a; b; c; d].
Proof using Type. destruct s as [|a [|b [|c [|d []]]]]; try done. intros _. by exists a, b, c, d. Qed.

(** A message that was read names an application. *)
Lemma read_app r key m r' : ReadMessageWithKey r key = Ret (m, r') -> Request.App m <> "".
Proof using Type.
  unfold ReadMessageWithKey. destruct (ReadFull r 14) as [[h r1]|e|w] eqn:E; cbn [mbind go_bind]; try done.
  apply ReadFull_ret in E as [_ Hl]. case_decide; [|done].
  assert (Ha : of_bytes (take 4 (drop 2 h)) <> "") by (destruct h as [|a [|b [|c h]]]; done).
  cbn zeta. destruct (_ =? 0); [by intros [= <- <-]|].
  destruct (ReadFull r1 _) as [[b r2]|e|w]; cbn [mbind go_bind]; try done.
  destruct (_ && _); [|by intros [= <- <-]]. destruct (AesDecrypt b key); cbn [mbind go_bind]; try done. by intros [= <- <-].
Qed.

(** Reading after a header with length field [l]. *)
Lemma read_header req l key r : header_ok req -> in_u 16 l ->
  ReadMessageWithKey (header req l ++ r) key =
    if l =? 0 then Ret (as_read req 0 [], r)
    else '(buff, r) ← ReadFull r (Z.to_nat l);
         if crypted key req then b ← AesDecrypt buff key; Ret (as_read req l b, r) else Ret (as_read req l buff, r).
Proof using Type.
  intros (Ha & Hm & Hc & Hs & Hr) Hl. unfold header, ReadMessageWithKey.
  destruct (four_bytes _ Ha) as (a & b & c & d & Eb & Es).
  assert (Hn : length (["G"%char] ++ be_put 1 (Request.Mask req) ++ to_bytes (Request.App req) ++ be_put 2 l ++
    be_put 2 (Request.Cmd req) ++ be_put 2 (Request.Seq req) ++ be_put 2 (Request.Ret req)) = 14%nat) by (rewrite Eb; done).
  rewrite ReadFull_app_n by done. cbn [mbind go_bind]. clear Hn. rewrite Eb. rewrite decide_True by done.
  set (hd := _ ++ _). cbn zeta.
  change (take 1 (drop 1 hd)) with (be_put 1 (Request.Mask req)). change (take 4 (drop 2 hd)) with [a; b; c; d].
  change (take 2 (drop 6 hd)) with (be_put 2 l). change (take 2 (drop 8 hd)) with (be_put 2 (Request.Cmd req)).
  change (take 2 (drop 10 hd)) with (be_put 2 (Request.Seq req)). change (take 2 (drop 12 hd)) with (be_put 2 (Request.Ret req)).
  clear hd. rewrite <- Es. rewrite !be_get_put_small by done. cbn [Request.Length Request.Mask].
  destruct (Z.eqb_spec l 0) as [->|]; done.
Qed.

Lemma WriteMessage_header req key buff :
  (if crypted key req then aes_encrypt (Request.Buff req) key else Ret (Request.Buff req)) = Ret buff ->
  WriteMessageWithKey req key = Ret (header req (u16 (Z.of_nat (length buff))) ++ buff).
Proof using Type.
  intros E. unfold WriteMessageWithKey. fold (crypted key req). rewrite E. cbn [mbind go_bind]. unfold header.
  by rewrite <- !app_assoc.
Qed.

Lemma header_length req l : header_ok req -> length (header req l) = 14%nat.
Proof using Type. intros (Ha & _). destruct (four_bytes _ Ha) as (a & b & c & d & Eb & _). unfold header. by rewrite Eb. Qed.

(** The body on the wire. *)
Lemma wire_body req key : (crypted key req = true -> key_ok key = true) -> exists buff,
  (if crypted key req then aes_encrypt (Request.Buff req) key else Ret (Request.Buff req)) = Ret buff /\
  (crypted key req = false -> buff = Request.Buff req) /\
  (crypted key req = true -> AesDecrypt buff key = Ret (Request.Buff req) /\ (0 < length buff)%nat).
Proof using Haes.
  intros Hk. destruct (crypted key req) eqn:E; [|by exists (Request.Buff req)].
  destruct (aes_roundtrip (Request.Buff req) key (Hk eq_refl)) as (c & Hc & Hd & Hl). by exists c.
Qed.

Lemma read_short req key buff p : header_ok req -> Z.of_nat (length buff) < 2 ^ 16 ->
  p `prefix_of` header req (Z.of_nat (length buff)) ++ buff -> p <> header req (Z.of_nat (length buff)) ++ buff ->
  exists e, ReadMessageWithKey p key = Err e.
Proof using Type.
  clear Haes. intros Hh Hl [q Hq] Hne. set (hd := header _ _) in *. assert (Hhd : length hd = 14%nat) by (by apply header_length).
  destruct (decide (14 <= length p)%nat) as [Hp|Hp].
  - assert (Ep : p = hd ++ drop 14 p).
    { rewrite <- (take_drop 14 p) at 1. f_equal. apply (f_equal (take 14)) in Hq.
      rewrite take_app_length' in Hq by done. rewrite Hq. rewrite take_app_le by done. done. }
    rewrite Ep in Hq |- *. rewrite <- app_assoc in Hq. apply app_inv_head in Hq.
    unfold hd. rewrite (read_header req _ key _ Hh) by (unfold in_u; lia).
    assert (Hb : (length (drop 14 p) < length buff)%nat).
    { rewrite Hq, length_app. destruct q; [|simpl; lia]. exfalso. apply Hne. rewrite app_nil_r in Hq. by rewrite Ep, <- Hq. }
    destruct (Z.eqb_spec (Z.of_nat (length buff)) 0); [lia|]. rewrite Nat2Z.id, ReadFull_short by done. by eexists.
  - unfold ReadMessageWithKey. rewrite ReadFull_short by lia. by eexists.
Qed.

(** C24. A message of the gateway is read back as it was written, encrypted or not,
    with its length on the wire, and what follows stays in the stream; every
    proper part of it gives an error.  Two things go wrong.  A body of 65536 bytes
    or more is written with its length modulo 65536: the reader gets its
    beginning and takes the rest for the next message.  And a message sent
    before the client's first one has no application id: its header is short of
    four bytes and an empty one cannot be read. *)
Theorem gnet_message_roundtrip (req : Request.t) (key rest : bytes)
    (Hh : header_ok req) (Hk : crypted key req = true -> key_ok key = true) :
  exists buff bs, WriteMessageWithKey req key = Ret bs /\ (crypted key req = false -> buff = Request.Buff req) /\
    (Z.of_nat (length buff) < 2 ^ 16 ->
       ReadMessageWithKey (bs ++ rest) key = Ret (as_read req (Z.of_nat (length buff)) (Request.Buff req), rest) /\
       forall p, p `prefix_of` bs -> p <> bs -> exists e, ReadMessageWithKey p key = Err e) /\
    (crypted key req = false -> 2 ^ 16 <= Z.of_nat (length buff) -> exists m left,
       ReadMessageWithKey (bs ++ rest) key = Ret (m, left ++ rest) /\ left <> [] /\ Request.Buff m ++ left = buff) /\
    (forall m bs, Request.App m = "" -> Request.Buff m = [] -> WriteMessageWithKey m [] = Ret bs ->
       ReadMessageWithKey bs [] = Err ErrUnexpectedEOF).
Proof using Haes.
  destruct (wire_body req key Hk) as (buff & Hb & Hplain & Hcr). exists buff, (header req (u16 (Z.of_nat (length buff))) ++ buff).
  split; [by apply WriteMessage_header|]. split; [done|]. splits.
  - intros Hl. rewrite wrapu_small by (unfold in_u; lia). split; [|intros p; by apply read_short].
    rewrite <- app_assoc, (read_header req _ key _ Hh) by (unfold in_u; lia).
    destruct (Z.eqb_spec (Z.of_nat (length buff)) 0) as [E0|E0].
    + assert (buff = []) as -> by (destruct buff; simpl in *; [done|lia]).
      destruct (crypted key req) eqn:E; [destruct (Hcr eq_refl); simpl in *; lia|]. by rewrite <- (Hplain eq_refl).
    + rewrite Nat2Z.id, ReadFull_app. cbn [mbind go_bind]. destruct (crypted key req) eqn:E.
      * destruct (Hcr eq_refl) as [-> _]. done.
      * by rewrite <- (Hplain eq_refl).
  - intros E Hl. set (l := u16 (Z.of_nat (length buff))).
    assert (Hin : in_u 16 l) by (apply wrapu_range; lia). assert (Hlt : (Z.to_nat l < length buff)%nat) by (unfold in_u in Hin; lia).
    rewrite <- app_assoc, (read_header req _ key _ Hh) by done. rewrite E.
    destruct (Z.eqb_spec l 0) as [E0|E0].
    + exists (as_read req 0 []), buff. splits; [done|by destruct buff|done].
    + replace (buff ++ rest) with (take (Z.to_nat l) buff ++ drop (Z.to_nat l) buff ++ rest) by (by rewrite app_assoc, take_drop).
      rewrite ReadFull_app_n by (rewrite length_take; lia). cbn [mbind go_bind].
      exists (as_read req l (take (Z.to_nat l) buff)), (drop (Z.to_nat l) buff). splits; [done| |apply take_drop].
      intros Hd. apply (f_equal length) in Hd. rewrite length_drop in Hd. simpl in Hd. lia.
  - intros m bs Ha Hbf Hw. unfold WriteMessageWithKey in Hw. cbn [length] in Hw.
    change (0 <? Z.of_nat 0) with false in Hw. cbn [andb mbind go_bind] in Hw. rewrite Ha, Hbf in Hw. injection Hw as <-. done.
Qed.

(** *** The websocket client *)

Definition ws_header (req : RequestMessage.t) (l : Z) : bytes :=
  be_put 1 (RequestMessage.Crype req) ++ be_put 2 l ++ be_put 2 (RequestMessage.Cmd req) ++
  be_put 2 (RequestMessage.Seq req) ++ be_put 4 (RequestMessage.RetOrClubId req) ++ be_put 1 0.

Definition ws_ok (req : RequestMessage.t) : Prop :=
  in_u 8 (RequestMessage.Crype req) /\ in_u 16 (RequestMessage.Cmd req) /\ in_u 16 (RequestMessage.Seq req) /\
  in_u 32 (RequestMessage.RetOrClubId req).

Definition ws_as_read (req : RequestMessage.t) (l : Z) (b : bytes) : RequestMessage.t :=
  {| RequestMessage.Crype := RequestMessage.Crype req; RequestMessage.Length := l; RequestMessage.Cmd := RequestMessage.Cmd req;
     RequestMessage.Seq := RequestMessage.Seq req; RequestMessage.RetOrClubId := RequestMessage.RetOrClubId req; RequestMessage.Buff := b |}.

Lemma ws_read_header req l r : ws_ok req -> in_u 16 l ->
  ws_ReadMessage (ws_header req l ++ r) =
    if l =? 0 then Ret (ws_as_read req 0 [], r)
    else '(buff, r) ← ReadFull r (Z.to_nat l);
         if RequestMessage.Crype req =? 1 then b ← AesDecrypt buff AesKey; Ret (ws_as_read req l b, r) else Ret (ws_as_read req l buff, r).
Proof using Type.
  intros (Hc & Hm & Hs & Hr) Hl. unfold ws_ReadMessage. rewrite ReadFull_app_n by done. cbn [mbind go_bind].
  unfold ws_header. set (hd := _ ++ _). cbn zeta.
  change (take 1 (drop 0 hd)) with (be_put 1 (RequestMessage.Crype req)). change (take 2 (drop 1 hd)) with (be_put 2 l).
  change (take 2 (drop 3 hd)) with (be_put 2 (RequestMessage.Cmd req)). change (take 2 (drop 5 hd)) with (be_put 2 (RequestMessage.Seq req)).
  change (take 4 (drop 7 hd)) with (be_put 4 (RequestMessage.RetOrClubId req)).
  clear hd. rewrite !be_get_put_small by done. cbn [RequestMessage.Length RequestMessage.Crype].
  destruct (Z.eqb_spec l 0) as [->|]; done.
Qed.

(** A message of the websocket client, whose body is its buffer or, when that
    is empty, the marshalled pointer, is read back with that body while it is
    shorter than 65536 bytes on the wire. *)
Lemma ws_message_roundtrip (req : RequestMessage.t) (pointer : option (go bytes)) (body rest : bytes)
    (Hok : ws_ok req) (Hkey : key_ok AesKey = true)
    (Hbody : match RequestMessage.Buff req, pointer with [], Some m => m | b, _ => Ret b end = Ret body) :
  exists buff bs, ws_WriteMessage req pointer = Ret bs /\ (RequestMessage.Crype req <> 1 -> buff = body) /\
    (Z.of_nat (length buff) < 2 ^ 16 ->
       ws_ReadMessage (bs ++ rest) = Ret (ws_as_read req (Z.of_nat (length buff)) body, rest)).
Proof using Haes.
  destruct (aes_roundtrip body AesKey Hkey) as (c & Hc & Hd & Hl).
  exists (if RequestMessage.Crype req =? 1 then c else body). eexists. split; [|split].
  - unfold ws_WriteMessage. rewrite Hbody. cbn [mbind go_bind].
    instantiate (1 := let buff := if RequestMessage.Crype req =? 1 then c else body in ws_header req (u16 (Z.of_nat (length buff))) ++ buff).
    unfold ws_header. destruct (RequestMessage.Crype req =? 1); rewrite ?Hc; cbn [mbind go_bind]; by rewrite <- !app_assoc.
  - intros Hne. by destruct (Z.eqb_spec (RequestMessage.Crype req) 1).
  - cbn zeta. intros Hlt. rewrite wrapu_small by (unfold in_u; lia). rewrite <- app_assoc, ws_read_header by (done || unfold in_u; lia).
    set (buff := if RequestMessage.Crype req =? 1 then c else body) in *.
    destruct (Z.eqb_spec (Z.of_nat (length buff)) 0) as [E0|E0].
    + destruct (RequestMessage.Crype req =? 1) eqn:E; [unfold buff in *; lia|]. unfold buff in *.
      assert (body = []) as -> by (destruct body; simpl in *; [done|lia]). done.
    + rewrite Nat2Z.id, ReadFull_app. cbn [mbind go_bind]. unfold buff.
      destruct (RequestMessage.Crype req =? 1); [by rewrite Hd|done].
Qed.
End messages.

(** ** Examples, with a cipher that reverses a block *)

Module MessageSample.
#[local] Program Instance cipher : BlockCipher := {|
  BlockSize := 16; key_ok k := bool_decide (length k = 32%nat); enc k b := rev b; dec k b := rev b
|}.
Next Obligation. simpl. lia. Qed.
Next Obligation. intros k b H. simpl. rewrite List.length_rev. exact H. Qed.
Next Obligation. intros k b H. simpl. rewrite List.length_rev. exact H. Qed.
Next Obligation. intros k b _ _. apply rev_involutive. Qed.

Definition req : Request.t :=
  {| Request.App := "game"; Request.Mask := 1; Request.Length := 0; Request.Cmd := 7; Request.Seq := 1; Request.Ret := 0;
     Request.Buff := to_bytes "hello"; Request.Disconn := false; Request.NodeName := ""; Request.NodeType := "" |}.
Definition ws : RequestMessage.t :=
  {| RequestMessage.Crype := 1; RequestMessage.Length := 0; RequestMessage.Cmd := 7; RequestMessage.Seq := 1;
     RequestMessage.RetOrClubId := 9; RequestMessage.Buff := to_bytes "hello" |}.
End MessageSample.

Lemma gnet_message_roundtrip_witness :
  exists (buff bs : bytes), @WriteMessageWithKey MessageSample.cipher MessageSample.req AesKey = Ret bs /\
    (Z.of_nat (length buff) < 2 ^ 16 ->
     @ReadMessageWithKey MessageSample.cipher bs AesKey =
       Ret (as_read MessageSample.req (Z.of_nat (length buff)) (to_bytes "hello"), [])).
Proof.
  destruct (@gnet_message_roundtrip MessageSample.cipher eq_refl MessageSample.req AesKey []) as (buff & bs & Hw & _ & Hr & _).
  - unfold header_ok. repeat split; vm_compute; try reflexivity; discriminate.
  - intros _. reflexivity.
  - exists buff, bs. split; [exact Hw|]. intros Hl. destruct (Hr Hl) as [Hx _]. rewrite app_nil_r in Hx. exact Hx.
Defined.

Lemma ws_message_roundtrip_witness :
  exists bs, @ws_WriteMessage MessageSample.cipher MessageSample.ws None = Ret bs.
Proof.
  destruct (@ws_message_roundtrip MessageSample.cipher eq_refl MessageSample.ws None (to_bytes "hello") []) as (buff & bs & Hw & _).
  - unfold ws_ok. repeat split; vm_compute; try reflexivity; discriminate.
  - reflexivity.
  - reflexivity.
  - exists bs. exact Hw.
Defined.
