(* ===== verification/Handshake.v ===== *)
(** * Key exchange: gnet/handshake.go

    Diffie-Hellman over numbers of 1024 bits.  The random primes are arguments
    and crypto/sha256 is a function; what the two ends write and read are byte
    strings. *)

From Stdlib Require Import ZArith Lia Ascii String Zpow_facts.
From stdpp Require Import base numbers list.
From S2P Require Import Prelude.

Section handshake.
Context (Sum256 : bytes -> bytes).

(** z.Exp(x, y, m): with m = 0 there is no reduction. *)
Definition Exp (x y m : Z) : Z := if m =? 0 then x ^ y else Zpow_mod x y m.

(** i.Bytes(): big-endian without leading zeros. *)
Definition big_size (i : Z) : nat := if i =? 0 then 0%nat else Z.to_nat (Z.log2 i / 8 + 1).
Definition Bytes (i : Z) : bytes := be_put (big_size i) i.

Definition readBigInt (r : bytes) : go (Z * bytes) := '(buff, r) ← ReadFull r 128; Ret (be_get buff, r).
Definition writeBigInts (ns : list Z) : bytes := ns ≫= Bytes.
Definition writeBigInt (i : Z) : bytes := Bytes i.

(** The client's first message. *)
Definition ClientHandshake_write (p g a : Z) : bytes := writeBigInts [p; g; Exp g a p].

(** The client's key, from what the server sends. *)
Definition ClientHandshake (p g a : Z) (r : bytes) : go (bytes * bytes) :=
  '(b, r) ← readBigInt r;
  Ret (Sum256 (Bytes (Exp b a p)), r).

(** The server: its key, what it writes, and the rest of the stream. *)
Definition Handshake (r : bytes) (b : Z) : go (bytes * bytes * bytes) :=
  '(p, r) ← readBigInt r;
  '(g, r) ← readBigInt r;
  '(a, r) ← readBigInt r;
  Ret (Sum256 (Bytes (Exp a b p)), writeBigInt (Exp g b p), r).

(** ** Lemmas *)

Lemma big_size_bound i : 0 <= i < 2 ^ 1024 -> (big_size i <= 128)%nat.
Proof using Type.
  intros Hi. unfold big_size. destruct (Z.eqb_spec i 0); [lia|].
  assert (Z.log2 i < 1024) by (apply Z.log2_lt_pow2; lia). pose proof (Z.log2_nonneg i).
  assert (Z.log2 i / 8 < 128) by (apply Z.div_lt_upper_bound; lia). pose proof (Z.div_pos (Z.log2 i) 8 ltac:(lia) ltac:(lia)). lia.
Qed.

Lemma big_size_full i : 2 ^ 1016 <= i < 2 ^ 1024 -> big_size i = 128%nat.
Proof using Type.
  intros Hi. unfold big_size. assert (0 < 2 ^ 1016) by (apply Z.pow_pos_nonneg; lia). destruct (Z.eqb_spec i 0); [lia|].
  assert (Z.log2 i < 1024) by (apply Z.log2_lt_pow2; lia). assert (1016 <= Z.log2 i) by (apply Z.log2_le_pow2; lia).
  replace (Z.log2 i / 8) with 127; [done|]. apply (Z.div_unique_pos _ _ _ (Z.log2 i - 1016)); lia.
Qed.

Lemma big_size_short i : 0 <= i < 2 ^ 1016 -> (big_size i < 128)%nat.
Proof using Type.
  intros Hi. unfold big_size. destruct (Z.eqb_spec i 0); [lia|].
  assert (Z.log2 i < 1016) by (apply Z.log2_lt_pow2; lia). pose proof (Z.log2_nonneg i).
  assert (Z.log2 i / 8 < 127) by (apply Z.div_lt_upper_bound; lia). pose proof (Z.div_pos (Z.log2 i) 8 ltac:(lia) ltac:(lia)). lia.
Qed.

Lemma read_put z r : 0 <= z < 2 ^ 1024 -> readBigInt (be_put 128 z ++ r) = Ret (z, r).
Proof using Type.
  intros Hz. unfold readBigInt. rewrite ReadFull_app_n by (by rewrite length_be_put). cbn [mbind go_bind].
  rewrite be_get_put. rewrite Z.mod_small; [done|]. exact Hz.
Qed.

Lemma read_full z r : 2 ^ 1016 <= z < 2 ^ 1024 -> readBigInt (Bytes z ++ r) = Ret (z, r).
Proof using Type.
  intros Hz. unfold Bytes. rewrite big_size_full by done. apply read_put. split; [|lia].
  assert (0 < 2 ^ 1016) by (apply Z.pow_pos_nonneg; lia). lia.
Qed.

Lemma read_too_short z : 0 <= z < 2 ^ 1016 -> exists e, readBigInt (Bytes z) = Err e.
Proof using Type.
  intros Hz. unfold readBigInt. rewrite ReadFull_short; [by eexists|]. unfold Bytes. rewrite length_be_put. by apply big_size_short.
Qed.

Lemma Exp_mod x y m : 0 < m -> Exp x y m = x ^ y mod m.
Proof using Type. intros Hm. unfold Exp. destruct (Z.eqb_spec m 0); [lia|]. apply Zpow_mod_correct. lia. Qed.

Lemma exp_exp g a b p : 0 < p -> 0 <= a -> 0 <= b -> Exp (Exp g a p) b p = g ^ (a * b) mod p.
Proof using Type.
  intros Hp Ha Hb. rewrite !Exp_mod by done. rewrite <- Zpower_mod by lia. by rewrite <- Z.pow_mul_r.
Qed.

(** C29. With a modulus and a base of 1024 bits, and when both public values take
    all 128 bytes, client and server end with the same key, the hash of the
    shared power, and no byte is left over.  A public value below 2^1016 is
    written with fewer bytes than the other side reads: the server, or the client,
    waits for more and gets an error at the end of the stream.  A modulus of 0
    from the network makes the server compute the power without reduction. *)
Theorem handshake_agrees (p g a b : Z)
    (Hp : 2 ^ 1016 <= p < 2 ^ 1024) (Hg : 2 ^ 1016 <= g < 2 ^ 1024) (Ha : 0 <= a) (Hb : 0 <= b) :
  (2 ^ 1016 <= Exp g a p -> 2 ^ 1016 <= Exp g b p ->
     exists key reply, Handshake (ClientHandshake_write p g a) b = Ret (key, reply, []) /\
       ClientHandshake p g a reply = Ret (key, []) /\ key = Sum256 (Bytes (g ^ (a * b) mod p))) /\
  (Exp g a p < 2 ^ 1016 -> exists e, Handshake (ClientHandshake_write p g a) b = Err e) /\
  (Exp g b p < 2 ^ 1016 -> exists e, ClientHandshake p g a (writeBigInt (Exp g b p)) = Err e) /\
  (forall x r, 2 <= x < 2 ^ 1024 ->
     Handshake (be_put 128 0 ++ be_put 128 g ++ be_put 128 x ++ r) b = Ret (Sum256 (Bytes (x ^ b)), Bytes (g ^ b), r) /\
     2 ^ b <= x ^ b).
Proof using Type.
  assert (Hp0 : 0 < p) by (assert (0 < 2 ^ 1016) by (apply Z.pow_pos_nonneg; lia); lia).
  assert (Hr : forall y, 0 <= Exp g y p < p) by (intros y; rewrite Exp_mod by done; apply Z.mod_pos_bound; lia).
  assert (Hw : ClientHandshake_write p g a = Bytes p ++ Bytes g ++ Bytes (Exp g a p)).
  { unfold ClientHandshake_write, writeBigInts. cbn [mbind list_bind]. by rewrite app_nil_r. }
  splits.
  - intros HA HB. pose proof (Hr a). pose proof (Hr b). eexists _, _. unfold Handshake. rewrite Hw.
    rewrite read_full by done. cbn [mbind go_bind]. rewrite read_full by done. cbn [mbind go_bind].
    rewrite <- (app_nil_r (Bytes (Exp g a p))). rewrite read_full by lia. cbn [mbind go_bind]. rewrite exp_exp by done.
    splits; [done| |done]. unfold ClientHandshake, writeBigInt. rewrite <- (app_nil_r (Bytes _)).
    rewrite read_full by lia. cbn [mbind go_bind]. rewrite exp_exp by done. by rewrite (Z.mul_comm b a).
  - intros HA. pose proof (Hr a). destruct (read_too_short (Exp g a p)) as [e He]; [lia|]. exists e. unfold Handshake. rewrite Hw.
    rewrite read_full by done. cbn [mbind go_bind]. rewrite read_full by done. cbn [mbind go_bind]. by rewrite He.
  - intros HB. pose proof (Hr b). destruct (read_too_short (Exp g b p)) as [e He]; [lia|]. exists e.
    unfold ClientHandshake, writeBigInt. by rewrite He.
  - intros x r Hx. unfold Handshake. rewrite read_put by (split; [lia|apply Z.pow_pos_nonneg; lia]). cbn [mbind go_bind].
    assert (0 < 2 ^ 1016) by (apply Z.pow_pos_nonneg; lia). rewrite read_put by lia. cbn [mbind go_bind].
    rewrite read_put by lia. cbn [mbind go_bind]. split; [done|apply Z.pow_le_mono_l; lia].
Qed.
End handshake.

Lemma handshake_agrees_witness :
  exists key reply, Handshake (fun b => b) (ClientHandshake_write (2 ^ 1024 - 1) (2 ^ 1023) 1) 1 = Ret (key, reply, []) /\
    ClientHandshake (fun b => b) (2 ^ 1024 - 1) (2 ^ 1023) 1 reply = Ret (key, []).
Proof.
  destruct (handshake_agrees (fun b => b) (2 ^ 1024 - 1) (2 ^ 1023) 1 1) as [H _].
  - split; vm_compute; [discriminate|reflexivity].
  - split; vm_compute; [discriminate|reflexivity].
  - lia.
  - lia.
  - destruct H as (key & reply & H1 & H2 & _); [vm_compute; discriminate..|].
    exists key, reply. split; [exact H1|exact H2].
Defined.
