(* ===== verification/Gater.v ===== *)
(** * The gateway: gnet/connect.go

    A gateway reads messages from client connections, forwards them to the
    services of the cluster and writes the results back.  Interceptors are
    functions that may change the connection and the message they are given.
    [perform] is what the chosen RPC call returns: return code, reply and error. *)

From Stdlib Require Import ZArith Znumtheory Lia Ascii String.
From stdpp Require Import base numbers list strings gmap.
From S2P Require Import Prelude GoStd Crypto GnetMessage RpcCoder RpcServer RpcNode.

Record ClientConn := {
  Ctx : Context.t; Uid : string; CommonNode : string; GameNode : string; App : string; Mask : Z; Key : bytes
}.

Module GReq := GnetMessage.Request.
Abbreviation Msg := GReq.t.

Record Gater := {
  IDCounter : Z;
  Ids : gset Z;                   (* the ids of the connections; a connection object lives in its handleConn *)
  Uids : gmap string Z;           (* uid to connection, filled by interceptors *)
  SyncCall : bool;
  Count : Z;
  NewFuncs : list (ClientConn -> option go_error * ClientConn);
  ReqFuncs : list (ClientConn -> Msg -> Z * ClientConn * Msg);
  RspFuncs : list (ClientConn -> Msg -> bytes -> Z -> option go_error -> ClientConn);
  DelFuncs : list (ClientConn -> option go_error * ClientConn)
}.

Definition NewGater (syncCall : bool) (options : list (Gater -> Gater)) : Gater :=
  fold_left (fun g o => o g) options
    {| IDCounter := 1; Ids := ∅; Uids := ∅; SyncCall := syncCall; Count := 0;
       NewFuncs := []; ReqFuncs := []; RspFuncs := []; DelFuncs := [] |}.

Definition set_table (g : Gater) (counter : Z) (ids : gset Z) (count : Z) : Gater :=
  {| IDCounter := counter; Ids := ids; Uids := Uids g; SyncCall := SyncCall g; Count := count;
     NewFuncs := NewFuncs g; ReqFuncs := ReqFuncs g; RspFuncs := RspFuncs g; DelFuncs := DelFuncs g |}.

Definition set_funcs (g : Gater) news reqs rsps dels : Gater :=
  {| IDCounter := IDCounter g; Ids := Ids g; Uids := Uids g; SyncCall := SyncCall g; Count := Count g;
     NewFuncs := news; ReqFuncs := reqs; RspFuncs := rsps; DelFuncs := dels |}.

Definition RegisterNewFuncs (g : Gater) f : Gater :=
  set_funcs g (NewFuncs g ++ [f]) (ReqFuncs g) (RspFuncs g) (DelFuncs g).
Definition RegisterReqFuncs (g : Gater) f : Gater :=
  set_funcs g (NewFuncs g) (ReqFuncs g ++ [f]) (RspFuncs g) (DelFuncs g).
Definition RegisterRspFuncs (g : Gater) f : Gater :=
  set_funcs g (NewFuncs g) (ReqFuncs g) (RspFuncs g ++ [f]) (DelFuncs g).
Definition RegisterDelFuncs (g : Gater) f : Gater :=
  set_funcs g (NewFuncs g) (ReqFuncs g) (RspFuncs g) (DelFuncs g ++ [f]).

Section gater.
Context (nodeId : Z) (nodeName : string).

(** ** Connection ids *)

Definition id_of (counter : Z) : Z := Z.lor (Z.land counter 0xFFFFFFFF) (u64 (Z.shiftl (Z.land nodeId 0xFFFF) 32)).

(** The loop of newID; [None]: out of fuel. *)
Fixpoint newID (fuel : nat) (g : Gater) : option (Z * Gater) :=
  match fuel with
  | O => None
  | S fuel =>
      let counter := u64 (IDCounter g + 1) in
      let g := set_table g counter (Ids g) (Count g) in
      if decide (id_of counter ∈ Ids g) then newID fuel g else Some (id_of counter, g)
  end.

Definition GetConnByID (g : Gater) (id : Z) : option Z := if decide (id ∈ Ids g) then Some id else None.
Definition GetConnByUid (g : Gater) (uid : string) : option Z := Uids g !! uid.
Definition GetCount (g : Gater) : Z := Count g.

Definition NewClientConn (fuel : nat) (g : Gater) (remote : string) : option (ClientConn * Gater) :=
  match newID fuel g with
  | None => None
  | Some (id, g) =>
      let conn := {| Ctx := {| Context.GateName := nodeName; Context.Remote := remote; Context.Id := id; Context.Token := "";
                               Context.Uid := 0; Context.Nodes := []; Context.CallId := 0; Context.Game := "";
                               Context.Kvs := ∅; Context.Ps := ∅ |};
                     Uid := ""; CommonNode := ""; GameNode := ""; App := ""; Mask := 0; Key := [] |} in
      Some (conn, set_table g (IDCounter g) ({[id]} ∪ Ids g) (i32 (Count g + 1)))
  end.

Definition DelClientConn (g : Gater) (conn : ClientConn) : Gater :=
  set_table g (IDCounter g) (Ids g ∖ {[Context.Id (Ctx conn)]}) (i32 (Count g - 1)).

(** ForConn: the connections [f] is called with. *)
Definition ForConn (ρ : RangeOrder) (g : Gater) : list Z := omap (GetConnByID g) (ρ _ (elements (Ids g))).

(** *** Lemmas on ids *)

Lemma id_of_split counter : id_of counter = nodeId mod 2 ^ 16 * 2 ^ 32 + counter mod 2 ^ 32.
Proof using Type.
  unfold id_of. change 0xFFFFFFFF with (Z.ones 32). change 0xFFFF with (Z.ones 16). rewrite !Z.land_ones by lia.
  pose proof (Z.mod_pos_bound nodeId (2 ^ 16) ltac:(lia)). pose proof (Z.mod_pos_bound counter (2 ^ 32) ltac:(lia)).
  rewrite wrapu_small by (unfold in_u; rewrite Z.shiftl_mul_pow2 by lia; nia).
  rewrite Z.lor_comm. apply lor_shiftl_add; lia.
Qed.

(** The counters a call of newID tries. *)
Definition tried (c : Z) (j : nat) : Z := id_of (u64 (c + Z.of_nat j + 1)).

Lemma tried_mod c j : tried c j = nodeId mod 2 ^ 16 * 2 ^ 32 + (c + Z.of_nat j + 1) mod 2 ^ 32.
Proof using Type.
  unfold tried. rewrite id_of_split. f_equal. unfold wrapu. symmetry.
  apply Znumtheory.Zmod_div_mod; [lia|lia|]. by exists (2 ^ 32).
Qed.

Lemma tried_inj c i j : Z.of_nat i < 2 ^ 32 -> Z.of_nat j < 2 ^ 32 -> tried c i = tried c j -> i = j.
Proof using Type.
  rewrite !tried_mod. intros Hi Hj E.
  assert (E' : (c + Z.of_nat i + 1) mod 2 ^ 32 = (c + Z.of_nat j + 1) mod 2 ^ 32) by lia.
  assert (Hd : (Z.of_nat i - Z.of_nat j) mod 2 ^ 32 = 0).
  { replace (Z.of_nat i - Z.of_nat j) with ((c + Z.of_nat i + 1) - (c + Z.of_nat j + 1)) by lia.
    rewrite Zminus_mod, E', Z.sub_diag. done. }
  apply Z.mod_divide in Hd as [q Hq]; [|lia]. nia.
Qed.

Lemma newID_shape fuel : forall g, match newID fuel g with
  | Some (id, g') => id ∉ Ids g /\ Ids g' = Ids g /\ Count g' = Count g /\ exists j, id = tried (IDCounter g) j
  | None => forall j, (j < fuel)%nat -> tried (IDCounter g) j ∈ Ids g
  end.
Proof using Type.
  induction fuel as [|fuel IH]; intros g; cbn [newID]; [intros j; lia|].
  assert (E0 : id_of (u64 (IDCounter g + 1)) = tried (IDCounter g) 0) by (unfold tried; by rewrite Z.add_0_r).
  assert (Es : forall j, tried (u64 (IDCounter g + 1)) j = tried (IDCounter g) (S j)).
  { intros j. unfold tried. f_equal. unfold wrapu. rewrite Nat2Z.inj_succ, <- !Z.add_assoc. rewrite Zplus_mod_idemp_l. f_equal. lia. }
  cbn [Ids set_table]. case_decide as Hin.
  - set (g1 := set_table g _ _ _). specialize (IH g1). destruct (newID fuel g1) as [[id g']|].
    + destruct IH as (H1 & H2 & H3 & j & ->). splits; try done. exists (S j). apply Es.
    + intros [|j] Hj; [by rewrite <- E0|]. rewrite <- Es. apply IH. lia.
  - splits; try done. by exists 0%nat.
Qed.

Lemma newID_free g : Z.of_nat (size (Ids g)) < 2 ^ 32 - 1 -> exists id g',
  newID (S (size (Ids g))) g = Some (id, g') /\ id ∉ Ids g /\ Ids g' = Ids g /\ Count g' = Count g.
Proof using Type.
  intros Hsz. pose proof (newID_shape (S (size (Ids g))) g) as H. destruct (newID _ g) as [[id g']|].
  - destruct H as (H1 & H2 & H3 & _). by exists id, g'.
  - exfalso. set (l := tried (IDCounter g) <$> seq 0 (S (size (Ids g)))).
    assert (Hnd : NoDup l).
    { apply NoDup_fmap_2_strong; [|apply NoDup_seq]. intros i j Hi Hj. apply elem_of_seq in Hi, Hj. apply tried_inj; lia. }
    assert (Hsub : (list_to_set l : gset Z) ⊆ Ids g).
    { intros x Hx. apply elem_of_list_to_set, list_elem_of_fmap in Hx as (j & -> & Hj). apply elem_of_seq in Hj. apply H. lia. }
    apply subseteq_size in Hsub. rewrite size_list_to_set in Hsub by done. unfold l in Hsub. rewrite length_fmap, length_seq in Hsub. lia.
Qed.

(** The gateway counts its connections. *)
Definition table_ok (g : Gater) : Prop := Count g = Z.of_nat (size (Ids g)).

(** ** Messages *)

Definition reply (msg : Msg) (ret : Z) (buff : bytes) : Msg :=
  {| GReq.App := ""; GReq.Mask := 0; GReq.Length := 0; GReq.Cmd := GReq.Cmd msg; GReq.Seq := GReq.Seq msg;
     GReq.Ret := ret; GReq.Buff := buff; GReq.Disconn := false; GReq.NodeName := ""; GReq.NodeType := "" |}.

(** SendMessage: the message that is written. *)
Definition SendMessage (conn : ClientConn) (msg : Msg) : Msg :=
  {| GReq.App := App conn; GReq.Mask := Mask conn; GReq.Length := GReq.Length msg; GReq.Cmd := GReq.Cmd msg;
     GReq.Seq := GReq.Seq msg; GReq.Ret := GReq.Ret msg; GReq.Buff := GReq.Buff msg;
     GReq.Disconn := GReq.Disconn msg; GReq.NodeName := GReq.NodeName msg; GReq.NodeType := GReq.NodeType msg |}.

(** The first message sets the application and the mode of a connection. *)
Definition bind_app (conn : ClientConn) (msg : Msg) : ClientConn :=
  let c := Ctx conn in
  {| Ctx := {| Context.GateName := Context.GateName c; Context.Remote := Context.Remote c; Context.Id := Context.Id c;
               Context.Token := Context.Token c; Context.Uid := Context.Uid c; Context.Nodes := Context.Nodes c;
               Context.CallId := Context.CallId c; Context.Game := Context.Game c; Context.Kvs := Context.Kvs c;
               Context.Ps := {["isJson" := if isJson msg then 1 else 0]} |};
     Uid := Uid conn; CommonNode := CommonNode conn; GameNode := GameNode conn; App := GReq.App msg; Mask := GReq.Mask msg; Key := Key conn |}.

(** The request interceptors, until one returns a code. *)
Fixpoint intercept (fs : list (ClientConn -> Msg -> Z * ClientConn * Msg)) (conn : ClientConn) (msg : Msg) : Z * ClientConn * Msg :=
  match fs with
  | [] => (0, conn, msg)
  | f :: fs => let '(ret, conn, msg) := f conn msg in if ret =? 0 then intercept fs conn msg else (ret, conn, msg)
  end.

Context (reach : string -> bool) (ρ : RangeOrder) (newId : Z).
Context (perform : decision -> bytes -> Z * bytes * option go_error).

(** The context of the forwarded call. *)
Definition call_context (conn : ClientConn) (msg : Msg) : Context.t :=
  let c := Ctx conn in
  {| Context.GateName := Context.GateName c; Context.Remote := Context.Remote c; Context.Id := Context.Id c;
     Context.Token := Context.Token c; Context.Uid := Context.Uid c; Context.Nodes := Context.Nodes c;
     Context.CallId := newId; Context.Game := GReq.App msg; Context.Kvs := Context.Kvs c; Context.Ps := Context.Ps c |}.

Definition where_to (n : GxNode) (conn : ClientConn) (msg : Msg) (sm : string) : go (decision * GxNode) :=
  let ctx := call_context conn msg in
  if negb (String.eqb (GReq.NodeName msg) "") then
    if isJson msg then NodeJsonCallWithConn reach n ctx (GReq.NodeName msg) sm
    else NodeRawCallWithConn reach n ctx (GReq.NodeName msg) sm
  else if isJson msg then JsonCall reach ρ n ctx sm else RawCall reach ρ n ctx sm.

(** The function f of handleConn: the reply to send. *)
Definition forward (g : Gater) (n : GxNode) (conn : ClientConn) (msg : Msg) (sm : string) : go (Msg * ClientConn * GxNode) :=
  '(d, n) ← where_to n conn msg sm;
  let '(ret, rspBuff, retErr) := perform d (GReq.Buff msg) in
  let ret := match retErr with Some _ => if ret =? 0 then 1 else ret | None => ret end in
  let conn := fold_left (fun conn f => f conn msg rspBuff ret retErr) (RspFuncs g) conn in
  Ret (SendMessage conn (reply msg (u16 ret) rspBuff), conn, n).

(** One round of the loop up to the call: a reply, or the call to make. *)
Inductive outcome := Answer (r : Msg) | Call (msg : Msg) (serverMethod : string).

Definition dispatch (g : Gater) (n : GxNode) (conn : ClientConn) (msg : Msg) : outcome * ClientConn :=
  if String.eqb (GReq.App msg) "" then (Answer (SendMessage conn (reply msg 1 [])), conn)
  else if negb (String.eqb (App conn) "") && negb (String.eqb (App conn) (GReq.App msg))
  then (Answer (SendMessage conn (reply msg 1 [])), conn)
  else
    let conn := if String.eqb (App conn) "" then bind_app conn msg else conn in
    let '(ret, conn, msg) := intercept (ReqFuncs g) conn msg in
    if negb (ret =? 0) then (Answer (SendMessage conn (reply msg (u16 ret) [])), conn)
    else
      let serverMethod := FindServiceMethod n (GReq.NodeType msg) (GReq.Cmd msg) in
      if negb (String.eqb serverMethod "") then (Call msg serverMethod, conn)
      else (Answer (SendMessage conn (reply msg 2 [])), conn).

(** One round with SyncCall: the call is made in place. *)
Definition handle_message (g : Gater) (n : GxNode) (conn : ClientConn) (msg : Msg) : go (Msg * ClientConn * GxNode) :=
  match dispatch g n conn msg with
  | (Answer r, conn) => Ret (r, conn, n)
  | (Call msg serverMethod, conn) => forward g n conn msg serverMethod
  end.

(** Without SyncCall the calls are handed to the pool of goroutines and run between
    the rounds, in any order; they share the connection and the node. *)
Record conv := {
  inbox : list Msg;                     (* messages not yet read *)
  cv_conn : ClientConn; cv_node : GxNode;
  jobs : list (Msg * string);           (* calls submitted and not yet run *)
  sent : list Msg
}.

Inductive conv_step (g : Gater) : conv -> conv -> Prop :=
| step_answer m ms conn n js out r conn' :
    dispatch g n conn m = (Answer r, conn') ->
    conv_step g {| inbox := m :: ms; cv_conn := conn; cv_node := n; jobs := js; sent := out |}
                {| inbox := ms; cv_conn := conn'; cv_node := n; jobs := js; sent := out ++ [r] |}
| step_submit m ms conn n js out m' sm conn' :
    dispatch g n conn m = (Call m' sm, conn') ->
    conv_step g {| inbox := m :: ms; cv_conn := conn; cv_node := n; jobs := js; sent := out |}
                {| inbox := ms; cv_conn := conn'; cv_node := n; jobs := js ++ [(m', sm)]; sent := out |}
| step_run ms conn n js1 m sm js2 out r conn' n' :
    forward g n conn m sm = Ret (r, conn', n') ->
    conv_step g {| inbox := ms; cv_conn := conn; cv_node := n; jobs := js1 ++ (m, sm) :: js2; sent := out |}
                {| inbox := ms; cv_conn := conn'; cv_node := n'; jobs := js1 ++ js2; sent := out ++ [r] |}.

Context {C : BlockCipher}.

(** The loop of handleConn over the stream [r]: the messages sent, until reading
    fails.  [None]: out of fuel. *)
Fixpoint handle_loop (fuel : nat) (g : Gater) (n : GxNode) (conn : ClientConn) (r : bytes) : option (go (list Msg * ClientConn * GxNode)) :=
  match fuel with
  | O => None
  | S fuel =>
      match ReadMessageWithKey r (Key conn) with
      | Err _ => Some (Ret ([], conn, n))
      | Panic w => Some (Panic w)
      | Ret (msg, r) =>
          match handle_message g n conn msg with
          | Ret (m, conn, n) =>
              match handle_loop fuel g n conn r with
              | Some (Ret (ms, conn, n)) => Some (Ret (m :: ms, conn, n))
              | o => o
              end
          | Err e => Some (Err e)
          | Panic w => Some (Panic w)
          end
      end
  end.

(** The interceptors of new and of closed connections. *)
Fixpoint run_new (fs : list (ClientConn -> option go_error * ClientConn)) (conn : ClientConn) : bool * ClientConn :=
  match fs with
  | [] => (true, conn)
  | f :: fs => let '(e, conn) := f conn in match e with Some _ => (false, conn) | None => run_new fs conn end
  end.

(** handleConn with SyncCall: what is sent to the client, and the gateway and the
    connection after the deferred calls. *)
Definition handleConn (idfuel fuel : nat) (g : Gater) (n : GxNode) (remote : string) (r : bytes) :
    option (go (list Msg * ClientConn * Gater * GxNode)) :=
  let remote := match Split ":" remote with x :: _ => x | [] => "" end in
  match NewClientConn idfuel g remote with
  | None => None
  | Some (conn, g) =>
      let close conn := (fold_left (fun conn f => (f conn).2) (DelFuncs g) conn, DelClientConn g conn) in
      let '(go_on, conn) := run_new (NewFuncs g) conn in
      if go_on then
        match handle_loop fuel g n conn r with
        | Some (Ret (ms, conn, n)) => Some (Ret (ms, (close conn).1, (close conn).2, n))
        | Some (Err e) => Some (Err e)
        | Some (Panic w) => Some (Panic w)
        | None => None
        end
      else Some (Ret ([], (close conn).1, (close conn).2, n))
  end.

(** ** Lemmas *)

(** Interceptors that leave alone what identifies a conversation. *)
Definition same_conn (c c' : ClientConn) : Prop :=
  App c' = App c /\ Mask c' = Mask c /\ Key c' = Key c /\ Context.Id (Ctx c') = Context.Id (Ctx c).
Definition well_behaved (g : Gater) : Prop :=
  Forall (fun f => forall conn msg, let '(_, conn', msg') := f conn msg in
    same_conn conn conn' /\ GReq.Cmd msg' = GReq.Cmd msg /\ GReq.Seq msg' = GReq.Seq msg) (ReqFuncs g) /\
  Forall (fun f => forall conn msg b ret e, same_conn conn (f conn msg b ret e)) (RspFuncs g).

Lemma intercept_same fs : Forall (fun f => forall conn msg, let '(_, conn', msg') := f conn msg in
    same_conn conn conn' /\ GReq.Cmd msg' = GReq.Cmd msg /\ GReq.Seq msg' = GReq.Seq msg) fs ->
  forall conn msg, let '(_, conn', msg') := intercept fs conn msg in
    same_conn conn conn' /\ GReq.Cmd msg' = GReq.Cmd msg /\ GReq.Seq msg' = GReq.Seq msg.
Proof using Type.
  induction 1 as [|f fs Hf _ IH]; intros conn msg; cbn [intercept]; [done|].
  specialize (Hf conn msg). destruct (f conn msg) as [[ret c1] m1]. destruct (ret =? 0); [|done].
  specialize (IH c1 m1). destruct (intercept fs c1 m1) as [[ret2 c2] m2].
  destruct Hf as ((?&?&?&?)&?&?), IH as ((?&?&?&?)&?&?). unfold same_conn. splits; congruence.
Qed.

Lemma rsp_same (fs : list (ClientConn -> Msg -> bytes -> Z -> option go_error -> ClientConn)) msg b ret e : Forall (fun f => forall conn msg b ret e, same_conn conn (f conn msg b ret e)) fs ->
  forall conn, same_conn conn (fold_left (fun conn f => f conn msg b ret e) fs conn).
Proof using Type.
  induction 1 as [|f fs Hf _ IH]; intros conn; cbn [fold_left]; [done|].
  specialize (Hf conn msg b ret e). specialize (IH (f conn msg b ret e)).
  destruct Hf as (?&?&?&?), IH as (?&?&?&?). unfold same_conn. splits; congruence.
Qed.

(** *** The call a message asks for *)

(** Nodes that know the same; only their connections may differ. *)
Definition same_nodes (n n' : GxNode) : Prop :=
  (self n' = self n /\ region n' = region n /\ Services n' = Services n /\ ServiceNode n' = ServiceNode n /\
   MockData n' = MockData n /\ nset n' = nset n) /\
  CmdService n' = CmdService n /\ forall k, Info <$> RpcClient n' !! k = Info <$> RpcClient n !! k.

Lemma same_nodes_refl n : same_nodes n n.
Proof using Type. done. Qed.

Lemma same_nodes_trans n n1 n2 : same_nodes n n1 -> same_nodes n1 n2 -> same_nodes n n2.
Proof using Type.
  intros ((?&?&?&?&?&?) & ? & HA) ((?&?&?&?&?&?) & ? & HB). unfold same_nodes. splits; congruence.
Qed.

(** The context of the call: the connection's, with a new call id and the application. *)
Record call_ctx (conn : ClientConn) (m : Msg) (ctx : Context.t) : Prop := {
  cc_gate : Context.GateName ctx = Context.GateName (Ctx conn) /\ Context.Remote ctx = Context.Remote (Ctx conn);
  cc_id : Context.Id ctx = Context.Id (Ctx conn) /\ Context.Token ctx = Context.Token (Ctx conn) /\ Context.Uid ctx = Context.Uid (Ctx conn);
  cc_nodes : Context.Nodes ctx = Context.Nodes (Ctx conn);
  cc_call : Context.CallId ctx = newId /\ Context.Game ctx = GReq.App m;
  cc_kvs : Context.Kvs ctx = Context.Kvs (Ctx conn) /\ Context.Ps ctx = Context.Ps (Ctx conn)
}.

(** The call to the node [nm], or the error [err] when it cannot be reached. *)
Definition to_named (n n' : GxNode) (k : kind_of_call) (ctx : Context.t) (sm nm err : string) (d : decision) : Prop :=
  (available reach n nm = true /\ exists c, d = DRemote k c ctx sm /\ client_of n' nm c) \/
  (available reach n nm = false /\ d = DError err).

(** The call of the method [sm] that the message asks for, in JSON or raw: a mock, the node
    the message names, the node pinned for the service, the own service, or a node that
    offers it. *)
Definition right_call (n n' : GxNode) (conn : ClientConn) (m : Msg) (sm : string) (d : decision) : Prop :=
  let k := if isJson m then KJsonCall else KRawCall in
  let svc := (splitServiceMethod sm).1 in
  exists ctx, call_ctx conn m ctx /\
  match callMock n sm with
  | Some mk => d = DMock mk
  | None =>
      if decide (GReq.NodeName m = "") then
        match by_context (Context.Nodes ctx) svc with
        | Some nm => to_named n n' k ctx sm nm ("node[" +:+ nm +:+ "] not exist") d
        | None =>
            if decide (svc ∈ Services n) then d = DLocal k ctx sm
            else (exists c nm, d = DRemote k c ctx sm /\ offers reach n svc nm /\ client_of n' nm c) \/
                 ((forall nm, ~ offers reach n svc nm) /\ d = DError "not support node rpc")
        end
      else if decide (GReq.NodeName m = self n) then d = DLocal k ctx sm
      else to_named n n' k ctx sm (GReq.NodeName m) ("node " +:+ GReq.NodeName m +:+ " not exists") d
  end.

Lemma call_context_ok conn m : call_ctx conn m (call_context conn m).
Proof using Type. by split. Qed.

Lemma ext_same n n' : ext n n' -> CmdService n' = CmdService n -> same_nodes n n'.
Proof using Type. clear. intros [(?&?&?&?&?&?) _ Hi _] Hc. unfold same_nodes. by splits. Qed.

Lemma to_node_spec k n ctx nm sm : node_ok n -> exists d n',
  to_node reach k (no_node nm) n ctx nm sm = Ret (d, n') /\ node_ok n' /\ same_nodes n n' /\
  match callMock n sm with
  | Some mk => d = DMock mk
  | None => if decide (nm = self n) then d = DLocal k ctx sm else to_named n n' k ctx sm nm (no_node nm) d
  end.
Proof using Type.
  clear newId. intros Hok. unfold to_node. destruct (callMock n sm) as [mk|]; [by exists (DMock mk), n|].
  destruct (String.eqb_spec nm (self n)) as [E|E].
  { exists (DLocal k ctx sm), n. by rewrite decide_True. }
  unfold GetNode. destruct (getNode_spec reach n nm Hok) as (o & n' & Hg & Hok' & Hext & Ho & _ & Hc). rewrite Hg. cbn [mbind go_bind].
  do 2 eexists. split; [done|]. split; [done|]. split; [apply ext_same; [done|by eapply getNode_cmds]|].
  rewrite decide_False by done. destruct o as [c|].
  - left. split; [|by exists c; split; [done|apply Hc]]. destruct (available reach n nm); [done|]. destruct Ho as [_ Ho]. by specialize (Ho eq_refl).
  - right. split; [by apply Ho|done].
Qed.

Lemma where_to_ok n conn msg sm : node_ok n -> exists d n',
  where_to n conn msg sm = Ret (d, n') /\ node_ok n' /\ same_nodes n n' /\ right_call n n' conn msg sm d.
Proof using Type.
  intros Hok. unfold where_to, right_call. destruct (String.eqb_spec (GReq.NodeName msg) "") as [E|E]; cbn [negb].
  - assert (G : forall k, exists d n', route reach ρ k "not support node rpc" n (call_context conn msg) sm = Ret (d, n') /\ node_ok n' /\ same_nodes n n' /\
      exists ctx, call_ctx conn msg ctx /\
      match callMock n sm with
      | Some mk => d = DMock mk
      | None =>
        match by_context (Context.Nodes ctx) (splitServiceMethod sm).1 with
        | Some nm => to_named n n' k ctx sm nm ("node[" +:+ nm +:+ "] not exist") d
        | None =>
            if decide ((splitServiceMethod sm).1 ∈ Services n) then d = DLocal k ctx sm
            else (exists c nm, d = DRemote k c ctx sm /\ offers reach n (splitServiceMethod sm).1 nm /\ client_of n' nm c) \/
                 ((forall nm, ~ offers reach n (splitServiceMethod sm).1 nm) /\ d = DError "not support node rpc")
        end
      end).
    { intros k. destruct (route_total reach ρ k "not support node rpc" n (call_context conn msg) sm Hok) as (d & n' & Er & Hok' & Hc).
      destruct (route_spec reach ρ k "not support node rpc" n (call_context conn msg) sm Hok) as (d' & n'' & Er' & _ & Hext & Hs).
      rewrite Er in Er'. injection Er' as <- <-. exists d, n'. splits; [done|done|by apply ext_same|]. exists (call_context conn msg).
      split; [apply call_context_ok|]. destruct (callMock n sm); [done|]. destruct (by_context _ _); [done|]. case_decide; [done|].
      destruct Hs as [(c & nm & H1 & H2 & H3 & _)|Hs]; [left; by exists c, nm|by right]. }
    destruct (isJson msg); [destruct (G KJsonCall) as (d & n' & H)|destruct (G KRawCall) as (d & n' & H)]; exists d, n'; destruct H as (H1' & H2' & H3' & ctx & H4' & H5'); splits; try done; exists ctx; (split; [done|]);
      rewrite decide_True by done; exact H5'.
  - destruct (isJson msg); [destruct (to_node_spec KJsonCall n (call_context conn msg) (GReq.NodeName msg) sm Hok) as (d & n' & H1 & H2 & H3 & H4)
                           |destruct (to_node_spec KRawCall n (call_context conn msg) (GReq.NodeName msg) sm Hok) as (d & n' & H1 & H2 & H3 & H4)];
      exists d, n'; splits; try done; exists (call_context conn msg); (split; [apply call_context_ok|]); rewrite decide_False by done; exact H4.
Qed.

(** *** The states of a connection *)

(** What changes a connection: its first message and the interceptors. *)
Inductive conn_step (g : Gater) : ClientConn -> ClientConn -> Prop :=
  | cs_bind c m : App c = "" -> conn_step g c (bind_app c m)
  | cs_req f c m : f ∈ ReqFuncs g -> conn_step g c (f c m).1.2
  | cs_rsp f c m b ret e : f ∈ RspFuncs g -> conn_step g c (f c m b ret e).

(** A later state of the connection [c0]. *)
Definition later (g : Gater) (c0 c : ClientConn) : Prop := rtc (conn_step g) c0 c.

Lemma intercept_later g fs c0 : Forall (fun f => f ∈ ReqFuncs g) fs -> forall c m, later g c0 c -> later g c0 (intercept fs c m).1.2.
Proof using Type.
  induction 1 as [|f fs Hf _ IH]; intros c m Hc; cbn [intercept]; [done|].
  assert (H1 : later g c0 (f c m).1.2) by (eapply rtc_r; [done|by apply cs_req]).
  destruct (f c m) as [[ret c1] m1]. destruct (ret =? 0); [by apply IH|done].
Qed.

Lemma rsp_later g fs c0 m b ret e : Forall (fun f => f ∈ RspFuncs g) fs -> forall c, later g c0 c ->
  later g c0 (fold_left (fun conn f => f conn m b ret e) fs c).
Proof using Type.
  induction 1 as [|f fs Hf _ IH]; intros c Hc; cbn [fold_left]; [done|]. apply IH. eapply rtc_r; [done|by apply cs_rsp].
Qed.

Lemma later_funcs g g' c0 c : ReqFuncs g' = ReqFuncs g -> RspFuncs g' = RspFuncs g -> later g' c0 c -> later g c0 c.
Proof using Type.
  intros Er Es Hc. unfold later in *. induction Hc as [|x y z Hxy _ IH]; [done|]. eapply rtc_l; [|exact IH].
  destruct Hxy; [by apply cs_bind|apply cs_req; by rewrite <- Er|apply cs_rsp; by rewrite <- Es].
Qed.

(** What the reply to [m] says, on the connection that was [c0] at first and speaks for
    the application [app]; [n]: the node at first. *)
Definition answers (g : Gater) (n : GxNode) (c0 : ClientConn) (app : string) (m r : Msg) : Prop :=
  if decide (GReq.App m = app) then
    exists conn, later g c0 conn /\ App conn = app /\
    let '(ret, _, m') := intercept (ReqFuncs g) conn m in
    let sm := FindServiceMethod n (GReq.NodeType m') (GReq.Cmd m') in
    if ret =? 0 then
      if String.eqb sm "" then GReq.Ret r = 2 /\ GReq.Buff r = []
      else exists conn' n1 n2 d, later g c0 conn' /\ App conn' = app /\ same_nodes n n1 /\ right_call n1 n2 conn' m' sm d /\
        let '(code, b, e) := perform d (GReq.Buff m') in
        GReq.Ret r = u16 (match e with Some _ => if code =? 0 then 1 else code | None => code end) /\ GReq.Buff r = b
    else GReq.Ret r = u16 ret /\ GReq.Buff r = []
  else GReq.Ret r = 1 /\ GReq.Buff r = [].

(** A connection that speaks for [app] in the mode [mask]. *)
Definition speaks (conn : ClientConn) (app : string) (mask : Z) : Prop := App conn = app /\ Mask conn = mask.

(** The reply to [m], on a connection of application [app] in the mode [mask]. *)
Definition replies (g : Gater) (n : GxNode) (c0 : ClientConn) (app : string) (mask : Z) (m r : Msg) : Prop :=
  GReq.App r = app /\ GReq.Mask r = mask /\ GReq.Cmd r = GReq.Cmd m /\ GReq.Seq r = GReq.Seq m /\ answers g n c0 app m r.

(** The call made for [m]. *)
Definition job_for (g : Gater) (n : GxNode) (c0 : ClientConn) (app : string) (m : Msg) (job : Msg * string) : Prop :=
  GReq.App m = app /\ GReq.Cmd job.1 = GReq.Cmd m /\ GReq.Seq job.1 = GReq.Seq m /\
  (exists conn conn', later g c0 conn /\ App conn = app /\ intercept (ReqFuncs g) conn m = (0, conn', job.1)) /\
  job.2 = FindServiceMethod n (GReq.NodeType job.1) (GReq.Cmd job.1) /\ job.2 <> "".

(** The connection before the first message [m], or one that already speaks. *)
Definition may_speak (conn : ClientConn) (app : string) (mask : Z) (m : Msg) : Prop :=
  (App conn = "" /\ app = GReq.App m /\ mask = GReq.Mask m) \/ speaks conn app mask.

Lemma dispatch_answers g n c0 conn m app mask :
  well_behaved g -> GReq.App m <> "" -> app <> "" -> may_speak conn app mask m -> later g c0 conn ->
  exists o conn', dispatch g n conn m = (o, conn') /\ speaks conn' app mask /\ Key conn' = Key conn /\
    Context.Id (Ctx conn') = Context.Id (Ctx conn) /\ later g c0 conn' /\
    match o with Answer r => replies g n c0 app mask m r | Call m' sm => job_for g n c0 app m (m', sm) end.
Proof using Type.
  intros [Hreq _] Hm Happ Hconn Hl. unfold dispatch, replies, answers, may_speak in *.
  destruct (String.eqb_spec (GReq.App m) ""); [done|].
  destruct (decide (GReq.App m = app)) as [Ea|Ea].
  2:{ destruct Hconn as [(_ & -> & _)|[E1 E2]]; [done|]. rewrite E1.
      destruct (String.eqb_spec app ""); [done|]. destruct (String.eqb_spec app (GReq.App m)); [congruence|].
      do 2 eexists. split; [done|]. by splits. }
  set (conn1 := if String.eqb (App conn) "" then bind_app conn m else conn).
  assert (H1 : App conn1 = app /\ Mask conn1 = mask /\ Key conn1 = Key conn /\ Context.Id (Ctx conn1) = Context.Id (Ctx conn) /\
    negb (String.eqb (App conn) "") && negb (String.eqb (App conn) (GReq.App m)) = false).
  { unfold conn1. destruct Hconn as [(E1 & E2 & E3)|[E1 E2]]; rewrite E1.
    - rewrite String.eqb_refl. by splits.
    - rewrite Ea, String.eqb_refl, andb_false_r. destruct (String.eqb_spec app ""); [done|]. by splits. }
  destruct H1 as (Ha1 & Hm1 & Hk1 & Hi1 & ->).
  assert (Hl1 : later g c0 conn1).
  { unfold conn1. destruct (String.eqb_spec (App conn) ""); [|done]. eapply rtc_r; [done|by apply cs_bind]. }
  pose proof (intercept_same _ Hreq conn1 m) as Hic. pose proof (intercept_later g (ReqFuncs g) c0) as Hil.
  specialize (Hil ltac:(by apply Forall_forall) conn1 m Hl1).
  destruct (intercept (ReqFuncs g) conn1 m) as [[ret c2] m2] eqn:Ei. destruct Hic as ((Ha2 & Hm2 & Hk2 & Hi2) & Hc2 & Hs2). cbn [fst snd] in Hil.
  assert (Hsp : speaks c2 app mask) by (split; congruence).
  assert (HA : forall k b, GReq.App (SendMessage c2 (reply m2 k b)) = app /\ GReq.Mask (SendMessage c2 (reply m2 k b)) = mask) by done.
  destruct (Z.eqb_spec ret 0) as [->|Hret]; cbn [negb].
  - destruct (String.eqb_spec (FindServiceMethod n (GReq.NodeType m2) (GReq.Cmd m2)) "") as [Ef|Ef]; cbn [negb];
      do 2 eexists; (split; [done|]); (split; [done|]); (split; [congruence|]); (split; [congruence|]); (split; [done|]).
    + split; [apply HA|]. split; [apply HA|]. splits; try done. exists conn1. rewrite Ei. cbn [Z.eqb]. splits; try done. by rewrite Ef.
    + unfold job_for; splits; try done. by exists conn1, c2.
  - do 2 eexists; (split; [done|]); (split; [done|]); (split; [congruence|]); (split; [congruence|]); (split; [done|]).
    split; [apply HA|]. split; [apply HA|]. splits; try done. exists conn1. rewrite Ei. splits; try done. by rewrite (proj2 (Z.eqb_neq ret 0)).
Qed.

Lemma find_same n n' t c : same_nodes n n' -> FindServiceMethod n' t c = FindServiceMethod n t c.
Proof using Type. clear. intros (_ & E & _). unfold FindServiceMethod. by rewrite E. Qed.

Lemma replies_same g n n' c0 app mask m r : same_nodes n n' -> replies g n' c0 app mask m r -> replies g n c0 app mask m r.
Proof using Type.
  intros E (H1 & H2 & H3 & H4 & H5). unfold replies. splits; try done. unfold answers in *. case_decide; [|done].
  destruct H5 as (conn & Hl & Ha & H5). exists conn. split; [done|]. split; [done|]. destruct (intercept _ _ _) as [[ret c] m'].
  rewrite <- (find_same n n') by done. destruct (ret =? 0); [|done]. destruct (String.eqb _ ""); [done|].
  destruct H5 as (conn' & n1 & n2 & d & A1 & A2 & A3 & A4). exists conn', n1, n2, d. split; [done|]. split; [done|]. split; [by eapply same_nodes_trans|done].
Qed.

Lemma job_for_same g n n' c0 app m job : same_nodes n n' -> job_for g n c0 app m job <-> job_for g n' c0 app m job.
Proof using Type. intros E. unfold job_for. by rewrite (find_same n n'). Qed.

Lemma forward_ok g n c0 conn m job app mask :
  well_behaved g -> node_ok n -> speaks conn app mask -> later g c0 conn -> job_for g n c0 app m job ->
  exists r conn' n', forward g n conn job.1 job.2 = Ret (r, conn', n') /\ speaks conn' app mask /\ Key conn' = Key conn /\
    Context.Id (Ctx conn') = Context.Id (Ctx conn) /\ later g c0 conn' /\ node_ok n' /\ same_nodes n n' /\ replies g n c0 app mask m r.
Proof using Type.
  intros [_ Hrsp] Hok [Ha Hm] Hl (Ea & Hc & Hs & (c1 & c2 & Hl1 & Ha1 & Ei) & Ef & Hne). destruct job as [m2 sm]. cbn [fst snd] in *.
  unfold forward. destruct (where_to_ok n conn m2 sm Hok) as (d & n' & -> & Hok' & Hcs & Hright).
  cbn [mbind go_bind]. destruct (perform d (GReq.Buff m2)) as [[code b] e] eqn:Ep.
  set (code' := match e with Some _ => _ | None => _ end).
  destruct (rsp_same (RspFuncs g) m2 b code' e Hrsp conn) as (Ha3 & Hm3 & Hk3 & Hi3).
  pose proof (rsp_later g (RspFuncs g) c0 m2 b code' e ltac:(by apply Forall_forall) conn Hl) as Hl3.
  do 3 eexists. split; [done|]. split; [split; congruence|]. split; [done|]. split; [done|]. split; [done|]. split; [done|]. split; [done|].
  unfold replies. split; [cbn [SendMessage GReq.App]; congruence|]. split; [cbn [SendMessage GReq.Mask]; congruence|].
  split; [done|]. split; [done|]. unfold answers. rewrite decide_True by done. exists c1. split; [done|]. split; [done|]. rewrite Ei. cbn [Z.eqb].
  rewrite <- Ef. destruct (String.eqb_spec sm ""); [done|]. exists conn, n, n', d. splits; try done. by rewrite Ep.
Qed.

Lemma handle_ok g n c0 conn m app mask :
  well_behaved g -> node_ok n -> GReq.App m <> "" -> app <> "" -> may_speak conn app mask m -> later g c0 conn ->
  exists r conn' n', handle_message g n conn m = Ret (r, conn', n') /\ speaks conn' app mask /\ Key conn' = Key conn /\
    Context.Id (Ctx conn') = Context.Id (Ctx conn) /\ later g c0 conn' /\ node_ok n' /\ same_nodes n n' /\ replies g n c0 app mask m r.
Proof using Type.
  intros Hg Hok Hm Happ Hconn Hl. unfold handle_message.
  destruct (dispatch_answers g n c0 conn m app mask Hg Hm Happ Hconn Hl) as ([r|m' sm] & c1 & -> & Hsp & Hk & Hi & Hl1 & HO).
  - by exists r, c1, n.
  - destruct (forward_ok g n c0 c1 m (m', sm) app mask Hg Hok Hsp Hl1 HO) as (r & c2 & n' & E & Hsp2 & Hk2 & Hi2 & Hrest).
    exists r, c2, n'. split; [done|]. split; [done|]. split; [congruence|]. split; [congruence|done].
Qed.

(** A message on the wire. *)
Definition on_stream (key : bytes) (m : Msg) (bs : bytes) : Prop :=
  bs <> [] /\ forall rest, ReadMessageWithKey (bs ++ rest) key = Ret (m, rest).

Lemma handle_loop_ok g key c0 app mask : well_behaved g -> app <> "" -> forall ms chunks fuel n conn,
  Forall2 (on_stream key) ms chunks -> node_ok n -> Key conn = key -> later g c0 conn -> (length (concat chunks) < fuel)%nat ->
  (forall m, head ms = Some m -> App conn = "" /\ app = GReq.App m /\ mask = GReq.Mask m) \/ speaks conn app mask ->
  exists rs conn' n', handle_loop fuel g n conn (concat chunks) = Some (Ret (rs, conn', n')) /\
    Context.Id (Ctx conn') = Context.Id (Ctx conn) /\
    Forall2 (replies g n c0 app mask) ms rs.
Proof using Type.
  intros Hg Happ ms. induction ms as [|m ms IH]; intros chunks fuel n conn Hch Hok Hk Hl Hf Hconn.
  { inversion Hch; subst. destruct fuel as [|fuel]; [simpl in Hf; lia|]. exists [], conn, n. by splits. }
  inversion Hch as [|? bs ? chunks' [Hne Hrd] Hch']; subst. cbn [concat] in *.
  destruct fuel as [|fuel]; [lia|]. cbn [handle_loop]. rewrite Hrd.
  assert (Hlen : (length (concat chunks') < fuel)%nat) by (rewrite length_app in Hf; destruct bs; [done|simpl in Hf; lia]).
  destruct (handle_ok g n c0 conn m app mask Hg Hok) as (r & conn1 & n1 & -> & Hsp & Hk1 & Hi1 & Hl1 & Hok1 & Hcs & Hr); try done.
  { exact (read_app _ _ _ _ (Hrd [])). }
  { destruct Hconn as [Hc|Hc]; [left; by apply Hc|by right]. }
  destruct (IH chunks' fuel n1 conn1 Hch' Hok1 Hk1 Hl1 Hlen (or_intror Hsp)) as (rs & conn2 & n2 & -> & Hi2 & HF).
  exists (r :: rs), conn2, n2. splits; [done|congruence|]. constructor; [done|].
  eapply Forall2_impl; [exact HF|]. intros m' r'. by apply replies_same.
Qed.

(** *** Calls made concurrently *)

Definition conv_inv (g : Gater) (n0 : GxNode) (c0 : ClientConn) (app : string) (mask : Z) (all : list Msg) (s : conv) : Prop :=
  exists answered waiting,
    Forall2 (replies g n0 c0 app mask) answered (sent s) /\ Forall2 (job_for g n0 c0 app) waiting (jobs s) /\
    answered ++ waiting ++ inbox s ≡ₚ all /\ node_ok (cv_node s) /\ same_nodes n0 (cv_node s) /\ later g c0 (cv_conn s) /\
    Forall (fun m => GReq.App m <> "") (inbox s) /\
    (speaks (cv_conn s) app mask \/
     jobs s = [] /\ forall m, head (inbox s) = Some m -> App (cv_conn s) = "" /\ app = GReq.App m /\ mask = GReq.Mask m).

(** What is left to do: reading a message, and running the call it may lead to. *)
Definition conv_work (s : conv) : nat := 2 * length (inbox s) + length (jobs s).

Lemma conv_step_work g s s' : conv_step g s s' -> (conv_work s' < conv_work s)%nat.
Proof using Type. destruct 1; unfold conv_work; cbn [inbox jobs]; simpl; rewrite ?length_app; simpl; lia. Qed.

Lemma conv_step_inv g n0 c0 app mask all s s' : well_behaved g -> app <> "" ->
  conv_inv g n0 c0 app mask all s -> conv_step g s s' -> conv_inv g n0 c0 app mask all s'.
Proof using Type.
  intros Hg Happ (dn & wt & Hd & Hw & Hp & Hok & Hcs & Hl & Hne & Hc) Hst.
  destruct Hst as [m ms conn n js out r conn' E|m ms conn n js out m' sm conn' E|ms conn n js1 m sm js2 out r conn' n' E];
    cbn [inbox cv_conn cv_node jobs sent] in *.
  - apply Forall_cons in Hne as [Hm Hne].
    destruct (dispatch_answers g n c0 conn m app mask Hg Hm Happ) as (o & c1 & E1 & Hsp & _ & _ & Hl1 & HO); [|done|].
    { destruct Hc as [Hc|[_ Hc]]; [by right|left; by apply Hc]. }
    rewrite E in E1. injection E1 as <- <-. exists (dn ++ [m]), wt. cbn [inbox cv_conn cv_node jobs sent]. splits; try done; [|by rewrite <- Hp; solve_Permutation|by left].
    apply Forall2_app; [done|]. constructor; [|done]. by eapply replies_same.
  - apply Forall_cons in Hne as [Hm Hne].
    destruct (dispatch_answers g n c0 conn m app mask Hg Hm Happ) as (o & c1 & E1 & Hsp & _ & _ & Hl1 & HO); [|done|].
    { destruct Hc as [Hc|[_ Hc]]; [by right|left; by apply Hc]. }
    rewrite E in E1. injection E1 as <- <-. exists dn, (wt ++ [m]). cbn [inbox cv_conn cv_node jobs sent]. splits; try done; [|by rewrite <- Hp; solve_Permutation|by left].
    apply Forall2_app; [done|]. constructor; [|done]. by eapply job_for_same.
  - apply Forall2_app_inv_r in Hw as (w1 & w2' & Hw1 & Hw2 & ->). inversion Hw2 as [|m0 ? w2 ? Hj Hw2']; subst.
    destruct Hc as [Hc|[Hc _]]; [|by destruct js1].
    destruct (forward_ok g n c0 conn m0 (m, sm) app mask Hg Hok Hc Hl) as (r' & c1 & n1 & E1 & Hsp & _ & _ & Hl1 & Hok1 & Hcs1 & Hr); [by apply (job_for_same g n0 n)|].
    cbn [fst snd] in E1. rewrite E in E1. injection E1 as <- <- <-. exists (dn ++ [m0]), (w1 ++ w2). cbn [inbox cv_conn cv_node jobs sent].
    splits; try done; [|by apply Forall2_app|by rewrite <- Hp; solve_Permutation|by eapply same_nodes_trans|by left].
    apply Forall2_app; [done|]. constructor; [|done]. by eapply replies_same.
Qed.

Lemma conv_progress g n0 c0 app mask all s : well_behaved g -> app <> "" -> conv_inv g n0 c0 app mask all s ->
  (inbox s = [] /\ jobs s = []) \/ exists s', conv_step g s s'.
Proof using Type.
  intros Hg Happ (dn & wt & Hd & Hw & Hp & Hok & Hcs & Hl & Hne & Hc). destruct s as [ms conn n js out]. cbn [inbox cv_conn cv_node jobs sent] in *.
  destruct ms as [|m ms].
  - destruct js as [|[m sm] js]; [by left|]. right. inversion Hw as [|m0 ? w2 ? Hj _]; subst. destruct Hc as [Hc|[Hc _]]; [|done].
    destruct (forward_ok g n c0 conn m0 (m, sm) app mask Hg Hok Hc Hl) as (r & c1 & n1 & E & _); [by apply (job_for_same g n0 n)|].
    eexists. exact (step_run g [] conn n [] m sm js out r c1 n1 E).
  - right. destruct (dispatch g n conn m) as [[r|m' sm] c1] eqn:E; eexists; [by apply step_answer|by eapply step_submit].
Qed.

Lemma omap_some_id (f : Z -> option Z) l : Forall (fun x => f x = Some x) l -> omap f l = l.
Proof using Type. induction 1 as [|x l Hx _ IH]; [done|]. simpl. rewrite Hx. f_equal. exact IH. Qed.

Lemma new_conn_ok g remote : table_ok g -> Z.of_nat (size (Ids g)) < 2 ^ 31 - 1 -> exists conn g',
  NewClientConn (S (size (Ids g))) g remote = Some (conn, g') /\ Context.Id (Ctx conn) ∉ Ids g /\
  Ids g' = {[Context.Id (Ctx conn)]} ∪ Ids g /\ table_ok g' /\ App conn = "" /\ Key conn = [] /\ Context.Id (Ctx conn) / 2 ^ 32 = nodeId mod 2 ^ 16 /\
  NewFuncs g' = NewFuncs g /\ ReqFuncs g' = ReqFuncs g /\ RspFuncs g' = RspFuncs g.
Proof using Type.
  clear reach. unfold table_ok. intros Hok Hsz. unfold NewClientConn.
  pose proof (newID_shape (S (size (Ids g))) g) as Hsh. destruct (newID_free g) as (id & g1 & E & Hid & Hids & Hcnt); [lia|].
  rewrite E in Hsh |- *. destruct Hsh as (_ & _ & _ & j & Hj).
  assert (Hf : NewFuncs g1 = NewFuncs g /\ ReqFuncs g1 = ReqFuncs g /\ RspFuncs g1 = RspFuncs g).
  { clear -E. revert E. generalize (S (size (Ids g))). intros k. revert g. induction k as [|k IH]; intros g; cbn [newID]; [done|].
    case_decide; [|by intros [= <- <-]]. intros E. by apply IH in E. }
  do 2 eexists. split; [done|]. cbn [Ctx Context.Id Ids set_table App Key Count NewFuncs ReqFuncs RspFuncs]. rewrite Hids, Hcnt.
  splits; try done; try apply Hf.
  - rewrite size_union by set_solver. rewrite size_singleton, Hok. rewrite wraps_small by (unfold in_s; lia). lia.
  - rewrite Hj, tried_mod. pose proof (Z.mod_pos_bound (IDCounter g + Z.of_nat j + 1) (2 ^ 32) ltac:(lia)).
    rewrite Z.add_comm, Z.div_add by lia. rewrite Z.div_small by lia. lia.
Qed.

Lemma del_conn_ok g ids conn : table_ok g -> Z.of_nat (size (Ids g)) < 2 ^ 31 -> Context.Id (Ctx conn) ∉ ids ->
  Ids g = {[Context.Id (Ctx conn)]} ∪ ids -> Ids (DelClientConn g conn) = ids /\ table_ok (DelClientConn g conn).
Proof using Type.
  clear reach nodeName. unfold table_ok. intros Hok Hsz Hn E. unfold DelClientConn. cbn [Ids Count set_table].
  assert (E' : Ids g ∖ {[Context.Id (Ctx conn)]} = ids) by (rewrite E; set_solver). rewrite E'. split; [done|].
  assert (Hs : size (Ids g) = S (size ids)) by (rewrite E, size_union by set_solver; by rewrite size_singleton).
  rewrite Hok, Hs in *. rewrite wraps_small by (unfold in_s; lia). lia.
Qed.

(** C28. The table of connections.  As long as there are fewer than 2^31 - 1 of
    them, newID finds a free id within one round more than there are connections;
    a new connection gets an id that no other one has and that carries the
    node's id; the count is the number of connections after opening and after
    closing; and ForConn visits each connection once. *)
Theorem gater_connections (g : Gater) (remote : string) (Hok : table_ok g) (Hsz : Z.of_nat (size (Ids g)) < 2 ^ 31 - 1) :
  exists conn g', NewClientConn (S (size (Ids g))) g remote = Some (conn, g') /\
    let id := Context.Id (Ctx conn) in
    id ∉ Ids g /\ id / 2 ^ 32 = nodeId mod 2 ^ 16 /\ GetConnByID g' id = Some id /\ GetCount g' = GetCount g + 1 /\
    (forall i, i <> id -> GetConnByID g' i = GetConnByID g i) /\
    Ids (DelClientConn g' conn) = Ids g /\ GetCount (DelClientConn g' conn) = GetCount g /\
    ForConn ρ g' ≡ₚ elements (Ids g').
Proof using Type.
  clear reach. destruct (new_conn_ok g remote Hok Hsz) as (conn & g' & E & Hn & Ei & Hok' & _ & _ & Hd & _). exists conn, g'. split; [done|]. cbn zeta.
  assert (Hs : size (Ids g') = S (size (Ids g))) by (rewrite Ei, size_union by set_solver; by rewrite size_singleton).
  destruct (del_conn_ok g' (Ids g) conn Hok' ltac:(lia) Hn Ei) as [D1 D2].
  unfold GetConnByID, GetCount. unfold table_ok in *. splits; try done.
  - rewrite decide_True; [done|]. rewrite Ei. set_solver.
  - rewrite Hok', Hok, Hs. lia.
  - intros i Hne. rewrite Ei. destruct (decide (i ∈ Ids g)); [rewrite decide_True by set_solver|rewrite decide_False by set_solver]; done.
  - by rewrite D2, D1, Hok.
  - unfold ForConn. rewrite (range_order_perm ρ). rewrite omap_some_id; [done|]. apply Forall_forall. intros i Hi%elem_of_elements. unfold GetConnByID. by rewrite decide_True.
Qed.

(** The connection after the interceptors of new connections, with the key they
    agreed on. *)
Definition accepts (g : Gater) (key : bytes) : Prop :=
  forall conn, Key conn = [] -> exists conn', run_new (NewFuncs g) conn = (true, conn') /\ App conn' = App conn /\ Key conn' = key /\
    Context.Id (Ctx conn') = Context.Id (Ctx conn).


End gater.

(** ** Examples *)

Module GaterSample.
#[local] Existing Instance MessageSample.cipher.
Definition request (seq cmd : Z) : Msg :=
  {| GReq.App := "game"; GReq.Mask := 0; GReq.Length := 0; GReq.Cmd := cmd; GReq.Seq := seq; GReq.Ret := 0; GReq.Buff := [];
     GReq.Disconn := false; GReq.NodeName := ""; GReq.NodeType := "" |}.
Definition chunk (m : Msg) : bytes := match WriteMessageWithKey m [] with Ret bs => bs | _ => [] end.

Lemma chunk_on_stream seq cmd : in_u 16 seq -> in_u 16 cmd -> on_stream [] (request seq cmd) (chunk (request seq cmd)).
Proof.
  intros Hs Hc. split; [done|]. intros rest. unfold chunk. rewrite (WriteMessage_header (request seq cmd) [] []) by done.
  rewrite app_nil_r. rewrite read_header; [done| |done]. by splits.
Qed.

Definition fresh : ClientConn := match NewClientConn 7 "gate1" 1 (NewGater false []) "10.0.0.9" with
  | Some (conn, _) => conn
  | None => {| Ctx := EmptyContext; Uid := ""; CommonNode := ""; GameNode := ""; App := ""; Mask := 0; Key := [] |}
  end.
Definition serve_none (d : decision) (b : bytes) : Z * bytes * option go_error := (0, b, None).
End GaterSample.

Lemma gater_connections_witness :
  exists conn g', NewClientConn 7 "gate1" 1 (NewGater true []) "10.0.0.9" = Some (conn, g') /\ Context.Id (Ctx conn) ∉ Ids (NewGater true []).
Proof.
  destruct (gater_connections 7 "gate1" range_id (NewGater true []) "10.0.0.9") as (conn & g' & E & H & _).
  - reflexivity.
  - reflexivity.
  - exists conn, g'. split; [exact E|exact H].
Defined.


