(* ===== verification/Cluster.v ===== *)
(** * Calls across the cluster: gnet/connect.go, rpc/rpc_node.go, rpc/go_client.go
    and rpc/go_server.go together

    A raw or JSON call leaves the gateway for the own server or, over a connection,
    for another node's.  [wire_call] takes the request through the client, the
    codec, the other server and back; [perform] is what RawCall, JsonCall and
    their Node variants of rpc_node.go return once the route is chosen. *)

From Stdlib Require Import ZArith Lia Ascii String.
From stdpp Require Import base numbers list strings gmap.
From S2P Require Import Prelude GoStd GnetMessage RpcCoder RpcServer RpcClient RpcNode Gater.

Module Cluster.
Section cluster.
Context {P : Proto} {L : ProtoLaws P}.
Context (gotype : RType -> GoType) (assignable : Value -> RType -> bool) (zero empty : RType -> Value) (deref : Value -> Value)
        (NullMessage : Value) (protojson_Unmarshal : GoType -> bytes -> go Value) (partial : GoType -> bytes -> Value).

Abbreviation ServeRequest := (RpcServer.ServeRequest gotype assignable zero empty deref NullMessage).
Abbreviation LocalRawCall := (RpcServer.RawCall gotype assignable zero protojson_Unmarshal partial).
Abbreviation Method_call := (RpcServer.Call assignable).
Abbreviation expected := (RpcServer.expected gotype assignable zero empty deref NullMessage).

(** ** A call over a connection *)

Definition raw_of (js : bool) : Z := if js then 2 else 1.
Definition timeout_text (js : bool) : string := if js then "JsonCall timeout" else "RawCall timeout".

(** What Client.RawCall or JsonCall returns when the call at address [p] is done. *)
Definition finished (js : bool) (c : Client) (p : nat) : go (Z * bytes * option go_error * Client) :=
  match calls c !! p with
  | Some call => r ← RawCall_result (timeout_text js) call false; Ret (r, c)
  | None => Panic "no such call"
  end.

(** Client.RawCall and JsonCall on the connection of [c] to [server]; a request
    without an answer ends in the timeout. *)
Definition wire_call (c : Client) (server : Server) (ctx : Context.t) (sm : string) (js : bool) (body : bytes)
    : go (Z * bytes * option go_error * Client) :=
  let call := RawGo (Some ctx) sm body false (raw_of js) in
  let p := length (calls c) in
  match send_register c call with
  | (c, None) => finished js c p
  | (c, Some (s, _)) =>
      match send_write call s with
      | Panic w => Panic w
      | Err e => finished js (send_failed c call s e) p
      | Ret request =>
          let timeout := r ← RawCall_result (timeout_text js) call true; Ret (r, c) in
          match ServeRequest server request with
          | Panic w => Panic w
          | Err _ => timeout
          | Ret (None, _, _) => timeout
          | Ret (Some (resp, reply), _, _) =>
              match WriteResponse resp reply with
              | Ret bs =>
                  '(response, r) ← ReadResponseHeader bs;
                  let '(c, o) := input_response c response r in
                  _ ← o; finished js c p
              | _ => timeout
              end
          end
      end
  end.

(** ** The routed call *)

(** A call of Server.RawCall as its three results; a panic is not one. *)
Definition local_result (o : go (Z * bytes * Server)) : go (Z * bytes * option go_error) :=
  match o with
  | Ret (ret, b, _) => Ret (ret, b, None)
  | Err e => Ret (0, [], Some e)
  | Panic w => Panic w
  end.

(** The nodes of the cluster: the own server, and for every client of this node its
    state and the server at the other end. *)
Record nodes := { own : Server; peer : nat -> Client * Server }.

(** mockRet, mockRsp.([]byte), mockErr; or the routed call. *)
Definition routed_call (ns : nodes) (d : decision) (body : bytes) : go (Z * bytes * option go_error) :=
  let call js ctx sm := local_result (LocalRawCall (own ns) (Some ctx) sm body js) in
  let remote js c ctx sm := '(r, _) ← wire_call (peer ns c).1 (peer ns c).2 ctx sm js body; Ret r in
  match d with
  | DMock m => Ret (mock_Ret m, to_bytes (Rsp m), ErrMsg <$> mock_Error m)
  | DLocal KRawCall ctx sm => call false ctx sm
  | DLocal KJsonCall ctx sm => call true ctx sm
  | DRemote KRawCall c ctx sm => remote false c ctx sm
  | DRemote KJsonCall c ctx sm => remote true c ctx sm
  | DError msg => Ret (1, [], Some (ErrMsg msg))
  | _ => Panic "not a raw or JSON call"
  end.

(** ** What a method does with a request *)

(** [server] has the method [sm], the request decodes (both JSON decoders agree on
    it) and the method returns [res] in the context [ctx]. *)
Record serves (server : Server) (ctx : Context.t) (sm : string) (js : bool) (body : bytes) (res : Z * option string * Value) : Prop := {
  s_found : exists sn mn mt a en ep el v,
    lookup_method server sm "rpc1" = Ret (sn, mn, mt) /\ ArgType mt = TPtr a /\ ReplyType mt = TPtr (TLeaf KOther en ep el) /\
    is_proto (gotype (TPtr a)) = true /\
    (if js then protojson_Unmarshal (gotype (TPtr a)) body = Ret v /\ json_Unmarshal (gotype (TPtr a)) body = Ret v
     else Unmarshal (gotype (TPtr a)) body = Ret v) /\
    Method_call mt (Some ctx) v (zero (TLeaf KOther en ep el)) = Ret res
}.

(** The reply can be encoded, as [rb], and an error has a text. *)
Definition answerable (js : bool) (res : Z * option string * Value) (rb : bytes) : Prop :=
  let '(ret, err, reply) := res in
  in_u 16 ret /\ err <> Some "" /\ is_proto (type_of reply) = true /\ (if js then json_Marshal reply else Marshal reply) = Ret rb.

(** The three results of the call. *)
Definition result_of (res : Z * option string * Value) (rb : bytes) : Z * bytes * option go_error :=
  match res with
  | (_, Some e, _) => (0, [], Some (ErrMsg e))
  | (ret, None, _) => (ret, rb, None)
  end.

Lemma local_serves server ctx sm js body res rb : serves server ctx sm js body res -> answerable js res rb ->
  local_result (LocalRawCall server (Some ctx) sm body js) = Ret (result_of res rb).
Proof using Type.
  intros [(sn & mn & mt & a & en & ep & el & v & Hlk & Ha & Hr & Hp & Hd & Hc)]. destruct res as [[ret err] reply]. intros (_ & _ & Hpr & Hm).
  unfold RpcServer.RawCall. rewrite Hlk. cbn [mbind go_bind]. rewrite Ha, Hr. cbn [mbind go_bind Elem]. rewrite Hp. cbn [negb].
  assert (E : match (if js then protojson_Unmarshal (gotype (TPtr a)) body else Unmarshal (gotype (TPtr a)) body) with
              | Ret v => v | _ => partial (gotype (TPtr a)) body end = v) by (destruct js; [destruct Hd as [-> _]|rewrite Hd]; done).
  rewrite E, Hc. cbn [mbind go_bind]. destruct err as [e|]; [done|]. rewrite Hpr, Hm. done.
Qed.

(** A connection that can be used. *)
Record usable (c : Client) : Prop := {
  u_ok : client_ok c;
  u_open : shutdown c = false /\ closing c = false;
  u_room : Z.of_nat (S (length (calls c))) < 2 ^ 64
}.

(** The request of the call on the wire, and that it and the answer can be written. *)
Definition request_of (c : Client) (ctx : Context.t) (sm : string) (js : bool) : Request.t :=
  {| Request.ServiceMethod := sm; Request.Seq := seq c; Request.NoResp := false; Request.Conn := Some (copy_context ctx); Request.Raw := raw_of js |}.

Record writable (c : Client) (server : Server) (ctx : Context.t) (sm : string) (js : bool) (body : bytes) : Prop := {
  w_context : Context.ok ctx;
  w_request : exists bs, send_write (RawGo (Some ctx) sm body false (raw_of js)) (seq c) = Ret bs;
  w_response : forall resp reply, expected server (request_of c ctx sm js) body = Some (resp, reply) -> exists bs, WriteResponse resp reply = Ret bs
}.

(** The answer of the server at the other end. *)
Lemma expected_serves c server ctx sm js body res rb : serves server (copy_context ctx) sm js body res -> answerable js res rb ->
  expected server (request_of c ctx sm js) body =
    Some (sendResponse NullMessage (request_of c ctx sm js) res.2 res.1.1 (default "" res.1.2)).
Proof using Type.
  intros [(sn & mn & mt & a & en & ep & el & v & Hlk & Ha & Hr & Hp & Hd & Hc)] _. destruct res as [[ret err] reply].
  unfold RpcServer.expected. cbn [Request.NoResp request_of].
  rewrite (lookup_header server (request_of c ctx sm js) "rpc1" sn mn mt Hlk), Ha, Hr. cbn [is_ptr Request.Raw Request.Conn request_of].
  assert (E : (if i32 (raw_of js) =? 2 then json_Unmarshal (gotype (TPtr a)) body else Unmarshal (gotype (TPtr a)) body) = Ret v)
    by (destruct js; [apply Hd|exact Hd]).
  rewrite E. cbn [new_reply]. rewrite Hc. done.
Qed.

(** The client's side: the call is registered under the next number. *)
Lemma register_usable c ctx sm js body : usable c -> let call := RawGo (Some ctx) sm body false (raw_of js) in
  exists c1, send_register c call = (c1, Some (seq c, length (calls c))) /\ client_ok c1 /\ calls c1 = calls c ++ [call] /\
    pending c1 !! seq c = Some (length (calls c)) /\ shutdown c1 = false /\ closing c1 = false.
Proof using Type.
  intros [Hok [Hs Hc] Hr] call. assert (Hb : bounded (send_register c call).1).
  { unfold bounded, send_register. rewrite Hs, Hc. cbn [orb fst calls]. rewrite length_app. cbn. lia. }
  pose proof (send_register_ok c call (conj eq_refl eq_refl) Hb Hok) as Hok1. unfold send_register in *. rewrite Hs, Hc in *. cbn [orb fst NoResp call RawGo new_call] in *.
  eexists. splits; [reflexivity|exact Hok1|done|apply lookup_insert_eq|done|done].
Qed.

(** The request reaches the server, which answers [a]. *)
Lemma request_served c server ctx sm js body bs a : usable c -> servable gotype server -> decode_panics ->
  Context.ok ctx -> send_write (RawGo (Some ctx) sm body false (raw_of js)) (seq c) = Ret bs ->
  expected server (request_of c ctx sm js) body = Some a -> exists e, ServeRequest server bs = Ret (Some a, e, []).
Proof using L.
  intros [Hok _ Hr] Hsv Hdp Hctx Hw Ha. pose proof (ok_seq c Hok) as Hs.
  assert (Hreq : request_ok (the_request (RawGo (Some ctx) sm body false (raw_of js)) (seq c))).
  { split; [unfold in_u; cbn; lia|]. split; [destruct js; done|done]. }
  assert (Hw' : WriteByteRequest (the_request (RawGo (Some ctx) sm body false (raw_of js)) (seq c)) body = Ret bs) by (destruct js; exact Hw).
  destruct (readRequest_item gotype assignable zero empty deref NullMessage server _ body bs [] Hsv Hdp (WriteByteRequest_item _ _ _ Hreq Hw')) as (j & Hj & Han).
  change (on_wire _ false) with (request_of c ctx sm js) in Han. rewrite Ha in Han. rewrite app_nil_r in Hj.
  unfold RpcServer.ServeRequest. rewrite Hj. destruct j as [req e|mt req argv replyv]; rewrite Han; by eexists.
Qed.

(** What the caller gets of an answer. *)
Definition answer_result (js : bool) (a : Response.t * Value) : Z * bytes * option go_error :=
  if String.eqb (Response.Error a.1) "" then (Response.Ret a.1, marshalled (raw_of js) a.2, None)
  else (0, [], Some (ErrMsg (Response.Error a.1))).

(** A call over the connection gives the answer of the server there, and leaves the
    connection usable. *)
Lemma wire_answer c server ctx sm js body a : usable c -> servable gotype server -> decode_panics -> writable c server ctx sm js body ->
  expected server (request_of c ctx sm js) body = Some a -> in_u 16 (Response.Ret a.1) ->
  exists c', wire_call c server ctx sm js body = Ret (answer_result js a, c') /\ client_ok c' /\ shutdown c' = false /\ closing c' = false /\
    length (calls c') = S (length (calls c)).
Proof using L.
  intros Hu Hsv Hdp [Hctx [bs Hbs] Hresp] Hex H16. destruct (expected_header gotype assignable zero empty deref NullMessage _ _ _ _ Hex) as (_ & Hseq & Hraw).
  destruct (register_usable c ctx sm js body Hu) as (c1 & Hreg & Hok1 & Hc1 & Hp1 & Hs1 & Hcl1).
  destruct (request_served c server ctx sm js body bs _ Hu Hsv Hdp Hctx Hbs Hex) as (e & Hserve).
  destruct a as [resp reply]. cbn [fst snd] in *. destruct (Hresp resp reply Hex) as [rbs Hrbs].
  pose proof (ok_seq c (u_ok c Hu)) as Hsq. pose proof (u_room c Hu) as Hrm. cbn [Request.Seq Request.Raw request_of] in Hseq, Hraw.
  set (call := RawGo (Some ctx) sm body false (raw_of js)) in *.
  assert (Hlast : calls c1 !! length (calls c) = Some call) by (rewrite Hc1, lookup_app_r, Nat.sub_diag by lia; done).
  destruct (response_delivers c1 (resp, reply) rbs []) as (response & mid & Hh & Hd).
  { cbn [fst]. split; [rewrite Hseq; unfold in_u; lia|]. split; [done|]. rewrite Hraw. by destruct js. }
  { exact Hrbs. }
  { intros p. cbn [fst]. rewrite Hseq, Hp1. intros [= <-]. exists call. split; [done|]. split; [done|]. by destruct js. }
  rewrite app_nil_r in Hh. exists (deliver c1 (resp, reply)).
  assert (Hdel : calls (deliver c1 (resp, reply)) = alter (finish (resp, reply)) (length (calls c)) (calls c1) /\
    shutdown (deliver c1 (resp, reply)) = false /\ closing (deliver c1 (resp, reply)) = false).
  { unfold deliver. cbn [fst]. rewrite Hseq, Hp1. done. }
  destruct Hdel as (Hdc & Hds & Hdcl). splits; [|..|done|done|].
  - unfold wire_call. fold call. rewrite Hreg, Hbs, Hserve, Hrbs, Hh. cbn [mbind go_bind]. rewrite Hd. cbn [mbind go_bind].
    unfold finished. rewrite Hdc, list_lookup_alter_eq, Hlast. cbn [fmap option_fmap option_map].
    unfold finish, RawCall_result, answer_result. cbn [fst snd]. by destruct (String.eqb (Response.Error resp) ""), js.
  - pose proof (input_response_ok c1 response mid Hok1) as Hi. rewrite Hd in Hi. by apply Hi.
  - rewrite Hdc, length_alter, Hc1, length_app. cbn. lia.
Qed.

Lemma wire_serves c server ctx sm js body res rb : usable c -> servable gotype server -> decode_panics -> writable c server ctx sm js body ->
  serves server (copy_context ctx) sm js body res -> answerable js res rb ->
  exists c', wire_call c server ctx sm js body = Ret (result_of res rb, c').
Proof using L.
  intros Hu Hsv Hdp Hw Hse Han. pose proof (expected_serves c server ctx sm js body res rb Hse Han) as Hex. destruct res as [[ret err] reply].
  destruct Han as (H16 & He & _ & Hm). destruct (wire_answer c server ctx sm js body _ Hu Hsv Hdp Hw Hex H16) as (c' & E & _). exists c'. rewrite E.
  unfold answer_result, result_of. cbn [fst snd sendResponse Response.Error Response.Ret]. destruct err as [x|].
  - change (default "" (Some x)) with x. by destruct (String.eqb_spec x ""); [congruence|].
  - change (default "" None) with "". unfold marshalled. destruct js; cbn; rewrite Hm; done.
Qed.

(** A method that panics is where it matters which server it is: another node answers
    with an error, a call in the own process panics in the caller. *)
Lemma panic_differs c server ctx sm js body sn mn mt a en ep el v w : usable c -> servable gotype server -> decode_panics -> writable c server ctx sm js body ->
  lookup_method server sm "rpc1" = Ret (sn, mn, mt) -> ArgType mt = TPtr a -> ReplyType mt = TPtr (TLeaf KOther en ep el) ->
  is_proto (gotype (TPtr a)) = true ->
  (if js then protojson_Unmarshal (gotype (TPtr a)) body = Ret v /\ json_Unmarshal (gotype (TPtr a)) body = Ret v else Unmarshal (gotype (TPtr a)) body = Ret v) ->
  (forall x, Method_call mt (Some x) v (zero (TLeaf KOther en ep el)) = Panic w) ->
  (exists c', wire_call c server ctx sm js body = Ret (0, [], Some (ErrMsg "server exception"), c')) /\
  LocalRawCall server (Some ctx) sm body js = Panic w.
Proof using L.
  intros Hu Hsv Hdp Hw Hlk Ha Hr Hp Hd Hc. split.
  - assert (Hex : expected server (request_of c ctx sm js) body =
      Some (sendResponse NullMessage (request_of c ctx sm js) (zero (TLeaf KOther en ep el)) 1 "server exception")).
    { unfold RpcServer.expected. cbn [Request.NoResp request_of]. rewrite (lookup_header server (request_of c ctx sm js) "rpc1" sn mn mt Hlk), Ha, Hr.
      cbn [is_ptr Request.Raw Request.Conn request_of new_reply].
      assert (E : (if i32 (raw_of js) =? 2 then json_Unmarshal (gotype (TPtr a)) body else Unmarshal (gotype (TPtr a)) body) = Ret v)
        by (destruct js; [apply Hd|exact Hd]).
      by rewrite E, Hc. }
    destruct (wire_answer c server ctx sm js body _ Hu Hsv Hdp Hw Hex) as (c' & E & _); [done|]. exists c'. by rewrite E.
  - unfold RpcServer.RawCall. rewrite Hlk. cbn [mbind go_bind]. rewrite Ha, Hr. cbn [mbind go_bind Elem]. rewrite Hp. cbn [negb].
    destruct js; [destruct Hd as [-> _]|rewrite Hd]; by rewrite Hc.
Qed.

(** ** Through the gateway *)

Context (reach : string -> bool) (ρ : RangeOrder) (newId : Z) (perform : decision -> bytes -> Z * bytes * option go_error).

(** Where a message for the service [svc] can go: the own server, or the node [nm]. *)
Definition local_target (n : GxNode) (msg : Msg) (svc : string) : Prop :=
  if String.eqb (GReq.NodeName msg) "" then svc ∈ Services n else GReq.NodeName msg = self n.
Definition remote_target (n : GxNode) (msg : Msg) (svc nm : string) : Prop :=
  if String.eqb (GReq.NodeName msg) "" then svc ∉ Services n /\ offers reach n svc nm
  else nm = GReq.NodeName msg /\ nm <> self n /\ available reach n nm = true.

Definition kind_of (msg : Msg) : kind_of_call := if isJson msg then KJsonCall else KRawCall.

(** Without a mock and without pinned nodes, a message with a target is routed to one. *)
Lemma where_to_target n conn msg sm : let svc := (splitServiceMethod sm).1 in let ctx := call_context newId conn msg in
  node_ok n -> callMock n sm = None -> Context.Nodes (Ctx conn) = [] -> (local_target n msg svc \/ exists nm, remote_target n msg svc nm) ->
  exists d n', where_to reach ρ newId n conn msg sm = Ret (d, n') /\ node_ok n' /\
    ((local_target n msg svc /\ d = DLocal (kind_of msg) ctx sm) \/
     exists nm c, remote_target n msg svc nm /\ client_of n' nm c /\ d = DRemote (kind_of msg) c ctx sm).
Proof using Type.
  intros svc ctx Hok Hmock Hnodes Ht. unfold where_to, kind_of, local_target, remote_target in *. fold ctx.
  destruct (String.eqb (GReq.NodeName msg) "") eqn:En; cbn [negb].
  - assert (Hr : forall k m, exists d n', route reach ρ k m n ctx sm = Ret (d, n') /\ node_ok n' /\
      ((svc ∈ Services n /\ d = DLocal k ctx sm) \/ exists nm c, (svc ∉ Services n /\ offers reach n svc nm) /\ client_of n' nm c /\ d = DRemote k c ctx sm)).
    { intros k m. destruct (route_spec reach ρ k m n ctx sm Hok) as (d & n' & E & Hok' & _ & H). exists d, n'. splits; [done|done|].
      rewrite Hmock in H. change (Context.Nodes ctx) with (Context.Nodes (Ctx conn)) in H. rewrite Hnodes in H. cbn [by_context] in H. fold svc in H.
      case_decide as Hd; [by left|right]. destruct H as [(c & nm & -> & Ho & Hc & _)|[Hno _]]; [by exists nm, c|].
      destruct Ht as [?|(nm & _ & Ho)]; [done|by destruct (Hno nm)]. }
    destruct (isJson msg); apply Hr.
  - assert (Hr : forall k m, exists d n', to_node reach k m n ctx (GReq.NodeName msg) sm = Ret (d, n') /\ node_ok n' /\
      ((GReq.NodeName msg = self n /\ d = DLocal k ctx sm) \/
       exists nm c, (nm = GReq.NodeName msg /\ nm <> self n /\ available reach n nm = true) /\ client_of n' nm c /\ d = DRemote k c ctx sm)).
    { intros k m. unfold to_node. rewrite Hmock. destruct (String.eqb_spec (GReq.NodeName msg) (self n)) as [E|E]; [by exists (DLocal k ctx sm), n; splits; auto|].
      destruct Ht as [?|(nm & -> & _ & Hav)]; [done|]. unfold GetNode.
      destruct (getNode_spec reach n (GReq.NodeName msg) Hok) as (o & n' & -> & Hok' & _ & Ho & _ & Hc). cbn [mbind go_bind].
      destruct o as [c|]; [|destruct Ho as [Ho _]; rewrite Ho in Hav; done]. do 2 eexists. splits; [done|done|]. right. exists (GReq.NodeName msg), c. splits; auto. by apply Hc. }
    destruct (isJson msg); apply Hr.
Qed.

(** A connection to a server that has the method. *)
Record connected (cs : Client * Server) (ctx : Context.t) (sm : string) (js : bool) (body : bytes) (res : Z * option string * Value) : Prop := {
  cn_usable : usable cs.1;
  cn_servable : servable gotype cs.2;
  cn_writable : writable cs.1 cs.2 ctx sm js body;
  cn_serves : serves cs.2 ctx sm js body res
}.

Lemma copy_context_id ctx : Context.Nodes ctx = [] -> copy_context ctx = ctx.
Proof using Type. intros E. destruct ctx. unfold copy_context. cbn in *. by subst. Qed.

(** C4. A call is the same wherever it is served.  A message of a client that names
    a known command is answered with what the method returns, encoded as the client
    asked (protobuf or JSON): its return code and reply, or code 1 and no data when
    it returns an error; whether the service runs in the gateway's own process
    or on another node, on whichever of several nodes that offer it, or on the node
    that the message names, and whatever calls that connection has carried before.
    The bytes of the request go through the client's table, the wire format and the
    other server's dispatch, and those of the reply all the way back.  [perform] is
    what the routed call returns; pinned nodes in the context are excluded, since
    they are not sent. *)
Theorem gateway_location_transparent (ns : nodes) (g : Gater) (n : GxNode) (conn conn1 : ClientConn) (msg msg' : Msg) (sm : string)
    (res : Z * option string * Value) (rb : bytes)
    (Hperform : forall d b r, routed_call ns d b = Ret r -> perform d b = r) (Hok : node_ok n) (Hdp : decode_panics)
    (Hdispatch : dispatch g n conn msg = (Gater.Call msg' sm, conn1))
    (Hmock : callMock n sm = None) (Hnodes : Context.Nodes (Ctx conn1) = []) (Hans : answerable (isJson msg') res rb)
    (Htarget : local_target n msg' (splitServiceMethod sm).1 \/ exists nm, remote_target n msg' (splitServiceMethod sm).1 nm)
    (Hown : local_target n msg' (splitServiceMethod sm).1 ->
       serves (own ns) (call_context newId conn1 msg') sm (isJson msg') (GReq.Buff msg') res)
    (Hpeers : forall d n' nm c, where_to reach ρ newId n conn1 msg' sm = Ret (d, n') ->
       remote_target n msg' (splitServiceMethod sm).1 nm -> client_of n' nm c ->
       connected (peer ns c) (call_context newId conn1 msg') sm (isJson msg') (GReq.Buff msg') res) :
  exists r conn2 n', handle_message reach ρ newId perform g n conn msg = Ret (r, conn2, n') /\ node_ok n' /\
    GReq.Cmd r = GReq.Cmd msg' /\ GReq.Seq r = GReq.Seq msg' /\
    (GReq.Ret r, GReq.Buff r) = match res.1.2 with Some _ => (1, []) | None => (res.1.1, rb) end.
Proof using L.
  destruct (where_to_target n conn1 msg' sm Hok Hmock Hnodes Htarget) as (d & n' & Ew & Hok' & Hd).
  assert (Hp : perform d (GReq.Buff msg') = result_of res rb).
  { apply Hperform. unfold kind_of in Hd. destruct Hd as [[Hl ->]|(nm & c & Hr & Hc & ->)].
    - pose proof (local_serves _ _ _ _ _ _ _ (Hown Hl) Hans) as Hlocal. destruct (isJson msg'); exact Hlocal.
    - destruct (Hpeers _ n' nm c Ew Hr Hc) as [Hu Hsv Hw Hs].
      destruct (wire_serves (peer ns c).1 (peer ns c).2 (call_context newId conn1 msg') sm (isJson msg') (GReq.Buff msg') res rb) as (c' & Hwire); try done.
      { by rewrite copy_context_id. }
      destruct (isJson msg'); cbn [routed_call]; rewrite Hwire; done. }
  unfold handle_message. rewrite Hdispatch. unfold forward. rewrite Ew. cbn [mbind go_bind]. rewrite Hp.
  destruct res as [[ret err] reply]. destruct Hans as [Hret _]. cbn [fst snd result_of]. destruct err as [e|]; cbn [result_of].
  - do 3 eexists. splits; [reflexivity|done|done|done|done].
  - do 3 eexists. splits; [reflexivity|done|done|done|]. cbn. by rewrite wrapu_small.
Qed.
End cluster.
End Cluster.

(** ** Example: the gateway "gate1" and the node "db1" with the service Db *)

Module ClusterSample.
Import RpcServer.Sample.
Definition protojson (t : GoType) (b : bytes) : go (@Value SampleProto) := json_Unmarshal t b.
Definition unread (t : GoType) (b : bytes) : @Value SampleProto := VNull.
Definition ns : @Cluster.nodes SampleProto :=
  {| Cluster.own := NewServer; Cluster.peer := fun _ => (RpcClient.Dial [WithName "db1"], Sample.server) |}.
Definition call := Cluster.routed_call gotype assignable zero zero deref VNull protojson unread ns.
Definition perform (d : decision) (b : bytes) : Z * bytes * option go_error := match call d b with Ret r => r | _ => (0, [], None) end.

Definition ask : Msg :=
  {| GReq.App := "game"; GReq.Mask := 0; GReq.Length := 0; GReq.Cmd := 17; GReq.Seq := 4; GReq.Ret := 0;
     GReq.Buff := written (Marshal (Sample.msg "x")); GReq.Disconn := false; GReq.NodeName := ""; GReq.NodeType := "" |}.
Definition bound : ClientConn := bind_app GaterSample.fresh ask.
Definition ctx : Context.t := call_context 1 bound ask.
Definition res : Z * option string * @Value SampleProto := (0, None, Sample.msg "hello x").

Lemma returns {A} (o : go A) : match o with Ret _ => true | _ => false end = true -> exists b, o = Ret b.
Proof. destruct o; [by eexists|done..]. Qed.

Lemma peer_connected : Cluster.connected gotype assignable zero zero deref VNull protojson (RpcClient.Dial [WithName "db1"], Sample.server) ctx "Db.Get" false (GReq.Buff ask) res.
Proof.
  split; cbn [fst snd].
  - split; [apply new_client_ok; intros o ->%list_elem_of_singleton; left; by exists "db1"|done|by vm_compute].
  - apply Sample.server_servable.
  - split.
    + apply (bool_decide_unpack _). vm_compute. exact I.
    + apply returns. by vm_compute.
    + intros resp reply H. vm_compute in H. injection H as <- <-. apply returns. by vm_compute.
  - split. exists "Db", "Get", get_method, text, "Text", "pb", None, (Sample.msg "x"). splits; done.
Qed.

Lemma db_elsewhere : (splitServiceMethod "Db.Get").1 ∉ Services NodeSample.connected.
Proof. apply (bool_decide_unpack ((splitServiceMethod "Db.Get").1 ∉ Services NodeSample.connected)). by vm_compute. Qed.

Lemma db_offered : offers NodeSample.reach NodeSample.connected (splitServiceMethod "Db.Get").1 "db1".
Proof.
  split; [|by vm_compute]. apply (bool_decide_unpack ("db1" ∈ default ∅ (ServiceNode NodeSample.connected !! (splitServiceMethod "Db.Get").1))).
  by vm_compute.
Qed.
End ClusterSample.

Lemma gateway_location_transparent_witness : exists r conn2 n',
  handle_message NodeSample.reach range_id 1 ClusterSample.perform (NewGater true []) NodeSample.connected GaterSample.fresh ClusterSample.ask = Ret (r, conn2, n') /\
  GReq.Buff r = written (Marshal (Sample.msg "hello x")).
Proof.
  destruct (Cluster.gateway_location_transparent Sample.gotype Sample.assignable Sample.zero Sample.zero Sample.deref VNull
    ClusterSample.protojson ClusterSample.unread NodeSample.reach range_id 1 ClusterSample.perform ClusterSample.ns (NewGater true []) NodeSample.connected
    GaterSample.fresh ClusterSample.bound ClusterSample.ask ClusterSample.ask "Db.Get" ClusterSample.res (written (Marshal (Sample.msg "hello x"))))
    as (r & conn2 & n' & E & _ & _ & _ & Hr).
  - intros d b r Hr. unfold ClusterSample.perform, ClusterSample.call. rewrite Hr. reflexivity.
  - exact NodeSample.connected_ok.
  - exact Sample.decodes.
  - vm_compute. reflexivity.
  - vm_compute. reflexivity.
  - vm_compute. reflexivity.
  - split; [unfold in_u; lia|]. split; [discriminate|]. split; vm_compute; reflexivity.
  - right. exists "db1". split; [exact ClusterSample.db_elsewhere|exact ClusterSample.db_offered].
  - intros Hl. exfalso. exact (ClusterSample.db_elsewhere Hl).
  - intros d n' nm c _ _ _. exact ClusterSample.peer_connected.
  - exists r, conn2, n'. split; [exact E|]. injection Hr as _ Hb. exact Hb.
Defined.
