(* ===== verification/Http.v ===== *)
(** * HTTP entrances: gnet/http.go, gnet/fast_http.go and rpc/http.go

    Three handlers turn a request for /api/{service}/{method} or
    /rpcapi/{node}/{service}/{method} into a JSON call.  [perform] is what the
    chosen call returns, or a panic; json.Marshal of an error reply is [Marshal].
    A response of net/http sends the headers it has when the status is written;
    fasthttp sends the response as it is at the end. *)

From Stdlib Require Import ZArith Lia Ascii String.
From stdpp Require Import base numbers list strings gmap.
From S2P Require Import Prelude GoStd Misc RpcCoder RpcServer RpcNode.

(** ** Requests and responses *)

Record HttpRequest := {
  Method : string; Path : string; RemoteAddr : string; ForwardedFor : string;
  Query : gmap string (list string); Body : go bytes
}.

(** http.ResponseWriter *)
Record ResponseWriter := { Header : gmap string string; sent : option (Z * gmap string string); out : bytes }.
Definition fresh : ResponseWriter := {| Header := ∅; sent := None; out := [] |}.

Definition set_header (w : ResponseWriter) (k v : string) : ResponseWriter :=
  {| Header := <[k := v]> (Header w); sent := sent w; out := out w |}.
Definition WriteHeader (w : ResponseWriter) (code : Z) : ResponseWriter :=
  {| Header := Header w; sent := match sent w with None => Some (code, Header w) | s => s end; out := out w |}.
Definition write (w : ResponseWriter) (b : bytes) : ResponseWriter :=
  let w := WriteHeader w 200 in {| Header := Header w; sent := sent w; out := out w ++ b |}.
(** http.Error *)
Definition http_error (w : ResponseWriter) (msg : string) (code : Z) : ResponseWriter :=
  let w := set_header (set_header w "Content-Type" "text/plain; charset=utf-8") "X-Content-Type-Options" "nosniff" in
  write (WriteHeader w code) (to_bytes msg ++ [nl]).

(** The response of fasthttp. *)
Record FastResponse := { fstatus : Z; fheader : gmap string string; fout : bytes }.
Definition fast_fresh : FastResponse := {| fstatus := 200; fheader := ∅; fout := [] |}.

Definition no_context (remote : string) (kvs : gmap string string) : Context.t :=
  {| Context.GateName := ""; Context.Remote := remote; Context.Id := 0; Context.Token := ""; Context.Uid := 0;
     Context.Nodes := []; Context.CallId := 0; Context.Game := ""; Context.Kvs := kvs; Context.Ps := ∅ |}.

Definition remote_of (forwarded addr : string) : string :=
  let ip := if negb (String.eqb forwarded "") && negb (String.eqb forwarded "unknown")
            then match Split "," forwarded with x :: _ => x | [] => "" end else forwarded in
  if String.eqb ip "" then match Split ":" addr with x :: _ => x | [] => "" end else ip.
Definition getRemote (r : HttpRequest) : string := remote_of (ForwardedFor r) (RemoteAddr r).
(** getRemote2: RemoteAddr is RemoteIP().String(). *)
Definition getRemote2 (r : HttpRequest) : string := remote_of (ForwardedFor r) (RemoteAddr r).

(** The copy in rpc/http.go. *)
Definition rpc_getRemote2 (r : HttpRequest) : string := remote_of (ForwardedFor r) (RemoteAddr r).

Definition err_text (e : go_error) : string :=
  match e with EOF => "EOF" | ErrUnexpectedEOF => "unexpected EOF" | ErrMsg s => s end.

Definition default_body (b : bytes) : bytes := match b with [] => to_bytes "{}" | _ => b end.

Section http.
Context (reach : string -> bool) (ρ : RangeOrder) (perform : decision -> bytes -> go (Z * bytes * option go_error)).
Context (Marshal : Z -> string -> go bytes).       (* json.Marshal of the map with code and codeMsg *)

Definition JsonResponse (w : ResponseWriter) (code : Z) (codeMsg : string) : ResponseWriter :=
  match Marshal code codeMsg with
  | Ret json => write (set_header (WriteHeader w 200) "Content-Type" "application/json") json
  | Err e => http_error w (err_text e) 500
  | Panic _ => w
  end.

Definition set_json (c : FastResponse) (b : bytes) : FastResponse :=
  {| fstatus := 200; fheader := <["Content-Type" := "application/json"]> (fheader c); fout := fout c ++ b |}.
Definition JsonResponse2 (c : FastResponse) (code : Z) (codeMsg : string) : FastResponse :=
  match Marshal code codeMsg with
  | Ret json => set_json c json
  | Err e => {| fstatus := 500; fheader := {["Content-Type" := "text/plain; charset=utf-8"]}; fout := to_bytes (err_text e) |}
  | Panic _ => c
  end.

Definition rpc_JsonResponse2 := JsonResponse2.

(** The variables a protected call sets: rspBuff, err and the node. *)
Definition call_vars : Type := bytes * option go_error * GxNode.

Definition run_call (where_to : GxNode -> go (decision * GxNode)) (reqBuff : bytes) (s : call_vars) : call_vars * option string :=
  let '(rsp, err, n) := s in
  match where_to n with
  | Panic w => (s, Some w)
  | Err e => ((rsp, Some e, n), None)
  | Ret (d, n) =>
      match perform d reqBuff with
      | Ret (_, b, e) => ((b, e, n), None)
      | Err e => (([], Some e, n), None)
      | Panic w => ((rsp, err, n), Some w)
      end
  end.

Definition internal_error (s : call_vars) : call_vars * option string :=
  let '(rsp, _, n) := s in ((rsp, Some (ErrMsg "server internal error"), n), None).

Definition protected (where_to : GxNode -> go (decision * GxNode)) (reqBuff : bytes) (n : GxNode) : call_vars :=
  (ProtectCall (run_call where_to reqBuff) (Some internal_error) ([], None, n)).1.

Definition service_method (service method : string) : string := Upper service 1 +:+ "." +:+ Upper method 1.

(** The first value of each query parameter. *)
Definition kvs_of (q : gmap string (list string)) : gmap string string := omap head q.

Definition cors (w : ResponseWriter) : ResponseWriter :=
  set_header (set_header (set_header w "Access-Control-Allow-Origin" "*")
    "Access-Control-Allow-Methods" "POST, GET, OPTIONS, PUT, DELETE")
    "Access-Control-Allow-Headers" "Content-Type, Content-Length, Authorization, Accept, X-Requested-With".

(** gnet/http.go *)
Definition ProtectedHandler (w : ResponseWriter) (r : HttpRequest) (n : GxNode) : ResponseWriter * GxNode :=
  let w := cors w in
  if negb (String.eqb (Method r) "POST") then (JsonResponse w 1 "只支持POST方法", n)
  else
    let remote := getRemote r in
    match Split "/" (Path r) with
    | [_; api; service; method] =>
        if negb (String.eqb api "api") then (JsonResponse w 1 "请求地址格式错误", n)
        else
          match Body r with
          | Ret b =>
              let ctx := no_context remote (kvs_of (Query r)) in
              let '(rspBuff, err, n) := protected (fun n => JsonCall reach ρ n ctx (service_method service method)) (default_body b) n in
              match err with
              | Some e => (JsonResponse w 1 (err_text e), n)
              | None => (write (set_header (WriteHeader w 200) "Content-Type" "application/json") rspBuff, n)
              end
          | _ => (JsonResponse w 1 "读取数据失败", n)
          end
    | _ => (JsonResponse w 1 "请求地址格式错误", n)
    end.

Definition ValidateTokenMiddleware (w : ResponseWriter) (r : HttpRequest) (next : ResponseWriter -> HttpRequest -> ResponseWriter * GxNode) :=
  next w r.

(** gnet/fast_http.go; the body is read by the server. *)
Definition ProtectedHandler2 (r : HttpRequest) (body : bytes) (n : GxNode) : FastResponse * GxNode :=
  let c := {| fstatus := 200; fheader := Header (cors fresh); fout := [] |} in
  match Split "/" (Path r) with
  | [_; api; service; method] =>
      if negb (String.eqb api "api") then (JsonResponse2 c 1 "请求地址格式错误", n)
      else
        let ctx := no_context (getRemote2 r) ∅ in
        let '(rspBuff, err, n) := protected (fun n => JsonCall reach ρ n ctx (service_method service method)) (default_body body) n in
        match err with
        | Some e => (JsonResponse2 c 1 (err_text e), n)
        | None => (set_json c rspBuff, n)
        end
  | _ => (JsonResponse2 c 1 "请求地址格式错误", n)
  end.

(** rpc/http.go: the node, service and method of a path. *)
Definition rpc_path (path : string) : option (string * string * string) :=
  match Split "/" path with
  | [_; api; service; method] => if String.eqb api "rpcapi" then Some ("", service, method) else None
  | [_; api; node; service; method] => if String.eqb api "rpcapi" then Some (node, service, method) else None
  | _ => None
  end.

Definition rpcHandler (r : HttpRequest) (body : bytes) (n : GxNode) : FastResponse * GxNode :=
  let remote := rpc_getRemote2 r in
  match rpc_path (Path r) with
  | None => (rpc_JsonResponse2 fast_fresh 1 "请求地址格式错误", n)
  | Some (nodeName, service, method) =>
      let ctx := no_context remote ∅ in
      let sm := service_method service method in
      let '(rspBuff, err, n) := protected (fun n => if negb (String.eqb nodeName "") then NodeJsonCallWithConn reach n ctx nodeName sm
                                                    else JsonCall reach ρ n ctx sm) (default_body body) n in
      match err with
      | Some e => (rpc_JsonResponse2 fast_fresh 1 (err_text e), n)
      | None => (set_json fast_fresh rspBuff, n)
      end
  end.

(** ** What is answered *)

(** The data of a call, or the text of its error. *)
Definition result_of (o : go (Z * bytes * option go_error)) : bytes + string :=
  match o with
  | Ret (_, b, None) => inl b
  | Ret (_, _, Some e) | Err e => inr (err_text e)
  | Panic _ => inr "server internal error"
  end.

Context (json : Z -> string -> bytes).
Definition answer_of (o : go (Z * bytes * option go_error)) : bytes :=
  match result_of o with inl b => b | inr msg => json 1 msg end.

Lemma protected_spec where_to b n d n' : where_to n = Ret (d, n') -> exists rsp err,
  protected where_to b n = (rsp, err, n') /\
  result_of (perform d b) = match err with None => inl rsp | Some e => inr (err_text e) end.
Proof using Type.
  clear json Marshal. intros E. unfold protected, ProtectCall, run_call. rewrite E. destruct (perform d b) as [[[c rsp] [e|]]|e|w]; cbn [fst internal_error]; by do 2 eexists.
Qed.

Lemma answer_of_result rsp err o : result_of o = match err with None => inl rsp | Some e => inr (err_text e) end ->
  answer_of o = match err with None => rsp | Some e => json 1 (err_text e) end.
Proof using Type. clear reach Marshal. unfold answer_of. intros ->. by destruct err. Qed.

Definition no_slash (s : string) : Prop := all_bytes (fun c => c <> "/"%char) s.

(** The forms of the paths; what is before the first slash does not matter. *)
Definition api_path (p pre service method : string) : Prop :=
  no_slash pre /\ no_slash service /\ no_slash method /\ p = pre +:+ "/api/" +:+ service +:+ "/" +:+ method.
Definition rpcapi_path (p pre service method : string) : Prop :=
  no_slash pre /\ no_slash service /\ no_slash method /\ p = pre +:+ "/rpcapi/" +:+ service +:+ "/" +:+ method.
Definition rpcapi_node_path (p pre node service method : string) : Prop :=
  no_slash pre /\ no_slash node /\ no_slash service /\ no_slash method /\
  p = pre +:+ "/rpcapi/" +:+ node +:+ "/" +:+ service +:+ "/" +:+ method.

Lemma split_iff p parts : parts <> [] -> Split "/" p = parts <-> Forall no_slash parts /\ p = Join parts "/".
Proof using Type.
  clear. intros Hne. split; [intros <-; split; [apply Split_free|symmetry; apply Join_Split]|intros [H ->]; by apply Split_Join].
Qed.

Lemma no_slash_api : no_slash "api" /\ no_slash "rpcapi".
Proof using Type. split; repeat (constructor; [done|]); constructor. Qed.

Lemma api_path_split p pre service method : api_path p pre service method <-> Split "/" p = [pre; "api"; service; method].
Proof using Type. clear. rewrite split_iff by done. unfold api_path. rewrite !Forall_cons, Forall_nil. pose proof (proj1 no_slash_api). tauto. Qed.

Lemma rpcapi_path_split p pre service method : rpcapi_path p pre service method <-> Split "/" p = [pre; "rpcapi"; service; method].
Proof using Type. clear. rewrite split_iff by done. unfold rpcapi_path. rewrite !Forall_cons, Forall_nil. pose proof (proj2 no_slash_api). tauto. Qed.

Lemma rpcapi_node_path_split p pre node service method :
  rpcapi_node_path p pre node service method <-> Split "/" p = [pre; "rpcapi"; node; service; method].
Proof using Type. clear. rewrite split_iff by done. unfold rpcapi_node_path. rewrite !Forall_cons, Forall_nil. pose proof (proj2 no_slash_api). tauto. Qed.

Context (Hmarshal : forall code msg, Marshal code msg = Ret (json code msg)).

(** The headers that a reply of net/http carries. *)
Definition plain_headers : gmap string string := Header (cors fresh).

Lemma JsonResponse_sent msg : JsonResponse (cors fresh) 1 msg =
  {| Header := <["Content-Type" := "application/json"]> plain_headers; sent := Some (200, plain_headers); out := json 1 msg |}.
Proof using Hmarshal. clear reach. unfold JsonResponse. by rewrite Hmarshal. Qed.

Lemma JsonResponse2_sent c msg : JsonResponse2 c 1 msg = set_json c (json 1 msg).
Proof using Hmarshal. clear reach. unfold JsonResponse2. by rewrite Hmarshal. Qed.

(** Ends a case: the call is [E] and its result [Eres]. *)
Ltac reply_is E Hok Eres :=
  apply answer_of_result in Eres;
  match type of Eres with answer_of (perform ?d _) = match ?err with _ => _ end =>
    match type of E with _ = Ret (_, ?n') => exists d, n'; rewrite Eres; destruct err; eexists;
      (split; [exact E|]); (split; [exact Hok|]); (split; [reflexivity|]); rewrite ?JsonResponse_sent, ?JsonResponse2_sent; done end end.

(** Requests that are answered without a call. *)
Lemma refused r n msg : (Method r <> "POST" /\ msg = "只支持POST方法") \/
     (Method r = "POST" /\ (~ exists pre service method, api_path (Path r) pre service method) /\ msg = "请求地址格式错误") \/
     (Method r = "POST" /\ (exists pre service method, api_path (Path r) pre service method) /\ (forall b, Body r <> Ret b) /\ msg = "读取数据失败") ->
  exists w, ProtectedHandler fresh r n = (w, n) /\ out w = json 1 msg /\ sent w = Some (200, plain_headers).
Proof using Hmarshal.
  intros H. assert (E : ProtectedHandler fresh r n = (JsonResponse (cors fresh) 1 msg, n)); [|rewrite E, JsonResponse_sent; by eexists].
  unfold ProtectedHandler. destruct H as [[Hm ->]|[(-> & Hp & ->)|(-> & (pre & s & m & Hp%api_path_split) & Hb & ->)]].
  - by destruct (String.eqb_spec (Method r) "POST").
  - cbn [String.eqb Ascii.eqb Bool.eqb negb]. destruct (Split "/" (Path r)) as [|x1 [|x2 [|x3 [|x4 [|x5 l]]]]] eqn:Es; try done.
    destruct (String.eqb_spec x2 "api") as [->|]; [|done]. destruct Hp. exists x1, x3, x4. by apply api_path_split.
  - rewrite Hp. cbn [String.eqb Ascii.eqb Bool.eqb negb]. destruct (Body r) as [b| |]; [by destruct (Hb b)|done..].
Qed.

Lemma refused2 r n b : (~ exists pre service method, api_path (Path r) pre service method) ->
  exists c, ProtectedHandler2 r b n = (c, n) /\ fout c = json 1 "请求地址格式错误".
Proof using Hmarshal.
  intros Hp. unfold ProtectedHandler2.
  destruct (Split "/" (Path r)) as [|x1 [|x2 [|x3 [|x4 [|x5 l]]]]] eqn:Es; try (rewrite JsonResponse2_sent; by eexists).
  destruct (String.eqb_spec x2 "api") as [->|]; [|rewrite JsonResponse2_sent; by eexists]. destruct Hp. exists x1, x3, x4. by apply api_path_split.
Qed.

Lemma refused_rpc r n b : (~ exists pre service method, rpcapi_path (Path r) pre service method) ->
  (~ exists pre node service method, rpcapi_node_path (Path r) pre node service method) ->
  exists c, rpcHandler r b n = (c, n) /\ fout c = json 1 "请求地址格式错误".
Proof using Hmarshal.
  intros Hp Hp'. unfold rpcHandler, rpc_path, rpc_JsonResponse2.
  destruct (Split "/" (Path r)) as [|x1 [|x2 [|x3 [|x4 [|x5 [|x6 l]]]]]] eqn:Es; try (rewrite JsonResponse2_sent; by eexists);
    (destruct (String.eqb_spec x2 "rpcapi") as [->|]; [|rewrite JsonResponse2_sent; by eexists]).
  - destruct Hp. exists x1, x3, x4. by apply rpcapi_path_split.
  - destruct Hp'. exists x1, x3, x4, x5. by apply rpcapi_node_path_split.
Qed.

(** C27. Every request and what is answered.  A POST to /api/{service}/{method} whose
    body can be read makes exactly the JSON call of that method, with the first letters in
    upper case, the body or {}, the query and the caller's address, and is answered with
    status 200: the data of the call, or code 1 with the text of its error, also when the
    call panics.  Another method, any other path, and a body that cannot be read are
    answered with code 1 and their message, without a call.  The handlers of fasthttp do
    the same on their paths, the one of the RPC layer on /rpcapi/{service}/{method} and,
    by a call to that node, on /rpcapi/{node}/{service}/{method}; every other path is
    refused.  The replies of net/http never carry the JSON content type: it is set after
    the status is written; those of fasthttp do. *)
Theorem http_gateway (r : HttpRequest) (n : GxNode) (Hn : node_ok n) :
  (forall pre service method b, Method r = "POST" -> Body r = Ret b -> api_path (Path r) pre service method ->
     exists d n' w, JsonCall reach ρ n (no_context (getRemote r) (kvs_of (Query r))) (service_method service method) = Ret (d, n') /\ node_ok n' /\
       ProtectedHandler fresh r n = (w, n') /\ out w = answer_of (perform d (default_body b)) /\ sent w = Some (200, plain_headers)) /\
  (forall msg, (Method r <> "POST" /\ msg = "只支持POST方法") \/
     (Method r = "POST" /\ (~ exists pre service method, api_path (Path r) pre service method) /\ msg = "请求地址格式错误") \/
     (Method r = "POST" /\ (exists pre service method, api_path (Path r) pre service method) /\ (forall b, Body r <> Ret b) /\ msg = "读取数据失败") ->
     exists w, ProtectedHandler fresh r n = (w, n) /\ out w = json 1 msg /\ sent w = Some (200, plain_headers)) /\
  (forall pre service method b, api_path (Path r) pre service method ->
     exists d n' c, JsonCall reach ρ n (no_context (getRemote2 r) ∅) (service_method service method) = Ret (d, n') /\ node_ok n' /\
       ProtectedHandler2 r b n = (c, n') /\ fout c = answer_of (perform d (default_body b)) /\
       fheader c = <["Content-Type" := "application/json"]> plain_headers) /\
  (forall b, (~ exists pre service method, api_path (Path r) pre service method) ->
     exists c, ProtectedHandler2 r b n = (c, n) /\ fout c = json 1 "请求地址格式错误") /\
  (forall pre service method b,
     rpcapi_path (Path r) pre service method \/ rpcapi_node_path (Path r) pre "" service method ->
     exists d n' c, JsonCall reach ρ n (no_context (getRemote2 r) ∅) (service_method service method) = Ret (d, n') /\ node_ok n' /\
       rpcHandler r b n = (c, n') /\ fout c = answer_of (perform d (default_body b)) /\
       fheader c = {["Content-Type" := "application/json"]}) /\
  (forall pre node service method b, node <> "" -> rpcapi_node_path (Path r) pre node service method ->
     exists d n' c, NodeJsonCallWithConn reach n (no_context (getRemote2 r) ∅) node (service_method service method) = Ret (d, n') /\ node_ok n' /\
       rpcHandler r b n = (c, n') /\ fout c = answer_of (perform d (default_body b)) /\
       fheader c = {["Content-Type" := "application/json"]}) /\
  (forall b, (~ exists pre service method, rpcapi_path (Path r) pre service method) ->
     (~ exists pre node service method, rpcapi_node_path (Path r) pre node service method) ->
     exists c, rpcHandler r b n = (c, n) /\ fout c = json 1 "请求地址格式错误") /\
  plain_headers !! "Content-Type" = None.
Proof using Hmarshal.
  splits.
  - intros pre service method b Emeth Ebody Epath%api_path_split. set (sm := service_method service method).
    destruct (route_total reach ρ KJsonCall "not support node rpc" n (no_context (getRemote r) (kvs_of (Query r))) sm Hn) as (d & n' & E & Hok & _).
    destruct (protected_spec (fun n => JsonCall reach ρ n (no_context (getRemote r) (kvs_of (Query r))) sm) (default_body b) n d n' E) as (rsp & err & Ep & Eres).
    unfold ProtectedHandler. rewrite Emeth, Epath, Ebody. cbn [String.eqb Ascii.eqb Bool.eqb negb]. fold sm. rewrite Ep.
    reply_is E Hok Eres.
  - apply refused.
  - intros pre service method b Epath%api_path_split. set (sm := service_method service method).
    destruct (route_total reach ρ KJsonCall "not support node rpc" n (no_context (getRemote2 r) ∅) sm Hn) as (d & n' & E & Hok & _).
    destruct (protected_spec (fun n => JsonCall reach ρ n (no_context (getRemote2 r) ∅) sm) (default_body b) n d n' E) as (rsp & err & Ep & Eres).
    unfold ProtectedHandler2. rewrite Epath. cbn [String.eqb Ascii.eqb Bool.eqb negb]. fold sm. rewrite Ep.
    reply_is E Hok Eres.
  - apply refused2.
  - intros pre service method b Epath. set (sm := service_method service method).
    destruct (route_total reach ρ KJsonCall "not support node rpc" n (no_context (getRemote2 r) ∅) sm Hn) as (d & n' & E & Hok & _).
    destruct (protected_spec (fun n => JsonCall reach ρ n (no_context (getRemote2 r) ∅) sm) (default_body b) n d n' E) as (rsp & err & Ep & Eres).
    unfold rpcHandler, rpc_path, rpc_JsonResponse2. change (rpc_getRemote2 r) with (getRemote2 r).
    destruct Epath as [Epath%rpcapi_path_split|Epath%rpcapi_node_path_split]; rewrite Epath; cbn [String.eqb Ascii.eqb Bool.eqb negb]; fold sm; rewrite Ep;
      reply_is E Hok Eres.
  - intros pre node service method b Hne Epath%rpcapi_node_path_split. set (sm := service_method service method).
    destruct (to_node_total reach KJsonCall (no_node node) n (no_context (getRemote2 r) ∅) node sm Hn) as (d & n' & E & Hok & _).
    destruct (protected_spec (fun n => if negb (String.eqb node "") then NodeJsonCallWithConn reach n (no_context (getRemote2 r) ∅) node sm else JsonCall reach ρ n (no_context (getRemote2 r) ∅) sm) (default_body b) n d n') as (rsp & err & Ep & Eres).
    { destruct (String.eqb_spec node ""); done. }
    unfold rpcHandler, rpc_path, rpc_JsonResponse2. change (rpc_getRemote2 r) with (getRemote2 r). rewrite Epath. cbn [String.eqb Ascii.eqb Bool.eqb]. fold sm. rewrite Ep.
    reply_is E Hok Eres.
  - apply refused_rpc.
  - done.
Qed.
End http.

(** ** Example *)

Module HttpSample.
Definition request : HttpRequest :=
  {| Method := "POST"; Path := "/api/user/login"; RemoteAddr := "10.0.0.7:5000"; ForwardedFor := ""; Query := ∅; Body := Ret [] |}.
Definition echo (d : decision) (b : bytes) : go (Z * bytes * option go_error) := match d with DError m => Ret (1, [], Some (ErrMsg m)) | _ => Ret (0, b, None) end.
Definition json (code : Z) (msg : string) : bytes := to_bytes msg.
End HttpSample.

Lemma http_gateway_witness : exists d n' w,
  JsonCall (fun _ => true) range_id NodeSample.empty (no_context (getRemote HttpSample.request) (kvs_of (Query HttpSample.request))) "User.Login" = Ret (d, n') /\
  ProtectedHandler (fun _ => true) range_id HttpSample.echo (fun c m => Ret (HttpSample.json c m)) fresh HttpSample.request NodeSample.empty = (w, n') /\
  out w = to_bytes "not support node rpc".
Proof.
  destruct (http_gateway (fun _ => true) range_id HttpSample.echo (fun c m => Ret (HttpSample.json c m)) HttpSample.json (fun c m => eq_refl)
    HttpSample.request NodeSample.empty) as (H & _).
  - exact NodeSample.empty_ok.
  - destruct (H "" "user" "login" []) as (d & n' & w & H1 & _ & H3 & H4 & _);
      [reflexivity|reflexivity|repeat split; repeat (constructor; [discriminate|]); constructor|].
    exists d, n', w. split; [exact H1|]. split; [exact H3|]. rewrite H4. cbn in H1. injection H1 as <- _. reflexivity.
Defined.
