(* ===== verification/WsConn.v ===== *)
(** * Websocket connections as byte streams: gnet/wss.go, gnet/fast_ws.go and the
    connection of util/websocket.go

    The three types WsConn and WsConn2 differ in the library they import only.  A
    connection is the messages the peer will still send and the error after the
    last one; Read serves them through a buffer. *)

From Stdlib Require Import ZArith Lia Ascii String.
From stdpp Require Import base numbers list strings.
From S2P Require Import Prelude.

Record WsConn := { Buff : bytes; incoming : list bytes; closed : go_error; outgoing : list bytes }.

(** c.Conn.ReadMessage() *)
Definition ReadMessage (c : WsConn) : go (bytes * WsConn) :=
  match incoming c with
  | [] => Err (closed c)
  | m :: ms => Ret (m, {| Buff := Buff c; incoming := ms; closed := closed c; outgoing := outgoing c |})
  end.

(** c.Buff.Read(b) with len(b) = [n]: an empty buffer is at its end. *)
Definition buffer_read (c : WsConn) (n : nat) : go (bytes * WsConn) :=
  match Buff c, n with
  | [], S _ => Err EOF
  | b, _ => Ret (take n b, {| Buff := drop n b; incoming := incoming c; closed := closed c; outgoing := outgoing c |})
  end.

Definition Read (c : WsConn) (n : nat) : go (bytes * WsConn) :=
  if decide (Buff c = []) then
    '(buff, c) ← ReadMessage c;
    buffer_read {| Buff := Buff c ++ buff; incoming := incoming c; closed := closed c; outgoing := outgoing c |} n
  else buffer_read c n.

(** The error of the connection, if any, is [e]. *)
Definition Write (c : WsConn) (b : bytes) (e : option go_error) : go (nat * WsConn) :=
  match e with
  | Some e => Err e
  | None => Ret (length b, {| Buff := Buff c; incoming := incoming c; closed := closed c; outgoing := outgoing c ++ [b] |})
  end.

(** gnet/fast_ws.go and util/websocket.go *)
Definition WsConn2_Read := Read.
Definition WsConn2_Write := Write.
Definition util_WsConn_Read := Read.
Definition util_WsConn_Write := Write.

(** io.ReadFull on the connection: the loop of io.ReadAtLeast, with [got] read. *)
Fixpoint read_full (fuel : nat) (c : WsConn) (n : nat) (got : bytes) : option (go (bytes * WsConn)) :=
  match fuel with
  | O => None
  | S fuel =>
      if (n <=? length got)%nat then Some (Ret (got, c))
      else match Read c (n - length got) with
           | Ret (b, c) => read_full fuel c n (got ++ b)
           | Err e => Some (Err (match e, got with EOF, _ :: _ => ErrUnexpectedEOF | e, _ => e end))
           | Panic w => Some (Panic w)
           end
  end.

(** ** The stream *)

(** The bytes that are still to be read. *)
Definition stream (c : WsConn) : bytes := Buff c ++ concat (incoming c).
Definition no_empty (c : WsConn) : Prop := Forall (fun m => m <> []) (incoming c).

Lemma Read_some c n : no_empty c -> (0 < n)%nat ->
  match Read c n with
  | Ret (b, c') => b <> [] /\ (length b <= n)%nat /\ stream c = b ++ stream c' /\ no_empty c' /\ closed c' = closed c /\ outgoing c' = outgoing c
  | Err e => stream c = [] /\ e = closed c
  | Panic _ => False
  end.
Proof.
  intros Hne Hn. unfold Read, ReadMessage, stream, no_empty in *. destruct c as [buff ms e out]. cbn [Buff incoming closed outgoing] in *.
  assert (Hb : forall b ms, b <> [] -> Forall (fun m => m <> []) ms ->
    match buffer_read {| Buff := b; incoming := ms; closed := e; outgoing := out |} n with
    | Ret (b', c') => b' <> [] /\ (length b' <= n)%nat /\ b ++ concat ms = b' ++ Buff c' ++ concat (incoming c') /\
        Forall (fun m => m <> []) (incoming c') /\ closed c' = e /\ outgoing c' = out
    | _ => False
    end).
  { clear -Hn. intros b ms Hb Hms. unfold buffer_read. cbn [Buff incoming closed outgoing]. destruct b as [|x b]; [done|]. cbn [Buff incoming closed outgoing].
    destruct n as [|n]; [lia|]. splits; try done; [rewrite length_take; lia|]. by rewrite app_assoc, take_drop. }
  case_decide as E.
  - destruct ms as [|m ms]; cbn [mbind go_bind]; [by rewrite E|]. apply Forall_cons in Hne as [Hm Hms]. cbn [Buff incoming closed outgoing concat].
    rewrite E, app_nil_l. specialize (Hb m ms Hm Hms). destruct (buffer_read _ n) as [[b c']| |]; [exact Hb|done|done].
  - specialize (Hb buff ms E Hne). destruct (buffer_read _ n) as [[b c']| |]; [exact Hb|done|done].
Qed.

Lemma read_full_ok fuel : forall c n got, no_empty c -> (n < length got + fuel)%nat -> (length got <= n)%nat ->
  match ReadFull (got ++ stream c) n with
  | Ret (b, rest) => exists c', read_full fuel c n got = Some (Ret (b, c')) /\ stream c' = rest /\ no_empty c' /\ closed c' = closed c /\ outgoing c' = outgoing c
  | _ => exists e, read_full fuel c n got = Some (Err e) /\ (closed c <> EOF -> e = closed c)
  end.
Proof.
  induction fuel as [|fuel IH]; intros c n got Hne Hf Hl; [lia|]. cbn [read_full]. destruct (Nat.leb_spec n (length got)) as [Hd|Hd].
  - assert (n = length got) as -> by lia. rewrite ReadFull_app. by exists c.
  - pose proof (Read_some c (n - length got) Hne ltac:(lia)) as H. destruct (Read c (n - length got)) as [[b c']|e|w]; [| |done].
    + destruct H as (Hb & Hlb & Es & Hne' & Ec & Eo). specialize (IH c' n (got ++ b) Hne'). rewrite length_app in IH.
      assert (0 < length b)%nat by (destruct b; [done|simpl; lia]). specialize (IH ltac:(lia) ltac:(lia)).
      rewrite Es, app_assoc. rewrite <- Ec, <- Eo. exact IH.
    + destruct H as [Es ->]. rewrite Es, app_nil_r. rewrite ReadFull_short by done. eexists. split; [done|]. intros Hc. destruct (closed c); done.
Qed.

(** C26. While the peer sends no empty message, reading from a websocket connection
    is reading from the concatenation of the messages, wherever they are cut: a
    full read ends and gives the next bytes and leaves the rest of the stream, or
    the error of the connection when there are too few.  A write is one message.
    But an empty message looks like the end of the stream, whatever follows. *)
Theorem ws_stream (c : WsConn) (n : nat) (b : bytes) (Hne : no_empty c) :
  (match ReadFull (stream c) n with
   | Ret (b, rest) => exists c', read_full (S n) c n [] = Some (Ret (b, c')) /\ stream c' = rest /\ no_empty c' /\ closed c' = closed c
   | _ => exists e, read_full (S n) c n [] = Some (Err e) /\ (closed c <> EOF -> e = closed c)
   end) /\
  (exists c', Write c b None = Ret (length b, c') /\ outgoing c' = outgoing c ++ [b] /\ stream c' = stream c) /\
  (forall e ms out, (0 < n)%nat -> Read {| Buff := []; incoming := [] :: ms; closed := e; outgoing := out |} n = Err EOF).
Proof.
  splits.
  - pose proof (read_full_ok (S n) c n [] Hne ltac:(simpl; lia) ltac:(simpl; lia)) as H. cbn [app] in H.
    destruct (ReadFull (stream c) n) as [[b' rest]| |]; [|exact H..]. destruct H as (c' & H1 & H2 & H3 & H4 & _). by exists c'.
  - eexists. by splits.
  - intros e ms out Hn. unfold Read. rewrite decide_True by done. cbn [mbind go_bind ReadMessage incoming]. destruct n; [lia|done].
Qed.

Lemma ws_stream_witness : exists c',
  read_full 6 {| Buff := []; incoming := [to_bytes "he"; to_bytes "llo you"]; closed := EOF; outgoing := [] |} 5 [] = Some (Ret (to_bytes "hello", c')) /\
  stream c' = to_bytes " you".
Proof.
  destruct (ws_stream {| Buff := []; incoming := [to_bytes "he"; to_bytes "llo you"]; closed := EOF; outgoing := [] |} 5 []) as [H _].
  - constructor; [discriminate|]. constructor; [discriminate|constructor].
  - destruct H as (c' & H1 & H2 & _). exists c'. split; [exact H1|exact H2].
Defined.
