(* ===== verification/Entrances.v ===== *)
(** * Entrances: how connections reach their handlers

    The accept loops of gnet/tcp.go, gnet/kcp.go and Server.Accept of
    rpc/go_server.go, the websocket servers of gnet/wss.go and gnet/fast_ws.go on
    the process-wide table of net/http, and the routes of the HTTP servers of
    gnet/http.go, gnet/fast_http.go and rpc/http.go.  A listener is what its calls
    of Accept give, one after the other; the pool takes a task or not. *)

From Stdlib Require Import ZArith Lia Ascii String.
From stdpp Require Import base numbers list strings gmap.
From S2P Require Import Prelude GoStd RpcCoder RpcServer RpcNode Http.

Module Entrances.

(** ** Accept loops *)

Section accept.
Context {C T : Type} (takes : nat -> bool).      (* util.Submit: whether the pool takes the n-th task *)

(** What becomes of the loop: it waits, returns, or ends the process. *)
Inductive fate := Waiting | Returned (e : option go_error) | Exited (code : Z).

(** The tasks that the pool runs, the connections it was not given (the error of
    Submit is dropped), and the end. *)
Record served := { tasks : list T; dropped : list C; end_ : fate }.

Fixpoint accept_loop (task : C -> T) (failed : fate) (n : nat) (l : list (C + go_error)) : served :=
  match l with
  | [] => {| tasks := []; dropped := []; end_ := Waiting |}
  | inr _ :: _ => {| tasks := []; dropped := []; end_ := failed |}
  | inl c :: l =>
      let s := accept_loop task failed (S n) l in
      if takes n then {| tasks := task c :: tasks s; dropped := dropped s; end_ := end_ s |}
      else {| tasks := tasks s; dropped := c :: dropped s; end_ := end_ s |}
  end.
End accept.
Arguments served : clear implicits.

(** The connections a listener gives before its first error. *)
Fixpoint given {C} (l : list (C + go_error)) : list C :=
  match l with inl c :: l => c :: given l | _ => [] end.

Definition fails {C} (l : list (C + go_error)) : bool := existsb (fun x => match x with inr _ => true | _ => false end) l.

(** gater.handleConn with its arguments. *)
Record Serve C := { rwc : C; remote : string; connType : string }.
Arguments rwc {C}. Arguments remote {C}. Arguments connType {C}.

Section gateway.
Context {C : Type} (takes : nat -> bool) (RemoteAddr : C -> string).

(** A failed Accept ends the process, deferred calls not run. *)
Definition RunTCPServer (listen : list (C + go_error) + go_error) : served C (Serve C) :=
  match listen with
  | inl l => accept_loop takes (fun c => {| rwc := c; remote := RemoteAddr c; connType := "tcp" |}) (Exited 0) 0 l
  | inr e => {| tasks := []; dropped := []; end_ := Returned (Some e) |}
  end.

(** [tune]: SetNoDelay(1, 10, 2, 1), SetStreamMode(true), SetWriteDelay(false), SetACKNoDelay(true). *)
Definition RunKCPServer (tune : C -> C) (listen : list (C + go_error) + go_error) : served C (Serve C) :=
  match listen with
  | inl l => accept_loop takes (fun c => {| rwc := tune c; remote := RemoteAddr c; connType := "kcp" |}) (Exited 0) 0 l
  | inr e => {| tasks := []; dropped := []; end_ := Returned (Some e) |}
  end.
End gateway.

(** rpc: every connection is the stream of its requests. *)
Section rpc.
Context {P : Proto} (gotype : RType -> GoType) (zero empty : RType -> Value) (deref : Value -> Value) (NullMessage : Value).

Definition ServeConn (server : Server) (stream : bytes) : option (go (list job)) :=
  ServeCodec gotype zero empty deref NullMessage (S (length stream)) server stream.

(** A failed Accept is logged. *)
Definition Accept (takes : nat -> bool) (server : Server) (l : list (bytes + go_error)) : served bytes (option (go (list job))) :=
  accept_loop takes (ServeConn server) (Returned None) 0 l.
End rpc.

(** ** Websockets on the table of net/http *)

(** http.DefaultServeMux: one handler for a path; a second one is a panic. *)
Inductive ws_handler := HandleWebsocket_ | HandleWebsocket2_.
Abbreviation mux := (gmap string ws_handler).

Definition HandleFunc (m : mux) (pattern : string) (h : ws_handler) : go mux :=
  match m !! pattern with
  | Some _ => Panic ("http: multiple registrations for " +:+ pattern)
  | None => Ret (<[pattern := h]> m)
  end.

(** [listen]: why ListenAndServe or ListenAndServeTLS returned; it never returns nil. *)
Definition RunWSServer (m : mux) (listen : go_error) : go (mux * go_error) := m ← HandleFunc m "/ws" HandleWebsocket_; Ret (m, listen).
Definition RunWSSServer (m : mux) (listen : go_error) : go (mux * go_error) := m ← HandleFunc m "/wss" HandleWebsocket_; Ret (m, listen).
Definition RunWSServer2 (m : mux) (listen : go_error) : go (mux * go_error) := m ← HandleFunc m "/ws" HandleWebsocket2_; Ret (m, listen).
Definition RunWSSServer2 (m : mux) (listen : go_error) : go (mux * go_error) := m ← HandleFunc m "/wss" HandleWebsocket2_; Ret (m, listen).

Section websocket.
Context {C : Type} (conn_addr : C -> string).    (* conn.RemoteAddr().String() *)

(** [upgrade]: the connection, or why there is none. *)
Definition HandleWebsocket (r : HttpRequest) (upgrade : go C) : list (Serve C) :=
  match upgrade with Ret c => [{| rwc := c; remote := conn_addr c; connType := "ws" |}] | _ => [] end.
Definition HandleWebsocket2 (r : HttpRequest) (upgrade : go C) : list (Serve C) :=
  match upgrade with Ret c => [{| rwc := c; remote := getRemote r; connType := "ws" |}] | _ => [] end.

(** A request to any server of the process that uses the table; [None]: 404. *)
Definition ws_request (m : mux) (r : HttpRequest) (upgrade : go C) : option (list (Serve C)) :=
  (fun h => match h with HandleWebsocket_ => HandleWebsocket r upgrade | HandleWebsocket2_ => HandleWebsocket2 r upgrade end) <$> m !! Path r.
End websocket.

(** ** Routes of the HTTP servers *)

Section routes.
Context (reach : string -> bool) (ρ : RangeOrder) (perform : decision -> bytes -> go (Z * bytes * option go_error))
        (Marshal : Z -> string -> go bytes).
Context (matches : string -> string -> bool)     (* fasthttp-routing: a pattern and a path *)
        (unmatched : FastResponse).              (* its answer when no route fits *)

(** RunApiServer and RunApiHttpsServer: negroni runs the middleware, then the handler. *)
Definition RunApiServer (r : HttpRequest) (n : GxNode) : ResponseWriter * GxNode :=
  ValidateTokenMiddleware fresh r (fun w r => ProtectedHandler reach ρ perform Marshal w r n).
Definition RunApiHttpsServer := RunApiServer.

Abbreviation handler := (HttpRequest -> bytes -> GxNode -> FastResponse * GxNode).
Definition no_answer : handler := fun _ _ n => (fast_fresh, n).

Definition routed (routes : list (string * string * handler)) (r : HttpRequest) (b : bytes) (n : GxNode) : FastResponse * GxNode :=
  match List.find (fun x => String.eqb x.1.1 (Method r) && matches x.1.2 (Path r)) routes with
  | Some (_, _, h) => h r b n
  | None => (unmatched, n)
  end.

Definition RunApiHttp2 (dev : bool) : HttpRequest -> bytes -> GxNode -> FastResponse * GxNode :=
  routed ([("OPTIONS", "/*", no_answer); ("POST", "/*", ProtectedHandler2 reach ρ perform Marshal)] ++
          if dev then [("GET", "/*", ProtectedHandler2 reach ρ perform Marshal)] else []).

Definition RunHttpGateway : HttpRequest -> bytes -> GxNode -> FastResponse * GxNode :=
  routed [("OPTIONS", "/*", no_answer); ("POST", "/rpcapi/*", rpcHandler reach ρ perform Marshal)].
End routes.

(** ** Properties *)

(** The connections of a listener, numbered as they come. *)
Definition numbered {C} (n : nat) (l : list (C + go_error)) : list (nat * C) := zip (seq n (length (given l))) (given l).

Lemma accept_loop_spec {C T} (takes : nat -> bool) (task : C -> T) failed n l :
  accept_loop takes task failed n l =
    {| tasks := (fun x => task x.2) <$> filter (fun x => takes x.1 = true) (numbered n l);
       dropped := snd <$> filter (fun x => takes x.1 = false) (numbered n l);
       end_ := if fails l then failed else Waiting |}.
Proof.
  unfold numbered. revert n. induction l as [|[c|e] l IH]; intros n; [done| |done]. cbn [accept_loop given length seq zip_with fails existsb orb].
  fold (fails l). rewrite IH. rewrite !filter_cons. cbn [fst]. by destruct (takes n).
Qed.

Lemma numbered_all {C} n (l : list (C + go_error)) : snd <$> numbered n l = given l.
Proof. unfold numbered. apply snd_zip. by rewrite length_seq. Qed.

(** An open pool: every connection gets its task, in order, up to the first error. *)
Lemma accept_all {C T} (takes : nat -> bool) (task : C -> T) failed n l : (forall k, takes k = true) ->
  accept_loop takes task failed n l =
    {| tasks := task <$> given l; dropped := []; end_ := if fails l then failed else Waiting |}.
Proof.
  intros Ht. rewrite accept_loop_spec, <- (numbered_all n l), <- list_fmap_compose. f_equal.
  - f_equal. induction (numbered n l) as [|x xs IH]; [done|]. rewrite filter_cons_True by apply Ht. by rewrite IH.
  - induction (numbered n l) as [|x xs IH]; [done|]. rewrite filter_cons_False; [done|by rewrite Ht].
Qed.

(** The gateway's and the RPC layer's listeners on an open pool.  The same error of
    Accept ends the gateway's process, with status 0, and lets the RPC server's
    loop return.  Every stream given to the RPC server is served to its end. *)
Lemma entrances_accept {P : Proto} gotype zero empty deref NullMessage (server : Server) (takes : nat -> bool) {C} (addr : C -> string) tune
    (l : list (C + go_error)) (streams : list (bytes + go_error)) (Ht : forall k, takes k = true) :
  RunTCPServer takes addr (inl l) =
    {| tasks := (fun c => {| rwc := c; remote := addr c; connType := "tcp" |}) <$> given l; dropped := [];
       end_ := if fails l then Exited 0 else Waiting |} /\
  RunKCPServer takes addr tune (inl l) =
    {| tasks := (fun c => {| rwc := tune c; remote := addr c; connType := "kcp" |}) <$> given l; dropped := [];
       end_ := if fails l then Exited 0 else Waiting |} /\
  end_ (Accept gotype zero empty deref NullMessage takes server streams) = (if fails streams then Returned None else Waiting) /\
  Forall2 (fun stream jobs => exists js, jobs = Some js /\ ServeConn gotype zero empty deref NullMessage server stream = Some js)
    (given streams) (tasks (Accept gotype zero empty deref NullMessage takes server streams)).
Proof.
  unfold RunTCPServer, RunKCPServer, Accept. rewrite !accept_all by done. cbn [tasks end_]. splits; [done..|]. apply Forall2_fmap_r, Forall_Forall2_diag.
  apply Forall_forall. intros r _. unfold ServeConn. pose proof (ServeCodec_total gotype zero empty deref NullMessage server (S (length r)) r) as Hs.
  cbn [compose]. destruct (ServeCodec _ _ _ _ _ _ server r) as [js|]; [by exists js|]. exfalso. apply Hs; [lia|done].
Qed.

(** A pool that was released takes no more tasks: the connections accepted later are
    neither served nor closed. *)
Lemma entrances_released {C} (addr : C -> string) (l : list (C + go_error)) k :
  dropped (RunTCPServer (fun n => (n <? k)%nat) addr (inl l)) = drop k (given l) /\
  rwc <$> tasks (RunTCPServer (fun n => (n <? k)%nat) addr (inl l)) = take k (given l).
Proof.
  unfold RunTCPServer. rewrite accept_loop_spec. cbn [tasks dropped].
  assert (G : forall (cs : list C) n, (n <= k)%nat ->
    snd <$> filter (fun x : nat * C => (x.1 <? k)%nat = false) (zip (seq n (length cs)) cs) = drop (k - n) cs /\
    snd <$> filter (fun x : nat * C => (x.1 <? k)%nat = true) (zip (seq n (length cs)) cs) = take (k - n) cs).
  { induction cs as [|c cs IH]; intros n Hn; [by rewrite drop_nil, take_nil|]. cbn [length seq zip_with]. rewrite !filter_cons. cbn [fst].
    destruct (Nat.ltb_spec n k).
    - destruct (IH (S n)) as [I1 I2]; [lia|]. replace (k - n)%nat with (S (k - S n)) by lia. rewrite decide_False, decide_True by done.
      cbn [fmap list_fmap drop take snd]. by rewrite I1, I2.
    - replace (k - n)%nat with 0%nat by lia. rewrite decide_True, decide_False by done. cbn [fmap list_fmap drop take snd].
      assert (Z : forall (cs : list C) m, (k <= m)%nat -> snd <$> filter (fun x : nat * C => (x.1 <? k)%nat = false) (zip (seq m (length cs)) cs) = cs /\
        snd <$> filter (fun x : nat * C => (x.1 <? k)%nat = true) (zip (seq m (length cs)) cs) = []).
      { clear. induction cs as [|c cs IH]; intros m Hm; [done|]. cbn [length seq zip_with]. rewrite !filter_cons. cbn [fst].
        rewrite (proj2 (Nat.ltb_ge m k)) by done. destruct (IH (S m)) as [I1 I2]; [lia|]. rewrite decide_True, decide_False by done.
        cbn [fmap list_fmap snd]. by rewrite I1, I2. }
      destruct (Z cs (S n)) as [I1 I2]; [lia|]. by rewrite I1, I2. }
  destruct (G (given l) 0%nat) as [G1 G2]; [lia|]. unfold numbered. rewrite <- list_fmap_compose. rewrite Nat.sub_0_r in *. split; [exact G1|exact G2].
Qed.

(** Websocket servers started one after the other. *)
Inductive ws_server := Ws | Wss | Ws2 | Wss2.
Definition path_of (s : ws_server) : string := match s with Ws | Ws2 => "/ws" | Wss | Wss2 => "/wss" end.
Definition handler_of (s : ws_server) : ws_handler := match s with Ws | Wss => HandleWebsocket_ | _ => HandleWebsocket2_ end.
Definition run_ws (s : ws_server) : mux -> go_error -> go (mux * go_error) :=
  match s with Ws => RunWSServer | Wss => RunWSSServer | Ws2 => RunWSServer2 | Wss2 => RunWSSServer2 end.
Fixpoint start_all (m : mux) (l : list (ws_server * go_error)) : go mux :=
  match l with [] => Ret m | (s, e) :: l => '(m, _) ← run_ws s m e; start_all m l end.

(** Each path can be served once per process: a second server with the same path,
    the other library's or the same one tried again after it could not listen,
    panics.  Otherwise every server of the process answers the paths of all. *)
Lemma ws_servers (l : list (ws_server * go_error)) :
  (NoDup (path_of <$> l.*1) -> exists m, start_all ∅ l = Ret m /\ forall s e, (s, e) ∈ l -> m !! path_of s = Some (handler_of s)) /\
  (~ NoDup (path_of <$> l.*1) -> exists w, start_all ∅ l = Panic w).
Proof.
  assert (Hr : forall s m e, run_ws s m e = (m ← HandleFunc m (path_of s) (handler_of s); Ret (m, e))) by (by intros []).
  assert (G : forall m, (forall s, s ∈ l.*1 -> m !! path_of s = None) ->
    (NoDup (path_of <$> l.*1) -> exists m', start_all m l = Ret m' /\ (forall p h, m !! p = Some h -> m' !! p = Some h) /\
       forall s e, (s, e) ∈ l -> m' !! path_of s = Some (handler_of s))).
  { induction l as [|[s e] l IH]; intros m Hm Hn; [exists m; splits; try done; by intros ? ? ?%elem_of_nil|].
    cbn [fmap list_fmap fst] in *. apply NoDup_cons in Hn as [Hs Hn]. cbn [start_all]. rewrite Hr. unfold HandleFunc. rewrite (Hm s) by (by left). cbn [mbind go_bind].
    destruct (IH (<[path_of s := handler_of s]> m)) as (m' & E & Hk & Hm'); [|done|].
    { intros s' Hs'. rewrite lookup_insert_ne; [apply Hm; by right|]. intros Hp. apply Hs. rewrite Hp. by apply list_elem_of_fmap_2. }
    exists m'. splits; [done| |].
    - intros p h Hp. apply Hk. rewrite lookup_insert_ne; [done|]. intros <-. rewrite (Hm s) in Hp by (by left). done.
    - intros s' e' [[= -> ->]|Hin]%elem_of_cons; [apply Hk; by rewrite lookup_insert_eq|by eapply Hm']. }
  split.
  - intros Hn. destruct (G ∅) as (m & E & _ & Hm); [intros; apply lookup_empty|done|]. by exists m.
  - clear G. intros Hn. assert (B : forall m, (exists s, s ∈ l.*1 /\ m !! path_of s <> None) \/ ~ NoDup (path_of <$> l.*1) -> exists w, start_all m l = Panic w); [|by apply B; right].
    clear Hn. induction l as [|[s e] l IH]; intros m Hm; [destruct Hm as [(s & Hs & _)|Hn]; [by apply elem_of_nil in Hs|by destruct Hn; constructor]|].
    cbn [start_all]. rewrite Hr. unfold HandleFunc. destruct (m !! path_of s) as [h|] eqn:Em; cbn [mbind go_bind]; [by eexists|]. apply IH.
    destruct Hm as [(s' & Hs' & Hp)|Hn].
    + left. cbn [fmap list_fmap fst] in Hs'. apply elem_of_cons in Hs' as [->|Hs']; [done|]. exists s'. split; [done|].
      destruct (decide (path_of s = path_of s')) as [E|]; [rewrite E; by rewrite lookup_insert_eq|by rewrite lookup_insert_ne].
    + cbn [fmap list_fmap fst] in Hn. destruct (decide (path_of s ∈ path_of <$> l.*1)) as [Hin|Hin].
      * left. apply list_elem_of_fmap in Hin as (s' & Hp & Hs'). exists s'. split; [done|]. rewrite <- Hp. by rewrite lookup_insert_eq.
      * right. intros Hd. apply Hn. by constructor.
Qed.

(** The address of a peer is cut at its first colon: right for IPv4, the first group
    for IPv6; the word unknown of a proxy is taken for the address. *)
Lemma remote_addresses (r : HttpRequest) host port rest (Hh : all_bytes (fun c => c <> ":"%char) host) :
  (ForwardedFor r = "" -> RemoteAddr r = host +:+ String ":" port -> getRemote r = host) /\
  (ForwardedFor r = "" -> RemoteAddr r = "[2001:" +:+ rest -> getRemote r = "[2001") /\
  (ForwardedFor r = "unknown" -> getRemote r = "unknown").
Proof.
  unfold getRemote, remote_of. splits; [intros -> ->|intros -> ->|intros ->; done].
  - cbn. by rewrite Split_app.
  - cbn. done.
Qed.

Section route_lemmas.
Context (reach : string -> bool) (ρ : RangeOrder) (perform : decision -> bytes -> go (Z * bytes * option go_error)) (Marshal : Z -> string -> go bytes).
Context (matches : string -> string -> bool) (unmatched : FastResponse) (Hall : forall path, matches "/*" path = true).
Context (Hrpc : forall path, matches "/rpcapi/*" ("/rpcapi/" +:+ path) = true).

(** Which requests reach the handlers of Http.v.  A preflight request gets no CORS
    header from the fasthttp servers, and all of them from the net/http one. *)
Lemma http_routes (r : HttpRequest) (b : bytes) (n : GxNode) (dev : bool) :
  (Method r = "POST" -> RunApiHttp2 reach ρ perform Marshal matches unmatched dev r b n = ProtectedHandler2 reach ρ perform Marshal r b n) /\
  (Method r = "GET" -> RunApiHttp2 reach ρ perform Marshal matches unmatched dev r b n =
     if dev then ProtectedHandler2 reach ρ perform Marshal r b n else (unmatched, n)) /\
  (forall path, Method r = "POST" -> Path r = "/rpcapi/" +:+ path ->
     RunHttpGateway reach ρ perform Marshal matches unmatched r b n = rpcHandler reach ρ perform Marshal r b n) /\
  (Method r = "OPTIONS" ->
     fheader (RunApiHttp2 reach ρ perform Marshal matches unmatched dev r b n).1 = ∅ /\
     forall code h, sent (RunApiServer reach ρ perform Marshal r n).1 = Some (code, h) -> h !! "Access-Control-Allow-Origin" = Some "*").
Proof using Hall Hrpc.
  unfold RunApiHttp2, RunHttpGateway, routed. splits.
  - intros ->. cbn [List.find fst snd app]. rewrite Hall. done.
  - intros ->. cbn [List.find fst snd app]. destruct dev; cbn [List.find fst snd app]; rewrite ?Hall; done.
  - intros path -> ->. cbn [List.find fst snd app]. by rewrite Hrpc.
  - intros Hm. rewrite Hm. cbn [List.find fst snd app]. rewrite Hall. split; [done|].
    unfold RunApiServer, ValidateTokenMiddleware, ProtectedHandler. rewrite Hm. cbn. unfold JsonResponse.
    intros code h. destruct (Marshal 1 _); [intros [= <- <-]; by vm_compute..|done].
Qed.
End route_lemmas.
End Entrances.
