(* ===== verification/SqlServer.v ===== *)
(** * SQL statements from structures: util/sqlserver.go

    A structure type is the list of its fields with their tags; a value is the text
    fmt.Sprint gives for each field.  The statements still contain %v for the
    database and the table. *)

From Stdlib Require Import ZArith Lia Ascii String.
From stdpp Require Import base numbers list strings.
From S2P Require Import Prelude GoStd GoText.

Record field := { Name : string; orm : string; index : string }.
Abbreviation stype := (list field).
Abbreviation svalue := (list string).

(** What the functions are given: a structure, a pointer to one, or a slice of
    structures or pointers. *)
Inductive input := AStruct (v : svalue) | APtr (v : svalue) | ASlice (l : list svalue).

Definition tab : ascii := "009"%char.
Definition dbSql : string :=
  "CREATE DATABASE [{db}] ON  PRIMARY" +:+ String nl (String tab
  ("( NAME = N'{db}', FILENAME = N'{disk}\\database\\{db}.mdf' , SIZE = 4096KB , FILEGROWTH = 1024KB )" +:+ String nl (String tab
  (" LOG ON" +:+ String nl (String tab
  "( NAME = N'{db}_log', FILENAME = N'{disk}\\database\\{db}_log.ldf' , SIZE = 1024KB , FILEGROWTH = 10%);"))))).

Definition CreateDBSQL (dbName disk : string) : string :=
  let str := ReplaceAll dbSql "{db}" dbName in
  ReplaceAll str "{disk}" disk.

(** The text after create: of a tag. *)
Fixpoint create_of (arr : list string) : go string :=
  match arr with
  | [] => Ret ""
  | v :: arr =>
      let arr2 := Split ":" v in
      x ← go_index arr2 0;
      if String.eqb x "create" then go_index arr2 1 else create_of arr
  end.
Definition getCreateDesc (key : string) : go string := create_of (Split ";" key).

(** template.HTMLEscapeString *)
Fixpoint HTMLEscapeString (s : string) : string :=
  match s with
  | "" => ""
  | String c s =>
      (if decide (c = "000"%char) then String "239" (String "191" (String "189" ""))
       else if decide (c = "034"%char) then "&#34;"
       else if decide (c = "'"%char) then "&#39;"
       else if decide (c = "&"%char) then "&amp;"
       else if decide (c = "<"%char) then "&lt;"
       else if decide (c = ">"%char) then "&gt;" else String c "") +:+ HTMLEscapeString s
  end.

Definition skipped (key : string) : bool := String.eqb key "" || String.eqb key "-".
Definition quoted_column (desc : string) : bool := Contains desc "datetime" || Contains desc "varchar".
Definition quote (v : string) : string := "'" +:+ HTMLEscapeString v +:+ "'".

(** The name of a column: names begin with a letter of ASCII. *)
Definition lower_byte (b : ascii) : ascii :=
  if (65 <=? byte_val b) && (byte_val b <=? 90) then to_byte (byte_val b + 32) else b.
Definition column (name : string) : string := match name with "" => "" | String c s => String (lower_byte c) s end.
Definition bracket (s : string) : string := "[" +:+ s +:+ "]".

(** A value as getInsertValue writes it. *)
Definition insert_value (desc v : string) : string :=
  if negb (Contains desc "varchar") && String.eqb v "" then "NULL"
  else if quoted_column desc then quote v else v.

Fixpoint insert_values (rt : stype) (rv : svalue) : go (list string) :=
  match rt, rv with
  | f :: rt, v :: rv =>
      if skipped (orm f) then insert_values rt rv
      else desc ← getCreateDesc (orm f); vs ← insert_values rt rv; Ret (insert_value desc v :: vs)
  | [], _ => Ret []
  | _, [] => Panic "reflect: Field index out of range"
  end.

Definition getInsertValue (rt : stype) (rv : svalue) : go string :=
  fields ← insert_values rt rv; Ret ("(" +:+ Join fields "," +:+ ")").

Fixpoint create_columns (rt : stype) : go (list string * list string) :=
  match rt with
  | [] => Ret ([], [])
  | f :: rt =>
      if skipped (orm f) then create_columns rt
      else
        let name := column (Name f) in
        desc ← getCreateDesc (orm f);
        '(arr, indexes) ← create_columns rt;
        Ret ((bracket name +:+ " " +:+ desc) :: arr,
             if String.eqb (index f) "" then indexes
             else ("CREATE CLUSTERED INDEX [idx_%v_" +:+ name +:+ "] ON [%v].[dbo].[%v]([" +:+ name +:+ "] " +:+ index f +:+ ")") :: indexes)
  end.

(** A structure that is not behind a pointer or in a slice has no element type. *)
Definition CreateSQL (rt : stype) (v : input) : go (string * list string) :=
  match v with
  | AStruct _ => Panic "reflect: Elem of invalid type"
  | _ =>
      '(arr, indexes) ← create_columns rt;
      Ret ("CREATE TABLE [%v].[dbo].[%v](" +:+ Join arr "," +:+ ") ON [PRIMARY]", indexes)
  end.

Definition columns (rt : stype) : list string :=
  omap (fun f => if skipped (orm f) then None else Some (bracket (column (Name f)))) rt.

Fixpoint rows_of (rt : stype) (l : list svalue) : go (list string) :=
  match l with
  | [] => Ret []
  | v :: l => r ← getInsertValue rt v; rs ← rows_of rt l; Ret (r :: rs)
  end.

Definition insert_text (fields arr : list string) : string :=
  "INSERT INTO [%v].[dbo].[%v] " +:+ "(" +:+ Join fields "," +:+ ") VALUES" +:+ Join arr "," +:+ ";".

Definition InsertSQL (rt : stype) (v : input) : go string :=
  arr ← (match v with
         | ASlice [] => Panic "reflect: slice index out of range"
         | ASlice l => rows_of rt l
         | AStruct v | APtr v => rows_of rt [v]
         end);
  Ret (insert_text (columns rt) arr).

(** The values of a line of the log, from the [index]th text on. *)
Fixpoint log_values (rt : stype) (varr : list string) : go (list string) :=
  match rt with
  | [] => Ret []
  | f :: rt =>
      if skipped (orm f) then log_values rt varr
      else
        desc ← getCreateDesc (orm f);
        let value := match varr with v :: _ => v | [] => "" end in
        if quoted_column desc then vs ← log_values rt (tail varr); Ret (quote value :: vs)
        else
          let '(n, err) := ParseInt 64 value in
          match err with
          | Some _ => if negb (String.eqb value "")
                      then Err (ErrMsg ("日志字段[" +:+ Name f +:+ "]格式错误, value: " +:+ value))
                      else vs ← log_values rt (tail varr); Ret (Itoa n :: vs)
          | None => vs ← log_values rt (tail varr); Ret (Itoa n :: vs)
          end
  end.

Fixpoint log_rows (rt : stype) (ls : list string) : go (list string) :=
  match ls with
  | [] => Ret []
  | v :: ls => vs ← log_values rt (Split ";" v); rs ← log_rows rt ls; Ret (("(" +:+ Join vs "," +:+ ")") :: rs)
  end.

Definition InsertSQLByLog (rt : stype) (ls : list string) : go string :=
  arr ← log_rows rt ls; Ret (insert_text (columns rt) arr).

Fixpoint update_sets (rt : stype) (rv : svalue) (fields : list string) : go (list string) :=
  match rt, rv with
  | f :: rt, v :: rv =>
      if skipped (orm f) then update_sets rt rv fields
      else
        let name := column (Name f) in
        if (0 <? length fields)%nat && negb (bool_decide (name ∈ fields)) then update_sets rt rv fields
        else
          desc ← getCreateDesc (orm f);
          let v := if quoted_column desc then quote v else v in
          sets ← update_sets rt rv fields;
          Ret ((bracket name +:+ "=" +:+ v) :: sets)
  | [], _ => Ret []
  | _, [] => Panic "reflect: Field index out of range"
  end.

Definition UpdateSQL (rt : stype) (rv : svalue) (where_ : string) (fields : list string) : go string :=
  sets ← update_sets rt rv fields;
  Ret ("UPDATE [%v].[dbo].[%v%v] SET " +:+ Join sets "," +:+ (if String.eqb where_ "" then "" else " WHERE " +:+ where_)).

(** ** How the database reads a statement

    The lexical rules of T-SQL: a text in single quotes, in which two quotes stand for
    one; words and numbers; comments from -- to the end of the line and between /* and */;
    every other character but blanks for itself. *)

Inductive tok := TStr (s : string) | TWord (s : string) | TPunct (c : ascii) | TBad.

Inductive mode :=
  | MOut
  | MStr (acc : string)        (* inside quotes *)
  | MStrQ (acc : string)       (* after a quote inside quotes *)
  | MWord (acc : string)
  | MDash (acc : string)       (* a word, then a minus *)
  | MSlash | MLine | MBlock | MBlockStar.

Definition between (lo hi : Z) (c : ascii) : bool := (lo <=? byte_val c) && (byte_val c <=? hi).
Definition word_char (c : ascii) : bool :=
  between 48 57 c || between 65 90 c || between 97 122 c ||
  bool_decide (c = "."%char) || bool_decide (c = "_"%char) || bool_decide (c = "+"%char).
Definition blank (c : ascii) : bool := between 9 13 c || bool_decide (c = " "%char).

Definition snoc (s : string) (c : ascii) : string := s +:+ String c "".

(** Outside of everything. *)
Definition begin_tok (c : ascii) : list tok * mode :=
  if decide (c = "'"%char) then ([], MStr "")
  else if decide (c = "-"%char) then ([], MDash "")
  else if decide (c = "/"%char) then ([], MSlash)
  else if word_char c then ([], MWord (String c ""))
  else if blank c then ([], MOut) else ([TPunct c], MOut).

Definition then_begin (ts : list tok) (c : ascii) : list tok * mode := let '(us, m) := begin_tok c in (ts ++ us, m).
Definition word_tok (acc : string) : list tok := match acc with "" => [] | _ => [TWord acc] end.

Definition lex_step (m : mode) (c : ascii) : list tok * mode :=
  match m with
  | MOut => begin_tok c
  | MStr acc => ([], if decide (c = "'"%char) then MStrQ acc else MStr (snoc acc c))
  | MStrQ acc => if decide (c = "'"%char) then ([], MStr (snoc acc c)) else then_begin [TStr acc] c
  | MWord acc => if word_char c then ([], MWord (snoc acc c)) else if decide (c = "-"%char) then ([], MDash acc) else then_begin (word_tok acc) c
  | MDash acc => if decide (c = "-"%char) then (word_tok acc, MLine)
                 else if word_char c then ([], MWord (snoc (snoc acc "-") c)) else then_begin [TWord (snoc acc "-")] c
  | MSlash => if decide (c = "*"%char) then ([], MBlock) else then_begin [TPunct "/"] c
  | MLine => ([], if decide (c = nl) then MOut else MLine)
  | MBlock => ([], if decide (c = "*"%char) then MBlockStar else MBlock)
  | MBlockStar => ([], if decide (c = "/"%char) then MOut else if decide (c = "*"%char) then MBlockStar else MBlock)
  end.

Definition lex_end (m : mode) : list tok :=
  match m with
  | MOut | MLine => []
  | MStr _ | MBlock | MBlockStar => [TBad]
  | MStrQ acc => [TStr acc]
  | MWord acc => word_tok acc
  | MDash acc => [TWord (snoc acc "-")]
  | MSlash => [TPunct "/"]
  end.

Fixpoint lex (m : mode) (s : string) : list tok :=
  match s with
  | "" => lex_end m
  | String c s => let '(ts, m) := lex_step m c in ts ++ lex m s
  end.

(** ** What the statements should say *)

Definition desc_of (f : field) : string := match getCreateDesc (orm f) with Ret d => d | _ => "" end.

(** The value of a column in a row. *)
Definition insert_tok (f : field) (v : string) : tok :=
  if negb (Contains (desc_of f) "varchar") && String.eqb v "" then TWord "NULL"
  else if quoted_column (desc_of f) then TStr (HTMLEscapeString v) else TWord v.
Definition row_toks (rt : stype) (rv : svalue) : list tok :=
  omap (fun fv => if skipped (orm fv.1) then None else Some (insert_tok fv.1 fv.2)) (zip rt rv).

(** The value that a line of the log gives for a column; an empty text is 0. *)
Definition log_tok (f : field) (v : string) : tok :=
  if quoted_column (desc_of f) then TStr (HTMLEscapeString v) else TWord (Itoa (ParseInt 64 v).1).
Fixpoint log_toks (rt : stype) (varr : list string) : list tok :=
  match rt with
  | [] => []
  | f :: rt => if skipped (orm f) then log_toks rt varr else log_tok f (default "" (head varr)) :: log_toks rt (tail varr)
  end.

(** An assignment of UPDATE: the column and its value, none for an empty number. *)
Definition set_toks (f : field) (v : string) : list tok :=
  [TPunct "["; TWord (column (Name f)); TPunct "]"; TPunct "="] ++
  (if quoted_column (desc_of f) then [TStr (HTMLEscapeString v)] else word_tok v).
Definition sets_toks (rt : stype) (rv : svalue) (fields : list string) : list (list tok) :=
  omap (fun fv => if skipped (orm fv.1) || ((0 <? length fields)%nat && negb (bool_decide (column (Name fv.1) ∈ fields)))
                  then None else Some (set_toks fv.1 fv.2)) (zip rt rv).

Fixpoint commas (l : list (list tok)) : list tok :=
  match l with [] => [] | [x] => x | x :: l => x ++ TPunct "," :: commas l end.
Definition paren (ts : list tok) : list tok := TPunct "(" :: commas ((fun t => [t]) <$> ts) ++ [TPunct ")"].

(** ** Texts that are read as given tokens, whatever follows them *)

Definition ends (rest : string) : Prop :=
  match rest with "" => True | String c _ => word_char c = false /\ c <> "-"%char /\ c <> "'"%char end.
Definition reads (v : string) (ts : list tok) : Prop := forall rest, ends rest -> lex MOut (v +:+ rest) = ts ++ lex MOut rest.

(** A word: no two minus signs in a row. *)
Fixpoint word_from (dash : bool) (v : string) : bool :=
  match v with
  | "" => true
  | String c v => if decide (c = "-"%char) then negb dash && word_from true v else word_char c && word_from false v
  end.
Definition bare (v : string) : Prop := v <> "" /\ word_from false v = true.

Definition no_quote : string -> Prop := all_bytes (fun c => c <> "'"%char).

Lemma snoc_app s c rest : snoc s c +:+ rest = s +:+ String c rest.
Proof. unfold snoc. by rewrite append_assoc. Qed.

Lemma word_tok_snoc s c : word_tok (snoc s c) = [TWord (snoc s c)].
Proof. by destruct s. Qed.

(** A token ends where something else begins. *)
Lemma lex_word_end acc rest : ends rest -> lex (MWord acc) rest = word_tok acc ++ lex MOut rest.
Proof.
  destruct rest as [|c rest]; [by rewrite app_nil_r|]. intros (Hw & Hd & _). cbn [lex lex_step]. rewrite Hw, decide_False by done.
  unfold then_begin. destruct (begin_tok c). by rewrite app_assoc.
Qed.

Lemma lex_dash_end acc rest : ends rest -> lex (MDash acc) rest = TWord (snoc acc "-") :: lex MOut rest.
Proof.
  destruct rest as [|c rest]; [done|]. intros (Hw & Hd & _). cbn [lex lex_step]. rewrite decide_False, Hw by done.
  unfold then_begin. by destruct (begin_tok c).
Qed.

Lemma lex_str_end acc rest : ends rest -> lex (MStrQ acc) rest = TStr acc :: lex MOut rest.
Proof.
  destruct rest as [|c rest]; [done|]. intros (_ & _ & Hq). cbn [lex lex_step]. rewrite decide_False by done.
  unfold then_begin. by destruct (begin_tok c).
Qed.

Lemma lex_word v : forall acc rest, ends rest ->
  (acc <> "" -> word_from false v = true -> lex (MWord acc) (v +:+ rest) = TWord (acc +:+ v) :: lex MOut rest) /\
  (word_from true v = true -> lex (MDash acc) (v +:+ rest) = TWord (snoc acc "-" +:+ v) :: lex MOut rest).
Proof.
  induction v as [|c v IH]; intros acc rest Hr.
  { rewrite !append_nil_l, !append_nil_r. split; intros; [|by apply lex_dash_end]. rewrite lex_word_end by done. by destruct acc. }
  rewrite append_cons. cbn [word_from lex lex_step]. split.
  - intros Ha. case_decide as Hc; [subst|].
    + cbn [negb andb]. intros Hw. change (word_char "-") with false. cbn. rewrite (proj2 (IH acc rest Hr) Hw). by rewrite snoc_app.
    + intros [-> Hw]%andb_true_iff. cbn [app]. rewrite (proj1 (IH (snoc acc c) rest Hr)); [by rewrite snoc_app|by destruct acc|done].
  - case_decide as Hc; [by subst|]. intros [Hcw Hw]%andb_true_iff. rewrite Hcw. cbn [app].
    rewrite (proj1 (IH (snoc (snoc acc "-") c) rest Hr)); [by rewrite snoc_app|by destruct acc|done].
Qed.

Lemma reads_bare v : bare v -> reads v [TWord v].
Proof.
  intros [Hne Hv] rest Hr. destruct v as [|c v]; [done|]. cbn [word_from] in Hv. rewrite append_cons. cbn [lex lex_step]. unfold begin_tok.
  destruct (decide (c = "-"%char)) as [->|Hd].
  - cbn. apply (proj2 (lex_word v "" rest Hr) Hv).
  - apply andb_true_iff in Hv as [Hc Hw].
    rewrite !decide_False by (try done; intros ->; done). rewrite Hc. cbn [app]. by rewrite (proj1 (lex_word v (String c "") rest Hr)).
Qed.

Lemma lex_str v : no_quote v -> forall acc rest, lex (MStr acc) (v +:+ String "'" rest) = lex (MStrQ (acc +:+ v)) rest.
Proof.
  intros Hv. induction v as [|c v IH]; intros acc rest; [by rewrite append_nil_l, append_nil_r|].
  apply Forall_cons in Hv as [Hc Hv]. rewrite append_cons. cbn [lex lex_step]. rewrite decide_False by done. cbn [app]. rewrite (IH Hv). by rewrite snoc_app.
Qed.

Lemma escape_no_quote s : no_quote (HTMLEscapeString s).
Proof.
  unfold no_quote. induction s as [|c s IH]; [constructor|]. cbn [HTMLEscapeString]. apply all_bytes_app. split; [|exact IH].
  repeat case_decide; repeat (constructor; [done|]); constructor.
Qed.

Lemma reads_quote v : reads (quote v) [TStr (HTMLEscapeString v)].
Proof.
  intros rest Hr. unfold quote. rewrite !append_assoc, !append_cons, !append_nil_l.
  change (lex (MStr "") (HTMLEscapeString v +:+ String "'" rest) = [TStr (HTMLEscapeString v)] ++ lex MOut rest). rewrite lex_str by apply escape_no_quote. by apply lex_str_end.
Qed.

(** ** Rows and statements *)

Lemma lex_punct c rest : begin_tok c = ([TPunct c], MOut) -> lex MOut (String c rest) = TPunct c :: lex MOut rest.
Proof. intros H. cbn [lex lex_step]. by rewrite H. Qed.

Lemma reads_Join vs tss : Forall2 reads vs tss -> reads (Join vs ",") (commas tss).
Proof.
  intros H. induction H as [|v ts vs tss Hv H IH]; intros rest Hr; [by rewrite append_nil_l|].
  destruct H as [|v' ts' vs tss Hv' H]; [by apply Hv|]. cbn [Join commas]. rewrite !append_assoc. rewrite Hv by done.
  rewrite append_cons, append_nil_l, lex_punct, <- app_assoc by done. cbn [app]. f_equal. f_equal. by apply IH.
Qed.

Lemma reads_paren vs ts : Forall2 reads vs ((fun t => [t]) <$> ts) -> reads ("(" +:+ Join vs "," +:+ ")") (paren ts).
Proof.
  intros H rest Hr. rewrite !append_assoc, !append_cons, !append_nil_l, lex_punct by done.
  rewrite (reads_Join _ _ H) by done. rewrite lex_punct by done. unfold paren. cbn [app]. by rewrite <- app_assoc.
Qed.

Lemma lex_rows rows tss : Forall2 reads rows tss -> lex MOut (Join rows "," +:+ ";") = commas tss ++ [TPunct ";"].
Proof. intros H. by rewrite (reads_Join _ _ H). Qed.

(** Every tag that names a column says how to create it; names are identifiers. *)
Definition tags_ok (rt : stype) : Prop :=
  Forall (fun f => skipped (orm f) = true \/ (exists d, getCreateDesc (orm f) = Ret d) /\ bare (column (Name f))) rt.

(** The texts of columns that are not quoted are empty or words, as numbers are. *)
Definition values_ok (rt : stype) (rv : svalue) : Prop :=
  Forall2 (fun f v => skipped (orm f) = true \/ quoted_column (desc_of f) = true \/ v = "" \/ bare v) rt rv.

(** The texts of a line for columns that are not quoted are empty or numbers. *)
Fixpoint line_ok (rt : stype) (varr : list string) : bool :=
  match rt with
  | [] => true
  | f :: rt =>
      if skipped (orm f) then line_ok rt varr
      else (quoted_column (desc_of f) || String.eqb (default "" (head varr)) "" || bool_decide ((ParseInt 64 (default "" (head varr))).2 = None))
           && line_ok rt (tail varr)
  end.

Lemma columns_cons f rt : columns (f :: rt) = if skipped (orm f) then columns rt else bracket (column (Name f)) :: columns rt.
Proof. unfold columns. cbn [omap list_omap]. by destruct (skipped (orm f)). Qed.

Lemma row_toks_length rt rv : length rt = length rv -> length (row_toks rt rv) = length (columns rt).
Proof.
  revert rv. induction rt as [|f rt IH]; intros [|v rv] H; try done. injection H as H. rewrite columns_cons. unfold row_toks in *. cbn.
  destruct (skipped (orm f)); cbn; by rewrite IH.
Qed.

Lemma log_toks_length rt : forall varr, length (log_toks rt varr) = length (columns rt).
Proof. induction rt as [|f rt IH]; intros varr; [done|]. rewrite columns_cons. cbn [log_toks]. destruct (skipped (orm f)); cbn; by rewrite IH. Qed.

Lemma reads_insert f d v : getCreateDesc (orm f) = Ret d -> quoted_column (desc_of f) = true \/ v = "" \/ bare v ->
  reads (insert_value d v) [insert_tok f v].
Proof.
  intros Hd Hv. unfold insert_value, insert_tok, desc_of in *. rewrite Hd in *. destruct (negb _ && _) eqn:E; [by apply reads_bare|].
  destruct (quoted_column d) eqn:Eq; [apply reads_quote|]. apply reads_bare. destruct Hv as [?|[->|?]]; [done| |done].
  unfold quoted_column in Eq. apply orb_false_iff in Eq as [_ Eq]. by rewrite Eq in E.
Qed.

Lemma insert_values_ok rt rv : tags_ok rt -> values_ok rt rv ->
  exists vs, insert_values rt rv = Ret vs /\ Forall2 reads vs ((fun t => [t]) <$> row_toks rt rv).
Proof.
  intros Ht Hv. induction Hv as [|f v rt rv Hf _ IH]; [by exists []|]. apply Forall_cons in Ht as [Hft Ht]. destruct (IH Ht) as (vs & E & Hr).
  unfold row_toks in *. cbn [insert_values zip zip_with omap list_omap fst snd]. destruct (skipped (orm f)) eqn:Es; [by exists vs|]. destruct Hft as [|[[d Hd] _]]; [done|].
  rewrite Hd, E. cbn [mbind go_bind]. eexists. split; [done|]. constructor; [|done]. apply reads_insert; [done|]. by destruct Hf as [|].
Qed.

Lemma reads_set f d v : getCreateDesc (orm f) = Ret d -> bare (column (Name f)) -> quoted_column (desc_of f) = true \/ v = "" \/ bare v ->
  reads (bracket (column (Name f)) +:+ "=" +:+ (if quoted_column d then quote v else v)) (set_toks f v).
Proof.
  intros Hd Hn Hv rest Hr. unfold bracket, set_toks, desc_of in *. rewrite Hd in *. rewrite !append_assoc, !append_cons, !append_nil_l.
  rewrite lex_punct by done. rewrite (reads_bare _ Hn) by done. rewrite !lex_punct by done. cbn [app]. do 4 f_equal.
  destruct (quoted_column d); [by apply reads_quote|]. destruct Hv as [|[->|Hb]]; [done|by rewrite append_nil_l|].
  rewrite (reads_bare _ Hb) by done. destruct v; [by destruct Hb|done].
Qed.

Lemma update_sets_ok rt rv fields : tags_ok rt -> values_ok rt rv ->
  exists sets, update_sets rt rv fields = Ret sets /\ Forall2 reads sets (sets_toks rt rv fields).
Proof.
  intros Ht Hv. induction Hv as [|f v rt rv Hf _ IH]; [by exists []|]. apply Forall_cons in Ht as [Hft Ht]. destruct (IH Ht) as (sets & E & Hr).
  unfold sets_toks in *. cbn [update_sets zip zip_with omap list_omap fst snd]. destruct (skipped (orm f)) eqn:Es; [by exists sets|]. cbn [orb].
  destruct ((0 <? length fields)%nat && _); [by exists sets|]. destruct Hft as [|[[d Hd] Hn]]; [done|].
  rewrite Hd, E. cbn [mbind go_bind]. eexists. split; [done|]. constructor; [|done]. apply reads_set; [done|done|]. by destruct Hf as [|].
Qed.

Lemma digits_word dash s : all_bytes is_digit s -> word_from dash s = true.
Proof.
  intros H. revert dash. induction s as [|c s IH]; intros dash; [done|]. apply Forall_cons in H as [Hc H]. cbn [word_from].
  assert (Hw : c <> "-"%char /\ word_char c = true) by (revert Hc; destruct c as [[] [] [] [] [] [] [] []]; intros Hc; by vm_compute in Hc).
  rewrite decide_False by apply Hw. by rewrite (proj2 Hw), IH.
Qed.

Lemma Itoa_bare n : bare (Itoa n).
Proof.
  split; [apply Itoa_nonempty|]. destruct n as [|p|p]; [done|rewrite Itoa_pos|rewrite Itoa_neg; cbn];
    apply digits_word, digit_of_uint.
Qed.

Lemma log_values_ok rt : tags_ok rt -> forall varr,
  if line_ok rt varr then exists vs, log_values rt varr = Ret vs /\ Forall2 reads vs ((fun t => [t]) <$> log_toks rt varr)
  else exists e, log_values rt varr = Err e.
Proof.
  intros Ht. induction Ht as [|f rt Hft Ht IH]; intros varr; [by exists []|]. cbn [line_ok log_toks log_values]. destruct (skipped (orm f)) eqn:Es; [apply IH|].
  destruct Hft as [|[[d Hd] _]]; [done|]. rewrite Hd. cbn [mbind go_bind]. specialize (IH (tail varr)).
  set (text := match varr with v :: _ => v | [] => "" end). replace (default "" (head varr)) with text by (by destruct varr).
  assert (Hc : forall x, reads x [log_tok f text] -> if line_ok rt (tail varr)
    then exists vs, (vs ← log_values rt (tail varr); Ret (x :: vs)) = Ret vs /\ Forall2 reads vs ((fun t => [t]) <$> log_tok f text :: log_toks rt (tail varr))
    else exists e, (vs ← log_values rt (tail varr); Ret (x :: vs)) = Err e).
  { intros x Hx. destruct (line_ok rt (tail varr)); [destruct IH as (vs & -> & H)|destruct IH as (e & ->)]; cbn [mbind go_bind]; eexists; [|done].
    split; [done|]. by constructor. }
  unfold log_tok, desc_of in *. rewrite Hd in *. destruct (quoted_column d); [apply Hc, reads_quote|]. cbn [orb].
  specialize (Hc (Itoa (ParseInt 64 text).1) (reads_bare _ (Itoa_bare _))). destruct (ParseInt 64 text) as [n [e|]]; cbn [fst snd] in *.
  - rewrite (bool_decide_false (Some e = None)) by done. rewrite orb_false_r. destruct (String.eqb text ""); cbn [negb andb]; [exact Hc|by eexists].
  - rewrite bool_decide_true, orb_true_r by done. cbn [andb]. exact Hc.
Qed.

Lemma rows_of_ok rt l : tags_ok rt -> Forall (values_ok rt) l ->
  exists rs, rows_of rt l = Ret rs /\ Forall2 reads rs (paren ∘ row_toks rt <$> l).
Proof.
  intros Ht Hl. induction Hl as [|v l Hv _ IH]; [by exists []|]. cbn [rows_of]. unfold getInsertValue. destruct (insert_values_ok rt v Ht Hv) as (vs & -> & Hr).
  destruct IH as (rs & -> & HF). cbn [mbind go_bind]. eexists. split; [done|]. constructor; [by apply reads_paren|done].
Qed.

Definition lines_ok (rt : stype) (ls : list string) : bool := forallb (fun v => line_ok rt (Split ";" v)) ls.

Lemma log_rows_ok rt ls : tags_ok rt ->
  if lines_ok rt ls then exists rs, log_rows rt ls = Ret rs /\ Forall2 reads rs ((fun v => paren (log_toks rt (Split ";" v))) <$> ls)
  else exists e, log_rows rt ls = Err e.
Proof.
  intros Ht. induction ls as [|v ls IH]; [by exists []|]. unfold lines_ok in *. cbn [forallb log_rows]. pose proof (log_values_ok rt Ht (Split ";" v)) as H.
  destruct (line_ok rt (Split ";" v)); cbn [andb]; [destruct H as (vs & -> & Hr)|destruct H as (e & ->); by eexists]. cbn [mbind go_bind].
  destruct (forallb _ ls); [destruct IH as (rs & -> & HF)|destruct IH as (e & ->); by eexists]. cbn [mbind go_bind]. eexists. split; [done|].
  constructor; [by apply reads_paren|done].
Qed.

(** C20. The statements as the database reads them, by the lexical rules of T-SQL:
    with tags that say how to create a column, the rows of InsertSQL are one
    parenthesis per structure with one value per column, each a text in quotes (the
    escaped text of the field), NULL or the word given, then the semicolon and nothing
    else; so are the rows of InsertSQLByLog for every line, whatever its texts are, with
    a number for each other column, and a line whose text for such a column is neither
    empty nor a number gives an error; UpdateSQL assigns to each column asked for its
    value.  InsertSQL and UpdateSQL need the texts of columns that are not quoted to be
    words, as numbers are: they are copied as they are.  A tag with create and no colon
    panics; and UpdateSQL writes nothing for an empty number where InsertSQL writes
    NULL. *)
Theorem sql_statements (rt : stype) (l : list svalue) (Ht : tags_ok rt) (Hne : l <> []) (Hv : Forall (values_ok rt) l) :
  (exists rs, InsertSQL rt (ASlice l) = Ret (insert_text (columns rt) rs) /\
     lex MOut (Join rs "," +:+ ";") = commas (paren ∘ row_toks rt <$> l) ++ [TPunct ";"]) /\
  (forall v, v ∈ l -> length (row_toks rt v) = length (columns rt)) /\
  (forall ls, if lines_ok rt ls
     then (exists rs, InsertSQLByLog rt ls = Ret (insert_text (columns rt) rs) /\
             lex MOut (Join rs "," +:+ ";") = commas ((fun v => paren (log_toks rt (Split ";" v))) <$> ls) ++ [TPunct ";"])
     else exists e, InsertSQLByLog rt ls = Err e) /\
  (forall v, length (log_toks rt (Split ";" v)) = length (columns rt)) /\
  (forall v where_ fields, v ∈ l -> exists sets,
     UpdateSQL rt v where_ fields = Ret ("UPDATE [%v].[dbo].[%v%v] SET " +:+ Join sets "," +:+ (if String.eqb where_ "" then "" else " WHERE " +:+ where_)) /\
     lex MOut (Join sets ",") = commas (sets_toks rt v fields)) /\
  (exists w, getCreateDesc "pk;create" = Panic w) /\
  (let age := [{| Name := "Age"; orm := "create:int"; index := "" |}] in
   InsertSQL age (AStruct [""]) = Ret "INSERT INTO [%v].[dbo].[%v] ([age]) VALUES(NULL);" /\
   UpdateSQL age [""] "id=1" [] = Ret "UPDATE [%v].[dbo].[%v%v] SET [age]= WHERE id=1" /\
   InsertSQL age (APtr ["1),(2"]) = Ret "INSERT INTO [%v].[dbo].[%v] ([age]) VALUES(1),(2);").
Proof.
  splits.
  - destruct (rows_of_ok rt l Ht Hv) as (rs & E & H). exists rs. split; [|by apply lex_rows]. unfold InsertSQL. destruct l; [done|]. by rewrite E.
  - intros v Hin. rewrite Forall_forall in Hv. apply row_toks_length. eapply Forall2_length, Hv, Hin.
  - intros ls. unfold InsertSQLByLog. pose proof (log_rows_ok rt ls Ht) as H. destruct (lines_ok rt ls).
    + destruct H as (rs & -> & H). exists rs. split; [done|by apply lex_rows].
    + destruct H as (e & ->). by exists e.
  - intros v. apply log_toks_length.
  - intros v wh fields Hin. rewrite Forall_forall in Hv. destruct (update_sets_ok rt v fields Ht (Hv v Hin)) as (sets & E & H). exists sets. split.
    + unfold UpdateSQL. by rewrite E.
    + pose proof (reads_Join _ _ H "" I) as Hl. by rewrite append_nil_r, app_nil_r in Hl.
  - by eexists.
  - by vm_compute.
Qed.

Module SqlSample.
Definition user : stype := [{| Name := "Id"; orm := "create:int"; index := "asc" |}; {| Name := "Temp"; orm := "-"; index := "" |};
  {| Name := "Name"; orm := "create:varchar(20)"; index := "" |}].
End SqlSample.

Lemma sql_statements_witness :
  exists rs, InsertSQL SqlSample.user (ASlice [["7"; "x"; "O'Neil"]]) = Ret (insert_text (columns SqlSample.user) rs) /\
    lex MOut (Join rs "," +:+ ";") =
      [TPunct "("; TWord "7"; TPunct ","; TStr "O&#39;Neil"; TPunct ")"; TPunct ";"].
Proof.
  destruct (sql_statements SqlSample.user [["7"; "x"; "O'Neil"]]) as [H _].
  - constructor; [right; split; [by exists "int"|done]|]. constructor; [by left|].
    constructor; [right; split; [by exists "varchar(20)"|done]|constructor].
  - discriminate.
  - constructor; [|constructor]. constructor; [right; right; by right|]. constructor; [by left|]. constructor; [right; by left|constructor].
  - exact H.
Defined.

Example insert_user :
  InsertSQL SqlSample.user (ASlice [["7"; "x"; "O'Neil"]; ["8"; ""; "Li"]]) =
    Ret "INSERT INTO [%v].[dbo].[%v] ([id],[name]) VALUES(7,'O&#39;Neil'),(8,'Li');".
Proof. reflexivity. Qed.

Example create_table :
  CreateSQL SqlSample.user (APtr []) = Ret ("CREATE TABLE [%v].[dbo].[%v]([id] int,[name] varchar(20)) ON [PRIMARY]",
    ["CREATE CLUSTERED INDEX [idx_%v_id] ON [%v].[dbo].[%v]([id] asc)"]).
Proof. reflexivity. Qed.

Example create_db : Contains (CreateDBSQL "game" "D:") "N'D:\\database\\game_log.ldf'" = true.
Proof. reflexivity. Qed.
