(* ===== verification/Clickhouse.v ===== *)
(** * ClickHouse tables: util/clickhouse.go

    The statements that create a database and a table, and the values of a row from a
    line of a log, text or number by the type of the column.  A structure type is the
    list of its fields with their tags. *)

From Stdlib Require Import ZArith Lia Ascii String.
From stdpp Require Import base numbers list strings.
From S2P Require Import Prelude GoStd GoText SqlServer.

Module Clickhouse.

Record field := { Name : string; ck : string; ck_part : string; ck_sort : string }.
Implicit Types (f : field) (rt : list field).

Definition ckDbSql : string := "CREATE DATABASE IF NOT EXISTS {db}".
Definition CreateClickhouseDBSQL (dbName : string) : string := ReplaceAll ckDbSql "{db}" dbName.

(** The loop over the fields, with what it has put together: the columns and the two
    clauses. *)
Fixpoint create_loop (rt : list field) (arr : list string) (partStr sortStr : string) : go (list string * string * string) :=
  match rt with
  | [] => Ret (arr, partStr, sortStr)
  | f :: rt =>
      if skipped (ck f) then create_loop rt arr partStr sortStr
      else
        desc ← getCreateDesc (ck f);
        let arr := arr ++ [column (Name f) +:+ " " +:+ desc] in
        let partStr := if negb (String.eqb (ck_part f) "") then " PARTITION BY " +:+ ck_part f else partStr in
        let sortStr := if negb (String.eqb (ck_part f) "") then " ORDER BY (" +:+ ck_sort f +:+ ")" else sortStr in
        create_loop rt arr partStr sortStr
  end.

(** The argument is a pointer to a structure or a slice; else reflect panics. *)
Definition CreateClickhouseSQL (rt : list field) (v : input) : go string :=
  match v with
  | AStruct _ => Panic "reflect: Elem of invalid type"
  | _ =>
      '(arr, partStr, sortStr) ← create_loop rt [] "" "";
      Ret ("CREATE TABLE IF NOT EXISTS %v.%v (" +:+ Join arr "," +:+ ") ENGINE=MergeTree" +:+ partStr +:+ sortStr)
  end.

(** The values of a row, an [any] each. *)
Inductive value := VString (s : string) | VUint64 (n : Z) | VInt64 (n : Z) | VUint32 (n : Z) | VInt32 (n : Z).

(** A number that does not parse is an error unless the text is empty. *)
Definition parsed (name value : string) (r : Z * option go_error) : go Z :=
  match r with
  | (n, err) =>
      if negb (String.eqb value "") && bool_decide (err <> None)
      then Err (ErrMsg ("日志字段[" +:+ name +:+ "]格式错误, value: " +:+ value))
      else Ret n
  end.

Definition log_field (name desc v : string) : go value :=
  if Contains desc "String" then Ret (VString (HTMLEscapeString v))
  else if Contains desc "UInt64" then n ← parsed name v (ParseUint 64 v); Ret (VUint64 n)
  else if Contains desc "Int64" then n ← parsed name v (ParseInt 64 v); Ret (VInt64 n)
  else if Contains desc "UInt32" then n ← parsed name v (ParseUint 32 v); Ret (VUint32 (wrapu 32 n))
  else n ← parsed name v (ParseInt 32 v); Ret (VInt32 (wraps 32 n)).

(** The loop over the fields, from the [index]th text of the line on. *)
Fixpoint log_fields (rt : list field) (varr : list string) : go (list value) :=
  match rt with
  | [] => Ret []
  | f :: rt =>
      if skipped (ck f) then log_fields rt varr
      else
        desc ← getCreateDesc (ck f);
        v ← log_field (Name f) desc (match varr with v :: _ => v | [] => "" end);
        vs ← log_fields rt (tail varr);
        Ret (v :: vs)
  end.

Definition InsertClickhouseSQLByLog (rt : list field) (l : string) : go (list value) := log_fields rt (Split ";" l).

(** ** What a row contains *)

(** Every tag that names a column says how to create it. *)
Definition tags_ok (rt : list field) : Prop := Forall (fun f => skipped (ck f) = true \/ exists d, getCreateDesc (ck f) = Ret d) rt.

(** The types of the columns. *)
Definition descs (rt : list field) : list string :=
  omap (fun f => if skipped (ck f) then None else match getCreateDesc (ck f) with Ret d => Some d | _ => None end) rt.

(** A value that a column of this type can hold. *)
Definition fits (desc : string) (v : value) : Prop :=
  match v with
  | VString _ => Contains desc "String" = true
  | VUint64 n => Contains desc "String" = false /\ Contains desc "UInt64" = true /\ in_u 64 n
  | VInt64 n => Contains desc "String" = false /\ Contains desc "UInt64" = false /\ Contains desc "Int64" = true /\ in_s 64 n
  | VUint32 n => Contains desc "String" = false /\ Contains desc "UInt64" = false /\ Contains desc "Int64" = false /\
      Contains desc "UInt32" = true /\ in_u 32 n
  | VInt32 n => Contains desc "String" = false /\ Contains desc "UInt64" = false /\ Contains desc "Int64" = false /\
      Contains desc "UInt32" = false /\ in_s 32 n
  end.

(** A value as a line of the log shows it, and as the row holds it. *)
Definition print (v : value) : string :=
  match v with VString s => s | VUint64 n | VInt64 n | VUint32 n | VInt32 n => Itoa n end.
Definition escaped (v : value) : value := match v with VString s => VString (HTMLEscapeString s) | _ => v end.
Definition one_text (v : value) : Prop := match v with VString s => all_bytes (fun c => c <> ";"%char) s | _ => True end.

(** The value of a column for which the line has no text. *)
Definition zero (desc : string) : value :=
  if Contains desc "String" then VString "" else if Contains desc "UInt64" then VUint64 0 else if Contains desc "Int64" then VInt64 0
  else if Contains desc "UInt32" then VUint32 0 else VInt32 0.

Lemma descs_cons f rt d : getCreateDesc (ck f) = Ret d -> descs (f :: rt) = if skipped (ck f) then descs rt else d :: descs rt.
Proof. intros Hd. unfold descs. cbn [omap list_omap]. rewrite Hd. by destruct (skipped (ck f)). Qed.

Lemma descs_skip f rt : skipped (ck f) = true -> descs (f :: rt) = descs rt.
Proof. intros Hs. unfold descs. cbn [omap list_omap]. by rewrite Hs. Qed.

Lemma print_one v : one_text v -> all_bytes (fun c => c <> ";"%char) (print v).
Proof. destruct v; cbn; [done|..]; intros _; by apply Itoa_free. Qed.

Lemma log_field_print name desc v : fits desc v -> log_field name desc (print v) = Ret (escaped v).
Proof.
  assert (Hp : forall n w, parsed name w (n, None) = Ret n) by (intros n w; unfold parsed; rewrite bool_decide_false by tauto; by rewrite andb_false_r).
  unfold log_field. destruct v as [s|n|n|n|n]; cbn [fits print escaped]; [by intros ->|..].
  - intros (-> & -> & Hn). by rewrite ParseUint_Itoa, Hp.
  - intros (-> & -> & -> & Hn). by rewrite ParseInt_Itoa, Hp.
  - intros (-> & -> & -> & -> & Hn). rewrite ParseUint_Itoa, Hp by done. cbn [mbind go_bind]. by rewrite wrapu_small.
  - intros (-> & -> & -> & -> & Hn). rewrite ParseInt_Itoa, Hp by done. cbn [mbind go_bind]. by rewrite wraps_small.
Qed.

Lemma log_field_zero name desc : log_field name desc "" = Ret (zero desc).
Proof. unfold log_field, zero. by repeat case_goal. Qed.

Lemma log_field_fits name desc w : (exists v, log_field name desc w = Ret v /\ fits desc v) \/
  w <> "" /\ log_field name desc w = Err (ErrMsg ("日志字段[" +:+ name +:+ "]格式错误, value: " +:+ w)).
Proof.
  assert (Hp : forall r, parsed name w r = Ret r.1 \/ w <> "" /\ parsed name w r = Err (ErrMsg ("日志字段[" +:+ name +:+ "]格式错误, value: " +:+ w))).
  { intros [n err]. unfold parsed. destruct (String.eqb_spec w ""); cbn; [by left|]. destruct (bool_decide _); [by right|by left]. }
  unfold log_field. destruct (Contains desc "String") eqn:E1; [left; by eexists|].
  destruct (Contains desc "UInt64") eqn:E2; [|destruct (Contains desc "Int64") eqn:E3; [|destruct (Contains desc "UInt32") eqn:E4]].
  - destruct (Hp (ParseUint 64 w)) as [->|[? ->]]; cbn [mbind go_bind]; [left; eexists; split; [done|]; cbn; split_and!; [done..|by apply ParseUint_range]|by right].
  - destruct (Hp (ParseInt 64 w)) as [->|[? ->]]; cbn [mbind go_bind]; [left; eexists; split; [done|]; cbn; split_and!; [done..|by apply ParseInt_range]|by right].
  - destruct (Hp (ParseUint 32 w)) as [->|[? ->]]; cbn [mbind go_bind]; [left; eexists; split; [done|]; cbn; split_and!; [done..|by apply wrapu_range]|by right].
  - destruct (Hp (ParseInt 32 w)) as [->|[? ->]]; cbn [mbind go_bind]; [left; eexists; split; [done|]; cbn; split_and!; [done..|by apply wraps_range]|by right].
Qed.

Lemma log_fields_print rt vs : tags_ok rt -> Forall2 fits (descs rt) vs -> log_fields rt (print <$> vs) = Ret (escaped <$> vs).
Proof.
  intros Ht. revert vs. induction Ht as [|f rt Hf Ht IH]; intros vs Hv; [by inversion Hv|]. cbn [log_fields].
  destruct (skipped (ck f)) eqn:Es; [rewrite descs_skip in Hv by done; by apply IH|]. destruct Hf as [|[d Hd]]; [done|].
  rewrite (descs_cons f rt d Hd), Es in Hv. inversion Hv as [|d' v ds vs' Hfit Hv' E1 E2]; subst. rewrite Hd. cbn [mbind go_bind fmap list_fmap tail].
  rewrite log_field_print by done. cbn [mbind go_bind]. by rewrite IH.
Qed.

Lemma log_fields_none rt : tags_ok rt -> log_fields rt [] = Ret (zero <$> descs rt).
Proof.
  intros Ht. induction Ht as [|f rt Hf Ht IH]; [done|]. cbn [log_fields]. destruct (skipped (ck f)) eqn:Es; [by rewrite descs_skip|].
  destruct Hf as [|[d Hd]]; [done|]. rewrite (descs_cons f rt d Hd), Es, Hd. cbn [mbind go_bind tail]. by rewrite log_field_zero, IH.
Qed.

Lemma log_fields_fits rt varr : tags_ok rt -> (exists vs, log_fields rt varr = Ret vs /\ Forall2 fits (descs rt) vs) \/
  exists f w, f ∈ rt /\ w ∈ varr /\ log_fields rt varr = Err (ErrMsg ("日志字段[" +:+ Name f +:+ "]格式错误, value: " +:+ w)).
Proof.
  intros Ht. revert varr. induction Ht as [|f rt Hf Ht IH]; intros varr; [left; by exists []|]. cbn [log_fields].
  destruct (skipped (ck f)) eqn:Es.
  { rewrite descs_skip by done. destruct (IH varr) as [?|(f' & w & ? & ?)]; [by left|right]. exists f', w. split; [by right|done]. }
  destruct Hf as [|[d Hd]]; [done|]. rewrite (descs_cons f rt d Hd), Es, Hd. cbn [mbind go_bind].
  destruct (log_field_fits (Name f) d (match varr with v :: _ => v | [] => "" end)) as [(v & -> & Hv)|[Hw ->]]; cbn [mbind go_bind].
  - destruct (IH (tail varr)) as [(vs & -> & Hvs)|(f' & w & ? & Hw & ->)]; cbn [mbind go_bind].
    + left. exists (v :: vs). split; [done|]. by constructor.
    + right. exists f', w. split_and!; [by right| |done]. destruct varr; [done|by right].
  - right. exists f. destruct varr as [|w varr]; [done|]. exists w. split_and!; [left|left|done].
Qed.

(** C39. A line of the log becomes a row with one value for each column, text or number
    as the type of the column says and within its range, or the call returns the error
    that names a field and its text; it never panics.  The line that shows the values
    of a row, numbers in decimal and texts without semicolons, gives these values back,
    the texts escaped.  A column for which the line has no text gets the zero value. *)
Theorem clickhouse_log (rt : list field) (Ht : tags_ok rt) :
  (forall l, (exists vs, InsertClickhouseSQLByLog rt l = Ret vs /\ Forall2 fits (descs rt) vs) \/
    exists f w, f ∈ rt /\ w ∈ Split ";" l /\ InsertClickhouseSQLByLog rt l = Err (ErrMsg ("日志字段[" +:+ Name f +:+ "]格式错误, value: " +:+ w))) /\
  (forall vs, vs <> [] -> Forall2 fits (descs rt) vs -> Forall one_text vs -> InsertClickhouseSQLByLog rt (Join (print <$> vs) ";") = Ret (escaped <$> vs)) /\
  InsertClickhouseSQLByLog rt "" = Ret (zero <$> descs rt).
Proof.
  split; [|split].
  - intros l. by apply log_fields_fits.
  - intros vs Hne Hv Ho. unfold InsertClickhouseSQLByLog. rewrite Split_Join; [by apply log_fields_print|by destruct vs|].
    apply Forall_fmap. eapply Forall_impl; [done|]. apply print_one.
  - unfold InsertClickhouseSQLByLog. cbn [Split]. rewrite <- (log_fields_none rt Ht). clear Ht. induction rt as [|f rt IH]; [done|]. cbn [log_fields].
    destruct (skipped (ck f)); [done|]. by destruct (getCreateDesc (ck f)).
Qed.

Definition sample : list field :=
  [{| Name := "Id"; ck := "create:UInt64"; ck_part := ""; ck_sort := "id" |};
   {| Name := "Note"; ck := "create:String"; ck_part := ""; ck_sort := "" |};
   {| Name := "Skip"; ck := "-"; ck_part := ""; ck_sort := "" |};
   {| Name := "Gold"; ck := "create:Int32"; ck_part := ""; ck_sort := "" |}].

Lemma sample_tags : tags_ok sample.
Proof. repeat (constructor; [first [by left|right; eexists; vm_compute; reflexivity]|]). constructor. Qed.

Lemma clickhouse_log_witness : InsertClickhouseSQLByLog sample "18446744073709551615;<b>;-7" =
    Ret [VUint64 18446744073709551615; VString "&lt;b&gt;"; VInt32 (-7)] /\
  InsertClickhouseSQLByLog sample "" = Ret [VUint64 0; VString ""; VInt32 0].
Proof.
  destruct (clickhouse_log sample sample_tags) as (_ & H2 & H3). split; [|exact H3].
  apply (H2 [VUint64 18446744073709551615; VString "<b>"; VInt32 (-7)]); [discriminate| |].
  - repeat constructor; vm_compute; done.
  - repeat constructor; vm_compute; discriminate.
Defined.

(** ** The table *)

(** The clauses are those of the last column that has a partition key; the loop looks
    at the partition key for both. *)
Lemma create_loop_clauses rt arr p s : tags_ok rt -> exists cols, create_loop rt arr p s = Ret (arr ++ cols,
    match last (filter (fun f => skipped (ck f) = false /\ ck_part f <> "") rt) with Some f => " PARTITION BY " +:+ ck_part f | None => p end,
    match last (filter (fun f => skipped (ck f) = false /\ ck_part f <> "") rt) with Some f => " ORDER BY (" +:+ ck_sort f +:+ ")" | None => s end) /\
  length cols = length (descs rt).
Proof.
  intros Ht. revert arr p s. induction Ht as [|f rt Hf Ht IH]; intros arr p s; [exists []; by rewrite app_nil_r|]. cbn [create_loop].
  destruct (skipped (ck f)) eqn:Es.
  { rewrite filter_cons_False by (rewrite Es; by intros [? _]). rewrite descs_skip by done. apply IH. }
  destruct Hf as [|[d Hd]]; [done|]. rewrite (descs_cons f rt d Hd), Es, Hd. cbn [mbind go_bind].
  destruct (String.eqb_spec (ck_part f) "") as [Ep|Ep]; cbn [negb].
  - rewrite filter_cons_False by tauto. destruct (IH (arr ++ [column (Name f) +:+ " " +:+ d]) p s) as (cols & -> & Hl).
    exists ((column (Name f) +:+ " " +:+ d) :: cols). rewrite <- app_assoc. cbn. by rewrite Hl.
  - rewrite filter_cons_True by done. edestruct (IH (arr ++ [column (Name f) +:+ " " +:+ d])) as (cols & -> & Hl).
    exists ((column (Name f) +:+ " " +:+ d) :: cols). rewrite <- app_assoc. cbn [length app]. rewrite Hl. split; [|done].
    rewrite last_cons. by destruct (last (filter _ rt)).
Qed.

(** A table without a partition key gets no ORDER BY, though its fields name one. *)
Lemma clickhouse_sort_lost : CreateClickhouseSQL sample (APtr []) =
  Ret "CREATE TABLE IF NOT EXISTS %v.%v (id UInt64,note String,gold Int32) ENGINE=MergeTree".
Proof. vm_compute. reflexivity. Qed.
End Clickhouse.
