(* ===== verification/MysqlDB.v ===== *)
(** * The database layer: db/mysql.go, db/postgres.go and db/json.go

    gorm is a parameter: a call of it is the chain of clauses the code builds and
    the method that ends it, and [run] executes one on the database.  For tests the
    layer serves prepared results instead.  A structure is the map of its fields
    that are not zero; queries fill a structure or a slice of them. *)

From Stdlib Require Import ZArith Lia Ascii String.
From stdpp Require Import base numbers list strings gmap.
From S2P Require Import Prelude GoStd GoText WatchConfig.

Abbreviation row := (gmap string string).
(** [spare]: the elements of the slice's array between its length and its capacity. *)
Inductive data := One (r : row) | Many (l spare : list row).

Inductive clause :=
  | CSelect (fields : list string) | CWhereMap (k v : string) | CWhere (query : string) (args : list string)
  | CWhereKV (k v : string) | COrder (order : string) | CLimit (n : Z) | COffset (n : Z)
  | CModel (d : data) | CUnscoped | COnConflictUpdateAll.
Inductive finish := FFirst | FFind | FCreate | FUpdates | FDelete | FCount | FExec (sql : string) (values : list string).

Record MockResult := { Data : option data; Err_ : option go_error; Count_ : Z }.

(** encoding/gob over an existing value: fields that are zero are not sent, and what
    is not sent stays as it is; a slice is read into the array that is there if its
    capacity is enough. *)
Definition merge (dst src : row) : row := src ∪ dst.
Definition deepCopy (dst : data) (src : option data) : data :=
  match dst, src with
  | One d, Some (One s) => One (merge d s)
  | Many d spare, Some (Many s _) =>
      let n := length s in let arr := d ++ spare in
      if (n <=? length arr)%nat then Many (zip_with merge (take n arr) s) (drop n arr) else Many s []
  | _, _ => dst
  end.

Section db.
Context {D : Type} (run : list clause -> finish -> data -> D -> D * data * Z * option go_error).

Record MysqlDB := { DB : option D; Mock : option (list MockResult) }.

(** The next prepared result. *)
Definition next_mock (md : MysqlDB) : option (MockResult * MysqlDB) :=
  match Mock md with
  | Some (m :: rs) => Some (m, {| DB := DB md; Mock := Some rs |})
  | _ => None
  end.

(** A chain on md.DB, which is nil while there are prepared results. *)
Definition on_db (md : MysqlDB) (cs : list clause) (f : finish) (d : data) : go (data * Z * option go_error * MysqlDB) :=
  match DB md with
  | None => Panic "invalid memory address or nil pointer dereference"
  | Some st => let '(st, d, n, e) := run cs f d st in Ret (d, n, e, {| DB := Some st; Mock := Mock md |})
  end.

Definition Exec (md : MysqlDB) (sql : string) (values : list string) : go (option go_error * MysqlDB) :=
  match Mock md with
  | Some _ => Ret (None, md)
  | None => '(_, _, e, md) ← on_db md [] (FExec sql values) (One ∅); Ret (e, md)
  end.

(** Queries return what [data] points to afterwards, and the error. *)
Definition QueryOne (md : MysqlDB) (k v : string) (d : data) (fields : list string) : go (data * option go_error * MysqlDB) :=
  match next_mock md with
  | Some (m, md) => Ret (deepCopy d (Data m), Err_ m, md)
  | None =>
      '(d, _, e, md) ← on_db md ((if (0 <? length fields)%nat then [CSelect fields] else []) ++ [CWhereMap k v]) FFirst d; Ret (d, e, md)
  end.

Definition Query (md : MysqlDB) (d : data) (query : string) (args : list string) : go (data * option go_error * MysqlDB) :=
  match next_mock md with
  | Some (m, md) => Ret (deepCopy d (Data m), Err_ m, md)
  | None => '(d, _, e, md) ← on_db md [CWhere query args] FFirst d; Ret (d, e, md)
  end.

Definition where_clause (query : option string) (args : list string) : list clause :=
  match query with Some q => [CWhere q args] | None => [] end.

Definition QueryAll (md : MysqlDB) (d : data) (order : string) (limit : Z) (query : option string) (args : list string)
    : go (data * option go_error * MysqlDB) :=
  match next_mock md with
  | Some (m, md) => Ret (deepCopy d (Data m), Err_ m, md)
  | None =>
      '(d, _, e, md) ← on_db md (where_clause query args ++ (if (0 <? String.length order)%nat then [COrder order] else []) ++
                                 (if 0 <? limit then [CLimit limit] else [])) FFind d;
      Ret (d, e, md)
  end.

Definition Save (md : MysqlDB) (d : data) (fields : list string) : go (option go_error * MysqlDB) :=
  match next_mock md with
  | Some (m, md) => Ret (Err_ m, md)
  | None =>
      '(_, _, e, md) ← (if (length fields =? 0)%nat then on_db md [COnConflictUpdateAll] FCreate d
                        else on_db md [CModel d; CSelect fields] FUpdates d);
      Ret (e, md)
  end.

Definition SaveByWhere (md : MysqlDB) (d : data) (k v : string) (fields : list string) : go (option go_error * MysqlDB) :=
  match next_mock md with
  | Some (m, md) => Ret (Err_ m, md)
  | None => '(_, _, e, md) ← on_db md [CModel d; CWhereKV k v] FUpdates d; Ret (e, md)
  end.

Definition Delete (md : MysqlDB) (d : data) (query : option string) (args : list string) : go (option go_error * MysqlDB) :=
  match next_mock md with
  | Some (m, md) => Ret (Err_ m, md)
  | None => '(_, _, e, md) ← on_db md (CUnscoped :: where_clause query args) FDelete d; Ret (e, md)
  end.

(** The count and the page; an error of the count stays with the chain. *)
Definition QueryList (md : MysqlDB) (d : data) (order : string) (limit index : Z) (query : option string) (args : list string)
    : go (Z * data * option go_error * MysqlDB) :=
  match next_mock md with
  | Some (m, md) => Ret (Count_ m, deepCopy d (Data m), Err_ m, md)
  | None =>
      let chain := CModel d :: where_clause query args in
      '(_, r, e, md) ← on_db md chain FCount d;
      match e with
      | Some e => Ret (0, d, Some e, md)
      | None =>
          '(d, _, e, md) ← on_db md (chain ++ (if (0 <? String.length order)%nat then [COrder order] else []) ++
                                     [CLimit limit; COffset (i64 ((index - 1) * limit))]) FFind d;
          Ret (match e with Some e => (0, d, Some e, md) | None => (r, d, None, md) end)
      end
  end.

Definition Count (md : MysqlDB) (d : data) (query : option string) (args : list string) : go (Z * option go_error * MysqlDB) :=
  match next_mock md with
  | Some (m, md) => Ret (Count_ m, Err_ m, md)
  | None => '(_, r, e, md) ← on_db md (CModel d :: where_clause query args) FCount d; Ret (r, e, md)
  end.

(** ** Opening *)

Context {W : Type} (open : W -> string -> go D) (create : W -> D -> string -> W * option go_error).
Context (migrate : D -> D * option go_error).

Definition err_string (e : go_error) : string := match e with EOF => "EOF" | ErrUnexpectedEOF => "unexpected EOF" | ErrMsg s => s end.
Definition wrap (msg : string) (e : go_error) : go_error := ErrMsg (msg +:+ ": " +:+ err_string e).

(** Opens [newDsn]; if the server says [unknown] it creates the database first. *)
Definition open_or_create (w : W) (dsn newDsn dbName unknown : string) : go D * W :=
  match open w newDsn with
  | Ret db => (Ret db, w)
  | Panic p => (Panic p, w)
  | Err e =>
      if negb (Contains (err_string e) unknown) then (Err e, w)
      else
        match open w dsn with
        | Err e => (Err (wrap ("gorm.Open: " +:+ dsn) e), w)
        | Panic p => (Panic p, w)
        | Ret temp =>
            let '(w, e) := create w temp dbName in
            match e with Some e => (Err e, w) | None => (open w newDsn, w) end
        end
  end.

Definition openDB (w : W) (dsn dbName : string) : go D * W :=
  if negb (Contains dsn "/?") then (open w dsn, w)
  else open_or_create w dsn (ReplaceAll dsn "/?" ("/" +:+ dbName +:+ "?")) dbName "Unknown database".

Definition openPgDB (w : W) (dsn dbName : string) : go D * W :=
  if Contains dsn "dbname=" then (open w dsn, w)
  else open_or_create w dsn (dsn +:+ " dbname=" +:+ dbName) dbName "SQLSTATE 3D000".

Definition init_with (opened : go D * W) (results : list MockResult) : go MysqlDB * option W :=
  match results with
  | _ :: _ => (Ret {| DB := None; Mock := Some results |}, None)
  | [] =>
      let '(o, w) := opened in
      (match o with
       | Ret db => let '(db, e) := migrate db in match e with Some e => Err e | None => Ret {| DB := Some db; Mock := None |} end
       | Err e => Err (wrap "gorm.Open" e)
       | Panic p => Panic p
       end, Some w)
  end.
Definition InitMysql (w : W) (dsn dbName : string) (results : list MockResult) := init_with (openDB w dsn dbName) results.
Definition InitPg (w : W) (dsn dbName : string) (results : list MockResult) := init_with (openPgDB w dsn dbName) results.
End db.

(** ** Fields kept as JSON *)

Section json_fields.
Context {A : Type} `{Json A}.

(** Unmarshal: the value read into [data], and the text afterwards. *)
Definition UnmarshalField (p : string) (d : A) : A * string * option go_error :=
  if (String.length p =? 0)%nat then (d, p, None)
  else match Unmarshal p with
       | (v, None) => (v, "", None)
       | (v, Some e) => (v, p, Some e)
       end.

(** Marshal: empty when [fields] are given and [field] is not one of them. *)
Definition MarshalField (d : A) (field : string) (fields : list string) : string :=
  if (0 <? length fields)%nat && negb (bool_decide (field ∈ fields)) then "" else Marshal d.

(** JSONSerializer: what the database holds, and the new value of the field;
    [zero] is the zero value of its type. *)
Inductive db_value := DBNull | DBBytes (b : string) | DBString (s : string) | DBOther.
Definition Scan (zero : A) (old : A) (v : db_value) : A * option go_error :=
  match v with
  | DBNull => (zero, None)
  | DBBytes s | DBString s => Unmarshal s
  | DBOther => (old, Some (ErrMsg "failed to unmarshal JSONB value"))
  end.
Definition Value (d : A) : db_value := DBBytes (Marshal d).
End json_fields.

(** ** Calls on prepared results *)

Section mocks.
Context {D : Type} (run : list clause -> finish -> data -> D -> D * data * Z * option go_error).

Inductive call :=
  | CallExec (sql : string) (values : list string)
  | CallQueryOne (k v : string) (d : data) (fields : list string)
  | CallQuery (d : data) (query : string) (args : list string)
  | CallQueryAll (d : data) (order : string) (limit : Z) (query : option string) (args : list string)
  | CallSave (d : data) (fields : list string)
  | CallSaveByWhere (d : data) (k v : string) (fields : list string)
  | CallDelete (d : data) (query : option string) (args : list string)
  | CallQueryList (d : data) (order : string) (limit index : Z) (query : option string) (args : list string)
  | CallCount (d : data) (query : option string) (args : list string).

(** What the caller sees: the data, the count and the error. *)
Definition result : Type := option data * option Z * option go_error.

Definition do_call (md : MysqlDB (D := D)) (c : call) : go (result * MysqlDB (D := D)) :=
  match c with
  | CallExec sql vs => '(e, md) ← Exec run md sql vs; Ret ((None, None, e), md)
  | CallQueryOne k v d fs => '(d, e, md) ← QueryOne run md k v d fs; Ret ((Some d, None, e), md)
  | CallQuery d q args => '(d, e, md) ← Query run md d q args; Ret ((Some d, None, e), md)
  | CallQueryAll d o l q args => '(d, e, md) ← QueryAll run md d o l q args; Ret ((Some d, None, e), md)
  | CallSave d fs => '(e, md) ← Save run md d fs; Ret ((None, None, e), md)
  | CallSaveByWhere d k v fs => '(e, md) ← SaveByWhere run md d k v fs; Ret ((None, None, e), md)
  | CallDelete d q args => '(e, md) ← Delete run md d q args; Ret ((None, None, e), md)
  | CallQueryList d o l i q args => '(n, d, e, md) ← QueryList run md d o l i q args; Ret ((Some d, Some n, e), md)
  | CallCount d q args => '(n, e, md) ← Count run md d q args; Ret ((None, Some n, e), md)
  end.

Fixpoint do_all (md : MysqlDB (D := D)) (cs : list call) : go (list result * MysqlDB (D := D)) :=
  match cs with
  | [] => Ret ([], md)
  | c :: cs => '(r, md) ← do_call md c; '(rs, md) ← do_all md cs; Ret (r :: rs, md)
  end.

(** The specification: a queue of results, which Exec does not touch. *)
Definition mock_result (c : call) (m : MockResult) : result :=
  match c with
  | CallExec _ _ => (None, None, None)
  | CallQueryOne _ _ d _ | CallQuery d _ _ | CallQueryAll d _ _ _ _ => (Some (deepCopy d (Data m)), None, Err_ m)
  | CallSave _ _ | CallSaveByWhere _ _ _ _ | CallDelete _ _ _ => (None, None, Err_ m)
  | CallQueryList d _ _ _ _ _ => (Some (deepCopy d (Data m)), Some (Count_ m), Err_ m)
  | CallCount _ _ _ => (None, Some (Count_ m), Err_ m)
  end.

Definition is_exec (c : call) : bool := match c with CallExec _ _ => true | _ => false end.

Fixpoint serve (queue : list MockResult) (cs : list call) : option (list result * list MockResult) :=
  match cs with
  | [] => Some ([], queue)
  | c :: cs =>
      if is_exec c then '(rs, q) ← serve queue cs; Some ((None, None, None) :: rs, q)
      else match queue with
           | [] => None
           | m :: queue => '(rs, q) ← serve queue cs; Some (mock_result c m :: rs, q)
           end
  end.

Definition mocked (queue : list MockResult) : MysqlDB (D := D) := {| DB := None; Mock := Some queue |}.

Lemma do_call_exec q sql vs : do_call (mocked q) (CallExec sql vs) = Ret ((None, None, None), mocked q).
Proof using Type. done. Qed.
Lemma do_call_mock m q c : is_exec c = false -> do_call (mocked (m :: q)) c = Ret (mock_result c m, mocked q).
Proof using Type. by destruct c. Qed.
Lemma do_call_empty c : is_exec c = false -> exists w, do_call (mocked []) c = Panic w.
Proof using Type.
  clear. destruct c; try done; intros _; cbn; try (by eexists). destruct (length _ =? 0)%nat; by eexists.
Qed.

(** C37. Prepared results.  A sequence of calls on a layer opened with prepared results
    behaves as the queue of them: each call but Exec takes the next one and returns
    its error, its count and its data copied over the caller's; Exec succeeds
    and takes none; and a call that finds the queue empty panics, since there is
    no database.  The copy keeps the caller's fields that are zero in the result. *)
Theorem mysql_mock (queue : list MockResult) (cs : list call) :
  match serve queue cs with
  | Some (rs, q) => do_all (mocked queue) cs = Ret (rs, mocked q)
  | None => exists w, do_all (mocked queue) cs = Panic w
  end /\
  (forall d s k x, s !! k = None -> d !! k = Some x -> exists r, deepCopy (One d) (Some (One s)) = One r /\ r !! k = Some x) /\
  (forall d s k x, s !! k = Some x -> exists r, deepCopy (One d) (Some (One s)) = One r /\ r !! k = Some x).
Proof using Type.
  splits.
  - revert queue. induction cs as [|c cs IH]; intros queue; [done|]. cbn [serve do_all]. destruct (is_exec c) eqn:Ee.
    + destruct c; try done. rewrite do_call_exec. cbn [mbind go_bind]. specialize (IH queue). destruct (serve queue cs) as [[rs q]|]; cbn [mbind option_bind].
      * by rewrite IH.
      * destruct IH as [w ->]. by exists w.
    + destruct queue as [|m queue]; [destruct (do_call_empty c Ee) as [w ->]; by exists w|]. rewrite do_call_mock by done. cbn [mbind go_bind].
      specialize (IH queue). destruct (serve queue cs) as [[rs q]|]; cbn [mbind option_bind]; [by rewrite IH|]. destruct IH as [w ->]. by exists w.
  - intros d s k x Hs Hd. eexists. split; [done|]. unfold merge. by rewrite lookup_union_r.
  - intros d s k x Hs. eexists. split; [done|]. unfold merge. by apply lookup_union_Some_l.
Qed.
End mocks.

(** ** Pages *)

Lemma pages_concat {A} (l : nat) (rows : list A) (k : nat) : concat ((fun i => take l (drop (i * l) rows)) <$> seq 0 k) = take (k * l) rows.
Proof.
  induction k as [|k IH]; [done|]. rewrite seq_S, fmap_app, concat_app, IH. cbn [fmap list_fmap concat]. rewrite app_nil_r, Nat.add_0_l.
  rewrite take_take_drop. f_equal. lia.
Qed.

Section pages.
Context {D : Type} (run : list clause -> finish -> data -> D -> D * data * Z * option go_error).
Context (st : D) (d : data) (order : string) (query : option string) (args : list string) (rows : list row).

Definition list_chain : list clause := CModel d :: where_clause query args.
Definition list_order : list clause := if (0 <? String.length order)%nat then [COrder order] else [].

(** What gorm promises: Count is the number of matching rows, and Limit and Offset
    choose a part of them. *)
Definition gorm_lists : Prop :=
  run list_chain FCount d st = (st, d, Z.of_nat (length rows), None) /\
  forall l o, 0 < l -> 0 <= o -> exists n spare,
    run (list_chain ++ list_order ++ [CLimit l; COffset o]) FFind d st = (st, Many (take (Z.to_nat l) (drop (Z.to_nat o) rows)) spare, n, None).

(** Pages.  On a database that counts and selects as gorm documents, page [index]
    of QueryList, from 1, holds [limit] rows from the place where the page before
    ended, with the number of all rows; the pages one after the other are the whole
    list, each row once. *)
Lemma mysql_pages (limit : Z) (k : nat) (Hg : gorm_lists) (Hl : 0 < limit) (Hk : Z.of_nat k * limit < 2 ^ 63) :
  let md := {| DB := Some st; Mock := None |} in
  let page i := take (Z.to_nat limit) (drop (i * Z.to_nat limit) rows) in
  (forall i, (i < k)%nat -> exists spare,
     QueryList run md d order limit (Z.of_nat i + 1) query args = Ret (Z.of_nat (length rows), Many (page i) spare, None, md)) /\
  concat (page <$> seq 0 k) = take (k * Z.to_nat limit) rows /\
  (Z.of_nat (length rows) <= Z.of_nat k * limit -> concat (page <$> seq 0 k) = rows).
Proof using Type.
  cbn zeta. destruct Hg as [Hc Hf]. unfold list_chain, list_order in *. splits.
  - intros i Hi. unfold QueryList, next_mock. cbn [Mock]. unfold on_db. cbn [DB Mock]. rewrite Hc. cbn [mbind go_bind DB Mock].
    replace (Z.of_nat i + 1 - 1) with (Z.of_nat i) by lia. rewrite wraps_small by (unfold in_s; nia).
    destruct (Hf limit (Z.of_nat i * limit) Hl ltac:(nia)) as (n & spare & E). rewrite E. cbn [mbind go_bind]. exists spare.
    rewrite Z2Nat.inj_mul by lia. by rewrite Nat2Z.id.
  - apply pages_concat.
  - intros Hr. rewrite pages_concat. apply take_ge. apply Nat2Z.inj_le. rewrite Nat2Z.inj_mul, Z2Nat.id by lia. done.
Qed.
End pages.

(** A missing database is created and then opened; other errors are returned. *)
Lemma open_creates {D W} (open : W -> string -> go D) (create : W -> D -> string -> W * option go_error) (w : W) (dsn dbName : string) e temp w' :
  let newDsn := ReplaceAll dsn "/?" ("/" +:+ dbName +:+ "?") in
  Contains dsn "/?" = true -> open w newDsn = Err e ->
  (Contains (err_string e) "Unknown database" = false -> openDB open create w dsn dbName = (Err e, w)) /\
  (Contains (err_string e) "Unknown database" = true -> open w dsn = Ret temp -> create w temp dbName = (w', None) ->
     openDB open create w dsn dbName = (open w' newDsn, w')).
Proof.
  cbn zeta. intros Hd He. unfold openDB, open_or_create. rewrite Hd, He. cbn [negb]. split; intros H; rewrite H; [done|]. cbn [negb]. by intros -> ->.
Qed.

(** A field written as JSON is read back, by Unmarshal and by the serializer. *)
Lemma json_field_back {A} `{Json A} (d zero old : A) field fields : json_ok d -> fields = [] \/ field ∈ fields ->
  UnmarshalField (MarshalField d field fields) zero = (d, "", None) /\ Scan zero old (Value d) = (d, None).
Proof.
  intros Hok Hf. unfold MarshalField.
  assert ((0 <? length fields)%nat && negb (bool_decide (field ∈ fields)) = false) as -> by (destruct Hf as [->|Hf]; [done|by rewrite bool_decide_true, andb_false_r]).
  unfold UnmarshalField, Scan, Value. rewrite json_back by done. pose proof (json_nonempty d). destruct (Marshal d); done.
Qed.

(** ** Example: a table of three rows *)

Module DbSample.
Definition rows : list row := [{["id" := "1"]}; {["id" := "2"]}; {["id" := "3"]}].
Definition part (cs : list clause) : list row :=
  fold_left (fun l c => match c with CLimit n => take (Z.to_nat n) l | _ => l end) cs
    (fold_left (fun l c => match c with COffset n => drop (Z.to_nat n) l | _ => l end) cs rows).
Definition run (cs : list clause) (f : finish) (d : data) (st : unit) : unit * data * Z * option go_error :=
  match f with
  | FCount => (st, d, 3, None)
  | FFind => (st, Many (part cs) [], 0, None)
  | _ => (st, d, 0, None)
  end.
End DbSample.

Lemma mysql_pages_witness :
  exists spare, QueryList DbSample.run {| DB := Some (); Mock := None |} (Many [] []) "id" 2 2 None [] =
    Ret (3, Many [{["id" := "3"]}] spare, None, {| DB := Some (); Mock := None |}).
Proof.
  destruct (mysql_pages DbSample.run () (Many [] []) "id" None [] DbSample.rows 2 2) as [H _].
  - split; [reflexivity|]. intros l o Hl Ho. exists 0, []. reflexivity.
  - reflexivity.
  - reflexivity.
  - exact (H 1%nat ltac:(lia)).
Defined.

Example mock_queue :
  do_all DbSample.run (mocked [{| Data := Some (One {["id" := "7"]}); Err_ := None; Count_ := 0 |}; {| Data := None; Err_ := Some EOF; Count_ := 4 |}])
    [CallExec "create" []; CallQueryOne "id" "7" (One ∅) []; CallCount (One ∅) None []] =
  Ret ([(None, None, None); (Some (One {["id" := "7"]}), None, None); (None, Some 4, Some EOF)], mocked []).
Proof. reflexivity. Qed.
