(* ===== verification/XLog.v ===== *)
(** * The log: util/xlog.go

    A logger passes records over an unbuffered channel to a goroutine that appends
    one line of JSON for each to the file of the day.  [stack] are the frames of the
    program when a function of the log is called, the caller first.  The disk is
    the sequence of lines appended to files. *)

From Stdlib Require Import ZArith Lia Ascii String.
From stdpp Require Import base numbers list strings gmap.
From S2P Require Import Prelude GoStd GoText GoTime.

Definition TraceLevel : Z := 0.
Definition DebugLevel : Z := 1.
Definition WarnLevel : Z := 2.
Definition ErrorLevel : Z := 3.
Definition InfoLevel : Z := 4.
Definition FatalLevel : Z := 5.

Definition logText : list string := ["TRAC"; "DEBU"; "WARN"; "ERRO"; "INFO"; "FATA"].

(** Values given to the log: keys are the strings. *)
Inductive pval := PStr (s : string) | POther (shown : string).
#[global] Instance pval_eq_dec : EqDecision pval.
Proof. solve_decision. Defined.
Definition show (v : pval) : string := match v with PStr s | POther s => s end.

Definition frame : Type := string * Z.

Record GosLogContent := { Text : string; Now : Z; File : string; Line : Z; LevelText : string; Param : list pval }.

Record GosLog := { Name : string; Level : Z; LogFile : option string; Time : string; plugin : list nat }.

(** The escape character and the colours. *)
Definition esc (s : string) : string := String "027" s.
Definition logColor (level : string) : option (string * string) :=
  if String.eqb level "TRAC" then Some ("", "")
  else if String.eqb level "DEBU" then Some (esc "[35m", esc "[0m")
  else if String.eqb level "WARN" then Some (esc "[34m", esc "[0m")
  else if String.eqb level "ERRO" then Some (esc "[31m", esc "[0m")
  else if String.eqb level "INFO" then Some (esc "[37m", esc "[0m")
  else if String.eqb level "FATA" then Some (esc "[31m", esc "[0m") else None.

(** The loops that look for the last slash, but not at the first place. *)
Definition short_file (file : string) : string :=
  match LastIndex "/" file with
  | Some (String _ _, name) => name
  | _ => file
  end.

(** The pairs of the parameters; a last one without partner is dropped. *)
Fixpoint pairs (l : list pval) : list (pval * pval) :=
  match l with k :: v :: l => (k, v) :: pairs l | _ => [] end.

Section log.
Context (Local : location).
Context (Marshal : gmap string pval -> option string).   (* json.Marshal; None: an error *)

Definition seconds (now : Z) : Z := now / 10 ^ 9.

(** %04d-%02d-%02d %02d:%02d:%02d.%06d *)
Definition stamp (now : Z) : string :=
  let '(d, s) := wall Local (seconds now) in
  fmt_date d +:+ " " +:+ fmt_clock s +:+ "." +:+ pad0 6 (now mod 10 ^ 9 / 1000).

Definition getLogTime (now : Z) : string := FormatDate Local (seconds now).

Fixpoint text_params (first : bool) (l : list (pval * pval)) (lft rgt : string) : string :=
  match l with
  | [] => ""
  | (k, v) :: l => (if first then "" else " ") +:+ lft +:+ show k +:+ rgt +:+ "=" +:+ show v +:+ text_params false l lft rgt
  end.

Definition textFormat (info : GosLogContent) : go string :=
  match logColor (LevelText info) with
  | None => Panic "invalid memory address or nil pointer dereference"
  | Some (lft, rgt) =>
      Ret (stamp (Now info) +:+ " " +:+ (lft +:+ LevelText info +:+ rgt) +:+ " " +:+ short_file (File info) +:+ ":" +:+ Itoa (Line info) +:+ " " +:+
           Text info +:+ " [" +:+ text_params true (pairs (Param info)) lft rgt +:+ "]" +:+ String nl "")
  end.

Definition add_param (m : gmap string pval) (kv : pval * pval) : gmap string pval :=
  match kv.1 with PStr k => <[k := kv.2]> m | POther _ => m end.

Definition jsonFormat (info : GosLogContent) : string * gmap string pval :=
  let m := ∅ in
  let m := <["time" := PStr (stamp (Now info))]> m in
  let m := <["line" := PStr (short_file (File info) +:+ ":" +:+ Itoa (Line info))]> m in
  let m := <["level" := PStr (LevelText info)]> m in
  let m := <["msg" := PStr (Text info)]> m in
  let m := fold_left add_param (pairs (Param info)) m in
  (default "" (Marshal m), m).

Definition set_level (l : GosLog) (level : Z) : GosLog :=
  {| Name := Name l; Level := level; LogFile := LogFile l; Time := Time l; plugin := plugin l |}.
Definition SetLevel (l : GosLog) (level : Z) : GosLog :=
  if (FatalLevel <? level) || (level <? TraceLevel) then set_level l TraceLevel else set_level l level.

Definition file_name (path name time : string) : string := path +:+ "/" +:+ name +:+ ".log." +:+ time.

(** [can_open]: whether os.OpenFile succeeds. *)
Definition checkTime (path : string) (l : GosLog) (now : Z) (can_open : bool) : GosLog :=
  let temp := getLogTime now in
  if String.eqb temp (Time l) then l
  else {| Name := Name l; Level := Level l; LogFile := if can_open then Some (file_name path (Name l) temp) else None;
          Time := temp; plugin := plugin l |}.

(** Log: nothing below the level, else the record to send; [frames] from Log's own. *)
Definition Log (l : GosLog) (now : Z) (frames : list frame) (level : Z) (skip : nat) (text : string) (v : list pval) : go (option GosLogContent) :=
  if level <? Level l then Ret None
  else
    name ← (if level <? 0 then Panic "index out of range" else go_index logText (Z.to_nat level));
    let '(file, line) := match frames !! skip with Some f => f | None => ("???", 0) end in
    Ret (Some {| Text := text; Now := now; File := file; Line := line; LevelText := name; Param := v |}).

(** The frames of the log's own functions. *)
Definition log_frame : frame := ("/goms/util/xlog.go", 287).
Definition method_frame : frame := ("/goms/util/xlog.go", 302).
Definition package_frame : frame := ("/goms/util/xlog.go", 365).

(** Methods of a logger. *)
Definition by_method (level : Z) (skip : nat) (l : GosLog) (now : Z) (stack : list frame) :=
  Log l now (log_frame :: method_frame :: stack) level skip.
Definition Trace_m := by_method TraceLevel 3.
Definition TraceSkip_m (skip : nat) := by_method TraceLevel skip.
Definition Debug_m := by_method DebugLevel 3.
Definition DebugSkip_m (skip : nat) := by_method DebugLevel skip.
Definition Warn_m := by_method WarnLevel 3.
Definition WarnSkip_m (skip : nat) := by_method WarnLevel skip.
Definition Error_m := by_method ErrorLevel 3.
Definition ErrorSkip_m (skip : nat) := by_method ErrorLevel skip.
Definition Info_m := by_method InfoLevel 3.
Definition InfoSkip_m (skip : nat) := by_method InfoLevel skip.
Definition Fatal_m := by_method FatalLevel 3.
Definition FatalSkip_m (skip : nat) := by_method FatalLevel skip.

(** Functions of the package: on the default logger, or the standard log without one. *)
Inductive logged := Println (text : string) (v : list pval) | Sent (r : option GosLogContent).
Definition by_package (method : GosLog -> Z -> list frame -> string -> list pval -> go (option GosLogContent))
    (defaultLog : option GosLog) (now : Z) (stack : list frame) (text : string) (v : list pval) : go logged :=
  match defaultLog with
  | None => Ret (Println text v)
  | Some l => r ← method l now (package_frame :: stack) text v; Ret (Sent r)
  end.
Definition Trace := by_package Trace_m.
Definition Debug := by_package Debug_m.
Definition Info := by_package Info_m.
Definition Warn := by_package Warn_m.
Definition Error := by_package Error_m.
Definition Fatal := by_package Fatal_m.
Definition TraceSkip (skip : nat) := by_package (TraceSkip_m skip).
Definition DebugSkip (skip : nat) := by_package (DebugSkip_m skip).
Definition InfoSkip (skip : nat) := by_package (InfoSkip_m skip).
Definition WarnSkip (skip : nat) := by_package (WarnSkip_m skip).
Definition ErrorSkip (skip : nat) := by_package (ErrorSkip_m skip).
Definition FatalSkip (skip : nat) := by_package (FatalSkip_m skip).

(** ** The package's state *)

Record globals := { logInit : bool; logPath : string; logOutputScreen : bool; defaultLog : option GosLog }.
Definition globals0 : globals := {| logInit := false; logPath := ""; logOutputScreen := false; defaultLog := None |}.

(** A new logger, whose goroutine is started; [None]: nil. *)
Definition GosLogNewRouter (g : globals) (now : Z) (can_open : bool) (name : string) : option GosLog :=
  if negb (logInit g) then None
  else
    let timeStr := getLogTime now in
    if can_open then Some {| Name := name; Level := TraceLevel; LogFile := Some (file_name (logPath g) name timeStr); Time := timeStr; plugin := [] |}
    else None.

Definition WithPlugin (f : nat) (l : GosLog) : GosLog :=
  {| Name := Name l; Level := Level l; LogFile := LogFile l; Time := Time l; plugin := plugin l ++ [f] |}.

Definition GosLogInit (g : globals) (now : Z) (can_open : bool) (name path : string) (screen : bool) (level : Z)
    (params : list (GosLog -> GosLog)) : go globals :=
  if logInit g then Ret g
  else
    let path := if String.eqb path "" then "./log/" else path in
    let g := {| logInit := true; logPath := path; logOutputScreen := screen; defaultLog := defaultLog g |} in
    match GosLogNewRouter g now can_open name with
    | None => Panic "invalid memory address or nil pointer dereference"
    | Some l =>
        Ret {| logInit := true; logPath := path; logOutputScreen := screen;
               defaultLog := Some (fold_left (fun l f => f l) params (set_level l level)) |}
    end.

Definition SetLogLevel (g : globals) (level : Z) : go globals :=
  match defaultLog g with
  | None => Panic "invalid memory address or nil pointer dereference"
  | Some l => Ret {| logInit := logInit g; logPath := logPath g; logOutputScreen := logOutputScreen g; defaultLog := Some (set_level l level) |}
  end.

(** ** The goroutine of a logger *)

(** The callers that wait at the channel, with the record each sends; nil ends the
    goroutine. *)
Record logger := {
  lg : GosLog; waiting : list (option GosLogContent); alive : bool;
  disk : list (string * string);                       (* file and line, in the order of writing *)
  screen : list GosLogContent;                         (* records sent to the screen *)
  plugged : list (nat * gmap string pval)              (* calls of plugins handed to the pool *)
}.

Context (path : string) (output : bool).

Definition enqueue (s : logger) (r : option GosLogContent) : logger :=
  {| lg := lg s; waiting := waiting s ++ [r]; alive := alive s; disk := disk s; screen := screen s; plugged := plugged s |}.

(** The body of the goroutine's loop for one record. *)
Definition write_record (s : logger) (rest : list (option GosLogContent)) (now : Z) (can_open : bool) (info : GosLogContent) : logger :=
  let gl := checkTime path (lg s) now can_open in
  let '(data, m) := jsonFormat info in
  {| lg := gl; waiting := rest; alive := alive s;
     disk := disk s ++ match LogFile gl with Some f => [(f, data +:+ String nl "")] | None => [] end;
     screen := if output then screen s ++ [info] else screen s;
     plugged := plugged s ++ ((fun f => (f, m)) <$> plugin gl) |}.

Inductive event :=
  | ELog (now : Z) (frames : list frame) (level : Z) (skip : nat) (text : string) (v : list pval)
  | ESetLevel (level : Z)
  | EFree
  | EWriter (now : Z) (can_open : bool).

(** What an event sends. *)
Definition sends (s : logger) (e : event) : list (option GosLogContent) :=
  match e with
  | ELog now frames level skip text v =>
      match Log (lg s) now frames level skip text v with Ret (Some info) => [Some info] | _ => [] end
  | EFree => [None]
  | _ => []
  end.

Definition step (s : logger) (e : event) : logger :=
  match e with
  | ELog _ _ _ _ _ _ | EFree => fold_left enqueue (sends s e) s
  | ESetLevel level =>
      {| lg := SetLevel (lg s) level; waiting := waiting s; alive := alive s; disk := disk s; screen := screen s; plugged := plugged s |}
  | EWriter now can_open =>
      if alive s then
        match waiting s with
        | [] => s
        | Some info :: rest => write_record s rest now can_open info
        | None :: rest => {| lg := lg s; waiting := rest; alive := false; disk := disk s; screen := screen s; plugged := plugged s |}
        end
      else s
  end.

Definition run (s : logger) (es : list event) : logger := fold_left step es s.

(** Everything sent along a run. *)
Fixpoint trace (s : logger) (es : list event) : list (option GosLogContent) :=
  match es with [] => [] | e :: es => sends s e ++ trace (step s e) es end.

Definition line_of (info : GosLogContent) : string := (jsonFormat info).1 +:+ String nl "".

(** *** Lemmas *)

Lemma enqueue_all s rs : fold_left enqueue rs s =
  {| lg := lg s; waiting := waiting s ++ rs; alive := alive s; disk := disk s; screen := screen s; plugged := plugged s |}.
Proof using Type.
  clear. revert s. induction rs as [|r rs IH]; intros s; [destruct s; by rewrite app_nil_r|]. cbn [fold_left]. rewrite IH. unfold enqueue. cbn. by rewrite <- app_assoc.
Qed.

Definition file_ok (l : GosLog) : Prop := LogFile l = Some (file_name path (Name l) (Time l)).

Definition opens (e : event) : Prop := match e with EWriter _ can_open => can_open = true | _ => True end.

Lemma checkTime_ok l now : file_ok l -> file_ok (checkTime path l now true) /\ Time (checkTime path l now true) = getLogTime now /\
  Name (checkTime path l now true) = Name l /\ Level (checkTime path l now true) = Level l.
Proof using Type.
  clear Marshal output. unfold checkTime, file_ok. intros H. destruct (String.eqb_spec (getLogTime now) (Time l)) as [E|E]; [by rewrite E|done].
Qed.

(** One event: what was sent is taken or waits, and what was taken is written. *)
Lemma log_step_ok s e : file_ok (lg s) -> opens e -> exists taken writes,
  waiting s ++ sends s e = taken ++ waiting (step s e) /\ disk (step s e) = disk s ++ writes /\
  writes.*2 = line_of <$> omap id taken /\ file_ok (lg (step s e)) /\ Name (lg (step s e)) = Name (lg s) /\
  Forall (fun w => exists now, e = EWriter now true /\ w.1 = file_name path (Name (lg s)) (getLogTime now)) writes /\
  (alive s = true -> alive (step s e) = true <-> None ∉ taken) /\ (alive s = false -> alive (step s e) = false /\ taken = []).
Proof using Type.
  intros Hf Ho. assert (Hnone : (alive s = true -> alive s = true <-> None ∉ @nil (option GosLogContent))) by (intros Ha; split; [set_solver|by intros _]).
  destruct e as [now fr lv sk tx v|lv| |now op]; cbn [step].
  - rewrite enqueue_all. exists [], []. cbn [disk waiting lg alive]. rewrite app_nil_r. by splits.
  - exists [], []. cbn [sends disk waiting lg alive]. rewrite !app_nil_r. splits; try done; unfold SetLevel, file_ok; destruct (_ || _); done.
  - rewrite enqueue_all. exists [], []. cbn [disk waiting lg alive]. rewrite app_nil_r. by splits.
  - cbn [opens] in Ho. subst op. cbn [sends]. rewrite app_nil_r.
    destruct (alive s) eqn:Ea; [|exists [], []; rewrite app_nil_r; splits; try done; by rewrite Ea].
    destruct (waiting s) as [|[info|] rest] eqn:Ew.
    + exists [], []. rewrite app_nil_r, Ew, Ea. by splits.
    + destruct (checkTime_ok (lg s) now Hf) as (Hf' & Ht & Hnm & _). unfold write_record. destruct (jsonFormat info) as [dt m] eqn:Ej.
      rewrite Hf'. eexists [Some info], _. cbn [disk waiting lg alive]. splits; [done|done| |done|done| |intros _; split; [intros _ H%list_elem_of_singleton; done|done]|done].
      * cbn [omap list_omap fmap list_fmap id snd]. unfold line_of. by rewrite Ej.
      * constructor; [|constructor]. exists now. cbn [fst]. by rewrite Ht, Hnm.
    + exists [None], []. cbn [disk waiting lg alive]. rewrite app_nil_r. splits; try done. intros _. split; [done|]. intros H. destruct H. by apply list_elem_of_singleton.
Qed.

Lemma log_run_ok es : forall s, file_ok (lg s) -> Forall opens es -> exists taken writes,
  waiting s ++ trace s es = taken ++ waiting (run s es) /\ disk (run s es) = disk s ++ writes /\
  writes.*2 = line_of <$> omap id taken /\
  Forall (fun w => exists now, EWriter now true ∈ es /\ w.1 = file_name path (Name (lg s)) (getLogTime now)) writes /\
  (alive s = true -> alive (run s es) = true <-> None ∉ taken) /\ (alive s = false -> alive (run s es) = false /\ taken = []).
Proof using Type.
  induction es as [|e es IH]; intros s Hf Ho.
  { exists [], []. cbn [trace run fold_left]. rewrite !app_nil_r. splits; try done. intros Ha. split; [set_solver|by intros _]. }
  apply Forall_cons in Ho as [Ho1 Ho]. destruct (log_step_ok s e Hf Ho1) as (t1 & w1 & E1 & D1 & L1 & F1 & N1 & P1 & A1 & B1).
  destruct (IH (step s e) F1 Ho) as (t2 & w2 & E2 & D2 & L2 & P2 & A2 & B2). exists (t1 ++ t2), (w1 ++ w2). change (run s (e :: es)) with (run (step s e) es). cbn [trace].
  splits.
  - by rewrite app_assoc, E1, <- app_assoc, E2, app_assoc.
  - by rewrite D2, D1, app_assoc.
  - by rewrite fmap_app, omap_app, fmap_app, L1, L2.
  - rewrite N1 in P2. apply Forall_app. split; (eapply Forall_impl; [eassumption|]).
    + intros w (now & -> & Hw). exists now. split; [by left|done].
    + intros w (now & Hin & Hw). exists now. split; [by right|done].
  - intros Ha. specialize (A1 Ha). rewrite elem_of_app. destruct (alive (step s e)) eqn:Ea.
    + rewrite (A2 eq_refl). destruct A1 as [A1 _]. specialize (A1 eq_refl). naive_solver.
    + destruct (B2 eq_refl) as [-> ->]. split; [done|]. intros Hn. exfalso. apply diff_false_true. apply A1. naive_solver.
  - intros Ha. destruct (B1 Ha) as [Ha1 ->]. by apply B2.
Qed.

Lemma drain s now : file_ok (lg s) -> alive s = true -> None ∉ waiting s ->
  waiting (run s (replicate (length (waiting s)) (EWriter now true))) = [].
Proof using Type.
  remember (length (waiting s)) as n eqn:En. revert s En. induction n as [|n IH]; intros s En Hf Ha Hn; [by apply nil_length_inv|].
  cbn [replicate]. change (run s (EWriter now true :: replicate n (EWriter now true))) with (run (step s (EWriter now true)) (replicate n (EWriter now true))).
  destruct (waiting s) as [|[info|] rest] eqn:Ew; [done| |destruct Hn; set_solver].
  assert (Es : step s (EWriter now true) = write_record s rest now true info) by (cbn [step]; by rewrite Ha, Ew). rewrite Es.
  assert (Hw : waiting (write_record s rest now true info) = rest /\ alive (write_record s rest now true info) = true /\ lg (write_record s rest now true info) = checkTime path (lg s) now true).
  { unfold write_record. by destruct (jsonFormat info). }
  destruct Hw as (W1 & W2 & W3). rewrite <- W1 at 1. apply IH; rewrite ?W1, ?W3; [by injection En|by apply checkTime_ok|done|set_solver].
Qed.

(** A logger whose files can be opened.  Along any interleaving of calls, changes of
    the level and rounds of the goroutine, the records that were sent, in their
    order, are those written followed by those that wait, so none is lost, doubled
    or reordered; each is one line, in the file of the day on which it is
    written; and with one round for each waiting record nothing waits.  A call sends
    a record exactly when its level is not below the logger's; levels from 6 on
    panic then.  After Free the goroutine ends and all later callers wait for
    ever. *)
Lemma xlog_lines (s : logger) (es : list event) (now : Z) (Hf : file_ok (lg s)) (Ha : alive s = true) (Ho : Forall opens es) :
  (exists taken writes,
     waiting s ++ trace s es = taken ++ waiting (run s es) /\ disk (run s es) = disk s ++ writes /\
     writes.*2 = line_of <$> omap id taken /\
     Forall (fun w => exists t, EWriter t true ∈ es /\ w.1 = file_name path (Name (lg s)) (getLogTime t)) writes /\
     (alive (run s es) = true <-> None ∉ taken)) /\
  (None ∉ waiting s -> waiting (run s (replicate (length (waiting s)) (EWriter now true))) = []) /\
  (forall t frames level skip text v, sends s (ELog t frames level skip text v) <> [] <-> Level (lg s) <= level /\ 0 <= level <= 5) /\
  (forall t frames level skip text v, Level (lg s) <= level -> 6 <= level -> exists w, Log (lg s) t frames level skip text v = Panic w) /\
  (forall s' es', file_ok (lg s') -> Forall opens es' -> alive s' = false -> disk (run s' es') = disk s' /\ waiting (run s' es') = waiting s' ++ trace s' es').
Proof using Type.
  splits.
  - destruct (log_run_ok es s Hf Ho) as (t & w & H1 & H2 & H3 & H4 & H5 & _). exists t, w. splits; try done; by apply H5.
  - by apply drain.
  - intros t frames level skip text v. cbn [sends]. unfold Log, go_index. destruct (Z.ltb_spec level (Level (lg s))) as [Hl|Hl]; [split; [done|lia]|].
    destruct (Z.ltb_spec level 0) as [Hz|Hz]; cbn [mbind go_bind]; [split; [done|lia]|].
    destruct (decide (level <= 5)) as [H5|H5].
    + destruct (lookup_lt_is_Some_2 logText (Z.to_nat level)) as [nm ->]; [simpl; lia|]. cbn [mbind go_bind]. destruct (match frames !! skip with Some f => f | None => _ end). split; [intros _; lia|done].
    + rewrite (lookup_ge_None_2 logText) by (simpl; lia). cbn [mbind go_bind]. split; [done|lia].
  - intros t frames level skip text v Hl H6. unfold Log, go_index. destruct (Z.ltb_spec level (Level (lg s))); [lia|]. destruct (Z.ltb_spec level 0); [lia|].
    rewrite (lookup_ge_None_2 logText) by (simpl; lia). by eexists.
  - intros s' es' Hf' Ho' Ha'. destruct (log_run_ok es' s' Hf' Ho') as (t & w & H1 & H2 & H3 & _ & _ & H6). destruct (H6 Ha') as [_ ->].
    split; [|done]. apply fmap_nil_inv in H3 as ->. by rewrite app_nil_r in H2.
Qed.

(** The place recorded: functions of the package record the caller's; methods of
    a logger called directly record the caller of the caller. *)
Lemma xlog_caller l now (f1 f2 : frame) stack text v : Level l <= 0 ->
  (exists r, Trace (Some l) now (f1 :: stack) text v = Ret (Sent (Some r)) /\ (File r, Line r) = f1) /\
  (exists r, Trace_m l now (f1 :: f2 :: stack) text v = Ret (Some r) /\ (File r, Line r) = f2).
Proof using Type.
  clear Marshal. intros Hl. unfold Trace, by_package, Trace_m, by_method, Log, TraceLevel. destruct (Z.ltb_spec 0 (Level l)); [lia|]. cbn.
  destruct f1, f2. split; eexists; by split.
Qed.

(** A parameter named time, line, level or msg replaces the entry of the record. *)
Lemma xlog_params info k x rest : Param info = PStr k :: x :: rest -> pairs rest = [] -> (jsonFormat info).2 !! k = Some x.
Proof using Type.
  clear. intros E Hr. unfold jsonFormat. rewrite E. cbn [pairs]. rewrite Hr. cbn [snd fold_left]. unfold add_param. cbn [fst snd]. apply lookup_insert_eq.
Qed.

(** Only the first initialisation counts. *)
Lemma xlog_init_once g now ok name path' sc level ps g1 : GosLogInit g now ok name path' sc level ps = Ret g1 ->
  forall now' ok' name' path2 sc' level' ps', GosLogInit g1 now' ok' name' path2 sc' level' ps' = Ret g1.
Proof using Type.
  clear path. unfold GosLogInit. destruct (logInit g) eqn:E; [intros [= <-]; by rewrite E|]. destruct (GosLogNewRouter _ _ _ _); [|done]. by intros [= <-].
Qed.
End log.

(** ** Example *)

Module LogSample.
Definition utc : location := fixed 0.
Definition marshal (m : gmap string pval) : option string := show <$> m !! "msg".
Definition start : logger :=
  {| lg := {| Name := "db1"; Level := WarnLevel; LogFile := Some "./log//db1.log.1970-01-01"; Time := "1970-01-01"; plugin := [] |};
     waiting := []; alive := true; disk := []; screen := []; plugged := [] |}.
Definition events : list event :=
  [ELog 0 [] ErrorLevel 3 "first" []; ELog 0 [] DebugLevel 3 "hidden" []; EWriter 0 true; ELog 0 [] InfoLevel 3 "late" []; EWriter (90000 * 10 ^ 9) true].
End LogSample.

Lemma xlog_lines_witness : exists taken writes,
  trace LogSample.utc LogSample.marshal "./log/" false LogSample.start LogSample.events = taken ++ waiting (run LogSample.utc LogSample.marshal "./log/" false LogSample.start LogSample.events) /\
  disk (run LogSample.utc LogSample.marshal "./log/" false LogSample.start LogSample.events) = writes /\
  writes = [("./log//db1.log.1970-01-01", String.append "first" (String nl "")); ("./log//db1.log.1970-01-02", String.append "late" (String nl ""))].
Proof.
  destruct (xlog_lines LogSample.utc LogSample.marshal "./log/" false LogSample.start LogSample.events 0) as [H _].
  - reflexivity.
  - reflexivity.
  - repeat constructor.
  - destruct H as (t & w & H1 & H2 & _). exists t, w. split; [exact H1|]. split; [exact H2|].
    rewrite app_nil_l in H2. rewrite <- H2. reflexivity.
Defined.
