(* ===== verification/XLogConc.v ===== *)
(** * The logger under concurrency: util/xlog.go

    Goroutines call one logger.  [Logs] has no buffer: a caller waits there until
    the logger's goroutine takes its record, and that goroutine takes the next one
    only when it has written the last.  [logScreenCache] holds 1024 records: with
    output to the screen a caller then waits for room there, and a second goroutine
    prints what it holds.  The functions are those of XLog.v; here every send,
    receive and write is a step. *)

From Stdlib Require Import ZArith Lia Ascii String.
From stdpp Require Import base numbers list strings gmap relations.
From S2P Require Import Prelude GoStd GoTime XLog.

Module LogConc.
Section conc.
Context (Local : location) (Marshal : gmap string pval -> option string) (path : string) (output : bool).
Context (opens : Z -> bool).                     (* whether os.OpenFile succeeds at a time *)

Abbreviation checkTime := (XLog.checkTime Local).
Abbreviation getLogTime := (XLog.getLogTime Local).

(** What a goroutine does with the logger. *)
Inductive request :=
  | RLog (now : Z) (frames : list frame) (level : Z) (skip : nat) (text : string) (v : list pval)
  | RSetLevel (level : Z)
  | RFree.

Inductive pc :=
  | Ready
  | Sending (r : option GosLogContent)           (* l.Logs <- info, or nil *)
  | Showing (info : GosLogContent)               (* logScreenCache <- info *)
  | Crashed.                                     (* logText[level] is out of range *)

(** [accepted]: the records its calls made so far. *)
Record caller := { todo : list request; at_ : pc; accepted : list GosLogContent }.

(** The logger's goroutine: it receives, or has a record of the caller [i]. *)
Inductive writer := Receiving | Handling (i : nat) (info : GosLogContent) | Ended.

(** A record written: whose, when, to which file and as which line. *)
Record entry := { owner : nat; written_at : Z; file : string; record : GosLogContent; line : string }.

Record state := {
  lg : GosLog; wr : writer; callers : gmap nat caller;
  served : list (nat * GosLogContent);           (* the records its goroutine is done with *)
  disk : list entry;
  cache : list (nat * GosLogContent);            (* logScreenCache *)
  shown : list (nat * GosLogContent)
}.

Definition set_caller (s : state) (i : nat) (c : caller) : state :=
  {| lg := lg s; wr := wr s; callers := <[i := c]> (callers s); served := served s; disk := disk s; cache := cache s; shown := shown s |}.
Definition set_wr (s : state) (w : writer) : state :=
  {| lg := lg s; wr := w; callers := callers s; served := served s; disk := disk s; cache := cache s; shown := shown s |}.
Definition set_lg (s : state) (l : GosLog) : state :=
  {| lg := l; wr := wr s; callers := callers s; served := served s; disk := disk s; cache := cache s; shown := shown s |}.
Definition set_cache (s : state) (q : list (nat * GosLogContent)) (out : list (nat * GosLogContent)) : state :=
  {| lg := lg s; wr := wr s; callers := callers s; served := served s; disk := disk s; cache := q; shown := out |}.

Definition goto (c : caller) (p : pc) : caller := {| todo := todo c; at_ := p; accepted := accepted c |}.

(** The start of a call, up to its first wait. *)
Definition call (s : state) (i : nat) (c : caller) (q : request) (rest : list request) : state :=
  let c := {| todo := rest; at_ := Ready; accepted := accepted c |} in
  match q with
  | RLog now frames level skip text v =>
      match Log (lg s) now frames level skip text v with
      | Ret None => set_caller s i c
      | Ret (Some info) => set_caller s i {| todo := rest; at_ := Sending (Some info); accepted := accepted c ++ [info] |}
      | _ => set_caller s i (goto c Crashed)
      end
  | RSetLevel level => set_caller (set_lg s (SetLevel (lg s) level)) i c
  | RFree => set_caller s i (goto c (Sending None))
  end.

(** The goroutine takes what the caller [i] sends. *)
Definition take (s : state) (i : nat) (c : caller) (r : option GosLogContent) : state :=
  match r with
  | Some info => set_caller (set_wr s (Handling i info)) i (goto c (if output then Showing info else Ready))
  | None => set_caller (set_wr s Ended) i (goto c Ready)
  end.

(** It writes the record it has; without an open file nothing is written. *)
Definition write (s : state) (now : Z) (i : nat) (info : GosLogContent) : state :=
  let l := checkTime path (lg s) now (opens now) in
  {| lg := l; wr := Receiving; callers := callers s; served := served s ++ [(i, info)];
     disk := disk s ++ match LogFile l with
                       | Some f => [{| owner := i; written_at := now; file := f; record := info; line := line_of Local Marshal info |}]
                       | None => []
                       end;
     cache := cache s; shown := shown s |}.

Inductive step (s : state) : state -> Prop :=
  | s_call i c q rest : callers s !! i = Some c -> at_ c = Ready -> todo c = q :: rest -> step s (call s i c q rest)
  | s_take i c r : callers s !! i = Some c -> at_ c = Sending r -> wr s = Receiving -> step s (take s i c r)
  | s_write now i info : wr s = Handling i info -> step s (write s now i info)
  | s_show i c info : callers s !! i = Some c -> at_ c = Showing info -> (length (cache s) < 1024)%nat ->
      step s (set_caller (set_cache s (cache s ++ [(i, info)]) (shown s)) i (goto c Ready))
  | s_print x q : cache s = x :: q -> output = true -> step s (set_cache s q (shown s ++ [x])).

Definition start (l : GosLog) (progs : gmap nat (list request)) : state :=
  {| lg := l; wr := Receiving; callers := (fun p => {| todo := p; at_ := Ready; accepted := [] |}) <$> progs;
     served := []; disk := []; cache := []; shown := [] |}.

(** ** The invariant *)

Definition of_owner (i : nat) (l : list (nat * GosLogContent)) : list GosLogContent := (filter (fun x => x.1 = i) l).*2.
Definition taken_by (i : nat) (s : state) : list GosLogContent := of_owner i (served s).
Definition written (s : state) : list (nat * GosLogContent) := (fun e => (owner e, record e)) <$> disk s.
Definition on_disk (i : nat) (s : state) : list GosLogContent := of_owner i (written s).

(** The record of [i] that the goroutine holds, that the caller offers, and that it
    has still to show. *)
Definition in_hand (i : nat) (w : writer) : list GosLogContent :=
  match w with Handling j info => if decide (j = i) then [info] else [] | _ => [] end.
Definition offered (p : pc) : list GosLogContent := match p with Sending (Some info) => [info] | _ => [] end.
Definition unshown (p : pc) : list GosLogContent := match p with Sending (Some info) | Showing info => [info] | _ => [] end.

Record inv (name : string) (s : state) : Prop := {
  i_disk : forall i c, callers s !! i = Some c -> taken_by i s ++ in_hand i (wr s) ++ offered (at_ c) = accepted c;
  i_shown : output = true -> forall i c, callers s !! i = Some c -> of_owner i (shown s ++ cache s) ++ unshown (at_ c) = accepted c;
  i_quiet : output = false -> cache s = [] /\ shown s = [] /\ forall i c info, callers s !! i = Some c -> at_ c <> Showing info;
  i_room : (length (cache s) <= 1024)%nat;
  i_name : Name (lg s) = name;
  i_written : sublist (written s) (served s);
  i_files : Forall (fun e => line e = line_of Local Marshal (record e)) (disk s)
}.

Lemma of_owner_app i l k : of_owner i (l ++ k) = of_owner i l ++ of_owner i k.
Proof using Type. unfold of_owner. by rewrite filter_app, fmap_app. Qed.

Lemma of_owner_one i j (x : GosLogContent) : of_owner i [(j, x)] = if decide (j = i) then [x] else [].
Proof using Type. unfold of_owner. rewrite filter_cons, filter_nil. cbn. by case_decide. Qed.

(** A change of one caller. *)
Lemma callers_insert (P : nat -> caller -> Prop) (m : gmap nat caller) i c :
  P i c -> (forall j d, j <> i -> m !! j = Some d -> P j d) -> forall j d, <[i := c]> m !! j = Some d -> P j d.
Proof using Type. intros Hi Hm j d [[<- <-]|[Hne Hj]]%lookup_insert_Some; [done|]. by apply Hm. Qed.

Lemma log_start_inv l progs : inv (Name l) (start l progs).
Proof using Type.
  assert (H : forall i c, callers (start l progs) !! i = Some c -> at_ c = Ready /\ accepted c = []).
  { intros i c. cbn. rewrite lookup_fmap_Some. by intros (p & <- & _). }
  split; try done.
  - intros i c [-> ->]%H. done.
  - intros _ i c [-> ->]%H. done.
  - intros _. splits; try done. intros i c info [-> _]%H. done.
  - cbn. lia.
Qed.

Lemma SetLevel_name l v : Name (SetLevel l v) = Name l.
Proof using Type. unfold SetLevel. by destruct (_ || _). Qed.

Lemma checkTime_name l now : Name (checkTime path l now (opens now)) = Name l.
Proof using Type. unfold XLog.checkTime. by destruct (String.eqb _ _). Qed.

Lemma log_step_inv name s s' : inv name s -> step s s' -> inv name s'.
Proof using Type.
  intros [H1 H2 H3 H4 H5 H7 H6] Hs. destruct Hs as [i c q rest Hi Ha Ht|i c r Hi Ha Hw|now i info Hw|i c info Hi Ha Hr|x q Hq Ho].
  - assert (G : forall l c', Name l = name -> (accepted c' = accepted c ++ offered (at_ c')) -> unshown (at_ c') = offered (at_ c') ->
      (forall info, at_ c' <> Showing info) -> inv name (set_caller (set_lg s l) i c')).
    { intros l c' Hl Hacc Hun Hsh. specialize (H1 i c Hi) as Hc. rewrite Ha in Hc. cbn [offered] in Hc. rewrite app_nil_r in Hc.
      split; try done.
      - apply callers_insert; [|intros j d _; apply H1]. change (taken_by i _) with (taken_by i s). cbn [wr set_caller set_lg]. by rewrite app_assoc, Hc, Hacc.
      - intros Ho. apply callers_insert; [|intros j d _; by apply H2]. specialize (H2 Ho i c Hi). rewrite Ha in H2. cbn [unshown] in H2.
        rewrite app_nil_r in H2. cbn [shown cache set_caller set_lg]. by rewrite H2, Hacc, Hun.
      - intros Ho. destruct (H3 Ho) as (E1 & E2 & E3). splits; try done. intros j d inf. revert j d. apply callers_insert; [done|]. intros j d _ Hj. by eapply E3. }
    assert (E : set_lg s (lg s) = s) by (by destruct s). unfold call. destruct q as [now frames level skip text v|level|].
    + destruct (Log (lg s) now frames level skip text v) as [[info|]| |]; rewrite <- E; apply G; try done; cbn; by rewrite ?app_nil_r.
    + apply G; try done; cbn; [by rewrite SetLevel_name|by rewrite app_nil_r].
    + rewrite <- E. apply G; try done; cbn; by rewrite app_nil_r.
  - pose proof (H1 i c Hi) as Hc. rewrite Ha, Hw in Hc. cbn [in_hand app] in Hc. unfold take. destruct r as [info|].
    + split; try done.
      * apply callers_insert.
        -- change (taken_by i _) with (taken_by i s). cbn. rewrite decide_True by done. rewrite <- Hc. by destruct output.
        -- intros j d Hne Hj. change (taken_by j _) with (taken_by j s). cbn. rewrite decide_False by done. specialize (H1 j d Hj). by rewrite Hw in H1.
      * intros Ho. apply callers_insert; [|intros j d _; by apply H2]. specialize (H2 Ho i c Hi). rewrite Ha in H2. cbn. by rewrite Ho.
      * intros Ho. destruct (H3 Ho) as (E1 & E2 & E3). splits; try done. intros j d inf. revert j d.
        apply callers_insert; [cbn; by rewrite Ho|]. intros j d _ Hj. by eapply E3.
    + split; try done.
      * apply callers_insert; [exact Hc|]. intros j d _ Hj. specialize (H1 j d Hj). by rewrite Hw in H1.
      * intros Ho. apply callers_insert; [|intros j d _; by apply H2]. specialize (H2 Ho i c Hi). by rewrite Ha in H2.
      * intros Ho. destruct (H3 Ho) as (E1 & E2 & E3). splits; try done. intros j d inf. revert j d. apply callers_insert; [done|]. intros j d _ Hj. by eapply E3.
  - split; try done.
    + intros j d Hj. specialize (H1 j d Hj). rewrite Hw in H1. unfold taken_by, write. cbn [served]. rewrite of_owner_app, of_owner_one.
      cbn [wr in_hand app]. by rewrite <- app_assoc.
    + cbn. by rewrite checkTime_name.
    + unfold written, write. cbn [disk served]. rewrite fmap_app. apply sublist_app; [exact H7|]. by destruct (LogFile _); constructor.
    + apply Forall_app. split; [done|]. by destruct (LogFile _); constructor.
  - split; try done.
    + apply callers_insert; [|intros j d _; apply H1]. specialize (H1 i c Hi). by rewrite Ha in H1.
    + intros Ho. cbn [shown cache set_caller set_cache]. apply callers_insert.
      * specialize (H2 Ho i c Hi). rewrite Ha in H2. rewrite app_assoc, of_owner_app, of_owner_one, decide_True by done. cbn. by rewrite app_nil_r.
      * intros j d Hne Hj. rewrite app_assoc, of_owner_app, of_owner_one, decide_False, app_nil_r by done. by apply H2.
    + intros Ho. destruct (H3 Ho) as (_ & _ & E3). by destruct (E3 i c info Hi).
    + cbn. rewrite length_app. cbn. lia.
  - split; try done.
    + intros _ j d Hj. cbn [shown cache set_cache]. rewrite <- app_assoc. cbn [app]. rewrite <- Hq. by apply H2.
    + intros Hf. congruence.
    + cbn. rewrite Hq in H4. cbn in H4. lia.
Qed.

Lemma log_steps_inv name s s' : rtc step s s' -> inv name s -> inv name s'.
Proof using Type. induction 1 as [|x y z Hs _ IH]; [done|]. intros HI. by eapply IH, log_step_inv. Qed.

(** Every record is in the file of the day of its writing. *)
Definition dated (name : string) (e : entry) : Prop := file e = file_name path name (getLogTime (written_at e)).

Lemma steps_dated name s s' : (forall t, opens t = true) -> rtc step s s' -> inv name s ->
  file_ok path (lg s) -> Forall (dated name) (disk s) -> written s = served s -> Forall (dated name) (disk s') /\ written s' = served s'.
Proof using Type.
  intros Ho Hs. induction Hs as [|s s1 s' Hs _ IH]; [done|]. intros HI Hf Hd Hw. pose proof (log_step_inv name s s1 HI Hs) as HI1.
  assert (G : file_ok path (lg s1) /\ Forall (dated name) (disk s1) /\ written s1 = served s1); [|by apply IH; apply G || done].
  pose proof (i_name name s HI) as Hn. destruct Hs as [i c q rest|i c r|now i info Hwr|i c info|x q]; try done.
  - unfold call. destruct q; [by destruct (Log _ _ _ _ _ _ _) as [[]| |]|cbn; split; [|done]|done]. unfold file_ok, SetLevel in *. by destruct (_ || _).
  - unfold take. by destruct r.
  - cbn. rewrite Ho. destruct (checkTime_ok Local path (lg s) now Hf) as (F & T & N & _). split; [done|]. unfold written in *. cbn.
    unfold file_ok in F. rewrite F, fmap_app, Hw. split; [|done]. apply Forall_app. split; [done|].
    constructor; [|done]. unfold dated. cbn. by rewrite T, N, Hn.
Qed.

(** ** Progress *)

Definition fine (q : request) : Prop := match q with RLog _ _ level _ _ _ => 0 <= level <= 5 | RSetLevel _ => True | RFree => False end.
Definition going (c : caller) : Prop := Forall fine (todo c) /\ at_ c <> Crashed /\ at_ c <> Sending None.
Definition over (c : caller) : Prop := todo c = [] /\ at_ c = Ready.

(** The goroutine is not ended, nobody will end it, and no level is out of range. *)
Definition well (s : state) : Prop := wr s <> Ended /\ forall i c, callers s !! i = Some c -> going c.

Lemma print_all s : output = true -> exists s', rtc step s s' /\ cache s' = [] /\ wr s' = wr s /\ callers s' = callers s.
Proof using Type.
  intros Ho. remember (cache s) as q eqn:Eq. revert s Eq. induction q as [|x q IH]; intros s Eq; [by exists s|].
  destruct (IH (set_cache s q (shown s ++ [x]))) as (s' & Hs & H); [done|]. exists s'. split; [|done]. eapply rtc_l; [by eapply s_print|done].
Qed.

Lemma flush name s : inv name s -> wr s <> Ended -> exists s', rtc step s s' /\ wr s' = Receiving /\ cache s' = [] /\ callers s' = callers s.
Proof using Type.
  intros HI Hw. assert (H : exists s1, rtc step s s1 /\ wr s1 = Receiving /\ callers s1 = callers s /\ cache s1 = cache s).
  { destruct (wr s) as [|i info|] eqn:Ew; [by exists s| |done]. exists (write s 0 i info). split; [|done]. by apply rtc_once, s_write. }
  destruct H as (s1 & Hs & Hr & Hc & Hq). destruct output eqn:Ho.
  - destruct (print_all s1 Ho) as (s2 & Hs2 & Hq2 & Hw2 & Hc2). exists s2. splits; [by etrans|congruence..].
  - exists s1. splits; try done. rewrite Hq. by apply (i_quiet name s HI).
Qed.

(** A caller gets out of the call it is in, *)
Lemma show name s i c info : inv name s -> wr s <> Ended -> callers s !! i = Some c -> at_ c = Showing info ->
  exists s', rtc step s s' /\ wr s' <> Ended /\ callers s' = <[i := goto c Ready]> (callers s).
Proof using Type.
  intros HI Hw Hi Ha. destruct (flush name s HI Hw) as (s1 & Hs & Hr & Hq & Hc).
  exists (set_caller (set_cache s1 (cache s1 ++ [(i, info)]) (shown s1)) i (goto c Ready)). splits; [|by cbn; rewrite Hr|by cbn; rewrite Hc].
  eapply rtc_r; [done|]. apply s_show; [by rewrite Hc|done|rewrite Hq; cbn; lia].
Qed.

Lemma settle name s i c : inv name s -> wr s <> Ended -> callers s !! i = Some c -> at_ c <> Crashed -> at_ c <> Sending None ->
  exists s', rtc step s s' /\ wr s' <> Ended /\ callers s' = <[i := goto c Ready]> (callers s).
Proof using Type.
  intros HI Hw Hi Hcr Hno. destruct (at_ c) as [|[info|]|info|] eqn:Ha; [| |done| |done].
  - exists s. splits; [done|done|]. rewrite insert_id; [done|]. rewrite Hi. unfold goto. rewrite <- Ha. by destruct c.
  - destruct (flush name s HI Hw) as (s1 & Hs & Hr & Hq & Hc). assert (Ht : step s1 (take s1 i c (Some info))) by (apply s_take; [by rewrite Hc|done|done]).
    assert (HI2 : inv name (take s1 i c (Some info))) by (eapply log_step_inv; [by eapply log_steps_inv|done]). cbn [take] in *. destruct output eqn:Ho.
    + destruct (show name _ i (goto c (Showing info)) info HI2) as (s2 & Hs2 & Hw2 & Hc2); [done|by apply lookup_insert_eq|done|].
      exists s2. splits; [by etrans; [|eapply rtc_l; [exact Ht|]]|done|]. rewrite Hc2. cbn. by rewrite insert_insert_eq, Hc.
    + eexists. splits; [by eapply rtc_r|done|cbn; by rewrite Hc].
  - by eapply show.
Qed.

(** makes its next one, *)
Lemma Log_returns l now frames level skip text v : 0 <= level <= 5 -> exists r, Log l now frames level skip text v = Ret r.
Proof using Type.
  intros Hl. unfold Log, go_index. destruct (level <? Level l); [by eexists|]. destruct (Z.ltb_spec level 0); [lia|].
  destruct (lookup_lt_is_Some_2 logText (Z.to_nat level)) as [nm ->]; [cbn; lia|]. cbn [mbind go_bind].
  destruct (match frames !! skip with Some f => f | None => _ end). by eexists.
Qed.

Lemma call_shape s i c q rest : fine q -> exists c', callers (call s i c q rest) = <[i := c']> (callers s) /\ wr (call s i c q rest) = wr s /\
  todo c' = rest /\ at_ c' <> Crashed /\ at_ c' <> Sending None.
Proof using Type.
  intros Hq. unfold call. destruct q as [now frames level skip text v|level|]; [|by eexists|done].
  destruct (Log_returns (lg s) now frames level skip text v Hq) as [[info|] ->]; by eexists.
Qed.

(** and so makes all of them. *)
Lemma finish_caller name l : forall s i c, inv name s -> wr s <> Ended -> callers s !! i = Some c -> going c -> todo c = l ->
  exists s' c', rtc step s s' /\ wr s' <> Ended /\ over c' /\ callers s' = <[i := c']> (callers s).
Proof using Type.
  induction l as [|q rest IH]; intros s i c HI Hw Hi (Hf & Hcr & Hno) Ht; destruct (settle name s i c HI Hw Hi Hcr Hno) as (s1 & Hs & Hw1 & Hc1).
  { exists s1, (goto c Ready). splits; done. }
  rewrite Ht in Hf. apply Forall_cons in Hf as [Hq Hf]. assert (Hi1 : callers s1 !! i = Some (goto c Ready)) by (rewrite Hc1; apply lookup_insert_eq).
  assert (Hst : step s1 (call s1 i (goto c Ready) q rest)) by (by apply s_call). destruct (call_shape s1 i (goto c Ready) q rest Hq) as (c2 & Hc2 & Hw2 & Ht2 & Hcr2 & Hno2).
  destruct (IH (call s1 i (goto c Ready) q rest) i c2) as (s' & c' & Hs' & Hw' & Hov & Hc').
  - eapply log_step_inv; [by eapply log_steps_inv|done].
  - by rewrite Hw2.
  - rewrite Hc2. apply lookup_insert_eq.
  - split; [by rewrite Ht2|done].
  - done.
  - exists s', c'. splits; try done.
    + etrans; [exact Hs|]. by eapply rtc_l.
    + by rewrite Hc', Hc2, Hc1, !insert_insert_eq.
Qed.

Lemma finish_all name (ks : list nat) : forall s, inv name s -> well s -> exists s', rtc step s s' /\ well s' /\
  (forall i c, callers s' !! i = Some c -> is_Some (callers s !! i)) /\ forall i c, i ∈ ks -> callers s' !! i = Some c -> over c.
Proof using Type.
  induction ks as [|k ks IH]; intros s HI Hwell.
  { exists s. splits; [done|done|by intros i c ->; eexists|]. by intros i c ?%elem_of_nil. }
  destruct (IH s HI Hwell) as (s1 & Hs1 & [Hw1 Hg1] & Hd1 & Ho1). destruct (callers s1 !! k) as [c|] eqn:Ek.
  - destruct (finish_caller name (todo c) s1 k c) as (s2 & c' & Hs2 & Hw2 & Hov & Hc2); [by eapply log_steps_inv|done|done|by apply (Hg1 k)|done|].
    exists s2. splits; [by etrans|split; [done|]|..]; rewrite Hc2.
    + apply callers_insert; [|by intros j d _; apply Hg1]. destruct Hov as [E1 E2]. split; [by rewrite E1|by rewrite E2].
    + apply (callers_insert (fun j _ => is_Some (callers s !! j))); [by eapply Hd1|]. intros j d _. apply Hd1.
    + intros j d Hj. revert j d Hj. enough (H : forall j d, <[k := c']> (callers s1) !! j = Some d -> j ∈ k :: ks -> over d) by (intros j d Hj Hd; by eapply H).
      apply (callers_insert (fun j d => j ∈ k :: ks -> over d)); [done|]. intros j d Hne Hj [->|Hin]%elem_of_cons; [done|]. by eapply Ho1.
  - exists s1. splits; [done|by split|done|]. intros j d [->|Hin]%elem_of_cons Hj; [congruence|]. by eapply Ho1.
Qed.

Lemma all_finish name s : inv name s -> well s -> exists s', rtc step s s' /\ wr s' = Receiving /\ cache s' = [] /\ forall i c, callers s' !! i = Some c -> over c.
Proof using Type.
  intros HI Hwell. destruct (finish_all name (elements (dom (callers s))) s HI Hwell) as (s1 & Hs1 & [Hw1 _] & Hd1 & Ho1).
  destruct (flush name s1) as (s2 & Hs2 & Hr & Hq & Hc); [by eapply log_steps_inv|done|]. exists s2. splits; [by etrans|done|done|].
  intros i c. rewrite Hc. intros Hi. eapply Ho1; [|done]. apply elem_of_elements, elem_of_dom. by eapply Hd1.
Qed.

Lemma of_owner_sublist i l k : sublist l k -> sublist (of_owner i l) (of_owner i k).
Proof using Type. intros H. unfold of_owner. induction H as [|x l k H IH|x l k H IH]; [done|..]; rewrite ?filter_cons; repeat case_decide; cbn; try done; by constructor. Qed.

(** After Free: the file stays as it is and whoever offers a record waits for ever. *)
Lemma ended s s' : rtc step s s' -> wr s = Ended -> wr s' = Ended /\ disk s' = disk s /\
  forall i c r, callers s !! i = Some c -> at_ c = Sending r -> callers s' !! i = Some c.
Proof using Type.
  intros Hs. induction Hs as [|s s1 s' Hs _ IH]; [done|]. intros Hw. assert (G : wr s1 = Ended /\ disk s1 = disk s /\
    forall i c r, callers s !! i = Some c -> at_ c = Sending r -> callers s1 !! i = Some c).
  { destruct Hs as [i c q rest Hi Ha|i c r Hi Ha Hw'|now i info Hw'|i c info Hi Ha|x q]; [|congruence|congruence| |done].
    - assert (E : exists c' l, call s i c q rest = set_caller (set_lg s l) i c').
      { assert (E : set_lg s (lg s) = s) by (by destruct s). unfold call.
        destruct q; [destruct (Log _ _ _ _ _ _ _) as [[]| |]; eexists _, (lg s); by rewrite E|by eexists _, _|eexists _, (lg s); by rewrite E]. }
      destruct E as (c' & l & ->). splits; try done. intros j d r Hj Hd. cbn. rewrite lookup_insert_ne; [done|]. intros <-. congruence.
    - splits; try done. intros j d r Hj Hd. cbn. rewrite lookup_insert_ne; [done|]. intros <-. congruence. }
  destruct G as (G1 & G2 & G3). destruct (IH G1) as (I1 & I2 & I3). splits; [done|congruence|]. intros i c r Hi Ha. eapply I3; [by eapply G3|done].
Qed.

End conc.

(** ** Example: two goroutines, with output to the screen *)

Definition progs : gmap nat (list request) :=
  {[ 1%nat := [RLog 0 [] ErrorLevel 3 "a" []; RLog 0 [] DebugLevel 3 "hidden" []; RLog 0 [] InfoLevel 3 "b" []]; 2%nat := [RLog 0 [] FatalLevel 3 "c" []] ]}.
Abbreviation sample_step := (step LogSample.utc LogSample.marshal "./log/" true (fun _ => true)).

Lemma progs_fine : Forall (Forall fine) (map_to_list progs).*2.
Proof. vm_compute. repeat constructor; discriminate. Qed.

Lemma start_well : well (start (XLog.lg LogSample.start) progs).
Proof.
  split; [done|]. intros i c. cbn. rewrite lookup_fmap_Some. intros (p & <- & Hp). split; [|done]. cbn.
  pose proof progs_fine as H. rewrite Forall_forall in H. apply H. apply list_elem_of_fmap. exists (i, p). split; [done|]. by apply elem_of_map_to_list.
Qed.
End LogConc.

