(* ===== verification/CallId.v ===== *)
(** * Call numbers by thread: util/unix.go, util/sys

    SetCallId ties the goroutine to its thread and stores the call under the number
    of the thread; GetCallId looks there.  The runtime is modelled as far as this
    depends on it: a goroutine that has locked its thread runs on no other and
    shares it with none, any other runs on any thread that is not locked. *)

From Stdlib Require Import ZArith Lia String Ascii.
From stdpp Require Import base numbers list strings gmap.
From S2P Require Import Prelude GoStd GoText.

Module CallId.

Record ReqEventCall := { Uid : Z; CallId : Z }.

Section call_id.
(** The threads of the process, and gettid of a thread. *)
Context {thread : Type} (Gettid : thread -> Z).
Implicit Types t : thread.

(** A goroutine is a number; [wired] is the thread a goroutine has locked, and how often. *)
Record process := { threadMap : gmap Z ReqEventCall; wired : gmap nat (thread * nat) }.

Definition idle : process := {| threadMap := ∅; wired := ∅ |}.

(** runtime.LockOSThread and UnlockOSThread, which count. *)
Definition LockOSThread (s : process) (g : nat) t : process :=
  {| threadMap := threadMap s; wired := <[g := match wired s !! g with Some (t', n) => (t', S n) | None => (t, 1%nat) end]> (wired s) |}.
Definition UnlockOSThread (s : process) (g : nat) : process :=
  {| threadMap := threadMap s;
     wired := match wired s !! g with
              | Some (t, S (S n)) => <[g := (t, S n)]> (wired s)
              | Some _ => delete g (wired s)
              | None => wired s
              end |}.

(** The thread [t] can run the goroutine [g]. *)
Definition runs_on (s : process) (g : nat) t : Prop :=
  match wired s !! g with Some (t', _) => t = t' | None => forall g' n, wired s !! g' <> Some (t, n) end.

(** sys.GetThreadId on linux. *)
Definition GetThreadId t : Z := wrapu 32 (Gettid t).

Definition SetCallId (s : process) (g : nat) t (uid callId : Z) : process :=
  let s := LockOSThread s g t in
  let tid := GetThreadId t in
  {| threadMap := <[tid := {| Uid := uid; CallId := callId |}]> (threadMap s); wired := wired s |}.

Definition UnLockCallId (s : process) (g : nat) : process := UnlockOSThread s g.

Definition GetCallId (s : process) t : Z :=
  match threadMap s !! GetThreadId t with Some id => CallId id | None => 0 end.

Definition GetReqEventCall (s : process) t : Z * Z :=
  match threadMap s !! GetThreadId t with Some v => (Uid v, CallId v) | None => (0, 0) end.

(** ** Goroutines on threads *)

Inductive event :=
  | ESet (g : nat) t (uid callId : Z)
  | EUnlock (g : nat)
  | EGet (g : nat) t (r : Z * Z).

Inductive step (s : process) : event -> process -> Prop :=
  | s_set g t uid callId : runs_on s g t -> step s (ESet g t uid callId) (SetCallId s g t uid callId)
  | s_unlock g : step s (EUnlock g) (UnLockCallId s g)
  | s_get g t : runs_on s g t -> step s (EGet g t (GetReqEventCall s t)) s.

Inductive exec : process -> list event -> process -> Prop :=
  | x_nil s : exec s [] s
  | x_cons s e s1 tr s2 : step s e s1 -> exec s1 tr s2 -> exec s (e :: tr) s2.

Lemma exec_app s tr1 tr2 s' : exec s (tr1 ++ tr2) s' <-> exists s1, exec s tr1 s1 /\ exec s1 tr2 s'.
Proof.
  revert s. induction tr1 as [|e tr1 IH]; intros s; cbn.
  - split; [intros Hx; exists s; by split; [constructor|]|]. intros (s1 & H1 & ?). by inversion H1; subst.
  - split.
    + intros Hx. inversion Hx as [|? ? s1 ? ? Hs Ht]; subst. apply IH in Ht as (s2 & ? & ?). exists s2. split; [by econstructor|done].
    + intros (s2 & Hx & ?). inversion Hx as [|? ? s1 ? ? Hs Ht]; subst. econstructor; [done|]. apply IH. eauto.
Qed.

(** No thread is locked by two goroutines. *)
Definition apart (s : process) : Prop := forall g g' t n n', wired s !! g = Some (t, n) -> wired s !! g' = Some (t, n') -> g = g'.

(** The event does not end the call of [g]. *)
Definition leaves (g : nat) (e : event) : Prop :=
  match e with ESet g' _ _ _ | EUnlock g' => g' <> g | EGet _ _ _ => True end.

Lemma wired_lock s g t g' : wired (LockOSThread s g t) !! g' =
  if decide (g' = g) then Some match wired s !! g with Some (t', n) => (t', S n) | None => (t, 1%nat) end else wired s !! g'.
Proof. cbn. case_decide; subst; [by rewrite lookup_insert_eq|by rewrite lookup_insert_ne]. Qed.

Lemma wired_unlock s g g' : g' <> g -> wired (UnlockOSThread s g) !! g' = wired s !! g'.
Proof. intros Hne. cbn. destruct (wired s !! g) as [[t [|[|n]]]|]; rewrite ?lookup_delete_ne, ?lookup_insert_ne by done; done. Qed.

Lemma unlock_thread s g g' t n : wired (UnlockOSThread s g) !! g' = Some (t, n) -> exists n', wired s !! g' = Some (t, n').
Proof.
  destruct (decide (g' = g)) as [->|Hne]; [|rewrite wired_unlock by done; eauto]. cbn.
  destruct (wired s !! g) as [[t' [|[|k]]]|] eqn:E; rewrite ?lookup_delete_eq, ?lookup_insert_eq; intros; simplify_eq; eauto.
Qed.

Lemma lock_runs s g t : runs_on s g t -> exists n, wired (LockOSThread s g t) !! g = Some (t, n).
Proof.
  unfold runs_on. rewrite wired_lock, decide_True by done. destruct (wired s !! g) as [[t' n]|]; [intros ->|intros _]; eauto.
Qed.

Lemma step_apart s e s' : apart s -> step s e s' -> apart s'.
Proof.
  intros Ha Hs. destruct Hs as [g t u i Hr|g|g t Hr]; [| |done].
  - assert (Hg : forall x n, x <> g -> wired s !! x <> Some (t, n)).
    { intros x n Hx E. unfold runs_on in Hr. destruct (wired s !! g) as [[t' k]|] eqn:Eg; [subst t'; by eapply Hx, Ha|by eapply Hr]. }
    destruct (lock_runs s g t Hr) as [k Ek]. intros g1 g2 t' n n'. change (wired (SetCallId s g t u i)) with (wired (LockOSThread s g t)).
    destruct (decide (g1 = g)) as [->|H1], (decide (g2 = g)) as [->|H2]; [done|..]; intros E1 E2.
    + rewrite wired_lock, decide_False in E2 by done. rewrite Ek in E1. exfalso. by eapply (Hg g2 n'); [|simplify_eq].
    + rewrite wired_lock, decide_False in E1 by done. rewrite Ek in E2. exfalso. by eapply (Hg g1 n); [|simplify_eq].
    + rewrite wired_lock, decide_False in E1 by done. rewrite wired_lock, decide_False in E2 by done. by eapply Ha.
  - intros g1 g2 t n n' [k1 E1]%unlock_thread [k2 E2]%unlock_thread. by eapply Ha.
Qed.

Lemma exec_apart s tr s' : apart s -> exec s tr s' -> apart s'.
Proof. intros Ha Hx. induction Hx; [done|]. eauto using step_apart. Qed.

(** Other goroutines run on other threads. *)
Lemma other_thread s g t n g' t' : apart s -> wired s !! g = Some (t, n) -> g' <> g -> runs_on s g' t' -> t' <> t.
Proof.
  intros Ha Hg Hne Hr ->. unfold runs_on in Hr. destruct (wired s !! g') as [[t1 n1]|] eqn:E; [subst t1; by eapply Hne, Ha|by eapply Hr].
Qed.

(** Thread numbers are distinct and below the kernel's limit. *)
Hypothesis Gettid_range : forall t, 0 <= Gettid t < 2 ^ 22.
Hypothesis Gettid_inj : forall t t', Gettid t = Gettid t' -> t = t'.

Lemma GetThreadId_inj t t' : GetThreadId t = GetThreadId t' -> t = t'.
Proof using Gettid_range Gettid_inj.
  intros E. apply Gettid_inj. pose proof (Gettid_range t). pose proof (Gettid_range t'). unfold GetThreadId in E.
  rewrite !wrapu_small in E by (unfold in_u; lia). done.
Qed.

(** While [g] keeps its thread, the entry of the thread is what [g] has stored. *)
Definition own (s : process) (g : nat) t (r : Z * Z) : Prop :=
  apart s /\ (exists n, wired s !! g = Some (t, n)) /\ GetReqEventCall s t = r.

Lemma step_own s g t r e s' : own s g t r -> leaves g e -> step s e s' -> own s' g t r.
Proof using Gettid_range Gettid_inj.
  intros (Ha & (n & Hn) & Hr) Hl Hs. split; [by eapply step_apart|]. destruct Hs as [g' t' u i Hrun|g'|g' t' Hrun]; cbn in Hl; [..|by eauto].
  - split; [exists n; cbn; by rewrite lookup_insert_ne|]. unfold GetReqEventCall. cbn. rewrite lookup_insert_ne; [done|].
    intros E%GetThreadId_inj. by eapply other_thread.
  - split; [exists n; by rewrite <- Hn; apply wired_unlock|done].
Qed.

Lemma exec_own s g t r tr s' : own s g t r -> Forall (leaves g) tr -> exec s tr s' -> own s' g t r.
Proof using Gettid_range Gettid_inj.
  intros Ho Hl Hx. revert Ho Hl. induction Hx; intros Ho Hl; [done|]. apply Forall_cons in Hl as [? ?]. eauto using step_own.
Qed.

(** C40. Calls do not get each other's numbers: from SetCallId until the goroutine unlocks
    its thread or sets another, whatever other goroutines do on whatever threads the
    runtime gives them, GetReqEventCall and GetCallId in this goroutine return what it
    has set. *)
Theorem call_id_isolated pre g t u i mid t' r s :
  exec idle (pre ++ ESet g t u i :: mid ++ [EGet g t' r]) s -> Forall (leaves g) mid -> r = (u, i) /\ GetCallId s t' = i.
Proof using Gettid_range Gettid_inj.
  intros (s1 & H1 & H2)%exec_app Hl. inversion H2 as [|? ? s2 ? ? Hs H3]; subst. apply exec_app in H3 as (s3 & H3 & H4).
  assert (Ha : apart s1) by (eapply exec_apart; [|done]; intros ? ? ? ? ? E; cbn in E; by rewrite lookup_empty in E).
  assert (Ho : own s2 g t (u, i)).
  { split; [by eapply step_apart|]. inversion Hs as [? ? ? ? Hr| |]; subst. split; [by apply lock_runs|]. unfold GetReqEventCall. cbn. by rewrite lookup_insert_eq. }
  destruct (exec_own _ _ _ _ _ _ Ho Hl H3) as (_ & (n & Hn) & Hr). inversion H4 as [|? ? s4 ? ? Hg H5]; subst. inversion H5; subst.
  inversion Hg as [| |? ? Hrun]; subst. unfold runs_on in Hrun. rewrite Hn in Hrun. subst t'. split; [done|].
  unfold GetReqEventCall in Hr. unfold GetCallId. destruct (threadMap s !! GetThreadId t); congruence.
Qed.
End call_id.

(** sys.GetThreadId on darwin is not the number of the thread: [draw] is rand.Intn(1000). *)
Definition darwin_GetThreadId (draw : Z) : Z := wrapu 32 draw.

(** ** GetRunPath *)

(** [caller]: runtime.Caller, the file and line of a frame or not ok. *)
Definition GetRunPath (caller : option (string * Z)) : string :=
  match caller with
  | Some (file, line) =>
      let path := SplitStr file "go/src" in
      match path with
      | [_; p] => p +:+ ":" +:+ Itoa line
      | _ => file +:+ ":" +:+ Itoa line
      end
  | None => "???"
  end.

(** What is shown is the file's name, without what comes before go/src and that when it
    occurs once, and the line. *)
Lemma run_path_suffix file line : exists pre p, GetRunPath (Some (file, line)) = p +:+ ":" +:+ Itoa line /\
  (file = pre +:+ "go/src" +:+ p \/ file = p).
Proof.
  unfold GetRunPath. destruct (Join_SplitStr file "go/src") as [Hne E]; [done|].
  destruct (SplitStr file "go/src") as [|a [|p [|c l]]]; [done|exists "", file; by split; [|right]| |exists "", file; by split; [|right]].
  exists a, p. split; [done|]. left. by rewrite <- E.
Qed.

(** Two goroutines whose calls overlap, on two threads. *)
Definition tid (t : bool) : Z := if t then 4711 else 4712.

Lemma call_id_isolated_witness : GetReqEventCall tid (SetCallId tid (SetCallId tid idle 0 true 17 5) 1 false 18 6) true = (17, 5).
Proof.
  set (s := SetCallId tid (SetCallId tid idle 0 true 17 5) 1 false 18 6).
  refine (proj1 (call_id_isolated tid _ _ [] 0 true 17 5 [ESet 1 false 18 6] true (GetReqEventCall tid s true) s _ _)).
  - intros []; cbn; lia.
  - intros [] []; cbn; congruence.
  - eapply x_cons; [apply s_set; unfold runs_on; cbn; rewrite lookup_empty; intros g' n; rewrite lookup_empty; discriminate|].
    eapply x_cons; [apply s_set|eapply x_cons; [apply s_get; vm_compute; reflexivity|apply x_nil]].
    unfold runs_on. replace (wired (SetCallId tid idle 0 true 17 5) !! 1%nat) with (@None (bool * nat)) by (vm_compute; reflexivity).
    intros g' n E. cbn [wired SetCallId LockOSThread] in E. apply lookup_insert_Some in E as [[_ E]|[_ E]]; cbn in E; rewrite lookup_empty in E; discriminate.
  - repeat constructor. cbn. discriminate.
Defined.

(** UnLockCallId leaves the entry: a goroutine that runs on the thread later and has set
    nothing gets the numbers of the call before. *)
Lemma call_id_stale : exists s, exec tid idle [ESet 0 true 17 5; EUnlock 0; EGet 1 true (17, 5)] s.
Proof.
  eexists. eapply x_cons; [apply s_set; unfold runs_on; cbn; rewrite lookup_empty; intros g' n; by rewrite lookup_empty|]. eapply x_cons; [apply s_unlock|]. eapply x_cons; [|apply x_nil].
  change (17, 5) with (GetReqEventCall tid (UnLockCallId (SetCallId tid idle 0 true 17 5) 0) true). apply s_get. vm_compute. intros g' n. by destruct g'.
Qed.
End CallId.
