(* ===== verification/Wrappers.v ===== *)
(** * Calls of other services: util/redis.go, mongo.go, dingding.go, zinc.go, mysql.go,
    ants.go, recover.go, and the I/O of misc.go and misc_other.go

    What the helpers compute around a call of a library: addresses, index names, texts,
    what they do with errors.  The libraries are arguments: what their functions answer. *)

From Stdlib Require Import ZArith Lia Ascii String.
From stdpp Require Import base numbers list strings gmap.
From S2P Require Import Prelude GoStd GoText.

(** ** util/redis.go *)
Module Redis.

Record Options := { Addr : string; Password : string; DB : Z }.

Section redis.
Context {client : Type} (NewClient : Options -> option client).

(** The error and redisConn. *)
Definition ConnectRedis (connStr : string) : go (option go_error * option client) :=
  let arr := Split ":" connStr in
  redisHost ← go_index arr 0;
  port ← go_index arr 1;
  let '(redisPort, _) := Atoi port in
  redisPwd ← go_index arr 2;
  db ← go_index arr 3;
  let '(redisDb, _) := Atoi db in
  let redisConn := NewClient {| Addr := redisHost +:+ ":" +:+ Itoa redisPort; Password := redisPwd; DB := redisDb |} in
  Ret (match redisConn with
       | None => Some (ErrMsg ("connect redis[" +:+ connStr +:+ "] error"))
       | Some _ => None
       end, redisConn).

(** The parts come back as they were put together, further parts are left out, and a
    string of fewer than four parts ends the program. *)
Lemma redis_options host pwd port db rest : Forall (all_bytes (fun c => c <> ":"%char)) (host :: pwd :: rest) -> in_s 64 port -> in_s 64 db ->
  (exists e, ConnectRedis (Join (host :: Itoa port :: pwd :: Itoa db :: rest) ":") =
    Ret (e, NewClient {| Addr := host +:+ ":" +:+ Itoa port; Password := pwd; DB := db |})) /\
  (forall s, (length (Split ":" s) < 4)%nat -> exists w, ConnectRedis s = Panic w).
Proof.
  intros Hf Hp Hd. apply Forall_cons in Hf as [Hh Hf]. apply Forall_cons in Hf as [Hw Hr]. split.
  - unfold ConnectRedis. rewrite Split_Join; [|done|repeat (constructor; [by try apply Itoa_free|]); done]. cbn [go_index lookup list_lookup mbind go_bind].
    rewrite !Atoi_Itoa by done. by eexists.
  - intros s Hs. unfold ConnectRedis. pose proof (Split_nonempty ":" s). destruct (Split ":" s) as [|a [|b [|c [|d l]]]]; cbn in *; [done|by eexists|..|lia].
    + destruct (Atoi b). by eexists.
    + destruct (Atoi b). by eexists.
Qed.
End redis.
End Redis.

(** ** util/mongo.go *)
Module Mongo.

(** Keys: a bsonx.Doc, its keys with the texts of their values, or something else. *)
Record IndexModel := { Keys : option (list (string * string)) }.

(** What Indexes().List gives: an error, a failed cursor, or documents, some of which do
    not decode. *)
Inductive listing := ListError | CursorError | Documents (l : list (option string)).

Fixpoint decode_all (l : list (option string)) (names : list string) : list string :=
  match l with
  | [] => names
  | None :: _ => []
  | Some n :: l => decode_all l (names ++ [n])
  end.

Definition getIndexes (r : listing) : list string :=
  match r with ListError | CursorError => [] | Documents l => decode_all l [] end.

Definition getIndexName (index : IndexModel) : go string :=
  match Keys index with
  | Some doc => Ret (Join (doc ≫= fun d => [d.1; d.2]) "_")
  | None => Panic "interface conversion: not a bsonx.Doc"
  end.

Section mongo.
(** The database: the indexes of a collection, and a request to create one, whose answer
    is not looked at. *)
Context {server : Type} (List_ : server -> string -> listing) (CreateOne : server -> string -> IndexModel -> server).

(** The indexes of a collection that are missing in [indexNames]; a panic ends the loop. *)
Fixpoint create_missing (s : server) (name : string) (indexNames : list string) (indexes : list IndexModel) : server * go unit :=
  match indexes with
  | [] => (s, Ret tt)
  | index :: indexes =>
      match getIndexName index with
      | Ret indexName =>
          if bool_decide (indexName ∈ indexNames) then create_missing s name indexNames indexes
          else create_missing (CreateOne s name index) name indexNames indexes
      | Err e => (s, Err e)
      | Panic w => (s, Panic w)
      end
  end.

Fixpoint init_collections (s : server) (l : list (string * list IndexModel)) : server * go unit :=
  match l with
  | [] => (s, Ret tt)
  | (name, indexes) :: l =>
      match create_missing s name (getIndexes (List_ s name)) indexes with
      | (s, Ret _) => init_collections s l
      | (s, e) => (s, e)
      end
  end.

Definition initIndex (ρ : RangeOrder) (s : server) (Indexes : gmap string (list IndexModel)) : server * go unit :=
  init_collections s (ρ _ (map_to_list Indexes)).

(** *** With a database that names an index as getIndexName does *)

Definition names (s : server) (name : string) : list string := getIndexes (List_ s name).

Hypothesis create_same : forall s name index n, getIndexName index = Ret n -> n ∈ names (CreateOne s name index) name.
Hypothesis create_keeps : forall s name index name' n, n ∈ names s name' -> n ∈ names (CreateOne s name index) name'.

Definition well_typed (indexes : list IndexModel) : Prop := Forall (fun i => exists doc, Keys i = Some doc) indexes.

Lemma typed_name i : (exists doc, Keys i = Some doc) -> exists n, getIndexName i = Ret n.
Proof using Type. intros [doc E]. unfold getIndexName. rewrite E. by eexists. Qed.

Lemma create_missing_ok s name known indexes : well_typed indexes -> (forall n, n ∈ known -> n ∈ names s name) ->
  exists s', create_missing s name known indexes = (s', Ret tt) /\ (forall name' n, n ∈ names s name' -> n ∈ names s' name') /\
    forall i n, i ∈ indexes -> getIndexName i = Ret n -> n ∈ names s' name.
Proof using create_same create_keeps.
  intros Hw. revert s. induction Hw as [|i indexes Hi Hw IH]; intros s Hk; cbn [create_missing].
  { exists s. split_and!; [done|done|]. intros ? ? ?%elem_of_nil. done. }
  destruct (typed_name i Hi) as [n En]. rewrite En. destruct (bool_decide (n ∈ known)) eqn:Eb.
  - apply bool_decide_eq_true in Eb. destruct (IH s Hk) as (s' & E & H1 & H2). exists s'. split_and!; [done|done|].
    intros i' n' [->|Hi']%elem_of_cons En'; [|by eapply H2].
    apply H1, Hk. assert (n' = n) as -> by congruence. done.
  - destruct (IH (CreateOne s name i)) as (s' & E & H1 & H2); [auto|]. exists s'. split_and!; [done|auto|].
    intros i' n' [->|Hi']%elem_of_cons En'; [|by eapply H2]. apply H1. by apply create_same.
Qed.

Lemma create_missing_none s name known indexes : (forall i, i ∈ indexes -> exists n, getIndexName i = Ret n /\ n ∈ known) ->
  create_missing s name known indexes = (s, Ret tt).
Proof using Type.
  induction indexes as [|i indexes IH]; intros Hk; [done|]. cbn [create_missing]. destruct (Hk i) as (n & -> & Hn); [left|].
  rewrite bool_decide_true by done. apply IH. intros i' Hi'. apply Hk. by right.
Qed.

Lemma init_collections_ok s l : Forall (fun x => well_typed x.2) l -> exists s', init_collections s l = (s', Ret tt) /\
  (forall name n, n ∈ names s name -> n ∈ names s' name) /\
  forall name indexes i n, (name, indexes) ∈ l -> i ∈ indexes -> getIndexName i = Ret n -> n ∈ names s' name.
Proof using create_same create_keeps.
  intros Hl. revert s. induction Hl as [|[name indexes] l Hw Hl IH]; intros s; cbn [init_collections].
  { exists s. split_and!; [done|done|]. intros ? ? ? ? ?%elem_of_nil. done. }
  destruct (create_missing_ok s name (getIndexes (List_ s name)) indexes Hw) as (s1 & -> & H1 & H2); [done|].
  destruct (IH s1) as (s2 & -> & H3 & H4). exists s2. split_and!; [done|auto|].
  intros name' indexes' i n [[= -> ->]|Hin]%elem_of_cons Hi En; [apply H3; by eapply H2|by eapply H4].
Qed.

Lemma init_collections_none s l : Forall (fun x => forall i, i ∈ x.2 -> exists n, getIndexName i = Ret n /\ n ∈ names s x.1) l ->
  init_collections s l = (s, Ret tt).
Proof using Type.
  intros Hl. induction Hl as [|[name indexes] l Hn Hl IH]; [done|]. cbn [init_collections]. by rewrite create_missing_none.
Qed.

(** After initIndex every index asked for exists and none is lost, and a second start
    of the program, whatever order the map is walked in, creates none. *)
Lemma mongo_indexes (ρ ρ' : RangeOrder) (s : server) (Indexes : gmap string (list IndexModel))
    (Hw : map_Forall (fun _ indexes => well_typed indexes) Indexes) :
  exists s', initIndex ρ s Indexes = (s', Ret tt) /\ (forall name n, n ∈ names s name -> n ∈ names s' name) /\
    (forall name indexes i n, Indexes !! name = Some indexes -> i ∈ indexes -> getIndexName i = Ret n -> n ∈ names s' name) /\
    initIndex ρ' s' Indexes = (s', Ret tt).
Proof using create_same create_keeps.
  assert (Hl : forall (σ : RangeOrder) x, x ∈ σ _ (map_to_list Indexes) -> Indexes !! x.1 = Some x.2).
  { intros σ [name indexes]. by rewrite elem_of_range_order, elem_of_map_to_list. }
  destruct (init_collections_ok s (ρ _ (map_to_list Indexes))) as (s' & E & H1 & H2).
  { apply Forall_forall. intros x Hx%Hl. by apply Hw in Hx. }
  assert (H3 : forall name indexes i n, Indexes !! name = Some indexes -> i ∈ indexes -> getIndexName i = Ret n -> n ∈ names s' name).
  { intros name indexes i n Hx. apply H2. by rewrite elem_of_range_order, elem_of_map_to_list. }
  exists s'. split_and!; [done|done|done|]. apply init_collections_none, Forall_forall. intros [name indexes] Hx%Hl i Hi. cbn in *.
  destruct (typed_name i) as [n En]; [by eapply Forall_forall in Hi; [|by eapply Hw]|]. exists n. split; [done|]. by eapply H3.
Qed.
End mongo.

(** The name of the database in the connection string wins. *)
Definition database_name (Name in_string : string) : string := if negb (String.eqb in_string "") then in_string else Name.

(** [conn] and [ping]: the errors of Connect and Ping; the first argument of the database's
    functions is its name.  The result is the error and m.Name. *)
Definition ConnectMongo {server : Type} (List_ : string -> server -> string -> listing) (CreateOne : string -> server -> string -> IndexModel -> server)
    (conn ping : option go_error) (ρ : RangeOrder) (s : server) (Name in_string : string) (Indexes : gmap string (list IndexModel)) :
    server * go (option go_error * string) :=
  match conn with
  | Some e => (s, Ret (Some e, Name))
  | None =>
      match ping with
      | Some e => (s, Ret (Some e, Name))
      | None =>
          let Name := database_name Name in_string in
          let '(s, r) := initIndex (List_ Name) (CreateOne Name) ρ s Indexes in
          (s, _ ← r; Ret (None, Name))
      end
  end.

(** A database that keeps the names of the indexes by collection. *)
Definition toy_list (s : string -> list string) (name : string) : listing := Documents (Some <$> s name).
Definition toy_create (s : string -> list string) (name : string) (i : IndexModel) : string -> list string :=
  fun name' => if decide (name' = name) then s name' ++ match getIndexName i with Ret n => [n] | _ => [] end else s name'.

Lemma decode_some l acc : decode_all (Some <$> l) acc = acc ++ l.
Proof. revert acc. induction l as [|x l IH]; intros acc; cbn; [by rewrite app_nil_r|]. by rewrite IH, <- app_assoc. Qed.

Lemma toy_names s name : names toy_list s name = s name.
Proof. unfold names, toy_list, getIndexes. apply decode_some. Qed.

Definition by_uid : IndexModel := {| Keys := Some [("uid", "1"); ("time", "-1")] |}.

Lemma mongo_indexes_witness : exists s', initIndex toy_list toy_create range_id (fun _ => []) {["logs" := [by_uid]]} = (s', Ret tt) /\
  "uid_1_time_-1" ∈ names toy_list s' "logs".
Proof.
  destruct (mongo_indexes toy_list toy_create) with (ρ := range_id) (ρ' := range_id) (s := fun _ : string => @nil string)
    (Indexes := {["logs" := [by_uid]]} : gmap string (list IndexModel)) as (s' & E & _ & H & _).
  - intros s name i n En. rewrite toy_names. unfold toy_create. rewrite decide_True, En by done. apply elem_of_app. right. left.
  - intros s name i name' n. rewrite !toy_names. unfold toy_create. case_decide; [|done]. intros ?. apply elem_of_app. by left.
  - apply map_Forall_singleton. repeat constructor. by eexists.
  - exists s'. split; [exact E|]. by apply (H "logs" [by_uid] by_uid); [apply lookup_singleton_eq|left|].
Defined.
End Mongo.

(** ** util/dingding.go *)
Module DingTalk.

Record DingTalkLog := { Title : string; Kvs : gmap string string }.  (* Kvs: fmt.Sprint of the values *)
Record DingTalkData := { MsgType : string; MdTitle : string; MdText : string }.

Definition kv_line (kv : string * string) : string := ">- **" +:+ kv.1 +:+ ":** " +:+ kv.2 +:+ " " +:+ String nl "".

Definition markdown (ρ : RangeOrder) (msg : DingTalkLog) : DingTalkData :=
  {| MsgType := "markdown"; MdTitle := Title msg;
     MdText := fold_left (fun text kv => text +:+ kv_line kv) (ρ _ (map_to_list (Kvs msg))) ("#### " +:+ Title msg +:+ String nl "") |}.

Section ding.
(** hmac-sha256 of a text with a key; json.Marshal; the errors of NewRequest and Do. *)
Context (hmac : string -> string -> string) (base64 : string -> string) (Marshal : DingTalkData -> string + go_error).
Context (NewRequest Do : string -> string -> option go_error).

Definition SignSHA256 (DingSercet str : string) : string :=
  let str := str +:+ String nl "" +:+ DingSercet in
  base64 (hmac DingSercet str).

(** The request that is sent, url and body, and the error; [now] is NowNano(). *)
Definition sendDingTalk (DingSercet : string) (now : Z) (url : string) (data : DingTalkData) : option (string * string) * option go_error :=
  if String.eqb url "" then (None, None)
  else
    let t := Itoa (Z.quot now 1000000) in
    let url := url +:+ "&timestamp=" +:+ t +:+ "&sign=" +:+ SignSHA256 DingSercet t in
    match Marshal data with
    | inr e => (None, Some e)
    | inl bts =>
        match NewRequest url bts with
        | Some e => (None, Some e)
        | None => (Some (url, bts), Do url bts)
        end
    end.

Definition SendDingTalk (DingURL DingSercet : string) (now : Z) (ρ : RangeOrder) (msg : DingTalkLog) : option (string * string) * option go_error :=
  sendDingTalk DingSercet now DingURL (markdown ρ msg).
End ding.

Lemma fold_lines l a : fold_left (fun text kv => text +:+ kv_line kv) l a = a +:+ fold_right (fun kv text => kv_line kv +:+ text) "" l.
Proof. revert a. induction l as [|kv l IH]; intros a; cbn [fold_left fold_right]; [by rewrite append_nil_r|]. by rewrite IH, append_assoc. Qed.

Lemma kv_line_app k v t : kv_line (k, v) +:+ t = (">- **" +:+ k +:+ ":** " +:+ v +:+ " ") +:+ String nl t.
Proof. unfold kv_line. cbn [fst snd]. rewrite !append_assoc. reflexivity. Qed.

(** The text is the title and one line for each pair, in some order. *)
Lemma markdown_lines ρ msg : all_bytes (fun c => c <> nl) (Title msg) ->
  map_Forall (fun k v => all_bytes (fun c => c <> nl) k /\ all_bytes (fun c => c <> nl) v) (Kvs msg) -> exists lines,
  Split nl (MdText (markdown ρ msg)) = ("#### " +:+ Title msg) :: lines ++ [""] /\
  lines ≡ₚ ((fun kv => ">- **" +:+ kv.1 +:+ ":** " +:+ kv.2 +:+ " ") <$> map_to_list (Kvs msg)).
Proof.
  intros Ht Hk. exists ((fun kv => ">- **" +:+ kv.1 +:+ ":** " +:+ kv.2 +:+ " ") <$> ρ _ (map_to_list (Kvs msg))). split; [|by rewrite (range_order_perm ρ)].
  assert (Hl : Forall (fun kv => all_bytes (fun c => c <> nl) kv.1 /\ all_bytes (fun c => c <> nl) kv.2) (ρ _ (map_to_list (Kvs msg)))).
  { apply Forall_forall. intros [k v]. rewrite elem_of_range_order, elem_of_map_to_list. apply Hk. }
  cbn [MdText markdown]. rewrite fold_lines. set (tail := fold_right _ _ _).
  assert (E : Split nl tail = ((fun kv => ">- **" +:+ kv.1 +:+ ":** " +:+ kv.2 +:+ " ") <$> ρ _ (map_to_list (Kvs msg))) ++ [""]).
  { subst tail. induction Hl as [|[k v] l [Hk1 Hv1] _ IH]; [done|]. cbn [fold_right fmap list_fmap app]. rewrite <- IH, kv_line_app. cbn [fst snd] in *.
    rewrite Split_app; [done|]. rewrite !all_bytes_app. split_and!; try done; repeat constructor; done. }
  rewrite <- E. replace (("#### " +:+ Title msg +:+ String nl "") +:+ tail) with (("#### " +:+ Title msg) +:+ String nl tail) by (by rewrite !append_assoc).
  apply Split_app. rewrite all_bytes_app. split; [|done]. repeat constructor; done.
Qed.
End DingTalk.

(** ** HTTP requests and the connection pool of MySQL: util/zinc.go, misc.go, mysql.go *)
Module Remote.

(** log.Fatal ends the program. *)
Inductive outcome := Returns (err : option go_error) | Exits.

(** [NewRequest] fails on a url that does not parse; [Do] gives the body or the error of
    the exchange or of reading. *)
Definition WriteZinc (NewRequest : string -> option go_error) (Do : string -> string -> string -> string -> bytes + go_error)
    (domain username password index : string) (data : string) : outcome * bool (* a message is printed *) :=
  let url := domain +:+ "/api/default/" +:+ index +:+ "/_json" in
  match NewRequest url with
  | Some _ => (Exits, true)
  | None =>
      match Do url username password data with
      | inr e => (Returns (Some e), false)
      | inl body => (Returns None, negb (Contains (of_bytes body) (String "034" ("successful" +:+ String "034" ":1"))))
      end
  end.

(** The headers of the request besides the method, the url and the body. *)
Definition http_headers (body : string) : list (string * string) :=
  [("Content-Type", "application/json"); ("Content-Length", Itoa (Z.of_nat (String.length body)))].

Definition SendHttpRequest (NewRequest : string -> string -> option go_error) (Do : string -> string -> list (string * string) -> string -> bytes + go_error)
    (method url body : string) : bytes + go_error :=
  match NewRequest method url with
  | Some err1 => inr err1
  | None => Do method url (http_headers body) body
  end.

(** The error and mysqlDB, which is set though Ping fails. *)
Definition InitMysql {db : Type} (Open : string -> option db * option go_error) (Ping : db -> option go_error) (dsn : string) :
    option go_error * option db :=
  match Open dsn with
  | (d, Some err) => (Some err, d)
  | (d, None) => (d ≫= Ping, d)
  end.
End Remote.

(** ** Files and limits: util/misc.go, misc_other.go *)
Module System.

(** [Stat]: the error of os.Stat, and whether os.IsNotExist says so; every error means no. *)
Definition PathExists (Stat : string -> option (go_error * bool)) (path : string) : bool :=
  match Stat path with
  | None => true
  | Some (_, isNotExist) => if isNotExist : bool then false else false
  end.

(** The error of MkdirAll is dropped. *)
Definition CreateDir {fs : Type} (MkdirAll : fs -> string -> fs * option go_error) (d : fs) (path : string) : fs := (MkdirAll d path).1.

Record Rlimit := { Cur : Z; Max : Z }.
(** The limits after the call, and its error. *)
Definition SetUlimit (Getrlimit : option go_error) (Setrlimit : Rlimit -> option go_error) (r : Rlimit) : Rlimit * option go_error :=
  match Getrlimit with
  | Some err => (r, Some err)
  | None =>
      let rLimit := {| Cur := Max r; Max := Max r |} in
      match Setrlimit rLimit with Some err => (r, Some err) | None => (rLimit, None) end
  end.
End System.

(** ** Panics in goroutines: util/ants.go, util/recover.go *)
Module Workers.

(** A line of the log or a call of DefaultErrCall: the text and the pairs. *)
Abbreviation entry := (string * list (string * string))%type.

(** The handler of the default pool: [call] when DefaultErrCall is set. *)
Definition panic_handler (call : bool) (err stack : string) : list entry * list entry :=
  ([("错误信息", [("err", err)]); ("错误调用堆栈信息", [("stack", stack)])],
   if call then [("程序出错", [("err", err); ("stack", stack)])] else []).

(** A task of the pool: the log and the calls it leads to.  A task has no result. *)
Definition run_task (call : bool) (stack : string) (task : go unit) : list entry * list entry :=
  match task with Panic err => panic_handler call err stack | _ => ([], []) end.

(** The pool is made once, at the first use; [NewPool] may fail, and the pool is nil then. *)
Record pools := { defaultAntsPool : option nat; made : bool }.
Definition getPool (NewPool : option nat) (s : pools) : option nat * pools :=
  match defaultAntsPool s with
  | Some p => (Some p, s)
  | None => if made s then (None, s) else (NewPool, {| defaultAntsPool := NewPool; made := true |})
  end.

(** defer Recover() around a function body. *)
Definition Recover (stack : string) (body : go unit) : list entry :=
  match body with Panic err => [("错误信息", [("err", err)]); ("错误堆栈", [("stack", stack)])] | _ => [] end.

Definition CheckError (info : string) (err : option string) : list entry :=
  match err with None => [] | Some e => [(info, [("error", e)])] end.

(** One pool for the whole program, however many goroutines ask. *)
Lemma one_pool (answers : list (option nat)) s : exists p, Forall (fun q => q = p)
  (snd (fold_left (fun '(s, acc) np => let '(p, s) := getPool np s in (s, acc ++ [p])) answers (s, []))).
Proof.
  assert (G : forall answers s acc p, made s = true \/ defaultAntsPool s <> None -> defaultAntsPool s = p -> Forall (fun q => q = p) acc ->
    Forall (fun q => q = p) (snd (fold_left (fun '(s, acc) np => let '(p, s) := getPool np s in (s, acc ++ [p])) answers (s, acc)))).
  { clear. induction answers as [|np answers IH]; intros s acc p Hm Hp Ha; [done|]. cbn [fold_left]. unfold getPool at 2.
    destruct (defaultAntsPool s) as [x|] eqn:Ed; [|destruct Hm as [Hm|]; [rewrite Hm|done]];
      (apply IH; [by rewrite ?Ed; auto|congruence|apply Forall_app; split; [done|by constructor]]). }
  destruct answers as [|np answers]; [by exists None|]. cbn [fold_left]. unfold getPool at 2. destruct (defaultAntsPool s) as [x|] eqn:Ed.
  - exists (Some x). apply G; [right; by rewrite Ed|done|by constructor].
  - destruct (made s) eqn:Em; [exists None|exists np]; (apply G; [auto|done|by constructor]).
Qed.
End Workers.
