(* ===== verification/Examples.v ===== *)
(** * The examples: examples/, benchmark/rpc/server

    The services as reflection shows them to the server, and what their methods do.
    Whether a server offers them is decided by their signatures.  The main functions
    of the nodes and of the mock example, as calls of the framework. *)

From Stdlib Require Import ZArith Lia String.
From stdpp Require Import base numbers list strings gmap.
From S2P Require Import Prelude GoStd WatchClient RpcCoder RpcServer WatchConfig RpcNode NodeInit.

Module Examples.

(** ** examples/microservice/db/service.go *)

Record QueryReq := { QKey : string }.
Record QueryRsp := { QValue : string }.
Record UpdateReq := { UKey : string; UValue : string }.

Record DbService := { kvs : gmap string string }.

(** The results: ret, err and the reply. *)
Definition Update (service : DbService) (req : UpdateReq) : DbService * (Z * option string) :=
  ({| kvs := <[UKey req := UValue req]> (kvs service) |}, (0, None)).
Definition Query (service : DbService) (req : QueryReq) (rsp : QueryRsp) : QueryRsp * (Z * option string) :=
  (match kvs service !! QKey req with Some v => {| QValue := v |} | None => rsp end, (0, None)).

(** ** examples/rpc/main.go, benchmark/rpc/server/main.go *)

Definition Add1 (a b : Z) : Z * (Z * option string) := (wrapu 64 (a + b), (123, None)).
Definition Add (a b : Z) (name : string) : (Z * string) * (Z * option string) := ((wrapu 64 (a + b), name), (123, None)).

(** ** examples/microservice/query/service.go: the reply is used whether the call failed or not *)

Section query.
(** rpc.Call of DB.Query and DB.Update; the reply is empty when the call fails. *)
Context (call_query : QueryReq -> QueryRsp * (Z * option string)) (call_update : UpdateReq -> Z * option string) (ρ : RangeOrder).
Definition ask (key : string) : string := QValue (call_query {| QKey := key |}).1.

(** Update: the lines it prints. *)
Inductive printed := Results (ret : Z) (err : option string) | NodeStatus (name address : string) (close : bool).
Definition tell_update (n : GxNode) (key value : string) : list printed :=
  let '(ret, err) := call_update {| UKey := key; UValue := value |} in
  Results ret err :: ((fun c => NodeStatus (Name (Info c)) (Address (Info c)) (Close c)) <$> QueryNodeStatus ρ n).
End query.

(** Run: what its first goroutine asks for in so many rounds, from the [i]-th on; the
    int wraps. *)
Fixpoint run_updates (i : Z) (rounds : nat) : list UpdateReq :=
  match rounds with
  | O => []
  | S rounds => {| UKey := "a"; UValue := Itoa i |} :: run_updates (i64 (i + 1)) rounds
  end.

(** A service that gets these requests. *)
Definition updated (service : DbService) (reqs : list UpdateReq) : DbService := fold_left (fun s req => (Update s req).1) reqs service.

(** ** examples/microservice/db/main.go and query/main.go *)

Section mains.
Context {P : Proto} (upper_nonascii : string -> bool) (receiver : string -> Receiver) (listens : string -> bool) (ρ : RangeOrder) {W : WatchApi}.

Definition node_config (c : conn) (id : Z) (name type : string) (port : Z) : NodeConfig.t conn :=
  {| NodeConfig.Client := Some c; NodeConfig.Id := id; NodeConfig.Nodename := name; NodeConfig.Nodetype := type; NodeConfig.Set_ := "";
     NodeConfig.Host := "127.0.0.1"; NodeConfig.Port := port; NodeConfig.Region := 0; NodeConfig.Cmds := ∅; NodeConfig.HttpPort := 0 |}.

(** NodeIntance at the start of a process. *)
Definition before : GxNode :=
  {| self := ""; region := 0; nset := ""; Services := []; RpcClient := ∅; CmdService := ∅; ServiceNode := ∅; MockData := None;
     Data := ∅; clients := []; events := [] |}.

(** [client]: what NewWatchClient gives; without it main prints the error and returns. *)
Definition db_main (client : option conn) : option Running :=
  c ← client;
  Some (InitNode upper_nonascii receiver listens ρ (node_config c 0 "db0" "db" 10001) (RegisterService before "DB") None [NodeRegisterKey]).
Definition query_main (client : option conn) : option Running :=
  c ← client;
  Some (InitNode upper_nonascii receiver listens ρ (node_config c 1 "query0" "query" 10011) (RegisterService before "Qeury") None [NodeRegisterKey]).

(** Both watch a key under which nobody is registered: neither is told of a node
    that registers later, so the one that starts first never learns of the other. *)
Lemma examples_not_told c r info v : r ∈ [db_main (Some c); query_main (Some c)] ->
  exists r', r = Some r' /\ announce r' (reg_key info) (NodeInfo.Name info) v = r'.
Proof using Type. intros [->|[->|[]%elem_of_nil]%elem_of_cons]%elem_of_cons; (eexists; split; [reflexivity|by apply node_watch_key]). Qed.
End mains.

(** ** examples/mock/main.go *)

Section mock.
Context (reach : string -> bool) (ρ : RangeOrder) (context_text : string).   (* the Context of the second reply *)
Definition info1 : MockRsp := {| Rsp := "ok"; mock_Ret := 1; mock_Error := None |}.
Definition info2 : MockRsp := {| Rsp := context_text; mock_Ret := 2; mock_Error := None |}.

(** The two calls, and the node after the deferred RemoveMock. *)
Definition mock_main (n : GxNode) : go (decision * decision * GxNode) :=
  n ← InsertMock (InitMock n) "Player.GetInfo" info1;
  n ← InsertMock n "Player.GetInfo2" info2;
  '(d1, n) ← RpcNode.RawCall reach ρ n EmptyContext "Player.GetInfo";
  '(d2, n) ← RpcNode.Call reach ρ n EmptyContext "Player.GetInfo2";
  Ret (d1, d2, RemoveMock n).

(** Both calls are answered by the mocks, whatever nodes there are, and nothing of
    them is left. *)
Lemma mock_example n : MockData n = None -> mock_main n = Ret (DMock info1, DMock info2, n).
Proof using Type. intros E. destruct n. cbn in E. subst. reflexivity. Qed.
End mock.

(** ** Signatures *)

Section signatures.
Context {P : Proto} (upper : string -> bool) (bodies : string -> option Context.t -> Value -> Value -> outcome).

Definition ptr_to (pkg n : string) : RType := TPtr (TLeaf KOther n pkg None).
Definition rpc_context : RType := ptr_to "github.com/seveye/goms/rpc" "Context".
Definition uint32_type : RType := TLeaf KOther "uint32" "" None.
Definition string_type : RType := TLeaf KOther "string" "" None.
Definition proto_Message : RType := TLeaf KInterface "Message" "google.golang.org/protobuf/reflect/protoreflect" None.
Definition any_slice : RType := TLeaf KSlice "" "" (Some (TLeaf KInterface "" "" None)).

Definition pb : string := "github.com/seveye/goms/examples/microservice/pb".

(** A method with its parameters after the receiver. *)
Definition a_method (recv : RType) (n : string) (ins outs : list RType) : Method :=
  {| mname := n; PkgPath := ""; Ins := recv :: ins; Outs := outs; body := bodies n |}.

(** The methods of *DbService, whose calls return [result] and an error. *)
Definition db_methods (result : RType) : list Method :=
  let m := a_method (ptr_to "main" "DbService") in
  [m "Exit" [] []; m "NodeClose" [string_type] []; m "NodeConn" [string_type] []; m "OnEvent" [string_type; any_slice] [];
   m "Query" [rpc_context; ptr_to pb "QueryReq"; ptr_to pb "QueryRsp"] [result; typeOfError];
   m "Run" [] [typeOfError];
   m "Update" [rpc_context; ptr_to pb "UpdateReq"; ptr_to pb "UpdateRsp"] [result; typeOfError]].

Definition db_service (result : RType) : Receiver :=
  {| typeName := "DbService"; typeString := "*main.DbService"; methods := db_methods result; ptrMethods := [] |}.

Definition example_user : Receiver :=
  {| typeName := "User"; typeString := "*main.User";
     methods := [a_method (ptr_to "main" "User") "Add" [rpc_context; ptr_to "main" "AddReq"; proto_Message] [uint32_type; typeOfError];
                 a_method (ptr_to "main" "User") "Add1" [rpc_context; ptr_to "main" "AddReq"; ptr_to "main" "AddRsp"] [uint32_type; typeOfError]];
     ptrMethods := [] |}.

Definition benchmark_user : Receiver :=
  let proto := "github.com/seveye/goms/benchmark/rpc/proto" in
  {| typeName := "User"; typeString := "*main.User";
     methods := [a_method (ptr_to "main" "User") "Add" [rpc_context; ptr_to proto "AddReq"; ptr_to proto "AddRsp"] [typeOfUint16; typeOfError];
                 a_method (ptr_to "main" "User") "Add2" [rpc_context; ptr_to proto "AddReq"; proto_Message] [typeOfUint16; typeOfError]];
     ptrMethods := [] |}.

(** The names of the methods a registration offers. *)
Definition offered (r : go Server) (sname : string) : option (gset string) :=
  match r with Ret s => (fun svc => dom (method svc)) <$> serviceMap s !! sname | _ => None end.

(** The methods of the examples return uint32 where the server wants uint16: the
    registration fails, and RegisterService's caller ignores it.  The benchmark's service
    is offered, and so would be the one of the example with uint16. *)
Lemma examples_registered :
  RegisterName upper NewServer "DB" (db_service uint32_type) = Err (ErrMsg "rpc.Register: type DB has no exported methods of suitable type") /\
  RegisterName upper NewServer "AddServer" example_user = Err (ErrMsg "rpc.Register: type AddServer has no exported methods of suitable type") /\
  offered (RegisterName upper NewServer "AddServer" benchmark_user) "AddServer" = Some {["Add"; "Add2"]} /\
  offered (RegisterName upper NewServer "DB" (db_service typeOfUint16)) "DB" = Some {["Query"; "Update"]}.
Proof. split_and!; vm_compute; reflexivity. Qed.
End signatures.

(** What Update stores, Query returns; other keys keep what they had. *)
Lemma db_update_query service key value key' rsp :
  QValue (Query (Update service {| UKey := key; UValue := value |}).1 {| QKey := key' |} rsp).1 =
  if decide (key' = key) then value else QValue (Query service {| QKey := key' |} rsp).1.
Proof.
  unfold Query. cbn. case_decide as E; [subst; by rewrite lookup_insert_eq|by rewrite lookup_insert_ne].
Qed.

(** After these requests the query service is told the last of the numbers. *)
Lemma run_updates_query service rounds rsp : Z.of_nat rounds < 2 ^ 63 ->
  QValue (Query (updated service (run_updates 0 (S rounds))) {| QKey := "a" |} rsp).1 = Itoa (Z.of_nat rounds).
Proof.
  intros Hr. assert (G : forall k i service, 0 <= i -> i + Z.of_nat k < 2 ^ 63 ->
    QValue (Query (updated service (run_updates i (S k))) {| QKey := "a" |} rsp).1 = Itoa (i + Z.of_nat k)); [|apply (G rounds 0); lia].
  clear. induction k as [|k IH]; intros i service Hi Hk.
  - change (updated service (run_updates i 1)) with (Update service {| UKey := "a"; UValue := Itoa i |}).1. rewrite db_update_query, decide_True by done. f_equal. lia.
  - change (updated service (run_updates i (S (S k)))) with (updated (Update service {| UKey := "a"; UValue := Itoa i |}).1 (run_updates (i64 (i + 1)) (S k))).
    rewrite wraps_small by (unfold in_s; lia). rewrite IH by lia. f_equal. lia.
Qed.
End Examples.
